(* ===== verification/_CoqProject ===== *)
-Q . S2P
Prelude.v
CString.v
Dll.v
TimerQueue.v
ListTimer.v
WheelTimer.v
HeapTimer.v
InactiveLink.v
IdleServer.v
HttpConn.v
HttpParse.v
HttpServe.v
HttpStream.v
HttpExamples.v
HttpDemo.v
Rio.v
TinyWeb.v
EchoServers.v
ProcessPool.v
PoolLife.v
CgiConn.v
CgiServer.v
PoolAccept.v
PoolShutdown.v
ShmChat.v
ChatServer.v
EpollModes.v
OneShot.v
UnifiedEvents.v
MergeSort.v
Connect.v
Locker.v
ThreadPool.v
PoolMain.v
WebServer.v
PoolThreads.v
CloseRace.v
Explore.v
Threads.v
ThreadDemos.v
Signals.v
TcpUdp.v
RawEcho.v
EchoPrograms.v
Splice.v
StressTest.v
Oob.v
Kernel.v
Startup.v
PoolStartup.v
Sockets.v
Descriptors.v
WaitStatus.v
Processes.v
Files.v
Demos.v
Ipc.v
Sync.v
Mains.v
