(* ===== verification/Prelude.v ===== *)
(** * UnixProgramming: verification development (root file)

    The repository is a collection of Unix programs in C and C++: a web server on a
    thread pool, a CGI server on a process pool, three timer containers, the robust
    I/O package of CS:APP with servers on top of it, chat servers, and many short
    programs that show one system interface each.  This library models them,
    proves what they do, and exhibits where they do not do what they mean to.

    ** How the code is modelled

    C functions become functions on explicit state.  What the language leaves
    undefined, a failed [assert] and a C++ exception are values of the error
    monad [res] below; an array access, a [memcpy] or a dereference is an
    operation of this file that checks its bounds or its pointer.  [int] values
    are integers with their range, and the operations that can leave it are
    [int_op]; objects that are linked or shared live in a heap [gmap loc].  A
    pointer into an array is an offset.  Results of system calls are arguments
    of the definitions: lists of answers, one per call, or functions; what a
    program asks of the kernel is a list of calls.  Where a property depends on
    what the kernel does with the calls (epoll's edge-triggered and one-shot
    registrations, pipes, semaphores, signal masks), the state of the kernel is
    part of the model, as documented.

    A loop whose recursion is not structural takes fuel, or the list of
    answers that drives it.  Every definition that passes fuel on computes it
    from its input, and the theorem about it shows that the fuel is enough: the
    size of the heap for walks along timer lists, the bytes between the two
    indices of the read buffer for the HTTP parser
    ([HttpParse.process_read_terminates]), the bytes to come and the
    interruptions for the read loops, what the socket holds and three more for
    the edge-triggered loops.  [OutOfFuel] for a list of answers that is too
    short only says that the run has not ended yet.

    Concurrency is an interleaving of small steps: a step relation with
    invariants proved by rule induction where the number of threads, requests or
    processes is not bounded ([ThreadPool], [PoolMain], [OneShot], [EchoPrograms]),
    and an exhaustive exploration, proved complete, where the program itself is
    finite ([Explore], with its clients).

    ** The files, the code they model, and what their theorems show

    - [Prelude] (this file): faults, the error monad, arrays, heaps, lemmas and
      tactics.  [CString]: the string functions of the C library on buffers.
    - Timers (socket/timer).  [Dll]: doubly linked lists in a heap, the segment
      predicate.  [TimerQueue]: the class that says what a server may expect of a
      timer container.  [ListTimer] (sigalrm_list_timer.h): every operation of the
      ascending list refines insertion and removal on a sorted list, and the
      list implements [TimerQueue].  [WheelTimer] (time_wheel_timer.h): the wheel
      refines a table of delays; when a timer fires.  [HeapTimer]
      (time_heap_timer.h): what the heap establishes and where it goes wrong.
      [InactiveLink], [IdleServer] (handling_inactive_link.cpp): the event loop,
      proved against the class, and the instance on the list; it faults exactly when
      [accept] fails or gives a descriptor beyond the array.
    - The web server (socket/pool, socket/thread).  [HttpConn] (http_conn.h,
      http_conn.cpp): the state and every function.  [HttpParse]: parsing
      terminates, is memory safe, does not depend on how the request arrives,
      and answers an acceptable request.  [HttpServe]: receiving, building and
      sending the answer; a file is served byte for byte.  [HttpStream]: requests
      that arrive in pieces: a worker's passes over them add up.  [HttpExamples]:
      these theorems on concrete requests.  [Locker] (locker.h), [ThreadPool]
      (threadpool.h): no request is lost or handled twice, the queue drains.
      [PoolMain] (main.cpp): the main thread and the workers never touch an open
      connection at the same time; a worker's [close_conn] is interleaved statement by
      statement.  [WebServer]: the parts together: a client's whole conversation, in any
      interleaving with the other connections.  [PoolThreads]: the threads inside the
      pool, statement by statement, refine [PoolMain], faults included.  These three
      assume two things that the program does not ensure: [accept] does not return a
      descriptor that a worker has closed and whose [close_conn] it has not finished,
      and [m_user_count] loses no update.  [CloseRace]: what happens without the first.
      [HttpDemo] (socket/http): the one-file
      sender and the first draft of the parser, compared with the final one.
    - The CGI server (socket/pool).  [ProcessPool] (processpool.h): the parent's
      and the children's loops, round robin, SIGCHLD, generic in the class that
      handles a connection.  [PoolLife]: the parent's loop from the first child to
      the end of the last.  [CgiConn] (cgi_server.cpp): that class.  [CgiServer]: the
      children's loop with that class refines a table of unfinished lines; a client's
      session over any number of [epoll_wait]s, unless a signal ends the loop.
      [PoolAccept]: connections from the listening socket to a child, from the calls that
      the handlers make, and which of them stay behind.  [PoolShutdown]: the parent against its children after
      SIGTERM.  [PoolStartup]: what each process has open when its loop begins, and
      that it aborts if a call fails, on the kernel of [Kernel].
    - CS:APP (socket/csapp).  [Rio] (rio.c): buffered reading refines reading a list
      of bytes.  [TinyWeb] (tiny_web.c, socket_package.c, cgi_adder.c): a request
      from its bytes to the answer.  [EchoServers] (echoserver.c,
      echoserver_select_event.c) and [EchoPrograms] (echoserver_thread.c,
      echoserver_process.c, echoserver_select.c, echoclient.c).  [RawEcho]
      (socket/echo, apue/rw.c, apue/ipc/test_pipe.c): copying with plain reads.
    - Chat (socket/ipc/shm.c, socket/io_multiplexing).  [ShmChat]: the server with a
      process per client and shared memory, and when an event makes it fault or abort.  [ChatServer]: the server with poll.
      [Splice]: the client, with the zero-copy programs (socket/zero_copy).
    - Event loops (socket/io_multiplexing, socket/signal).  [EpollModes] (io_epoll.c):
      level and edge triggering agree.  [OneShot] (io_epoll2.c): one thread per
      connection at a time, and when a connection is left with none for good.
      [TcpUdp] (io_tcp_udp.c): what comes is sent back, but for what a send does not take.
      [UnifiedEvents] (unified_event_handle.c): signals as events.
      [StressTest] (test/stress_test.c): the load generator's protocol on every
      connection.  [Oob] (rw_flag_oob, io_select.c, sigurg_oob.c): urgent data, what is
      delivered and what is lost while a SIGURG is pending.
    - Small programs.  [MergeSort] (apue/pthread_barrier.c): the result is sorted in
      whatever order the threads run.  [Connect] (connect_retry.h,
      io_nonblock_connect.c, socket_connect_timeout.c, change_user.h).  [Threads],
      [ThreadDemos]: a machine for programs with locks, semaphores and conditions,
      and on it dead_lock.c, fork_thread.c, sem.c, test_sem*.c, pthread_sig.c and
      the class [cond]: all the ways their runs end.  [Signals]: masks, handlers
      and jumps: sigsuspend.c, sigpending.c, sigsetjmp.c, signal.c,
      listen_backlog.c.
      [Kernel] is a language of programs that make system calls,
      with a model of the descriptor table and a predicate transformer; [Startup]
      (shm.c, handling_inactive_link.cpp, io_epoll2.c, io_chatroom_server.c) is what
      four servers do before and after their loops, [Sockets] the short socket programs
      from their arguments to their end, and [Descriptors] daemonize.h,
      CGI/cgi.c and the passing of descriptors (socketpair.c).
      [Sync] (the class cond, pthread_mutex.c, thread_signal.c): the life of a condition
      variable, a lock that times out, signals taken by one thread.
      [WaitStatus] (system.c, wait.c, nice.c), [Processes] (fork.c, vfork.c, atexit.c,
      longjmp.c, pthread_cleanup.c and others), [Files] (mmap.c, lseek_hole.c,
      fcntl.c, stat.c, stdio.c, fmemopen.c, mkstemp.c) and [Ipc] (message queues,
      shared memory, Unix sockets, a FIFO) are the short programs of apue.  [Demos]
      (times.c, nice.c, pthread.c, strftime.c, tmpfile.c, readdir.c, hostinfo.c and
      others) print what a library returns, and [Mains] has the mains of programs
      whose parts are in the files before.

    ** Correspondence

    A record has the fields of the struct or the locals of the function it
    stands for, a constructor the name of the enumerator; a function keeps its
    name.  The body of a loop that is long is a definition of its own, and
    [main] is the set-up, where it is modelled, and the loop.  Examples end most
    files: the hypotheses of each theorem hold on a concrete input.

    ** Not modelled

    Addresses and their conversion, [printf] to a terminal (but for programs whose
    output is the point), the content of the file system beyond what [stat],
    [open] and [mmap] answer, and the time a call takes.  [Rio]'s line reader counts
    with a natural number where rio.c:84 has an [int], so lines of 2^31 bytes and more
    are outside that model.  Of a server's [main],
    the socket set-up before the loop is modelled only where the definitions say
    so. *)

From Stdlib Require Export ZArith Lia Ascii String.
From stdpp Require Export prelude gmap list strings sorting relations.

#[export] Set Default Goal Selector "!".
#[global] Open Scope Z_scope.

(** ** Faults and results

    A C/C++ operation either returns or performs something the language leaves
    undefined (or aborts).  The model makes every such event a value. *)

Inductive fault :=
  | NullDeref      (** a null pointer was dereferenced *)
  | UseAfterFree   (** a pointer to no live object was dereferenced *)
  | OutOfBounds    (** an array was accessed outside its bounds *)
  | NullCall       (** a null function pointer was called *)
  | Uninit         (** an object was read before it was given a value *)
  | AssertFail     (** an [assert] failed *)
  | Thrown         (** [throw std::exception()] *)
  | IntOverflow    (** an [int] operation left the range of [int] *)
  | OutOfFuel.     (** the model's loop bound was exhausted *)

Inductive res (A : Type) :=
  | Ok (a : A)
  | Err (f : fault).
Arguments Ok {A} a.
Arguments Err {A} f.

#[export] Instance fault_eq_dec : EqDecision fault.
Proof. solve_decision. Defined.

#[export] Instance res_eq_dec `{EqDecision A} : EqDecision (res A).
Proof. solve_decision. Defined.

#[export] Instance res_ret : MRet res := fun A x => Ok x.
#[export] Instance res_bind : MBind res := fun A B k m =>
  match m with Ok x => k x | Err f => Err f end.
#[export] Instance res_fmap : FMap res := fun A B f m =>
  match m with Ok x => Ok (f x) | Err e => Err e end.

Definition is_ok {A} (m : res A) : bool :=
  match m with Ok _ => true | Err _ => false end.

(** [from_opt f o]: the value of [o], or the fault [f]. *)
Definition from_opt {A} (f : fault) (o : option A) : res A :=
  match o with Some x => Ok x | None => Err f end.

(** [assert(P)] *)
Definition assert_that (P : Prop) `{Decision P} : res unit :=
  if decide P then Ok tt else Err AssertFail.

(** ** Machine integers: [int] has 32 bits *)

Definition INT_MAX : Z := 2147483647.
Definition INT_MIN : Z := -2147483648.
Definition int_range (z : Z) : Prop := INT_MIN <= z <= INT_MAX.

(** ** Pointers and the object heap *)

Abbreviation loc := positive.
Abbreviation ptr := (option loc).

(** [deref h p]: the object [p] points to. *)
Definition deref {A} (h : gmap loc A) (p : ptr) : res (loc * A) :=
  match p with
  | None => Err NullDeref
  | Some l => match h !! l with
              | None => Err UseAfterFree
              | Some x => Ok (l, x)
              end
  end.

(** ** Arrays: accesses with their bounds check *)

Definition aget {A} (a : list A) (i : Z) : res A :=
  if decide (0 <= i) then from_opt OutOfBounds (a !! Z.to_nat i) else Err OutOfBounds.

Definition aset {A} (a : list A) (i : Z) (x : A) : res (list A) :=
  if decide (0 <= i < Z.of_nat (length a)) then Ok (<[Z.to_nat i := x]> a)
  else Err OutOfBounds.

(** [awrite a i s]: [memcpy(a + i, s, |s|)] *)
Definition awrite {A} (a : list A) (i : Z) (s : list A) : res (list A) :=
  if decide (0 <= i /\ i + Z.of_nat (length s) <= Z.of_nat (length a)) then
    Ok (take (Z.to_nat i) a ++ s ++ drop (Z.to_nat i + length s) a)
  else Err OutOfBounds.

(** [int_op z]: the result of an [int] operation whose exact value is [z]. *)
Definition int_op (z : Z) : res Z :=
  if decide (INT_MIN <= z <= INT_MAX) then Ok z else Err IntOverflow.

(** The conversion of a wider integer to [int]. *)
Definition to_int (z : Z) : Z := (z + 2147483648) mod 4294967296 - 2147483648.

(** ** Lemmas: sums *)

Lemma sum_list_insert (l : list nat) i a b :
  l !! i = Some a -> (sum_list (<[i := b]> l) + a = sum_list l + b)%nat.
Proof.
  revert i. induction l as [|x l IH]; intros [|i]; [done|done| |].
  - intros [= ->]. change (b + sum_list l + a = a + sum_list l + b)%nat. lia.
  - intros Hi. specialize (IH i Hi).
    change (x + sum_list (<[i := b]> l) + a = x + sum_list l + b)%nat. lia.
Qed.

(** ** Lemmas: results *)

Lemma bind_ok {A B} (m : res A) (k : A -> res B) x :
  m = Ok x -> (m ≫= k) = k x.
Proof. by intros ->. Qed.

Lemma bind_ok_inv {A B} (m : res A) (k : A -> res B) y :
  (m ≫= k) = Ok y -> exists x, m = Ok x /\ k x = Ok y.
Proof. destruct m; cbn; [eauto | discriminate]. Qed.

Lemma bind_assoc {A B C} (m : res A) (k : A -> res B) (j : B -> res C) :
  (m ≫= k) ≫= j = m ≫= (fun x => k x ≫= j).
Proof. by destruct m. Qed.

Lemma assert_that_ok (P : Prop) `{Decision P} : P -> assert_that P = Ok tt.
Proof. intros. unfold assert_that. by rewrite decide_True. Qed.

Lemma assert_that_cases {B} (P : Prop) `{Decision P} (k : unit -> res B) :
  (assert_that P ≫= k) = Err AssertFail \/ (P /\ (assert_that P ≫= k) = k tt).
Proof. unfold assert_that. destruct (decide P); [by right|by left]. Qed.

Lemma assert_that_inv (P : Prop) `{Decision P} u : assert_that P = Ok u -> P.
Proof. unfold assert_that. by destruct (decide P). Qed.

Lemma deref_Some {A} (h : gmap loc A) l x :
  h !! l = Some x -> deref h (Some l) = Ok (l, x).
Proof. intros H. cbn. by rewrite H. Qed.

Lemma deref_ok_inv {A} (h : gmap loc A) p l x :
  deref h p = Ok (l, x) -> p = Some l /\ h !! l = Some x.
Proof.
  destruct p as [l'|]; cbn; [|discriminate].
  destruct (h !! l') eqn:E; [|discriminate]. intros [= -> ->]. done.
Qed.

Lemma aget_ok {A} (a : list A) (i : Z) x :
  0 <= i -> a !! Z.to_nat i = Some x -> aget a i = Ok x.
Proof. intros Hi H. unfold aget. rewrite decide_True by done. by rewrite H. Qed.

Lemma aget_ok_inv {A} (a : list A) (i : Z) x :
  aget a i = Ok x -> 0 <= i < Z.of_nat (length a) /\ a !! Z.to_nat i = Some x.
Proof.
  unfold aget. case_decide; [|discriminate].
  destruct (a !! Z.to_nat i) eqn:E; cbn; [|discriminate].
  intros [= ->]. apply lookup_lt_Some in E as ?. split; [lia|done].
Qed.

Lemma aget_lt {A} (a : list A) (i : Z) :
  0 <= i < Z.of_nat (length a) -> exists x, aget a i = Ok x /\ a !! Z.to_nat i = Some x.
Proof.
  intros Hi. destruct (lookup_lt_is_Some_2 a (Z.to_nat i)) as [x Hx]; [lia|].
  exists x. split; [apply aget_ok; [lia|done]|done].
Qed.

Lemma aget_oob {A} (a : list A) (i : Z) :
  i < 0 \/ Z.of_nat (length a) <= i -> aget a i = Err OutOfBounds.
Proof.
  intros Hi. unfold aget. case_decide; [|done].
  rewrite lookup_ge_None_2 by lia. done.
Qed.

Lemma aset_ok {A} (a : list A) (i : Z) x :
  0 <= i < Z.of_nat (length a) -> aset a i x = Ok (<[Z.to_nat i := x]> a).
Proof. intros. unfold aset. by rewrite decide_True by done. Qed.

Lemma aset_ok_inv {A} (a a' : list A) (i : Z) x :
  aset a i x = Ok a' ->
  0 <= i < Z.of_nat (length a) /\ a' = <[Z.to_nat i := x]> a.
Proof. unfold aset. case_decide; [|discriminate]. by intros [= <-]. Qed.

Lemma aset_oob {A} (a : list A) (i : Z) x :
  i < 0 \/ Z.of_nat (length a) <= i -> aset a i x = Err OutOfBounds.
Proof. intros. unfold aset. by rewrite decide_False by lia. Qed.

Lemma aset_length {A} (a a' : list A) (i : Z) x :
  aset a i x = Ok a' -> length a' = length a.
Proof. intros [_ ->]%aset_ok_inv. apply length_insert. Qed.

Lemma aget_at {A} (l r : list A) x i :
  i = Z.of_nat (length l) -> aget (l ++ x :: r) i = Ok x.
Proof. intros ->. apply aget_ok; [lia|]. by rewrite Nat2Z.id, list_lookup_middle. Qed.

Lemma aset_at {A} (l r : list A) x y i :
  i = Z.of_nat (length l) -> aset (l ++ x :: r) i y = Ok (l ++ y :: r).
Proof.
  intros ->. rewrite aset_ok by (rewrite length_app; cbn; lia).
  by rewrite Nat2Z.id, insert_app_r_alt, Nat.sub_diag by lia.
Qed.

Lemma awrite_at {A} (l m r s : list A) i :
  i = Z.of_nat (length l) -> length m = length s ->
  awrite (l ++ m ++ r) i s = Ok (l ++ s ++ r).
Proof.
  intros -> Hlen. unfold awrite. rewrite decide_True by (rewrite !length_app; lia).
  rewrite Nat2Z.id, take_app_length, <- Hlen, drop_app, drop_ge by lia.
  rewrite Nat.add_comm, Nat.add_sub, drop_app_length. done.
Qed.

Lemma awrite_ok {A} (a : list A) i s :
  0 <= i -> i + Z.of_nat (length s) <= Z.of_nat (length a) ->
  awrite a i s = Ok (take (Z.to_nat i) a ++ s ++ drop (Z.to_nat i + length s) a).
Proof. intros. unfold awrite. by rewrite decide_True by lia. Qed.

Lemma awrite_front {A} (a s : list A) :
  (length s <= length a)%nat -> awrite a 0 s = Ok (s ++ drop (length s) a).
Proof. intros H. rewrite awrite_ok by lia. cbn [Z.to_nat take app]. by rewrite Nat.add_0_l. Qed.

Lemma awrite_ok_inv {A} (a a' : list A) i s :
  awrite a i s = Ok a' ->
  0 <= i /\ i + Z.of_nat (length s) <= Z.of_nat (length a) /\
  a' = take (Z.to_nat i) a ++ s ++ drop (Z.to_nat i + length s) a.
Proof. unfold awrite. case_decide as H; [|discriminate]. intros [= <-]. by destruct H. Qed.

Lemma awrite_length {A} (a a' : list A) i s : awrite a i s = Ok a' -> length a' = length a.
Proof.
  intros (Hi & Hle & ->)%awrite_ok_inv.
  rewrite !length_app, length_take, length_drop. lia.
Qed.

Lemma int_op_ok z : int_range z -> int_op z = Ok z.
Proof. intros. unfold int_op. by rewrite decide_True by done. Qed.

Lemma to_int_id z : int_range z -> to_int z = z.
Proof. unfold int_range, INT_MIN, INT_MAX, to_int. intros. rewrite Z.mod_small by lia. lia. Qed.

Lemma to_int_range z : int_range (to_int z).
Proof.
  unfold int_range, INT_MIN, INT_MAX, to_int.
  pose proof (Z.mod_pos_bound (z + 2147483648) 4294967296). lia.
Qed.

(** ** Lemmas: lists *)

Lemma filter_Forall_all {A} (P : A -> Prop) `{!forall x, Decision (P x)} (l : list A) :
  Forall P l -> filter P l = l.
Proof.
  induction 1 as [|x l Hx _ IH]; [done|]. rewrite filter_cons, decide_True by done. by f_equal.
Qed.

Lemma filter_Forall_none {A} (P : A -> Prop) `{!forall x, Decision (P x)} (l : list A) :
  Forall (fun x => ~ P x) l -> filter P l = [].
Proof.
  induction 1 as [|x l Hx _ IH]; [done|]. by rewrite filter_cons, decide_False by done.
Qed.

Lemma filter_cons_split {A} (P : A -> Prop) `{!forall x, Decision (P x)} (l : list A) x r :
  filter P l = x :: r ->
  exists k, l !! k = Some x /\ P x /\ filter P (take k l) = [] /\ filter P (drop (S k) l) = r.
Proof.
  induction l as [|y l IH]; [done|]. rewrite filter_cons. destruct (decide (P y)) as [Hy|Hy].
  - intros [= -> <-]. by exists 0%nat.
  - intros (k & H1 & H2 & H3 & H4)%IH. exists (S k). split_and!; [done..| |done].
    cbn [take]. by rewrite filter_cons, decide_False.
Qed.

Lemma omap_fmap {A B C} (f : A -> B) (g : B -> option C) (l : list A) :
  omap g (f <$> l) = omap (g ∘ f) l.
Proof.
  induction l as [|x l IH]; [done|]. cbn. destruct (g (f x)); [f_equal|]; exact IH.
Qed.

(** ** Invariants of a transition relation *)

Lemma rtc_invariant {S} (step : S -> S -> Prop) (I : S -> Prop) x y :
  (forall a b, I a -> step a b -> I b) -> I x -> rtc step x y -> I y.
Proof. intros Hstep Hx Hr. induction Hr; eauto. Qed.

(** ** Automation *)

Create HintDb verif discriminated.
#[export] Hint Resolve deref_Some aget_ok aset_ok : verif.

(** [decided]: a decidable proposition on closed terms, by evaluation. *)
Ltac decided := apply (bool_decide_unpack _); vm_compute; exact I.

(** [res_inv]: open every hypothesis that says a bound computation returned. *)
Ltac res_inv :=
  repeat match goal with
  | H : (_ ≫= _) = Ok _ |- _ =>
      apply bind_ok_inv in H; destruct H as (? & ? & H)
  | H : aget _ _ = Ok _ |- _ => apply aget_ok_inv in H; destruct H
  | H : aset _ _ _ = Ok _ |- _ => apply aset_ok_inv in H; destruct H
  | H : deref _ _ = Ok (_, _) |- _ => apply deref_ok_inv in H; destruct H
  | H : Ok _ = Ok _ |- _ => injection H as H
  | H : Err _ = Ok _ |- _ => discriminate H
  | H : mret _ = Ok _ |- _ => unfold mret, res_ret in H
  end.

(** [assert_step]: the first assertion of a program, in a goal that allows it to
    fail on its left side. *)
Ltac assert_step :=
  match goal with
  | |- context [assert_that ?P ≫= ?k] =>
      destruct (assert_that_cases P k) as [->|[? ->]]; [by left|]
  end.

(** [res_step]: run one bind whose first part is known to return. *)
Ltac res_step := erewrite bind_ok; [|solve [eauto with verif]]; cbv beta.

Ltac split_ands := repeat match goal with |- _ /\ _ => split end.
