(* ===== verification/CString.v ===== *)
(** * C strings in character buffers

    The functions of <string.h>, <strings.h> and <stdlib.h> that the HTTP code
    uses.  A string is read out of a buffer at an offset, up to its NUL; a read
    that finds no NUL before the end of the buffer is out of bounds. *)

From stdpp Require Export pretty.
From S2P Require Import Prelude.

#[global] Open Scope Z_scope.

Abbreviation bytes := (list ascii).
Abbreviation lit s := (list_ascii_of_string s).

Definition NUL : ascii := "000".
Definition TAB : ascii := "009".
Definition LF : ascii := "010".
Definition CR : ascii := "013".
Definition SP : ascii := " ".
Definition CRLF : bytes := [CR; LF].

#[export] Instance ascii_eqdec : EqDecision ascii := ascii_dec.

(** ** Strings in buffers *)

(** The characters before the first NUL; [None] if there is none. *)
Fixpoint upto_nul (l : bytes) : option bytes :=
  match l with
  | [] => None
  | c :: l => if decide (c = NUL) then Some [] else cons c <$> upto_nul l
  end.

(** The string at offset [p] of [b]. *)
Definition cstr (b : bytes) (p : Z) : res bytes :=
  if decide (0 <= p) then from_opt OutOfBounds (upto_nul (drop (Z.to_nat p) b))
  else Err OutOfBounds.

(** [strncpy]: what it writes for the source string [s]: at most [n] characters,
    filled up with NULs to [n]. *)
Definition strncpy (s : bytes) (n : nat) : bytes := take n s ++ replicate (n - length s) NUL.

(** ** Searching *)

(** [strpbrk]: the index of the first character in [accept]. *)
Fixpoint strpbrk (s accept : bytes) : option nat :=
  match s with
  | [] => None
  | c :: s => if decide (c ∈ accept) then Some 0%nat else S <$> strpbrk s accept
  end.

(** [strspn]: the length of the longest prefix of characters in [accept]. *)
Fixpoint strspn (s accept : bytes) : nat :=
  match s with
  | [] => 0
  | c :: s => if decide (c ∈ accept) then S (strspn s accept) else 0
  end.

(** [strchr], [index]: the index of the first [c]. *)
Definition strchr (s : bytes) (c : ascii) : option nat := strpbrk s [c].

(** [strstr]: does [pat] occur in [s]? *)
Fixpoint prefix_of_b (pat s : bytes) : bool :=
  match pat, s with
  | [], _ => true
  | _, [] => false
  | a :: pat, c :: s => bool_decide (a = c) && prefix_of_b pat s
  end.
Fixpoint strstr (s pat : bytes) : bool :=
  prefix_of_b pat s || match s with [] => false | _ :: s => strstr s pat end.

(** ** Comparing *)

Definition tolower (c : ascii) : ascii :=
  let n := nat_of_ascii c in
  if (65 <=? n)%nat && (n <=? 90)%nat then ascii_of_nat (n + 32) else c.

(** [strcasecmp(s, t) == 0], [strncasecmp(s, t, n) == 0], [strcmp(s, t) == 0] *)
Definition strcaseeq (s t : bytes) : bool := bool_decide (tolower <$> s = tolower <$> t).
Definition strncaseeq (s t : bytes) (n : nat) : bool :=
  bool_decide (take n (tolower <$> s) = take n (tolower <$> t)).
Definition streq (s t : bytes) : bool := bool_decide (s = t).

(** ** Numbers *)

Definition isspace (c : ascii) : bool :=
  let n := nat_of_ascii c in (n =? 32)%nat || ((9 <=? n)%nat && (n <=? 13)%nat).
Definition digit (c : ascii) : option Z :=
  let n := nat_of_ascii c in
  if (48 <=? n)%nat && (n <=? 57)%nat then Some (Z.of_nat n - 48) else None.

Fixpoint drop_while (f : ascii -> bool) (s : bytes) : bytes :=
  match s with
  | [] => []
  | c :: s' => if f c then drop_while f s' else s
  end.
Fixpoint digits (acc : Z) (s : bytes) : Z :=
  match s with
  | [] => acc
  | c :: s => match digit c with Some d => digits (10 * acc + d) s | None => acc end
  end.

Definition LONG_MAX : Z := 9223372036854775807.
Definition LONG_MIN : Z := -9223372036854775808.

(** [atoi(s)] is [(int) strtol(s, NULL, 10)]: white space, an optional sign,
    digits, saturation to [long], conversion to [int]. *)
Definition strtol (s : bytes) : Z :=
  match drop_while isspace s with
  | [] => 0
  | c :: s =>
      let v := if decide (c = "-"%char) then - digits 0 s
               else if decide (c = "+"%char) then digits 0 s else digits 0 (c :: s) in
      Z.max LONG_MIN (Z.min LONG_MAX v)
  end.
Definition atoi (s : bytes) : Z := to_int (strtol s).

(** ["%d"] *)
Definition dec (z : Z) : bytes := lit (pretty z).

(** ** Receiving

    The results of a [recv] on a non-blocking socket: data (none at the peer's
    close or when nothing was asked for), "no data now", an error. *)
Inductive recv_t := Received (data : bytes) | Again | RecvError.

(** ** Lemmas: strings in buffers *)

Lemma upto_nul_no_nul l s : upto_nul l = Some s -> NUL ∉ s.
Proof.
  revert s; induction l as [|c l IH]; intros s; cbn; [done|].
  case_decide; [intros [= <-]; set_solver|].
  destruct (upto_nul l) as [s'|]; cbn; [|done]. intros [= <-].
  specialize (IH s' eq_refl). set_solver.
Qed.

Lemma upto_nul_app s l : NUL ∉ s -> upto_nul (s ++ NUL :: l) = Some s.
Proof.
  induction s as [|c s IH]; cbn; intros Hs; [done|].
  rewrite decide_False by set_solver. by rewrite IH by set_solver.
Qed.

Lemma upto_nul_split l s : upto_nul l = Some s <-> NUL ∉ s /\ exists l', l = s ++ NUL :: l'.
Proof.
  split.
  - intros H. split; [by eapply upto_nul_no_nul|].
    revert s H; induction l as [|c l IH]; intros s; cbn; [done|].
    case_decide; [intros [= <-]; subst; by exists l|].
    destruct (upto_nul l) as [s'|]; cbn; [|done]. intros [= <-].
    destruct (IH s' eq_refl) as (l' & ->). by exists l'.
  - intros (Hs & l' & ->). by apply upto_nul_app.
Qed.

(** The string at [p] in terms of the buffer's layout. *)
Lemma cstr_split b p s :
  cstr b p = Ok s <->
  NUL ∉ s /\ exists pre post, b = pre ++ s ++ NUL :: post /\ p = Z.of_nat (length pre).
Proof.
  unfold cstr. split.
  - case_decide as Hp; [|done]. destruct (upto_nul _) as [s'|] eqn:E; cbn; [|done].
    intros [= <-]. apply upto_nul_split in E as (Hs & l' & E). split; [done|].
    exists (take (Z.to_nat p) b), l'. split; [by rewrite <- E, take_drop|].
    rewrite length_take, Nat.min_l; [lia|].
    assert (length (drop (Z.to_nat p) b) > 0)%nat as Hlen
      by (rewrite E, length_app; cbn; lia).
    rewrite length_drop in Hlen. lia.
  - intros (Hs & pre & post & -> & ->). rewrite decide_True by lia.
    rewrite Nat2Z.id, drop_app_length. by rewrite upto_nul_app.
Qed.

Lemma strpbrk_Some s acc i :
  strpbrk s acc = Some i <->
  exists pre c post, s = pre ++ c :: post /\ i = length pre /\ c ∈ acc /\ Forall (fun x => x ∉ acc) pre.
Proof.
  split.
  - revert i; induction s as [|c s IH]; intros i; cbn; [done|]. case_decide.
    + intros [= <-]. by exists [], c, s.
    + destruct (strpbrk s acc) as [j|]; cbn; [|done]. intros [= <-].
      destruct (IH j eq_refl) as (pre & d & post & -> & -> & ? & ?).
      exists (c :: pre), d, post. split_ands; [done..|by constructor].
  - intros (pre & c & post & -> & -> & Hc & Hpre). induction Hpre as [|x pre Hx _ IH]; cbn.
    + by rewrite decide_True.
    + by rewrite decide_False, IH.
Qed.

Lemma strpbrk_None s acc : strpbrk s acc = None <-> Forall (fun x => x ∉ acc) s.
Proof.
  induction s as [|c s IH]; cbn; [by split; [constructor|]|].
  rewrite Forall_cons. case_decide; [naive_solver|].
  destruct (strpbrk s acc); cbn; naive_solver.
Qed.

Lemma strspn_split s acc :
  Forall (fun x => x ∈ acc) (take (strspn s acc) s) /\ (strspn s acc <= length s)%nat /\
  (forall c, s !! strspn s acc = Some c -> c ∉ acc).
Proof.
  induction s as [|c s IH]; cbn; [by split_ands; [constructor|lia|]|].
  case_decide; cbn.
  - destruct IH as (? & ? & ?). split_ands; [by constructor|lia|done].
  - split_ands; [constructor|lia|]. by intros ? [= <-].
Qed.

(** Forms for running code on a buffer whose layout is known. *)
Lemma cstr_at b p pre s post :
  b = pre ++ s ++ NUL :: post -> p = Z.of_nat (length pre) -> NUL ∉ s -> cstr b p = Ok s.
Proof. intros -> -> Hs. apply cstr_split. split; [done|]. by exists pre, post. Qed.

Lemma cstr_front (d r : bytes) : NUL ∉ d -> cstr (d ++ NUL :: r) 0 = Ok d.
Proof. intros Hd. by apply (cstr_at _ _ [] d r). Qed.

Lemma strpbrk_app s t acc :
  strpbrk (s ++ t) acc =
  match strpbrk s acc with Some i => Some i | None => (Nat.add (length s)) <$> strpbrk t acc end.
Proof.
  induction s as [|c s IH]; cbn; [by destruct (strpbrk t acc)|].
  case_decide; [done|]. rewrite IH. destruct (strpbrk s acc); cbn; [done|].
  by destruct (strpbrk t acc).
Qed.

Lemma strpbrk_at pre c post acc :
  c ∈ acc -> Forall (fun x => x ∉ acc) pre -> strpbrk (pre ++ c :: post) acc = Some (length pre).
Proof. intros Hc Hpre. apply strpbrk_Some. by exists pre, c, post. Qed.

Lemma strspn_at ws s acc :
  Forall (fun x => x ∈ acc) ws -> (forall c, head s = Some c -> c ∉ acc) ->
  strspn (ws ++ s) acc = length ws.
Proof.
  intros Hws Hs. induction Hws as [|c ws Hc _ IH]; cbn.
  - destruct s as [|c s]; cbn; [done|]. rewrite decide_False; [done|by apply Hs].
  - by rewrite decide_True, IH.
Qed.

(** A string is blanks followed by something that does not start with one. *)
Lemma strspn_decompose s acc :
  exists ws t, s = ws ++ t /\ strspn s acc = length ws /\
    Forall (fun x => x ∈ acc) ws /\ (forall c, head t = Some c -> c ∉ acc).
Proof.
  destruct (strspn_split s acc) as (Hws & Hle & Hhd).
  exists (take (strspn s acc) s), (drop (strspn s acc) s). split_ands.
  - by rewrite take_drop.
  - by rewrite length_take, Nat.min_l.
  - done.
  - intros c Hc. apply Hhd. by rewrite head_lookup, lookup_drop, Nat.add_0_r in Hc.
Qed.

(** ** Decimal numbers *)

Lemma length_lit s : length (lit s) = String.length s.
Proof. induction s as [|c s IH]; cbn; congruence. Qed.

Lemma pretty_N_go_length k x s :
  (x < 10 ^ N.of_nat k)%N -> (String.length (pretty_N_go x s) <= k + String.length s)%nat.
Proof.
  revert x s. induction k as [|k IH]; intros x s Hx.
  - assert (x = 0%N) as -> by (cbn in Hx; lia). rewrite pretty_N_go_0. cbn. lia.
  - destruct (decide (x = 0%N)) as [->|Hne]; [rewrite pretty_N_go_0; lia|].
    rewrite pretty_N_go_step by lia. etrans; [apply IH|cbn; lia].
    rewrite Nat2N.inj_succ, N.pow_succ_r' in Hx. apply N.Div0.div_lt_upper_bound; lia.
Qed.

(** An [int] is printed in at most 11 characters. *)
Lemma dec_length z : int_range z -> (length (dec z) <= 11)%nat.
Proof.
  unfold int_range, INT_MIN, INT_MAX. intros Hz. unfold dec. rewrite length_lit.
  assert (forall n, (n < 10000000000)%N -> (String.length (pretty n) <= 10)%nat) as Hn.
  { intros n Hlt. unfold pretty, pretty_N. case_decide; [cbn; lia|].
    etrans; [apply (pretty_N_go_length 10); exact Hlt|cbn; lia]. }
  destruct z as [|p|p].
  - vm_compute. lia.
  - change (pretty (Z.pos p)) with (pretty (N.pos p)). specialize (Hn (N.pos p)). lia.
  - change (String.length (pretty (Z.neg p))) with (S (String.length (pretty (N.pos p)))).
    specialize (Hn (N.pos p)). lia.
Qed.

(** ** Data taken off in pieces *)

(** [d] in pieces of [n] bytes. *)
Fixpoint pieces (fuel n : nat) (d : bytes) : list bytes :=
  match fuel with
  | O => []
  | S fuel => if decide (d = []) then [] else take n d :: pieces fuel n (drop n d)
  end.
Definition chunks (n : nat) (d : bytes) : list bytes := pieces (length d) n d.

Lemma drop_shorter n (d : bytes) : (0 < n)%nat -> d <> [] -> (length (drop n d) < length d)%nat.
Proof. destruct d; [done|]. rewrite length_drop. cbn. lia. Qed.

Lemma pieces_fuel n f1 : forall f2 d, (0 < n)%nat -> (length d <= f1)%nat -> (length d <= f2)%nat ->
  pieces f1 n d = pieces f2 n d.
Proof.
  induction f1 as [|f1 IH]; intros f2 d Hn H1 H2; destruct d as [|c d]; cbn in H1; try lia;
    destruct f2 as [|f2]; cbn in H2; try lia; try done.
  cbn [pieces]. rewrite !decide_False by done. f_equal.
  pose proof (drop_shorter n (c :: d) Hn ltac:(done)) as Hs. cbn [length] in Hs. apply IH; lia.
Qed.

Lemma chunks_cons n d : (0 < n)%nat -> d <> [] -> chunks n d = take n d :: chunks n (drop n d).
Proof.
  intros Hn Hd. pose proof (drop_shorter n d Hn Hd) as Hs. unfold chunks at 1.
  destruct (length d) as [|f] eqn:E; [lia|]. cbn [pieces]. rewrite decide_False by done. f_equal.
  apply pieces_fuel; lia.
Qed.

(** The pieces are the data. *)
Lemma chunks_concat n d : (0 < n)%nat -> concat (chunks n d) = d.
Proof.
  intros Hn. remember (length d) as m eqn:Em. revert d Em.
  induction m as [m IH] using (well_founded_induction lt_wf). intros d ->.
  destruct d as [|c d]; [done|]. rewrite chunks_cons by done. cbn [concat].
  rewrite (IH (length (drop n (c :: d)))); [apply take_drop|by apply drop_shorter|done].
Qed.

(** Induction over data taken off in pieces. *)
Lemma pieces_ind n (P : bytes -> Prop) :
  (0 < n)%nat -> P [] -> (forall d, d <> [] -> P (drop n d) -> P d) -> forall d, P d.
Proof.
  intros Hn H0 Hs d. remember (length d) as m eqn:Em. revert d Em.
  induction m as [m IH] using (well_founded_induction lt_wf). intros d ->.
  destruct d as [|c d]; [done|]. apply Hs; [done|].
  apply (IH (length (drop n (c :: d)))); [by apply drop_shorter|done].
Qed.
