(* ===== verification/Dll.v ===== *)
(** * Intrusive doubly linked lists

    The [prev]/[next] members that [util_timer] (sigalrm_list_timer.h) and
    [tw_timer] (time_wheel_timer.h) share, over a heap of nodes, the segment
    predicate that says which addresses a list occupies, in which order and
    with which payloads, and the lemmas on linking and unlinking that the two
    timer containers apply. *)

From S2P Require Import Prelude.

(** A heap object: its payload and its two links. *)
Record node (A : Type) := Node { val : A; prev : ptr; next : ptr }.
Arguments Node {A} val prev next.
Arguments val {A} n.
Arguments prev {A} n.
Arguments next {A} n.

Section ops.
Context {A : Type}.
Implicit Types (h : gmap loc (node A)) (p v : ptr).

(** [p->next], [p->prev] *)
Definition get_next h p : res ptr := '(_, n) ← deref h p; mret (next n).
Definition get_prev h p : res ptr := '(_, n) ← deref h p; mret (prev n).
Definition get_val h p : res A := '(_, n) ← deref h p; mret (val n).

(** [p->next = v], [p->prev = v] *)
Definition set_next h p v : res (gmap loc (node A)) :=
  '(l, n) ← deref h p; mret (<[l := Node (val n) (prev n) v]> h).
Definition set_prev h p v : res (gmap loc (node A)) :=
  '(l, n) ← deref h p; mret (<[l := Node (val n) v (next n)]> h).
Definition set_val h p (x : A) : res (gmap loc (node A)) :=
  '(l, n) ← deref h p; mret (<[l := Node x (prev n) (next n)]> h).

(** [delete p] of a non-null pointer *)
Definition free h p : res (gmap loc (node A)) :=
  '(l, _) ← deref h p; mret (delete l h).
End ops.

#[global] Arguments get_next : simpl never.
#[global] Arguments get_prev : simpl never.
#[global] Arguments get_val : simpl never.
#[global] Arguments set_next : simpl never.
#[global] Arguments set_prev : simpl never.
#[global] Arguments set_val : simpl never.
#[global] Arguments free : simpl never.

(** ** The abstract view: a list of addressed payloads *)

Section seg.
Context {A : Type}.
Implicit Types (h : gmap loc (node A)) (xs ys : list (loc * A)).

Definition locs xs : list loc := xs.*1.

(** the first address of [xs], or [d] when it is empty; and the last *)
Definition first_of xs (d : ptr) : ptr :=
  match xs with [] => d | x :: _ => Some x.1 end.
Definition last_of (d : ptr) xs : ptr :=
  match last xs with None => d | Some x => Some x.1 end.

(** [xs] is laid out in [h] between the outer neighbours [pp] and [nx]. *)
Fixpoint dseg h (pp : ptr) xs (nx : ptr) : Prop :=
  match xs with
  | [] => True
  | x :: xs' =>
      h !! x.1 = Some (Node x.2 pp (first_of xs' nx)) /\
      dseg h (Some x.1) xs' nx
  end.

Lemma first_of_app xs ys d : first_of (xs ++ ys) d = first_of xs (first_of ys d).
Proof. by destruct xs. Qed.

Lemma last_of_cons d x xs : last_of d (x :: xs) = last_of (Some x.1) xs.
Proof.
  unfold last_of. rewrite last_cons. by destruct (last xs).
Qed.

Lemma last_of_app d xs ys : last_of d (xs ++ ys) = last_of (last_of d xs) ys.
Proof.
  revert d; induction xs as [|x xs IH]; intros d; [done|].
  cbn [app]. by rewrite !last_of_cons, IH.
Qed.

Lemma last_of_snoc d xs x : last_of d (xs ++ [x]) = Some x.1.
Proof. by rewrite last_of_app. Qed.

Lemma last_of_irrel d d' xs : xs <> [] -> last_of d xs = last_of d' xs.
Proof. unfold last_of. destruct (last xs) eqn:E; [done|]. by apply last_None in E. Qed.

Lemma last_of_in d xs : xs <> [] -> exists z, z ∈ xs /\ last_of d xs = Some z.1.
Proof.
  intros Hne. destruct (exists_last Hne) as (zs & z & ->). exists z.
  rewrite last_of_snoc. split; [set_solver|done].
Qed.

Lemma last_of_ne d xs l : xs <> [] -> l ∉ locs xs -> last_of d xs <> Some l.
Proof.
  intros Hne Hl E. destruct (last_of_in d xs Hne) as (z & Hz & Ez).
  rewrite E in Ez. injection Ez as ->. apply Hl. apply list_elem_of_fmap. eauto.
Qed.

Lemma first_of_is_None xs : first_of xs None = None <-> xs = [].
Proof. by destruct xs. Qed.

Lemma dseg_app h pp xs ys nx :
  dseg h pp (xs ++ ys) nx <->
  dseg h pp xs (first_of ys nx) /\ dseg h (last_of pp xs) ys nx.
Proof.
  revert pp; induction xs as [|x xs IH]; intros pp; cbn [app dseg].
  - by split; [|intros [? ?]].
  - rewrite IH, first_of_app, last_of_cons. tauto.
Qed.

Lemma dseg_lookup h pp xs nx x :
  dseg h pp xs nx -> x ∈ xs -> exists p n, h !! x.1 = Some (Node x.2 p n).
Proof.
  revert pp; induction xs as [|y xs IH]; intros pp; cbn [dseg].
  - intros _ []%not_elem_of_nil.
  - intros [Hy Hs] [->|Hx]%elem_of_cons; [eauto|]. by eapply IH.
Qed.

(** Frame: a heap that agrees on the segment's addresses carries it too. *)
Lemma dseg_frame h h' pp xs nx :
  dseg h pp xs nx -> (forall l, l ∈ locs xs -> h' !! l = h !! l) ->
  dseg h' pp xs nx.
Proof.
  revert pp; induction xs as [|x xs IH]; intros pp; cbn [dseg]; [done|].
  intros [Hx Hs] Hag. split.
  - rewrite Hag; [done|]. apply list_elem_of_here.
  - eapply IH; [done|]. intros l Hl. apply Hag. by apply list_elem_of_further.
Qed.

Lemma dseg_insert_ne h pp xs nx l n :
  dseg h pp xs nx -> l ∉ locs xs -> dseg (<[l := n]> h) pp xs nx.
Proof.
  intros Hs Hl. eapply dseg_frame; [done|]. intros l' Hl'.
  apply lookup_insert_ne. intros ->. done.
Qed.

Lemma dseg_delete_ne h pp xs nx l :
  dseg h pp xs nx -> l ∉ locs xs -> dseg (delete l h) pp xs nx.
Proof.
  intros Hs Hl. eapply dseg_frame; [done|]. intros l' Hl'.
  apply lookup_delete_ne. intros ->. done.
Qed.

Lemma locs_nil : locs [] = [].
Proof. done. Qed.
Lemma locs_cons x xs : locs (x :: xs) = x.1 :: locs xs.
Proof. done. Qed.
Lemma locs_app xs ys : locs (xs ++ ys) = locs xs ++ locs ys.
Proof. apply fmap_app. Qed.

(** *** Relinking the border nodes of a segment *)

(** Setting [next] of the last node changes the right neighbour. *)
Lemma dseg_set_next_last h pp xs x nx nx' :
  NoDup (locs (xs ++ [x])) -> dseg h pp (xs ++ [x]) nx ->
  exists h', set_next h (Some x.1) nx' = Ok h' /\
    dseg h' pp (xs ++ [x]) nx' /\
    (forall l, l <> x.1 -> h' !! l = h !! l).
Proof.
  rewrite locs_app. intros (_ & Hd & _)%NoDup_app [Hs [Hx _]]%dseg_app.
  cbn in Hx. unfold set_next. rewrite (deref_Some _ _ _ Hx).
  eexists; split; [reflexivity|]. cbn. split.
  - apply dseg_app. split.
    + apply dseg_insert_ne; [done|]. intros Hl. eapply Hd; [done|].
      apply list_elem_of_here.
    + cbn. split; [|done]. by rewrite lookup_insert_eq.
  - intros l Hl. by rewrite lookup_insert_ne.
Qed.

(** Setting [prev] of the first node changes the left neighbour. *)
Lemma dseg_set_prev_first h pp pp' x xs nx :
  NoDup (locs (x :: xs)) -> dseg h pp (x :: xs) nx ->
  exists h', set_prev h (Some x.1) pp' = Ok h' /\
    dseg h' pp' (x :: xs) nx /\
    (forall l, l <> x.1 -> h' !! l = h !! l).
Proof.
  intros [Hd _]%NoDup_cons [Hx Hs].
  unfold set_prev. rewrite (deref_Some _ _ _ Hx).
  eexists; split; [reflexivity|]. cbn. split; [split|].
  - by rewrite lookup_insert_eq.
  - by apply dseg_insert_ne.
  - intros l Hl. by rewrite lookup_insert_ne.
Qed.

Lemma set_next_ok h l n v :
  h !! l = Some n ->
  set_next h (Some l) v = Ok (<[l := Node (val n) (prev n) v]> h).
Proof. intros H. unfold set_next. by rewrite (deref_Some _ _ _ H). Qed.
Lemma set_prev_ok h l n v :
  h !! l = Some n ->
  set_prev h (Some l) v = Ok (<[l := Node (val n) v (next n)]> h).
Proof. intros H. unfold set_prev. by rewrite (deref_Some _ _ _ H). Qed.
Lemma set_val_ok h l n x :
  h !! l = Some n ->
  set_val h (Some l) x = Ok (<[l := Node x (prev n) (next n)]> h).
Proof. intros H. unfold set_val. by rewrite (deref_Some _ _ _ H). Qed.
Lemma get_next_ok h l n : h !! l = Some n -> get_next h (Some l) = Ok (next n).
Proof. intros H. unfold get_next. by rewrite (deref_Some _ _ _ H). Qed.
Lemma get_prev_ok h l n : h !! l = Some n -> get_prev h (Some l) = Ok (prev n).
Proof. intros H. unfold get_prev. by rewrite (deref_Some _ _ _ H). Qed.
Lemma get_val_ok h l n : h !! l = Some n -> get_val h (Some l) = Ok (val n).
Proof. intros H. unfold get_val. by rewrite (deref_Some _ _ _ H). Qed.
Lemma free_ok h l n : h !! l = Some n -> free h (Some l) = Ok (delete l h).
Proof. intros H. unfold free. by rewrite (deref_Some _ _ _ H). Qed.
End seg.

#[export] Hint Resolve set_next_ok set_prev_ok set_val_ok get_next_ok
  get_prev_ok get_val_ok free_ok : verif.

(** ** Automation for linked segments *)

(** Turn [NoDup (locs ...)] and [_ ∉ locs ...] hypotheses into disequalities
    and non-memberships. *)
Ltac dll_facts :=
  repeat match goal with
  | H : NoDup (locs _) |- _ => progress rewrite ?locs_app, ?locs_cons, ?locs_nil in H
  | H : _ ∉ locs _ |- _ => progress rewrite ?locs_app, ?locs_cons, ?locs_nil in H
  | H : NoDup (_ ++ _) |- _ =>
      apply NoDup_app in H; destruct H as (? & ? & ?)
  | H : NoDup (_ :: _) |- _ => apply NoDup_cons in H; destruct H
  | H : _ ∉ _ ++ _ |- _ => apply not_elem_of_app in H; destruct H
  | H : _ ∉ _ :: _ |- _ => apply not_elem_of_cons in H; destruct H
  | H : _ ∉ [] |- _ => clear H
  | H : forall x, x ∈ ?L -> x ∉ ?a :: ?M |- _ =>
      assert (a ∉ L) by (let X := fresh in intros X; apply (H _ X), list_elem_of_here);
      assert (forall x, x ∈ L -> x ∉ M)
        by (let X := fresh in let Y := fresh in intros ? X Y;
            apply (H _ X), list_elem_of_further, Y);
      clear H
  end.

(** Address disequalities and non-memberships from those facts. *)
Ltac dll_ne :=
  first [ assumption | let E := fresh in intros E; congruence ].

Ltac dll_lookup :=
  repeat first
    [ rewrite lookup_insert_eq
    | rewrite lookup_insert_ne by (solve [dll_ne])
    | rewrite lookup_delete_ne by (solve [dll_ne]) ];
  first [ eassumption | reflexivity ].

Ltac dll_seg :=
  repeat first
    [ apply dseg_insert_ne; [|solve [dll_ne]]
    | apply dseg_delete_ne; [|solve [dll_ne]] ]; assumption.

Section link.
Context {A : Type}.
Implicit Types (h : gmap loc (node A)) (xs ys : list (loc * A)).

Lemma nodup_mid xs (a : loc * A) ys :
  NoDup (locs (xs ++ a :: ys)) -> a.1 ∉ locs xs /\ a.1 ∉ locs ys.
Proof. intros H. by dll_facts. Qed.

(** [prev->next = t; t->next = tmp; tmp->prev = t; t->prev = prev] *)
Definition link_between h (p t q : ptr) : res (gmap loc (node A)) :=
  h ← set_next h p t;
  h ← set_next h t q;
  h ← set_prev h q t;
  set_prev h t p.

(** [p->next = t; t->prev = p; t->next = nullptr] *)
Definition link_last h (p t : ptr) : res (gmap loc (node A)) :=
  h ← set_next h p t;
  h ← set_prev h t p;
  set_next h t None.

(** [t->prev->next = t->next; t->next->prev = t->prev] *)
Definition unlink_mid h (t : ptr) : res (gmap loc (node A)) :=
  p ← get_prev h t;
  n ← get_next h t;
  h ← set_next h p n;
  n ← get_next h t;
  p ← get_prev h t;
  set_prev h n p.

(** The heaps agree outside the addresses [ls]. *)
Definition agree_off (ls : list loc) h h' : Prop :=
  forall l, l ∉ ls -> h' !! l = h !! l.

Lemma agree_off_insert ls h h' l n :
  agree_off ls h h' -> l ∈ ls -> agree_off ls h (<[l := n]> h').
Proof.
  intros Hag Hl l' Hl'. rewrite lookup_insert_ne; [by apply Hag|].
  intros ->. done.
Qed.
Lemma agree_off_delete ls h h' l :
  agree_off ls h h' -> l ∈ ls -> agree_off ls h (delete l h').
Proof.
  intros Hag Hl l' Hl'. rewrite lookup_delete_ne; [by apply Hag|].
  intros ->. done.
Qed.
Lemma agree_off_refl ls h : agree_off ls h h.
Proof. done. Qed.
Lemma agree_off_weaken ls ls' h h' :
  agree_off ls h h' -> (forall l, l ∈ ls -> l ∈ ls') -> agree_off ls' h h'.
Proof. intros Hag Hs l Hl. apply Hag. auto. Qed.
Lemma agree_off_trans ls h h' h'' :
  agree_off ls h h' -> agree_off ls h' h'' -> agree_off ls h h''.
Proof. intros H1 H2 l Hl. by rewrite H2, H1. Qed.

Lemma link_between_spec h pp nx xs a b ys t (v : A) p0 n0 :
  NoDup (locs (xs ++ a :: b :: ys)) -> t ∉ locs (xs ++ a :: b :: ys) ->
  dseg h pp (xs ++ a :: b :: ys) nx -> h !! t = Some (Node v p0 n0) ->
  exists h', link_between h (Some a.1) (Some t) (Some b.1) = Ok h' /\
    dseg h' pp (xs ++ a :: (t, v) :: b :: ys) nx /\
    agree_off [t; a.1; b.1] h h'.
Proof.
  intros Hnd Ht Hs Hl. dll_facts. apply dseg_app in Hs. cbn in Hs.
  destruct Hs as (Hxs & Ha & Hb & Hys). unfold link_between.
  erewrite bind_ok by (apply set_next_ok; exact Ha).
  erewrite bind_ok by (apply set_next_ok; dll_lookup).
  erewrite bind_ok by (apply set_prev_ok; dll_lookup).
  erewrite set_prev_ok by dll_lookup.
  eexists; split; [reflexivity|].
  split; [apply dseg_app; cbn; split_ands|].
  - dll_seg.
  - dll_lookup.
  - dll_lookup.
  - dll_lookup.
  - dll_seg.
  - repeat (apply agree_off_insert; [|set_solver]). apply agree_off_refl.
Qed.

Lemma link_last_spec h pp xs a t (v : A) p0 n0 :
  NoDup (locs (xs ++ [a])) -> t ∉ locs (xs ++ [a]) ->
  dseg h pp (xs ++ [a]) None -> h !! t = Some (Node v p0 n0) ->
  exists h', link_last h (Some a.1) (Some t) = Ok h' /\
    dseg h' pp (xs ++ [a; (t, v)]) None /\
    agree_off [t; a.1] h h'.
Proof.
  intros Hnd Ht Hs Hl. dll_facts. apply dseg_app in Hs. cbn in Hs.
  destruct Hs as (Hxs & Ha & _). unfold link_last.
  erewrite bind_ok by (apply set_next_ok; exact Ha).
  erewrite bind_ok by (apply set_prev_ok; dll_lookup).
  erewrite set_next_ok by dll_lookup.
  eexists; split; [reflexivity|].
  split; [apply dseg_app; cbn; split_ands|].
  - dll_seg.
  - dll_lookup.
  - dll_lookup.
  - done.
  - repeat (apply agree_off_insert; [|set_solver]). apply agree_off_refl.
Qed.

Lemma unlink_mid_spec h pp nx xs a t b ys :
  NoDup (locs (xs ++ a :: t :: b :: ys)) ->
  dseg h pp (xs ++ a :: t :: b :: ys) nx ->
  exists h', unlink_mid h (Some t.1) = Ok h' /\
    dseg h' pp (xs ++ a :: b :: ys) nx /\
    h' !! t.1 = Some (Node t.2 (Some a.1) (Some b.1)) /\
    agree_off [a.1; b.1] h h'.
Proof.
  intros Hnd Hs. dll_facts. apply dseg_app in Hs. cbn in Hs.
  destruct Hs as (Hxs & Ha & Ht & Hb & Hys). unfold unlink_mid.
  erewrite bind_ok by (apply get_prev_ok; exact Ht).
  erewrite bind_ok by (apply get_next_ok; exact Ht). cbn.
  erewrite bind_ok by (apply set_next_ok; exact Ha).
  erewrite bind_ok by (apply get_next_ok; dll_lookup).
  erewrite bind_ok by (apply get_prev_ok; dll_lookup). cbn.
  erewrite set_prev_ok by dll_lookup.
  eexists; split; [reflexivity|].
  split; [apply dseg_app; cbn; split_ands|split].
  - dll_seg.
  - dll_lookup.
  - dll_lookup.
  - dll_seg.
  - dll_lookup.
  - repeat (apply agree_off_insert; [|set_solver]). apply agree_off_refl.
Qed.

(** [t->next = hd; hd->prev = t] *)
Definition link_first h (t hd : ptr) : res (gmap loc (node A)) :=
  h ← set_next h t hd;
  set_prev h hd t.

Lemma link_first_spec h nx b ys t (v : A) n0 :
  NoDup (locs (b :: ys)) -> t ∉ locs (b :: ys) ->
  dseg h None (b :: ys) nx -> h !! t = Some (Node v None n0) ->
  exists h', link_first h (Some t) (Some b.1) = Ok h' /\
    dseg h' None ((t, v) :: b :: ys) nx /\
    agree_off [t; b.1] h h'.
Proof.
  intros Hnd Ht Hs Hl. dll_facts. cbn in Hs. destruct Hs as (Hb & Hys).
  unfold link_first.
  erewrite bind_ok by (apply set_next_ok; exact Hl).
  erewrite set_prev_ok by dll_lookup.
  eexists; split; [reflexivity|]. split; [cbn; split_ands|].
  - dll_lookup.
  - dll_lookup.
  - dll_seg.
  - repeat (apply agree_off_insert; [|set_solver]). apply agree_off_refl.
Qed.

(** Cutting the first node off: the next one's [prev] is cleared. *)
Lemma cut_first_spec h nx a b ys :
  NoDup (locs (a :: b :: ys)) -> dseg h None (a :: b :: ys) nx ->
  exists h', set_prev h (Some b.1) None = Ok h' /\
    dseg h' None (b :: ys) nx /\
    h' !! a.1 = h !! a.1 /\
    agree_off [b.1] h h'.
Proof.
  intros Hnd (Ha & Hb & Hys). dll_facts. cbn in Ha, Hb.
  erewrite set_prev_ok by exact Hb.
  eexists; split; [reflexivity|]. cbn [dseg]. split; [split|split].
  - dll_lookup.
  - dll_seg.
  - by rewrite lookup_insert_ne by dll_ne.
  - apply agree_off_insert; [|set_solver]. apply agree_off_refl.
Qed.

(** Freeing a node outside the segment, and the heap it leaves. *)
Lemma dseg_free h pp xs nx l n :
  dseg h pp xs nx -> l ∉ locs xs -> h !! l = Some n ->
  exists h', free h (Some l) = Ok h' /\ dseg h' pp xs nx /\
    h' = delete l h.
Proof.
  intros Hs Hl Hn. rewrite (free_ok _ _ _ Hn).
  eexists; split; [reflexivity|]. split; [by apply dseg_delete_ne|done].
Qed.

(** A segment has no more nodes than the heap has objects. *)
Lemma dseg_length h pp xs nx :
  NoDup (locs xs) -> dseg h pp xs nx -> (length xs <= size h)%nat.
Proof.
  intros Hnd Hs.
  replace (length xs) with (size (list_to_set (locs xs) : gset loc)).
  2:{ rewrite size_list_to_set by done. apply length_fmap. }
  rewrite <- size_dom. apply subseteq_size. intros l Hl.
  apply elem_of_list_to_set, list_elem_of_fmap in Hl as (x & -> & Hx).
  destruct (dseg_lookup _ _ _ _ _ Hs Hx) as (p & n & Hn).
  apply elem_of_dom. eauto.
Qed.

Lemma locs_middle xs (x : loc * A) ys : locs (xs ++ x :: ys) ≡ₚ x.1 :: locs (xs ++ ys).
Proof. unfold locs. by rewrite <- Permutation_middle. Qed.

Lemma nodup_remove xs (x : loc * A) ys :
  NoDup (locs (xs ++ x :: ys)) -> NoDup (locs (xs ++ ys)) /\ x.1 ∉ locs (xs ++ ys).
Proof. rewrite locs_middle. by intros [? ?]%NoDup_cons. Qed.

(** Overwriting a payload in place. *)
Lemma set_val_spec h pp nx xs t (v v' : A) ys :
  NoDup (locs (xs ++ (t, v) :: ys)) -> dseg h pp (xs ++ (t, v) :: ys) nx ->
  exists h', set_val h (Some t) v' = Ok h' /\
    dseg h' pp (xs ++ (t, v') :: ys) nx /\ agree_off [t] h h'.
Proof.
  intros Hnd Hs. dll_facts. apply dseg_app in Hs. cbn in Hs.
  destruct Hs as (Hxs & Ht & Hys). cbn [fst] in *.
  erewrite set_val_ok by exact Ht.
  eexists; split; [reflexivity|]. split; [apply dseg_app; cbn; split_ands|].
  - dll_seg.
  - dll_lookup.
  - dll_seg.
  - apply agree_off_insert; [apply agree_off_refl|set_solver].
Qed.
End link.
