(* ===== verification/TimerQueue.v ===== *)
(** * What a timer container promises to a server

    The [util_timer] objects of socket/timer/sigalrm_list_timer.h and the
    contract between their container and the event loop that uses it
    (socket/timer/handling_inactive_link.cpp): the container is a finite map
    from timer addresses to timers, out of which a tick takes exactly the due
    ones, earliest first.  [ListTimer] implements the class, [InactiveLink] is
    proved against it. *)

From S2P Require Import Prelude.

(** [util_timer] without its links: expiry time, callback (an id of the
    function, [None] for the null pointer) and the callback's argument, the
    index of the client in [users]. *)
Record util_timer := UtilTimer {
  expire : Z;
  cb_func : option Z;
  user_data : Z;
}.

(** [timer->expire = e] *)
Definition set_expire (e : Z) (v : util_timer) : util_timer :=
  UtilTimer e (cb_func v) (user_data v).

(** One call of a callback: the function and its argument. *)
Definition call : Type := Z * Z.

Definition key (x : loc * util_timer) : Z := expire x.2.
Definition key_le (x y : loc * util_timer) : Prop := key x <= key y.
Definition ascending (xs : list (loc * util_timer)) : Prop := StronglySorted key_le xs.
Definition due (cur : Z) (xs : list (loc * util_timer)) := filter (fun x => key x <= cur) xs.
Definition pending (cur : Z) (xs : list (loc * util_timer)) := filter (fun x => cur < key x) xs.

(** The calls made for the timers [xs]. *)
Definition calls_of (xs : list (loc * util_timer)) : list call :=
  omap (fun x => f ← cb_func x.2; Some (f, user_data x.2)) xs.

Definition callable (M : gmap loc util_timer) : Prop :=
  map_Forall (fun _ v => is_Some (cb_func v)) M.

Class TimerQueue (Q : Type) := {
  (** [q_holds q M]: the live timers of [q] are [M]. *)
  q_holds : Q -> gmap loc util_timer -> Prop;
  (** a new timer at address [t] is filled with [v] and added *)
  q_add : Q -> loc -> util_timer -> res Q;
  (** the expiry time of [t] is set to [e] and its position adjusted *)
  q_touch : Q -> loc -> Z -> res Q;
  (** [t] is removed and deleted *)
  q_del : Q -> loc -> res Q;
  (** the due timers are run and deleted *)
  q_tick : Q -> Z -> res (Q * list call);

  q_add_law q M t v :
    q_holds q M -> M !! t = None ->
    exists q', q_add q t v = Ok q' /\ q_holds q' (<[t := v]> M);
  q_touch_law q M t v e :
    q_holds q M -> M !! t = Some v -> expire v <= e ->
    exists q', q_touch q t e = Ok q' /\ q_holds q' (<[t := set_expire e v]> M);
  q_del_law q M t v :
    q_holds q M -> M !! t = Some v ->
    exists q', q_del q t = Ok q' /\ q_holds q' (delete t M);
  q_tick_law q M cur :
    q_holds q M -> callable M ->
    exists q' ys, q_tick q cur = Ok (q', calls_of ys) /\
      q_holds q' (filter (fun kv => cur < expire kv.2) M) /\
      ascending ys /\
      ys ≡ₚ map_to_list (filter (fun kv => expire kv.2 <= cur) M);
}.

(** ** Lemmas: the due and the pending part of an ascending list *)

Lemma pending_cons cur x xs :
  pending cur (x :: xs) = if decide (cur < key x) then x :: pending cur xs else pending cur xs.
Proof. reflexivity. Qed.
Lemma due_cons cur x xs :
  due cur (x :: xs) = if decide (key x <= cur) then x :: due cur xs else due cur xs.
Proof. reflexivity. Qed.

(** Once the first timer is not due, none is. *)
Lemma ascending_none_due cur x xs :
  ascending (x :: xs) -> cur < key x -> due cur (x :: xs) = [] /\ pending cur (x :: xs) = x :: xs.
Proof.
  intros [_ Hx]%StronglySorted_inv Hlt.
  assert (Forall (fun y => cur < key y) (x :: xs)) as Hall.
  { constructor; [done|]. eapply Forall_impl; [exact Hx|]. unfold key_le. intros; lia. }
  split.
  - apply filter_Forall_none. eapply Forall_impl; [exact Hall|]. intros; cbn in *; lia.
  - by apply filter_Forall_all.
Qed.

Lemma ascending_split cur xs : ascending xs -> xs = due cur xs ++ pending cur xs.
Proof.
  induction xs as [|x xs IH]; intros Hasc; [done|].
  destruct (Z_le_gt_dec (key x) cur).
  - rewrite due_cons, pending_cons, decide_True, decide_False by lia. cbn [app].
    f_equal. apply IH. by apply StronglySorted_inv in Hasc as [? _].
  - by destruct (ascending_none_due cur x xs) as [-> ->]; [|lia|].
Qed.

Lemma ascending_app xs ys :
  ascending (xs ++ ys) <->
  ascending xs /\ ascending ys /\ (forall x y, x ∈ xs -> y ∈ ys -> key x <= key y).
Proof. unfold ascending. rewrite StronglySorted_app. unfold key_le. naive_solver. Qed.

Lemma ascending_due cur xs : ascending xs -> ascending (due cur xs).
Proof.
  intros Hasc. rewrite (ascending_split cur xs) in Hasc by done.
  by apply ascending_app in Hasc as (? & _).
Qed.

Lemma ascending_pending cur xs : ascending xs -> ascending (pending cur xs).
Proof.
  intros Hasc. rewrite (ascending_split cur xs) in Hasc by done.
  by apply ascending_app in Hasc as (_ & ? & _).
Qed.

(** Lists of addressed timers as maps: filtering the list filters the map. *)
Lemma list_to_map_filter (P : loc * util_timer -> Prop) `{!forall x, Decision (P x)} xs :
  NoDup xs.*1 -> (list_to_map (filter P xs) : gmap loc util_timer) = filter P (list_to_map xs).
Proof.
  induction xs as [|[t v] xs IH]; intros Hnd; [done|].
  apply NoDup_cons in Hnd as [Ht Hnd]. rewrite filter_cons, list_to_map_cons. cbn in Ht.
  assert ((list_to_map xs : gmap loc util_timer) !! t = None) as Hn
    by by apply not_elem_of_list_to_map_1.
  case_decide as HP.
  - rewrite map_filter_insert_True by done. by rewrite list_to_map_cons, IH.
  - rewrite map_filter_insert_not' by naive_solver. by apply IH.
Qed.
