(* ===== verification/ListTimer.v ===== *)
(** * The ascending timer list (socket/timer/sigalrm_list_timer.h)

    [sort_timer_list] is an intrusive, doubly linked list of [util_timer]
    objects sorted by expiry time.  The operations below run on an explicit
    object heap; the theorems relate them to operations on a sorted list of
    addressed timers. *)

From S2P Require Import Prelude Dll TimerQueue.

(** ** Data *)

(** [util_timer()]: the defaulted members. *)
Definition new_util_timer : node util_timer := Node (UtilTimer 0 None 0) None None.

(** [sort_timer_list]: its two members and the heap its nodes live in. *)
Record sort_timer_list := SortTimerList {
  heap : gmap loc (node util_timer);
  head : ptr;
  tail : ptr;
}.

Definition empty_list (h : gmap loc (node util_timer)) : sort_timer_list :=
  SortTimerList h None None.

(** ** Operations *)

Definition expire_of (h : gmap loc (node util_timer)) (p : ptr) : res Z :=
  v ← get_val h p; mret (expire v).

(** The search loop of the private [add_timer(timer, lst_head)]: it returns
    the heap and the final [prev] and [tmp]. *)
Fixpoint add_timer_loop (fuel : nat) (h : gmap loc (node util_timer))
    (timer prv tmp : ptr) : res (gmap loc (node util_timer) * ptr * ptr) :=
  match tmp with
  | None => mret (h, prv, None)
  | Some _ =>
      match fuel with
      | O => Err OutOfFuel
      | S fuel =>
          e ← expire_of h timer;
          e' ← expire_of h tmp;
          if e <? e' then
            h ← link_between h prv timer tmp;
            mret (h, prv, tmp)
          else
            nx ← get_next h tmp;
            add_timer_loop fuel h timer tmp nx
      end
  end.

(** The private overload: insert [timer] behind [lst_head]. *)
Definition add_timer_after (s : sort_timer_list) (timer lst_head : ptr)
    : res sort_timer_list :=
  tmp ← get_next (heap s) lst_head;
  '(h, prv, tmp) ← add_timer_loop (size (heap s)) (heap s) timer lst_head tmp;
  match tmp with
  | Some _ => mret (SortTimerList h (head s) (tail s))
  | None =>
      h ← link_last h prv timer;
      mret (SortTimerList h (head s) timer)
  end.

(** [add_timer(timer)] *)
Definition add_timer (s : sort_timer_list) (timer : ptr) : res sort_timer_list :=
  match timer with
  | None => mret s
  | Some _ =>
      match head s with
      | None => mret (SortTimerList (heap s) timer timer)
      | Some _ =>
          e ← expire_of (heap s) timer;
          e' ← expire_of (heap s) (head s);
          if e <? e' then
            h ← link_first (heap s) timer (head s);
            mret (SortTimerList h timer (tail s))
          else add_timer_after s timer (head s)
      end
  end.

(** [adjust_timer(timer)] *)
Definition adjust_timer (s : sort_timer_list) (timer : ptr) : res sort_timer_list :=
  match timer with
  | None => mret s
  | Some _ =>
      tmp ← get_next (heap s) timer;
      match tmp with
      | None => mret s
      | Some _ =>
          e ← expire_of (heap s) timer;
          e' ← expire_of (heap s) tmp;
          if e <? e' then mret s
          else if decide (timer = head s) then
            hd ← get_next (heap s) (head s);
            h ← set_prev (heap s) hd None;
            h ← set_next h timer None;
            add_timer_after (SortTimerList h hd (tail s)) timer hd
          else
            h ← unlink_mid (heap s) timer;
            nx ← get_next h timer;
            add_timer_after (SortTimerList h (head s) (tail s)) timer nx
      end
  end.

(** [del_timer(timer)] *)
Definition del_timer (s : sort_timer_list) (timer : ptr) : res sort_timer_list :=
  match timer with
  | None => mret s
  | Some _ =>
      if decide (timer = head s /\ timer = tail s) then
        h ← free (heap s) timer;
        mret (SortTimerList h None None)
      else if decide (timer = head s) then
        hd ← get_next (heap s) (head s);
        h ← set_prev (heap s) hd None;
        h ← free h timer;
        mret (SortTimerList h hd (tail s))
      else if decide (timer = tail s) then
        tl ← get_prev (heap s) (tail s);
        h ← set_next (heap s) tl None;
        h ← free h timer;
        mret (SortTimerList h (head s) tl)
      else
        h ← unlink_mid (heap s) timer;
        h ← free h timer;
        mret (SortTimerList h (head s) (tail s))
  end.

(** Calling a callback pointer. *)
Definition invoke (v : util_timer) : res call :=
  match cb_func v with
  | None => Err NullCall
  | Some f => mret (f, user_data v)
  end.

(** The loop of [tick] at time [cur]: [tmp] equals [head] at its top. *)
Fixpoint tick_loop (fuel : nat) (h : gmap loc (node util_timer)) (cur : Z)
    (tmp : ptr) : res (gmap loc (node util_timer) * ptr * list call) :=
  match tmp with
  | None => mret (h, tmp, [])
  | Some _ =>
      match fuel with
      | O => Err OutOfFuel
      | S fuel =>
          v ← get_val h tmp;
          if cur <? expire v then mret (h, tmp, [])
          else
            c ← invoke v;
            hd ← get_next h tmp;
            h ← (match hd with
                 | Some _ => set_prev h hd None
                 | None => mret h
                 end);
            h ← free h tmp;
            '(h, hd, cs) ← tick_loop fuel h cur hd;
            mret (h, hd, c :: cs)
      end
  end.

(** [tick()]; the callbacks run are returned in order.  [tail] is untouched. *)
Definition tick (s : sort_timer_list) (cur : Z) : res (sort_timer_list * list call) :=
  match head s with
  | None => mret (s, [])
  | Some _ =>
      '(h, hd, cs) ← tick_loop (size (heap s)) (heap s) cur (head s);
      mret (SortTimerList h hd (tail s), cs)
  end.

(** [~sort_timer_list()] *)
Fixpoint destroy_loop (fuel : nat) (h : gmap loc (node util_timer)) (tmp : ptr)
    : res (gmap loc (node util_timer)) :=
  match tmp with
  | None => mret h
  | Some _ =>
      match fuel with
      | O => Err OutOfFuel
      | S fuel =>
          hd ← get_next h tmp;
          h ← free h tmp;
          destroy_loop fuel h hd
      end
  end.
Definition destroy (s : sort_timer_list) : res (gmap loc (node util_timer)) :=
  destroy_loop (size (heap s)) (heap s) (head s).

(** ** The abstract list *)

(** Stable insertion: before the first strictly later timer. *)
Fixpoint insert_timer (x : loc * util_timer) (xs : list (loc * util_timer)) :=
  match xs with
  | [] => [x]
  | y :: ys => if key x <? key y then x :: y :: ys else y :: insert_timer x ys
  end.

(** [rep s xs]: the object [s] holds exactly [xs], in this order.  An empty
    list says nothing about [tail]: [tick] leaves it dangling. *)
Record rep (s : sort_timer_list) (xs : list (loc * util_timer)) : Prop := {
  rep_nodup : NoDup (locs xs);
  rep_head : head s = first_of xs None;
  rep_tail : xs <> [] -> tail s = last_of None xs;
  rep_seg : dseg (heap s) None xs None;
}.

(** ** Lemmas: stable insertion *)

Lemma insert_timer_Permutation x xs : insert_timer x xs ≡ₚ x :: xs.
Proof.
  induction xs as [|y ys IH]; cbn; [done|]. case_match; [done|].
  rewrite IH. apply Permutation_swap.
Qed.

Lemma insert_timer_locs x xs : locs (insert_timer x xs) ≡ₚ x.1 :: locs xs.
Proof. unfold locs. by rewrite insert_timer_Permutation. Qed.

Lemma insert_timer_nonnil x xs : insert_timer x xs <> [].
Proof. destruct xs; cbn; [done|]. by case_match. Qed.

Lemma insert_timer_ascending x xs : ascending xs -> ascending (insert_timer x xs).
Proof.
  intros Hs; induction Hs as [|y ys Hys IH Hy]; cbn.
  - repeat constructor.
  - destruct (Z.ltb_spec (key x) (key y)).
    + constructor; [by constructor|]. constructor; [unfold key_le; lia|].
      eapply Forall_impl; [exact Hy|]. unfold key_le. intros; lia.
    + constructor; [done|]. rewrite insert_timer_Permutation.
      constructor; [unfold key_le; lia|done].
Qed.

(** Insertion skips the timers that are not later. *)
Lemma insert_timer_app x xs ys :
  Forall (fun y => key y <= key x) xs ->
  insert_timer x (xs ++ ys) = xs ++ insert_timer x ys.
Proof.
  induction 1 as [|y xs Hy _ IH]; cbn; [done|].
  destruct (Z.ltb_spec (key x) (key y)); [lia|]. by rewrite IH.
Qed.

(** ** Lemmas: the search loop *)

Lemma expire_of_ok h l n : h !! l = Some n -> expire_of h (Some l) = Ok (expire (val n)).
Proof. intros H. unfold expire_of. by rewrite (get_val_ok _ _ _ H). Qed.
#[export] Hint Resolve expire_of_ok : verif.

Lemma add_timer_loop_spec fuel h pre a ys t v p0 n0 :
  (length ys <= fuel)%nat ->
  NoDup (locs (pre ++ a :: ys)) -> t ∉ locs (pre ++ a :: ys) ->
  dseg h None (pre ++ a :: ys) None -> h !! t = Some (Node v p0 n0) ->
  exists h' prv tmp,
    add_timer_loop fuel h (Some t) (Some a.1) (first_of ys None) = Ok (h', prv, tmp) /\
    ( (exists l, tmp = Some l) /\
      dseg h' None (pre ++ a :: insert_timer (t, v) ys) None /\
      agree_off (t :: locs (a :: ys)) h h' /\
      last_of (Some a.1) (insert_timer (t, v) ys) = last_of (Some a.1) ys
    \/ tmp = None /\ h' = h /\ prv = last_of (Some a.1) ys /\
      insert_timer (t, v) ys = ys ++ [(t, v)] ).
Proof.
  revert fuel pre a; induction ys as [|b ys IH]; intros fuel pre a Hf Hnd Ht Hs Hl;
    destruct fuel as [|fuel]; cbn in Hf; try lia.
  1,2: do 3 eexists; split; [reflexivity|right; done].
  assert (h !! b.1 = Some (Node b.2 (Some a.1) (first_of ys None))) as Hb.
  { apply dseg_app in Hs as [_ (_ & Hb & _)]. done. }
  cbn [first_of add_timer_loop].
  erewrite bind_ok by (eapply expire_of_ok; exact Hl).
  erewrite bind_ok by (eapply expire_of_ok; exact Hb). cbn [val insert_timer].
  change (key (t, v) <? key b) with (expire v <? expire b.2).
  destruct (expire v <? expire b.2) eqn:E.
  - destruct (link_between_spec h None None pre a b ys t v p0 n0)
      as (h' & Hh' & Hs' & Hag); [done..|].
    erewrite bind_ok by exact Hh'.
    do 3 eexists; split; [reflexivity|left]. split_ands; [eauto|done| |].
    + eapply agree_off_weaken; [exact Hag|]. cbn. set_solver.
    + by rewrite !last_of_cons.
  - erewrite bind_ok by (eapply get_next_ok; exact Hb). cbn [next].
    assert (pre ++ a :: b :: ys = (pre ++ [a]) ++ b :: ys) as Heq by by rewrite <- app_assoc.
    rewrite Heq in *.
    destruct (IH fuel (pre ++ [a]) b) as (h' & prv & tmp & Hr & Hcase); [lia|done..|].
    do 3 eexists; split; [exact Hr|].
    destruct Hcase as [(Htmp & Hs' & Hag & Hlast)|(-> & -> & -> & ->)].
    + left. split_ands; [done| | |].
      * by rewrite <- app_assoc in Hs'.
      * eapply agree_off_weaken; [exact Hag|]. cbn. set_solver.
      * by rewrite !last_of_cons.
    + right. split_ands; [done..| |done]. by rewrite last_of_cons.
Qed.

Lemma add_timer_after_spec s pre a ys t v p0 n0 :
  NoDup (locs (pre ++ a :: ys)) -> t ∉ locs (pre ++ a :: ys) ->
  dseg (heap s) None (pre ++ a :: ys) None ->
  heap s !! t = Some (Node v p0 n0) ->
  tail s = last_of None (pre ++ a :: ys) ->
  exists s', add_timer_after s (Some t) (Some a.1) = Ok s' /\
    head s' = head s /\
    dseg (heap s') None (pre ++ a :: insert_timer (t, v) ys) None /\
    tail s' = last_of None (pre ++ a :: insert_timer (t, v) ys) /\
    agree_off (t :: locs (pre ++ a :: ys)) (heap s) (heap s').
Proof.
  intros Hnd Ht Hs Hl Htl. unfold add_timer_after.
  assert (heap s !! a.1 = Some (Node a.2 (last_of None pre) (first_of ys None))) as Ha.
  { apply dseg_app in Hs as [_ [Ha _]]. done. }
  erewrite bind_ok by (eapply get_next_ok; exact Ha). cbn [next].
  assert (length ys <= size (heap s))%nat as Hsz.
  { apply dseg_length in Hs; [|done]. rewrite length_app in Hs. cbn in Hs. lia. }
  destruct (add_timer_loop_spec (size (heap s)) (heap s) pre a ys t v p0 n0)
    as (h' & prv & tmp & Hr & Hcase); [done..|].
  erewrite bind_ok by exact Hr. cbv beta iota.
  destruct Hcase as [([l ->] & Hs' & Hag & Hlast)|(-> & -> & -> & Hins)].
  - eexists; split; [reflexivity|]. cbn. split_ands; [done|done| |].
    + by rewrite Htl, !last_of_app, !last_of_cons, Hlast.
    + eapply agree_off_weaken; [exact Hag|]. rewrite locs_app. set_solver.
  - assert (pre ++ a :: ys <> []) as Hne by (by destruct pre).
    destruct (exists_last Hne) as (zs & z & Hz).
    assert (last_of (Some a.1) ys = Some z.1) as Hlast.
    { rewrite <- (last_of_snoc None zs z), <- Hz, last_of_app, last_of_cons. done. }
    rewrite Hz in *. rewrite Hlast, Hins.
    destruct (link_last_spec (heap s) None zs z t v p0 n0) as (h' & Hh' & Hs' & Hag);
      [done..|].
    erewrite bind_ok by exact Hh'.
    eexists; split; [reflexivity|]. cbn.
    replace (pre ++ a :: ys ++ [(t, v)]) with (zs ++ [z; (t, v)])
      by (by rewrite (app_assoc zs [z] [(t,v)] : zs ++ [z;(t,v)] = _), <- Hz, <- app_assoc).
    split_ands; [done|done| |].
    + by rewrite last_of_app.
    + eapply agree_off_weaken; [exact Hag|]. rewrite locs_app. cbn. set_solver.
Qed.

(** ** Lemmas: the public operations against the abstract list *)

Lemma add_timer_rep s xs t v :
  rep s xs -> heap s !! t = Some (Node v None None) -> t ∉ locs xs ->
  exists s', add_timer s (Some t) = Ok s' /\ rep s' (insert_timer (t, v) xs) /\
    agree_off (t :: locs xs) (heap s) (heap s').
Proof.
  intros [Hnd Hhd Htl Hs] Hl Ht. unfold add_timer.
  destruct xs as [|a ys]; cbn [first_of] in Hhd; rewrite Hhd.
  { eexists; split; [reflexivity|]. split; [|apply agree_off_refl].
    constructor; cbn; [repeat constructor; set_solver|done|done|done]. }
  assert (heap s !! a.1 = Some (Node a.2 None (first_of ys None))) as Ha by apply Hs.
  erewrite bind_ok by (eapply expire_of_ok; exact Hl).
  erewrite bind_ok by (eapply expire_of_ok; exact Ha). cbn [val insert_timer].
  change (key (t, v) <? key a) with (expire v <? expire a.2).
  assert (NoDup (locs (insert_timer (t, v) (a :: ys)))) as Hnd'.
  { rewrite insert_timer_locs. by constructor. }
  destruct (expire v <? expire a.2) eqn:E.
  - destruct (link_first_spec (heap s) None a ys t v None) as (h' & Hh' & Hs' & Hag);
      [done..|].
    erewrite bind_ok by exact Hh'.
    eexists; split; [reflexivity|]. split; [constructor; cbn|].
    + by constructor.
    + done.
    + intros _. rewrite Htl by done. by rewrite !last_of_cons.
    + exact Hs'.
    + eapply agree_off_weaken; [exact Hag|]. cbn. set_solver.
  - destruct (add_timer_after_spec s [] a ys t v None None) as (s' & Hr & Hh & Hs' & Htl' & Hag);
      [done..|by apply Htl|].
    cbn [insert_timer] in Hnd'. change (key (t, v) <? key a) with (expire v <? expire a.2) in Hnd'.
    rewrite E in Hnd'.
    eexists; split; [exact Hr|]. split; [constructor; [done| |done|done]|done].
    rewrite Hh. done.
Qed.

(** The two ways [adjust_timer] takes the timer out before inserting it
    again: at the head, and behind some predecessor [z]. *)
Lemma adjust_at_head s t v b l2 :
  rep s ((t, v) :: b :: l2) ->
  exists s',
    (hd ← get_next (heap s) (head s);
     h ← set_prev (heap s) hd None;
     h ← set_next h (Some t) None;
     add_timer_after (SortTimerList h hd (tail s)) (Some t) hd) = Ok s' /\
    rep s' (b :: insert_timer (t, v) l2) /\
    agree_off (t :: locs (b :: l2)) (heap s) (heap s').
Proof.
  intros [Hnd Hhd Htl Hs].
  destruct (nodup_remove [] (t, v) (b :: l2) Hnd) as [Hnd' Ht].
  pose proof Hs as [Hl _]. cbn [fst snd app] in *. rewrite Hhd. cbn [first_of fst].
  destruct (cut_first_spec (heap s) None (t, v) b l2) as (h1 & Hh1 & Hs1 & Ht1 & Hag1); [done..|].
  cbn [fst] in Ht1. rewrite Hl in Ht1.
  erewrite bind_ok by (eapply get_next_ok; exact Hl). cbn [next first_of].
  erewrite bind_ok by exact Hh1.
  erewrite bind_ok by (eapply set_next_ok; exact Ht1). cbn [val prev].
  edestruct (add_timer_after_spec
    (SortTimerList (<[t:=Node v None None]> h1) (Some b.1) (tail s)) [] b l2 t v)
    as (s' & Hr & Hh & Hs' & Htl' & Hag); cbn [heap head tail app];
    [done|done| |by apply lookup_insert_eq| |].
  - by apply dseg_insert_ne.
  - rewrite Htl by done. by rewrite !last_of_cons.
  - exists s'; split; [exact Hr|]. split; [constructor; [|by rewrite Hh|done|done]|].
    + rewrite locs_cons, insert_timer_locs. cbn [fst].
      rewrite Permutation_swap. cbn [app] in Hnd'. rewrite <- locs_cons. by constructor.
    + intros l Hl'. rewrite Hag by done. cbn [heap].
      rewrite lookup_insert_ne by set_solver. apply Hag1. set_solver.
Qed.

Lemma adjust_in_middle s zs z t v b l2 :
  rep s (zs ++ z :: (t, v) :: b :: l2) ->
  exists s',
    (h ← unlink_mid (heap s) (Some t);
     nx ← get_next h (Some t);
     add_timer_after (SortTimerList h (head s) (tail s)) (Some t) nx) = Ok s' /\
    rep s' (zs ++ z :: b :: insert_timer (t, v) l2) /\
    agree_off (t :: locs (zs ++ z :: b :: l2)) (heap s) (heap s').
Proof.
  intros [Hnd Hhd Htl Hs].
  destruct (nodup_remove (zs ++ [z]) (t, v) (b :: l2)) as [Hnd' Ht];
    rewrite <- !app_assoc in *; cbn [app fst] in *; [done|].
  destruct (unlink_mid_spec (heap s) None None zs z (t, v) b l2) as (h1 & Hh1 & Hs1 & Ht1 & Hag1);
    [done..|]. cbn [fst snd] in *.
  erewrite bind_ok by exact Hh1.
  erewrite bind_ok by (eapply get_next_ok; exact Ht1). cbn [next].
  replace (zs ++ z :: b :: l2) with ((zs ++ [z]) ++ b :: l2) in * by (by rewrite <- app_assoc).
  replace (zs ++ z :: b :: insert_timer (t, v) l2)
    with ((zs ++ [z]) ++ b :: insert_timer (t, v) l2) by (by rewrite <- app_assoc).
  edestruct (add_timer_after_spec (SortTimerList h1 (head s) (tail s)) (zs ++ [z]) b l2 t v)
    as (s' & Hr & Hh & Hs' & Htl' & Hag); cbn [heap head tail]; [done..| |].
  - rewrite Htl by (by destruct zs). by rewrite !last_of_app, !last_of_cons.
  - exists s'; split; [exact Hr|]. split; [constructor; [| |done|done]|].
    + rewrite locs_app, locs_cons, insert_timer_locs, Permutation_swap.
      rewrite <- Permutation_middle, <- locs_cons, <- locs_app. by constructor.
    + rewrite Hh. cbn [head]. rewrite Hhd. by destruct zs.
    + intros l Hl'. rewrite Hag by done. cbn [heap]. apply Hag1.
      rewrite locs_app, locs_app in Hl'. cbn in Hl'. set_solver.
Qed.

Lemma adjust_timer_rep s l1 t v l2 :
  rep s (l1 ++ (t, v) :: l2) -> Forall (fun y => key y <= expire v) l1 ->
  exists s', adjust_timer s (Some t) = Ok s' /\
    rep s' (insert_timer (t, v) (l1 ++ l2)) /\
    agree_off (t :: locs (l1 ++ l2)) (heap s) (heap s').
Proof.
  intros Hrep Hle. rewrite insert_timer_app by done.
  pose proof Hrep as [Hnd Hhd Htl Hs].
  assert (heap s !! t = Some (Node v (last_of None l1) (first_of l2 None))) as Hl.
  { apply dseg_app in Hs as [_ [Hl _]]. done. }
  unfold adjust_timer. erewrite bind_ok by (eapply get_next_ok; exact Hl). cbn [next].
  destruct l2 as [|b l2].
  { eexists; split; [reflexivity|]. split; [done|apply agree_off_refl]. }
  cbn [first_of].
  assert (heap s !! b.1 = Some (Node b.2 (Some t) (first_of l2 None))) as Hb.
  { apply dseg_app in Hs as [_ (_ & Hb & _)]. done. }
  erewrite bind_ok by (eapply expire_of_ok; exact Hl).
  erewrite bind_ok by (eapply expire_of_ok; exact Hb). cbn [val insert_timer].
  change (key (t, v) <? key b) with (expire v <? expire b.2).
  destruct (expire v <? expire b.2) eqn:E.
  { eexists; split; [reflexivity|]. split; [done|apply agree_off_refl]. }
  destruct l1 as [|a l1'] eqn:El1.
  { rewrite decide_True by (by rewrite Hhd). by apply adjust_at_head. }
  destruct (exists_last (l := l1)) as (zs & z & Hz); [by rewrite El1|].
  rewrite decide_False.
  2:{ rewrite Hhd. cbn. intros [= ->].
      apply (nodup_mid (a :: l1') (a.1, v) (b :: l2)) in Hnd as [[]%not_elem_of_cons _]. done. }
  rewrite <- El1, Hz in *. rewrite <- !app_assoc in *. cbn [app] in *.
  by apply adjust_in_middle.
Qed.

(** The three ways [del_timer] unlinks a timer that is not alone. *)
Lemma del_at_head s t v b l2 :
  rep s ((t, v) :: b :: l2) ->
  exists s',
    (hd ← get_next (heap s) (head s);
     h ← set_prev (heap s) hd None;
     h ← free h (Some t);
     mret (SortTimerList h hd (tail s))) = Ok s' /\
    rep s' (b :: l2) /\ heap s' !! t = None /\
    agree_off (t :: locs (b :: l2)) (heap s) (heap s').
Proof.
  intros [Hnd Hhd Htl Hs].
  destruct (nodup_remove [] (t, v) (b :: l2) Hnd) as [Hnd' Ht].
  pose proof Hs as [Hl _]. cbn [fst snd app] in *. rewrite Hhd. cbn [first_of fst].
  destruct (cut_first_spec (heap s) None (t, v) b l2) as (h1 & Hh1 & Hs1 & Ht1 & Hag1); [done..|].
  cbn [fst] in Ht1. rewrite Hl in Ht1.
  erewrite bind_ok by (eapply get_next_ok; exact Hl). cbn [next first_of].
  erewrite bind_ok by exact Hh1. erewrite bind_ok by (eapply free_ok; exact Ht1).
  eexists; split; [reflexivity|]. cbn [heap]. split_ands; [constructor; cbn [heap head tail]| |].
  - done.
  - done.
  - intros _. by rewrite Htl, !last_of_cons.
  - by apply dseg_delete_ne.
  - apply lookup_delete_eq.
  - apply agree_off_delete; [|set_solver].
    eapply agree_off_weaken; [exact Hag1|]. cbn. set_solver.
Qed.

Lemma del_at_tail s zs z t v :
  rep s (zs ++ [z; (t, v)]) ->
  exists s',
    (tl ← get_prev (heap s) (tail s);
     h ← set_next (heap s) tl None;
     h ← free h (Some t);
     mret (SortTimerList h (head s) tl)) = Ok s' /\
    rep s' (zs ++ [z]) /\ heap s' !! t = None /\
    agree_off (t :: locs (zs ++ [z])) (heap s) (heap s').
Proof.
  intros [Hnd Hhd Htl Hs].
  replace (zs ++ [z; (t, v)]) with ((zs ++ [z]) ++ [(t, v)]) in * by (by rewrite <- app_assoc).
  destruct (nodup_remove (zs ++ [z]) (t, v) [] Hnd) as [Hnd' Ht].
  rewrite app_nil_r in *. cbn [fst] in Ht.
  apply dseg_app in Hs as [Hs [Hl _]]. cbn [fst snd first_of] in Hl.
  rewrite Htl, last_of_snoc by (by destruct zs). cbn [fst].
  destruct (dseg_set_next_last (heap s) None zs z (Some t) None) as (h1 & Hh1 & Hs1 & Hag1);
    [done..|].
  assert (h1 !! t = Some (Node v (last_of None (zs ++ [z])) None)) as Ht1.
  { rewrite Hag1; [done|]. intros ->. rewrite locs_app in Ht. set_solver. }
  erewrite bind_ok by (eapply get_prev_ok; exact Hl). cbn [prev]. rewrite last_of_snoc.
  erewrite bind_ok by exact Hh1. erewrite bind_ok by (eapply free_ok; exact Ht1).
  eexists; split; [reflexivity|]. cbn [heap]. split_ands; [constructor; cbn [heap head tail]| |].
  - done.
  - rewrite Hhd. by destruct zs.
  - intros _. by rewrite last_of_snoc.
  - by apply dseg_delete_ne.
  - apply lookup_delete_eq.
  - apply agree_off_delete; [|set_solver].
    intros l Hl'. apply Hag1. rewrite locs_app in Hl'. set_solver.
Qed.

Lemma del_in_middle s zs z t v b l2 :
  rep s (zs ++ z :: (t, v) :: b :: l2) ->
  exists s',
    (h ← unlink_mid (heap s) (Some t);
     h ← free h (Some t);
     mret (SortTimerList h (head s) (tail s))) = Ok s' /\
    rep s' (zs ++ z :: b :: l2) /\ heap s' !! t = None /\
    agree_off (t :: locs (zs ++ z :: b :: l2)) (heap s) (heap s').
Proof.
  intros [Hnd Hhd Htl Hs].
  destruct (nodup_remove (zs ++ [z]) (t, v) (b :: l2)) as [Hnd' Ht];
    rewrite <- !app_assoc in *; cbn [app fst] in *; [done|].
  destruct (unlink_mid_spec (heap s) None None zs z (t, v) b l2) as (h1 & Hh1 & Hs1 & Ht1 & Hag1);
    [done..|]. cbn [fst snd] in *.
  erewrite bind_ok by exact Hh1. erewrite bind_ok by (eapply free_ok; exact Ht1).
  eexists; split; [reflexivity|]. cbn [heap]. split_ands; [constructor; cbn [heap head tail]| |].
  - done.
  - rewrite Hhd. by destruct zs.
  - intros _. rewrite Htl by (by destruct zs). by rewrite !last_of_app, !last_of_cons.
  - by apply dseg_delete_ne.
  - apply lookup_delete_eq.
  - apply agree_off_delete; [|set_solver].
    eapply agree_off_weaken; [exact Hag1|]. rewrite locs_app. cbn. set_solver.
Qed.

Lemma del_timer_rep s l1 t v l2 :
  rep s (l1 ++ (t, v) :: l2) ->
  exists s', del_timer s (Some t) = Ok s' /\ rep s' (l1 ++ l2) /\
    heap s' !! t = None /\
    agree_off (t :: locs (l1 ++ l2)) (heap s) (heap s').
Proof.
  intros Hrep. pose proof Hrep as [Hnd Hhd Htl Hs].
  destruct (nodup_mid l1 (t, v) l2 Hnd) as [Ht1 Ht2]. cbn [fst] in Ht1, Ht2.
  specialize (Htl ltac:(by destruct l1)). rewrite last_of_app, last_of_cons in Htl.
  assert (l2 <> [] -> Some t <> tail s) as Hnt.
  { intros Hne E. rewrite Htl in E. symmetry in E. by apply last_of_ne in E. }
  unfold del_timer. destruct l1 as [|a l1'] eqn:El1.
  - cbn [app first_of fst] in Hhd. destruct l2 as [|b l2].
    + rewrite decide_True by (by rewrite Hhd, Htl).
      destruct Hs as [Hl _]. erewrite bind_ok by (eapply free_ok; exact Hl).
      eexists; split; [reflexivity|]. split; [constructor; cbn; [constructor|done..]|]. cbn [heap].
      split; [apply lookup_delete_eq|].
      apply agree_off_delete; [apply agree_off_refl|set_solver].
    + rewrite decide_False by (intros [_ E]; by apply Hnt in E).
      rewrite decide_True by (by rewrite Hhd). by apply del_at_head with (v := v).
  - destruct (exists_last (l := l1)) as (zs & z & Hz); [by rewrite El1|].
    assert (Some t <> head s) as Hnh.
    { rewrite Hhd. cbn. intros [= ->]. set_solver. }
    rewrite <- El1, Hz in *. rewrite <- !app_assoc in *. cbn [app] in *.
    rewrite (decide_False (P := Some t = head s /\ _)) by (by intros [? _]).
    rewrite (decide_False (P := Some t = head s)) by done.
    destruct l2 as [|b l2].
    + rewrite decide_True by (by rewrite Htl). by apply del_at_tail with (v := v).
    + rewrite decide_False by (by apply Hnt). by apply del_in_middle with (v := v).
Qed.

(** ** Lemmas: expiry *)

Lemma tick_loop_spec fuel h cur xs :
  (length xs <= fuel)%nat -> NoDup (locs xs) -> ascending xs ->
  Forall (fun x => is_Some (cb_func x.2)) (due cur xs) ->
  dseg h None xs None ->
  exists h', tick_loop fuel h cur (first_of xs None)
      = Ok (h', first_of (pending cur xs) None, calls_of (due cur xs)) /\
    dseg h' None (pending cur xs) None /\
    (forall l, l ∈ locs (due cur xs) -> h' !! l = None) /\
    agree_off (locs xs) h h'.
Proof.
  revert fuel h; induction xs as [|[t v] xs IH]; intros fuel h Hf Hnd Hasc Hcb Hs.
  { exists h. destruct fuel; cbn; split_ands; try done; set_solver. }
  destruct fuel as [|fuel]; cbn [length] in Hf; [lia|].
  pose proof Hs as [Hl Hs']. cbn [first_of fst snd tick_loop] in *.
  erewrite bind_ok by (eapply get_val_ok; exact Hl). cbn [val].
  destruct (Z.ltb_spec cur (expire v)) as [Hlt|Hge].
  { destruct (ascending_none_due cur (t, v) xs) as [-> ->]; [done..|].
    exists h. split_ands; [done..|set_solver|done]. }
  rewrite due_cons in Hcb. rewrite due_cons, pending_cons.
  assert (key (t, v) <= cur) as Hkey by exact Hge.
  rewrite (decide_True (P := key (t, v) <= cur)) in Hcb by done.
  rewrite !(decide_True (P := key (t, v) <= cur)) by done.
  rewrite decide_False by lia.
  apply Forall_cons in Hcb as [[f Hcb] Hcbs]. cbn [snd] in Hcb.
  erewrite bind_ok by (unfold invoke; cbn; rewrite Hcb; reflexivity).
  erewrite bind_ok by (eapply get_next_ok; exact Hl). cbn [next].
  assert (exists h1, (match first_of xs None with
      | Some _ => set_prev h (first_of xs None) None | None => mret h end) = Ok h1 /\
      dseg h1 None xs None /\ h1 !! t = h !! t /\ agree_off (locs xs) h h1) as (h1 & Hh1 & Hs1 & Ht1 & Hag1).
  { destruct xs as [|b xs]; [by exists h|].
    destruct (cut_first_spec h None (t, v) b xs) as (h1 & ? & ? & ? & Hag); [done..|].
    exists h1. split_ands; [done..|]. eapply agree_off_weaken; [exact Hag|]. cbn. set_solver. }
  erewrite bind_ok by exact Hh1. rewrite Hl in Ht1.
  erewrite bind_ok by (eapply free_ok; exact Ht1).
  pose proof Hnd as [Ht Hnd']%NoDup_cons. cbn [fst] in Ht.
  destruct (IH fuel (delete t h1)) as (h' & Hr & Hs2 & Hfree & Hag2);
    [lia|done|by apply StronglySorted_inv in Hasc as [? _]|done|by apply dseg_delete_ne|].
  erewrite bind_ok by exact Hr. exists h'. split_ands; [|done| |].
  - cbn. rewrite Hcb. done.
  - intros l. rewrite locs_cons. intros [->|Hl']%elem_of_cons; [|by apply Hfree].
    cbn [fst]. rewrite Hag2 by done. apply lookup_delete_eq.
  - intros l. rewrite locs_cons. intros [Hne Hl']%not_elem_of_cons. cbn [fst] in Hne.
    rewrite Hag2, lookup_delete_ne by done. by apply Hag1.
Qed.

Lemma tick_rep s xs cur :
  rep s xs -> ascending xs -> Forall (fun x => is_Some (cb_func x.2)) (due cur xs) ->
  exists s', tick s cur = Ok (s', calls_of (due cur xs)) /\
    rep s' (pending cur xs) /\
    (forall l, l ∈ locs (due cur xs) -> heap s' !! l = None) /\
    agree_off (locs xs) (heap s) (heap s').
Proof.
  intros Hrep Hasc Hcb. pose proof Hrep as [Hnd Hhd Htl Hs]. unfold tick. rewrite Hhd.
  destruct (tick_loop_spec (size (heap s)) (heap s) cur xs) as (h' & Hr & Hs' & Hfree & Hag);
    [by eapply dseg_length|done..|].
  destruct xs as [|x ys].
  { exists s. split_ands; [done|done|set_solver|done]. }
  cbn [first_of] in Hr |- *. erewrite bind_ok by exact Hr.
  eexists; split; [reflexivity|]. split_ands; [constructor; cbn [heap head tail]|done|done].
  - eapply sublist_NoDup; [exact Hnd|]. apply fmap_sublist, sublist_filter.
  - done.
  - intros Hne. rewrite Htl by done.
    rewrite (ascending_split cur (x :: ys)) at 1 by done.
    rewrite last_of_app. by apply last_of_irrel.
  - done.
Qed.

(** The destructor frees the nodes of the list and nothing else. *)
Lemma destroy_loop_spec fuel h pp xs :
  (length xs <= fuel)%nat -> NoDup (locs xs) -> dseg h pp xs None ->
  exists h', destroy_loop fuel h (first_of xs None) = Ok h' /\
    forall l, h' !! l = if decide (l ∈ locs xs) then None else h !! l.
Proof.
  revert fuel h pp; induction xs as [|x xs IH]; intros fuel h pp Hf Hnd Hs.
  { exists h. by destruct fuel. }
  destruct fuel as [|fuel]; cbn [length] in Hf; [lia|].
  destruct Hs as [Hl Hs]. apply NoDup_cons in Hnd as [Ht Hnd].
  cbn [first_of destroy_loop].
  erewrite bind_ok by (eapply get_next_ok; exact Hl). cbn [next].
  erewrite bind_ok by (eapply free_ok; exact Hl).
  destruct (IH fuel (delete x.1 h) (Some x.1)) as (h' & Hr & Hh');
    [lia|done|by apply dseg_delete_ne|].
  exists h'. split; [done|]. intros l. rewrite Hh', locs_cons, lookup_delete.
  repeat case_decide; set_solver.
Qed.

(** ** The container implements the timer interface *)

(** [timer->expire = e; adjust_timer(timer)] *)
Definition touch (s : sort_timer_list) (t : loc) (e : Z) : res sort_timer_list :=
  v ← get_val (heap s) (Some t);
  h ← set_val (heap s) (Some t) (set_expire e v);
  adjust_timer (SortTimerList h (head s) (tail s)) (Some t).

(** [timer = new util_timer; ...; add_timer(timer)] *)
Definition new_add (s : sort_timer_list) (t : loc) (v : util_timer) : res sort_timer_list :=
  add_timer (SortTimerList (<[t := Node v None None]> (heap s)) (head s) (tail s)) (Some t).

(** The list, sorted, holds every live node. *)
Definition holds (s : sort_timer_list) (M : gmap loc util_timer) : Prop :=
  exists xs, rep s xs /\ ascending xs /\
    (forall l, is_Some (heap s !! l) -> l ∈ locs xs) /\ M = list_to_map xs.

Lemma holds_split s M t v :
  holds s M -> M !! t = Some v ->
  exists l1 l2, rep s (l1 ++ (t, v) :: l2) /\ ascending (l1 ++ (t, v) :: l2) /\
    (forall l, is_Some (heap s !! l) -> l ∈ locs (l1 ++ (t, v) :: l2)) /\
    NoDup (locs (l1 ++ l2)) /\ t ∉ locs (l1 ++ l2) /\
    M = <[t := v]> (list_to_map (l1 ++ l2)).
Proof.
  intros (xs & Hrep & Hasc & Hdom & ->) Hv.
  apply elem_of_list_to_map_2, list_elem_of_split in Hv as (l1 & l2 & ->).
  exists l1, l2. pose proof (rep_nodup _ _ Hrep) as Hnd.
  destruct (nodup_remove _ _ _ Hnd) as [Hnd' Ht].
  split_ands; [done..|].
  rewrite <- list_to_map_cons. apply list_to_map_proper; [done|].
  by rewrite Permutation_middle.
Qed.

(** An address with no live object holds no timer. *)
Lemma holds_fresh s M t : heap s !! t = None -> holds s M -> M !! t = None.
Proof.
  intros Hn (xs & [_ _ _ Hs] & _ & _ & ->). apply not_elem_of_list_to_map_1.
  intros (x & -> & Hx)%list_elem_of_fmap.
  destruct (dseg_lookup _ _ _ _ _ Hs Hx) as (p & n & Hl). by rewrite Hl in Hn.
Qed.

Lemma ascending_remove l1 x l2 : ascending (l1 ++ x :: l2) -> ascending (l1 ++ l2).
Proof.
  rewrite !ascending_app. intros (H1 & H2 & H3). split_ands; [done| |].
  - by apply StronglySorted_inv in H2 as [? _].
  - intros y z Hy Hz. apply H3; [done|]. by apply list_elem_of_further.
Qed.

Lemma holds_intro s t v ys :
  rep s (insert_timer (t, v) ys) -> ascending ys ->
  (forall l, is_Some (heap s !! l) -> l ∈ locs ((t, v) :: ys)) ->
  holds s (<[t := v]> (list_to_map ys)).
Proof.
  intros Hrep Hasc Hdom. exists (insert_timer (t, v) ys).
  split_ands; [done|by apply insert_timer_ascending| |].
  - intros l Hl. rewrite insert_timer_locs. by apply Hdom.
  - rewrite <- list_to_map_cons. apply list_to_map_proper.
    + apply rep_nodup in Hrep. by rewrite insert_timer_locs in Hrep.
    + by rewrite insert_timer_Permutation.
Qed.

Lemma new_add_holds s M t v :
  holds s M -> M !! t = None ->
  exists s', new_add s t v = Ok s' /\ holds s' (<[t := v]> M).
Proof.
  intros (xs & [Hnd Hhd Htl Hs] & Hasc & Hdom & ->) Ht.
  apply not_elem_of_list_to_map_2 in Ht.
  destruct (add_timer_rep (SortTimerList (<[t := Node v None None]> (heap s)) (head s) (tail s))
    xs t v) as (s' & Hr & Hrep' & Hag); cbn [heap].
  - constructor; cbn; [done..|]. by apply dseg_insert_ne.
  - apply lookup_insert_eq.
  - done.
  - exists s'. split; [exact Hr|]. eapply holds_intro; [done|done|].
    intros l Hl. destruct (decide (l ∈ t :: locs xs)) as [|Hn]; [done|].
    rewrite Hag in Hl by done. cbn [heap] in Hl.
    rewrite lookup_insert_ne in Hl by set_solver.
    apply Hdom in Hl. set_solver.
Qed.

Lemma touch_holds s M t v e :
  holds s M -> M !! t = Some v -> expire v <= e ->
  exists s', touch s t e = Ok s' /\ holds s' (<[t := set_expire e v]> M).
Proof.
  intros Hh Hv He.
  destruct (holds_split _ _ _ _ Hh Hv) as (l1 & l2 & [Hnd Hhd Htl Hs] & Hasc & Hdom & Hnd' & Ht & ->).
  unfold touch.
  assert (heap s !! t = Some (Node v (last_of None l1) (first_of l2 None))) as Hl
    by by apply dseg_app in Hs as [_ [Hl _]].
  erewrite bind_ok by (eapply get_val_ok; exact Hl). cbn [val].
  destruct (set_val_spec (heap s) None None l1 t v (set_expire e v) l2) as (h1 & Hh1 & Hs1 & Hag1);
    [done..|].
  erewrite bind_ok by exact Hh1.
  destruct (adjust_timer_rep (SortTimerList h1 (head s) (tail s)) l1 t (set_expire e v) l2)
    as (s' & Hr & Hrep' & Hag).
  - constructor; cbn [heap head tail]; [|by rewrite Hhd, !first_of_app| |done].
    + rewrite locs_middle. by constructor.
    + intros _. rewrite Htl by (by destruct l1). by rewrite !last_of_app, !last_of_cons.
  - apply ascending_app in Hasc as (_ & _ & Hle). apply Forall_forall. intros y Hy.
    specialize (Hle y (t, v) Hy ltac:(set_solver)). unfold key in *. cbn in *. lia.
  - exists s'. split; [exact Hr|]. rewrite insert_insert_eq.
    eapply holds_intro; [done|by eapply ascending_remove|].
    intros l Hl'. rewrite locs_cons. cbn [fst].
    destruct (decide (l ∈ t :: locs (l1 ++ l2))) as [|Hn]; [done|].
    rewrite Hag in Hl' by done. cbn [heap] in Hl'. rewrite Hag1 in Hl' by set_solver.
    apply Hdom in Hl'. by rewrite locs_middle in Hl'.
Qed.

Lemma del_timer_holds s M t v :
  holds s M -> M !! t = Some v ->
  exists s', del_timer s (Some t) = Ok s' /\ holds s' (delete t M).
Proof.
  intros Hh Hv.
  destruct (holds_split _ _ _ _ Hh Hv) as (l1 & l2 & Hrep & Hasc & Hdom & Hnd' & Ht & ->).
  destruct (del_timer_rep s l1 t v l2 Hrep) as (s' & Hr & Hrep' & Hgone & Hag).
  exists s'. split; [done|]. exists (l1 ++ l2).
  split_ands; [done|by eapply ascending_remove| |].
  - intros l Hl. destruct (decide (l ∈ t :: locs (l1 ++ l2))) as [[->|?]%elem_of_cons|Hn].
    + rewrite Hgone in Hl. by destruct Hl.
    + done.
    + rewrite Hag in Hl by done. apply Hdom in Hl. rewrite locs_middle in Hl. set_solver.
  - apply delete_insert_id. by apply not_elem_of_list_to_map_1.
Qed.

Lemma tick_holds s M cur :
  holds s M -> callable M ->
  exists s' ys, tick s cur = Ok (s', calls_of ys) /\
    holds s' (filter (fun kv => cur < expire kv.2) M) /\
    ascending ys /\ ys ≡ₚ map_to_list (filter (fun kv => expire kv.2 <= cur) M).
Proof.
  intros (xs & Hrep & Hasc & Hdom & ->) Hcb. pose proof (rep_nodup _ _ Hrep) as Hnd.
  destruct (tick_rep s xs cur) as (s' & Hr & Hrep' & Hfree & Hag); [done|done| |].
  { apply Forall_forall. intros x [_ Hx]%list_elem_of_filter.
    destruct x as [t v]. eapply (Hcb t v). by apply elem_of_list_to_map_1. }
  exists s', (due cur xs). split_ands; [done| |by apply ascending_due|].
  - exists (pending cur xs). split_ands; [done|by apply ascending_pending| |].
    + intros l Hl. destruct (decide (l ∈ locs xs)) as [Hin|Hn].
      * rewrite (ascending_split cur xs) in Hin by done. rewrite locs_app in Hin.
        apply elem_of_app in Hin as [Hin|Hin]; [|done].
        rewrite Hfree in Hl by done. by destruct Hl.
      * rewrite Hag in Hl by done. by apply Hdom in Hl.
    + unfold pending. by rewrite list_to_map_filter.
  - rewrite <- list_to_map_filter by done. symmetry. apply map_to_list_to_map.
    apply rep_nodup in Hrep.
    eapply sublist_NoDup; [exact Hnd|]. apply fmap_sublist, sublist_filter.
Qed.

#[export] Instance list_timer_queue : TimerQueue sort_timer_list := {
  q_holds := holds; q_add := new_add; q_touch := touch;
  q_del s t := del_timer s (Some t); q_tick := tick;
  q_add_law := new_add_holds; q_touch_law := touch_holds;
  q_del_law := del_timer_holds; q_tick_law := tick_holds;
}.

(** ** Properties *)

(** A list of three timers to evaluate the operations on. *)
Definition tm (e u : Z) : util_timer := UtilTimer e (Some 1) u.
Definition three : list (loc * util_timer) :=
  [(1%positive, tm 10 1); (2%positive, tm 20 2); (3%positive, tm 20 3)].
Definition heap_three : gmap loc (node util_timer) :=
  {[ 1%positive := Node (tm 10 1) None (Some 2%positive);
     2%positive := Node (tm 20 2) (Some 1%positive) (Some 3%positive);
     3%positive := Node (tm 20 3) (Some 2%positive) None;
     4%positive := Node (tm 20 4) None None ]}.
Definition list_three : sort_timer_list :=
  SortTimerList heap_three (Some 1%positive) (Some 3%positive).

Ltac rep_example :=
  constructor; [apply (bool_decide_unpack _); vm_compute; exact I|reflexivity|reflexivity
               |vm_compute; repeat split].

(** [C8] Adding a freshly created timer to a list laid out in the heap as [xs]
    returns normally, leaves the heap laid out as [xs] with the timer inserted
    before the first strictly later one (so an ascending list stays ascending
    and timers with equal expiry keep their order of arrival), and writes to no
    object but the timer and the nodes of the list. *)
Theorem add_timer_inserts s xs t v :
  rep s xs -> ascending xs ->
  heap s !! t = Some (Node v None None) -> t ∉ locs xs ->
  exists s', add_timer s (Some t) = Ok s' /\
    rep s' (insert_timer (t, v) xs) /\ ascending (insert_timer (t, v) xs) /\
    agree_off (t :: locs xs) (heap s) (heap s').
Proof.
  intros Hrep Hasc Hl Ht.
  destruct (add_timer_rep s xs t v Hrep Hl Ht) as (s' & Hr & Hrep' & Hag).
  exists s'. split_ands; [done..|by apply insert_timer_ascending|done].
Qed.

Lemma add_timer_inserts_witness :
  exists s', add_timer list_three (Some 4%positive) = Ok s' /\
    rep s' (insert_timer (4%positive, tm 20 4) three) /\
    ascending (insert_timer (4%positive, tm 20 4) three) /\
    agree_off (4%positive :: locs three) (heap list_three) (heap s').
Proof.
  apply (add_timer_inserts list_three three 4%positive (tm 20 4)).
  - rep_example.
  - repeat constructor; unfold key_le, key; cbn; lia.
  - reflexivity.
  - apply (bool_decide_unpack _). vm_compute. exact I.
Defined.

(** Adjusting a timer whose expiry was moved back (nothing in front of it
    expires later than it) returns normally and leaves the list as if the timer
    had been taken out and inserted anew, wherever it stood: alone, at the
    head, in the middle or at the tail. *)
Theorem adjust_timer_reinserts s l1 t v l2 :
  rep s (l1 ++ (t, v) :: l2) -> ascending (l1 ++ l2) ->
  Forall (fun y => key y <= expire v) l1 ->
  exists s', adjust_timer s (Some t) = Ok s' /\
    rep s' (insert_timer (t, v) (l1 ++ l2)) /\
    ascending (insert_timer (t, v) (l1 ++ l2)) /\
    agree_off (t :: locs (l1 ++ l2)) (heap s) (heap s').
Proof.
  intros Hrep Hasc Hle.
  destruct (adjust_timer_rep s l1 t v l2 Hrep Hle) as (s' & Hr & Hrep' & Hag).
  exists s'. split_ands; [done..|by apply insert_timer_ascending|done].
Qed.

(** The second of three timers, moved back to 30. *)
Definition list_moved : sort_timer_list :=
  SortTimerList (<[2%positive := Node (tm 30 2) (Some 1%positive) (Some 3%positive)]> heap_three)
    (Some 1%positive) (Some 3%positive).

Lemma adjust_timer_reinserts_witness :
  exists s', adjust_timer list_moved (Some 2%positive) = Ok s' /\
    rep s' [(1%positive, tm 10 1); (3%positive, tm 20 3); (2%positive, tm 30 2)] /\
    ascending [(1%positive, tm 10 1); (3%positive, tm 20 3); (2%positive, tm 30 2)] /\
    agree_off [2%positive; 1%positive; 3%positive] (heap list_moved) (heap s').
Proof.
  apply (adjust_timer_reinserts list_moved [(1%positive, tm 10 1)] 2%positive (tm 30 2)
    [(3%positive, tm 20 3)]).
  - rep_example.
  - repeat constructor; unfold key_le, key; cbn; lia.
  - repeat constructor; unfold key; cbn; lia.
Defined.

(** Deleting a timer of the list, wherever it stands, returns normally,
    unlinks exactly that timer, frees it, and touches nothing but the list. *)
Theorem del_timer_removes s l1 t v l2 :
  rep s (l1 ++ (t, v) :: l2) ->
  exists s', del_timer s (Some t) = Ok s' /\ rep s' (l1 ++ l2) /\
    heap s' !! t = None /\
    agree_off (t :: locs (l1 ++ l2)) (heap s) (heap s').
Proof. apply del_timer_rep. Qed.

Lemma del_timer_removes_witness :
  exists s', del_timer list_three (Some 3%positive) = Ok s' /\
    rep s' [(1%positive, tm 10 1); (2%positive, tm 20 2)] /\
    heap s' !! 3%positive = None /\
    agree_off [3%positive; 1%positive; 2%positive] (heap list_three) (heap s').
Proof.
  apply (del_timer_removes list_three [(1%positive, tm 10 1); (2%positive, tm 20 2)]
    3%positive (tm 20 3) []).
  rep_example.
Defined.

(** [C16] A tick at time [cur] on an ascending list whose due timers have
    callbacks terminates, calls the callback of every timer with
    [expire <= cur] once, in list order, frees exactly those timers and keeps
    the others. *)
Theorem tick_runs_due s xs cur :
  rep s xs -> ascending xs -> Forall (fun x => is_Some (cb_func x.2)) (due cur xs) ->
  exists s', tick s cur = Ok (s', calls_of (due cur xs)) /\
    rep s' (pending cur xs) /\
    (forall l, l ∈ locs (due cur xs) -> heap s' !! l = None) /\
    agree_off (locs xs) (heap s) (heap s').
Proof. apply tick_rep. Qed.

Lemma tick_runs_due_witness :
  exists s', tick list_three 15 = Ok (s', [(1, 1)]) /\
    rep s' [(2%positive, tm 20 2); (3%positive, tm 20 3)] /\
    (forall l, l ∈ [1%positive] -> heap s' !! l = None) /\
    agree_off (locs three) (heap list_three) (heap s').
Proof.
  apply (tick_runs_due list_three three 15).
  - rep_example.
  - repeat constructor; unfold key_le, key; cbn; lia.
  - vm_compute. repeat (constructor; [by eexists|]). constructor.
Defined.

(** The destructor terminates and frees the nodes of the list and nothing
    else. *)
Theorem destroy_frees s xs :
  rep s xs ->
  exists h, destroy s = Ok h /\
    forall l, h !! l = if decide (l ∈ locs xs) then None else heap s !! l.
Proof.
  intros [Hnd Hhd _ Hs]. unfold destroy. rewrite Hhd.
  eapply destroy_loop_spec; [by eapply dseg_length|done..].
Qed.

Lemma destroy_frees_witness :
  exists h, destroy list_three = Ok h /\
    forall l, h !! l = if decide (l ∈ locs three) then None else heap list_three !! l.
Proof. apply destroy_frees. rep_example. Defined.
