(* ===== verification/WheelTimer.v ===== *)
(** * The timing wheel

    The class [time_wheel] of socket/timer/time_wheel_timer.h: sixty slots, each
    the head of an unordered list of [tw_timer]s on the heap, and the slot the
    hand points to.  The specification is a table of delays: every operation
    refines the obvious one on the table. *)

From S2P Require Import Prelude Dll.

(** ** Data (lines 23-56) *)

(** [tw_timer] without its links; the callback is an id, [None] for null. *)
Record tw_timer := TwTimer {
  rotation : Z;
  time_slot : Z;
  tw_cb_func : option Z;
  tw_user_data : Z }.

Definition N : Z := 60.
Definition SI : Z := 1.

Record time_wheel := TimeWheel {
  tw_heap : gmap loc (node tw_timer);
  slots : list ptr;
  cur_slot : Z }.

Definition new_wheel : time_wheel := TimeWheel ∅ (replicate (Z.to_nat N) None) 0.

(** ** Operations *)

(** [new tw_timer(rot, ts)], at the address [t] *)
Definition new_tw_timer (rot ts : Z) : node tw_timer := Node (TwTimer rot ts None 0) None None.

(** [add_timer(timeout)]; [t] is the address the allocator returns. *)
Definition add_timer (t : loc) (timeout : Z) (w : time_wheel) : res (time_wheel * ptr) :=
  if decide (timeout < 0) then Ok (w, None)
  else
    let ticks := if decide (timeout < SI) then 1 else timeout / SI in
    let rotation := ticks / N in
    let ts := (cur_slot w + ticks mod N) mod N in
    let h := <[t := new_tw_timer rotation ts]> (tw_heap w) in
    hd ← aget (slots w) ts;
    match hd with
    | None =>
        sl ← aset (slots w) ts (Some t);
        Ok (TimeWheel h sl (cur_slot w), Some t)
    | Some _ =>
        h ← set_next h (Some t) hd;
        h ← set_prev h hd (Some t);
        sl ← aset (slots w) ts (Some t);
        Ok (TimeWheel h sl (cur_slot w), Some t)
    end.

(** [if (p) p->prev = v] *)
Definition set_prev_opt (h : gmap loc (node tw_timer)) (p v : ptr) : res (gmap loc (node tw_timer)) :=
  match p with Some _ => set_prev h p v | None => Ok h end.

(** [timer->prev->next = timer->next;]
    [if (timer->next) timer->next->prev = timer->prev;] *)
Definition unlink_opt (h : gmap loc (node tw_timer)) (t : ptr) : res (gmap loc (node tw_timer)) :=
  p ← get_prev h t;
  n ← get_next h t;
  h ← set_next h p n;
  n ← get_next h t;
  p ← get_prev h t;
  set_prev_opt h n p.

(** [del_timer(timer)] *)
Definition del_timer (timer : ptr) (w : time_wheel) : res time_wheel :=
  match timer with
  | None => Ok w
  | Some _ =>
      v ← get_val (tw_heap w) timer;
      let ts := time_slot v in
      hd ← aget (slots w) ts;
      if decide (timer = hd) then
        nx ← get_next (tw_heap w) hd;
        sl ← aset (slots w) ts nx;
        h ← set_prev_opt (tw_heap w) nx None;
        h ← free h timer;
        Ok (TimeWheel h sl (cur_slot w))
      else
        h ← unlink_opt (tw_heap w) timer;
        h ← free h timer;
        Ok (TimeWheel h (slots w) (cur_slot w))
  end.

(** [tmp->cb_func(tmp->user_data)] *)
Definition invoke (v : tw_timer) : res (Z * Z) :=
  f ← from_opt NullCall (tw_cb_func v); Ok (f, tw_user_data v).

(** The loop of [tick]; the calls made are returned in order. *)
Fixpoint tick_loop (fuel : nat) (h : gmap loc (node tw_timer)) (sl : list ptr) (cur : Z) (tmp : ptr)
    : res (gmap loc (node tw_timer) * list ptr * list (Z * Z)) :=
  match tmp with
  | None => Ok (h, sl, [])
  | Some _ =>
      match fuel with
      | O => Err OutOfFuel
      | S fuel =>
          v ← get_val h tmp;
          if decide (rotation v > 0) then
            h ← set_val h tmp
              (TwTimer (rotation v - 1) (time_slot v) (tw_cb_func v) (tw_user_data v));
            nx ← get_next h tmp;
            tick_loop fuel h sl cur nx
          else
            c ← invoke v;
            hd ← aget sl cur;
            if decide (tmp = hd) then
              nx ← get_next h tmp;
              sl ← aset sl cur nx;
              h ← free h tmp;
              hd ← aget sl cur;
              h ← set_prev_opt h hd None;
              '(h, sl, cs) ← tick_loop fuel h sl cur hd;
              Ok (h, sl, c :: cs)
            else
              h ← unlink_opt h tmp;
              tmp2 ← get_next h tmp;
              h ← free h tmp;
              '(h, sl, cs) ← tick_loop fuel h sl cur tmp2;
              Ok (h, sl, c :: cs)
      end
  end.

(** [tick()]; a list has no more nodes than the heap. *)
Definition tick (w : time_wheel) : res (time_wheel * list (Z * Z)) :=
  tmp ← aget (slots w) (cur_slot w);
  '(h, sl, cs) ← tick_loop (S (size (tw_heap w))) (tw_heap w) (slots w) (cur_slot w) tmp;
  Ok (TimeWheel h sl ((cur_slot w + 1) mod N), cs).

(** [~time_wheel()] *)
Fixpoint destroy_slot (fuel : nat) (h : gmap loc (node tw_timer)) (tmp : ptr)
    : res (gmap loc (node tw_timer)) :=
  match tmp with
  | None => Ok h
  | Some _ =>
      match fuel with
      | O => Err OutOfFuel
      | S fuel => nx ← get_next h tmp; h ← free h tmp; destroy_slot fuel h nx
      end
  end.

Fixpoint destroy_slots (h : gmap loc (node tw_timer)) (sl : list ptr)
    : res (gmap loc (node tw_timer)) :=
  match sl with
  | [] => Ok h
  | hd :: sl => h ← destroy_slot (S (size h)) h hd; destroy_slots h sl
  end.

Definition destroy (w : time_wheel) : res (gmap loc (node tw_timer)) :=
  destroy_slots (tw_heap w) (slots w).

(** The user of a timer fills its public members. *)
Definition assign (t : ptr) (cb data : Z) (w : time_wheel) : res time_wheel :=
  v ← get_val (tw_heap w) t;
  h ← set_val (tw_heap w) t (TwTimer (rotation v) (time_slot v) (Some cb) data);
  Ok (TimeWheel h (slots w) (cur_slot w)).

(** ** The representation: the timers of each slot *)

Abbreviation entry := (loc * tw_timer)%type.
Implicit Types (sls : nat -> list entry) (w : time_wheel).

Record rep w sls : Prop := {
  rep_len : length (slots w) = 60%nat;
  rep_cur : 0 <= cur_slot w < 60;
  rep_head : forall i, (i < 60)%nat -> slots w !! i = Some (first_of (sls i) None);
  rep_seg : forall i, (i < 60)%nat -> dseg (tw_heap w) None (sls i) None;
  rep_nodup : forall i, NoDup (locs (sls i));
  rep_disj : forall i j l, l ∈ locs (sls i) -> l ∈ locs (sls j) -> i = j;
  rep_out : forall i, (60 <= i)%nat -> sls i = [];
  rep_dom : forall l, is_Some (tw_heap w !! l) -> exists i, l ∈ locs (sls i);
  rep_slot : forall i x, x ∈ sls i -> time_slot x.2 = Z.of_nat i /\ 0 <= rotation x.2 }.

Lemma in_locs (xs : list entry) x : x ∈ xs -> x.1 ∈ locs xs.
Proof. intros H. apply list_elem_of_fmap. eauto. Qed.

Lemma rep_new : rep new_wheel (fun _ => []).
Proof.
  split; try done.
  - intros i Hi. cbn [new_wheel slots]. by apply lookup_replicate_2.
  - intros. constructor.
  - intros i j l []%not_elem_of_nil.
  - intros l [x Hx]. cbn in Hx. by rewrite lookup_empty in Hx.
  - intros i x []%not_elem_of_nil.
Qed.

(** Replacing the list of one slot. *)
Definition upd sls (i : nat) (xs : list entry) : nat -> list entry :=
  fun j => if decide (j = i) then xs else sls j.

Lemma upd_eq sls i xs : upd sls i xs i = xs.
Proof. unfold upd. by rewrite decide_True. Qed.
Lemma upd_ne sls i j xs : j <> i -> upd sls i xs j = sls j.
Proof. intros. unfold upd. by rewrite decide_False. Qed.

Lemma rep_update w sls i xs h' sl' :
  rep w sls -> (i < 60)%nat -> NoDup (locs xs) -> dseg h' None xs None ->
  sl' = <[i := first_of xs None]> (slots w) ->
  (forall l, l ∉ locs (sls i) -> l ∉ locs xs -> h' !! l = tw_heap w !! l) ->
  (forall l, l ∈ locs xs -> l ∈ locs (sls i) \/ tw_heap w !! l = None) ->
  (forall l, is_Some (h' !! l) -> l ∈ locs (sls i) -> l ∈ locs xs) ->
  Forall (fun x => time_slot x.2 = Z.of_nat i /\ 0 <= rotation x.2) xs ->
  rep (TimeWheel h' sl' (cur_slot w)) (upd sls i xs).
Proof.
  intros [Hlen Hcur Hhd Hseg Hnd Hdj Hout Hdom Hslot] Hi Hndx Hsx -> Hag Hnew Hdel Hxs.
  assert (forall j l, j <> i -> l ∈ locs (sls j) -> l ∉ locs (sls i) /\ l ∉ locs xs) as Hoth.
  { intros j l Hji Hl. split; [intros Hl'; by apply Hji, (Hdj j i l)|].
    intros Hx. destruct (Hnew l Hx) as [Hl'|Hn]; [by apply Hji, (Hdj j i l)|].
    apply list_elem_of_fmap in Hl as (x & -> & Hx').
    destruct (decide (j < 60)%nat) as [Hj|Hj]; [|rewrite Hout in Hx' by lia; by apply not_elem_of_nil in Hx'].
    destruct (dseg_lookup _ _ _ _ _ (Hseg j Hj) Hx') as (? & ? & ?). congruence. }
  split; cbn [slots cur_slot tw_heap].
  - by rewrite length_insert.
  - done.
  - intros j Hj. destruct (decide (j = i)) as [->|Hji].
    + rewrite upd_eq. apply list_lookup_insert_eq. lia.
    + rewrite upd_ne by done. rewrite list_lookup_insert_ne by done. by apply Hhd.
  - intros j Hj. destruct (decide (j = i)) as [->|Hji]; [by rewrite upd_eq|].
    rewrite upd_ne by done. eapply dseg_frame; [by apply Hseg|].
    intros l Hl. apply Hag; by apply (Hoth j).
  - intros j. destruct (decide (j = i)) as [->|Hji]; [by rewrite upd_eq|by rewrite upd_ne].
  - intros j k l. destruct (decide (j = i)) as [->|Hji], (decide (k = i)) as [->|Hki];
      rewrite ?upd_eq, ?upd_ne by done; [done|..].
    + intros H1 H2. by destruct (Hoth k l Hki H2).
    + intros H1 H2. by destruct (Hoth j l Hji H1).
    + apply Hdj.
  - intros j Hj. rewrite upd_ne by lia. by apply Hout.
  - intros l Hl. destruct (decide (l ∈ locs xs)) as [Hx|Hx]; [exists i; by rewrite upd_eq|].
    destruct (decide (l ∈ locs (sls i))) as [Hx'|Hx']; [by destruct (Hx (Hdel l Hl Hx'))|].
    rewrite Hag in Hl by done. destruct (Hdom l Hl) as [j Hj].
    exists j. rewrite upd_ne; [done|]. by intros ->.
  - intros j x. destruct (decide (j = i)) as [->|Hji].
    + rewrite upd_eq. by rewrite Forall_forall in Hxs; apply Hxs.
    + rewrite upd_ne by done. apply Hslot.
Qed.

(** ** The specification: a table of delays *)

(** A timer that fires after [left] more ticks have passed. *)
Record pending_timer := PendingTimer { left : Z; p_cb : option Z; p_data : Z }.

(** How many ticks remain: the distance of the slot plus the full turns. *)
Definition view (cur : Z) (v : tw_timer) : pending_timer :=
  PendingTimer ((time_slot v - cur) mod N + N * rotation v) (tw_cb_func v) (tw_user_data v).

Definition wf w : Prop := exists sls, rep w sls.
Definition vals w : gmap loc tw_timer := val <$> tw_heap w.
Definition table w : gmap loc pending_timer := view (cur_slot w) <$> vals w.

Lemma rep_vals w sls l v : rep w sls -> vals w !! l = Some v <-> exists i, (l, v) ∈ sls i.
Proof.
  intros Hr. unfold vals. rewrite lookup_fmap. split.
  - destruct (tw_heap w !! l) as [n|] eqn:E; [|done]. intros [= <-].
    destruct (rep_dom _ _ Hr l) as [i Hi]; [eauto|]. exists i.
    apply list_elem_of_fmap in Hi as ([l' v'] & -> & Hx).
    destruct (decide (i < 60)%nat) as [H60|H60];
      [|rewrite (rep_out _ _ Hr) in Hx by lia; by apply not_elem_of_nil in Hx].
    destruct (dseg_lookup _ _ _ _ _ (rep_seg _ _ Hr i H60) Hx) as (p & q & E').
    cbn in E, E'. rewrite E in E'. by injection E' as ->.
  - intros [i Hx]. destruct (decide (i < 60)%nat) as [H60|H60];
      [|rewrite (rep_out _ _ Hr) in Hx by lia; by apply not_elem_of_nil in Hx].
    destruct (dseg_lookup _ _ _ _ _ (rep_seg _ _ Hr i H60) Hx) as (p & q & E').
    cbn in E'. by rewrite E'.
Qed.

Lemma rep_fresh w sls l i : rep w sls -> tw_heap w !! l = None -> l ∉ locs (sls i).
Proof.
  intros Hr Hl Hin. apply list_elem_of_fmap in Hin as ([l' v] & -> & Hx).
  assert (vals w !! l' = Some v) as Hv by (apply (rep_vals _ _ _ _ Hr); eauto).
  unfold vals in Hv. rewrite lookup_fmap in Hv. cbn in Hl. by rewrite Hl in Hv.
Qed.

Lemma upd_elem sls i xs l v :
  (exists j, (l, v) ∈ upd sls i xs j) <-> (l, v) ∈ xs \/ exists j, j <> i /\ (l, v) ∈ sls j.
Proof.
  split.
  - intros [j Hj]. destruct (decide (j = i)) as [->|Hji]; [left; by rewrite upd_eq in Hj|].
    right. exists j. by rewrite upd_ne in Hj.
  - intros [Hx|(j & Hji & Hj)]; [exists i; by rewrite upd_eq|]. exists j. by rewrite upd_ne.
Qed.

(** Two tables with the same entries are equal. *)
Lemma vals_eq w' sls' (M : gmap loc tw_timer) :
  rep w' sls' -> (forall l v, (exists i, (l, v) ∈ sls' i) <-> M !! l = Some v) -> vals w' = M.
Proof.
  intros Hr H. apply map_eq. intros l. apply option_eq. intros v. by rewrite (rep_vals _ _ _ _ Hr), H.
Qed.

Lemma rep_unique w sls i j l v v' : rep w sls -> (l, v) ∈ sls i -> (l, v') ∈ sls j -> i = j /\ v = v'.
Proof.
  intros Hr H1 H2. split.
  - apply (rep_disj _ _ Hr i j l); [by apply (in_locs _ (l, v))|by apply (in_locs _ (l, v'))].
  - assert (vals w !! l = Some v) as E by (apply (rep_vals _ _ _ _ Hr); eauto).
    assert (vals w !! l = Some v') as E' by (apply (rep_vals _ _ _ _ Hr); eauto). congruence.
Qed.

(** ** Adding *)

(** A new timer at the head of slot [i]. *)
Lemma rep_added w sls i t v h' :
  rep w sls -> tw_heap w !! t = None -> (i < 60)%nat -> time_slot v = Z.of_nat i -> 0 <= rotation v ->
  dseg h' None ((t, v) :: sls i) None -> agree_off (t :: locs (sls i)) (tw_heap w) h' ->
  let w' := TimeWheel h' (<[i := Some t]> (slots w)) (cur_slot w) in
  wf w' /\ vals w' = <[t := v]> (vals w).
Proof.
  intros Hr Ht Hi Hts Hrot Hs Hag w'.
  assert (rep w' (upd sls i ((t, v) :: sls i))) as Hr'.
  { apply (rep_update w sls i); try done.
    - constructor; [by apply (rep_fresh w)|by apply (rep_nodup _ _ Hr)].
    - intros l Hl1 Hl2. apply Hag. set_solver.
    - intros l [->|Hl]%elem_of_cons; [by right|by left].
    - intros l _ Hl. by apply list_elem_of_further.
    - constructor; [cbn; lia|]. apply Forall_forall. intros x Hx. by apply (rep_slot _ _ Hr). }
  split; [by eexists|]. apply (vals_eq _ _ _ Hr'). intros l v'. rewrite upd_elem.
  destruct (decide (l = t)) as [->|Hlt].
  - rewrite lookup_insert_eq. split.
    + intros [[Hx|Hx]%elem_of_cons|(j & _ & Hx)]; [by injection Hx as <-|..];
        exfalso; (eapply (rep_fresh w sls t); [exact Hr|exact Ht|apply (in_locs _ (t, v')), Hx]).
    + intros [= <-]. left. by apply list_elem_of_here.
  - rewrite lookup_insert_ne by done. rewrite (rep_vals _ _ _ _ Hr). split.
    + intros [[Hx|Hx]%elem_of_cons|(j & _ & Hx)]; [by injection Hx as -> _|eauto..].
    + intros [j Hx]. destruct (decide (j = i)) as [->|Hji]; [|eauto].
      left. by apply list_elem_of_further.
Qed.

Lemma add_timer_vals w t timeout :
  wf w -> tw_heap w !! t = None -> 0 <= timeout ->
  let ticks := Z.max 1 timeout in
  exists w', add_timer t timeout w = Ok (w', Some t) /\ wf w' /\ cur_slot w' = cur_slot w /\
    vals w' = <[t := TwTimer (ticks / N) ((cur_slot w + ticks mod N) mod N) None 0]> (vals w).
Proof.
  intros [sls Hr] Ht H0 ticks. unfold add_timer. rewrite decide_False by lia.
  assert ((if decide (timeout < SI) then 1 else timeout / SI) = ticks) as ->.
  { unfold SI, ticks. case_decide; [lia|]. rewrite Z.div_1_r. lia. }
  cbv zeta. set (ts := (cur_slot w + ticks mod N) mod N).
  assert (0 <= ts < 60) as Hts by (apply Z.mod_pos_bound; unfold N; lia).
  set (i := Z.to_nat ts). assert (i < 60)%nat as Hi by lia.
  set (v := TwTimer (ticks / N) ts None 0).
  assert (0 <= ticks / N) as Hrot by (apply Z.div_pos; unfold N; lia).
  rewrite (bind_ok _ _ _ (aget_ok _ ts _ ltac:(lia) (rep_head _ _ Hr i Hi))).
  assert (forall h', dseg h' None ((t, v) :: sls i) None -> agree_off (t :: locs (sls i)) (tw_heap w) h' ->
    exists w', Ok (TimeWheel h' (<[i := Some t]> (slots w)) (cur_slot w), Some t) = Ok (w', Some t) /\
      wf w' /\ cur_slot w' = cur_slot w /\ vals w' = <[t := v]> (vals w)) as Hfin.
  { intros h' Hs Hag. eexists. split; [done|].
    destruct (rep_added w sls i t v h') as [? ?]; try done; cbn; lia. }
  assert (aset (slots w) ts (Some t) = Ok (<[i := Some t]> (slots w))) as Haset
    by (apply aset_ok; rewrite (rep_len _ _ Hr); lia).
  pose proof (rep_fresh w sls t i Hr Ht) as Hfr. pose proof (rep_seg _ _ Hr i Hi) as Hs.
  set (h1 := <[t := new_tw_timer (ticks / N) ts]> (tw_heap w)).
  assert (dseg h1 None (sls i) None) as Hs1 by by apply dseg_insert_ne.
  destruct (sls i) as [|b ys] eqn:Esl; cbn [first_of].
  - rewrite (bind_ok _ _ _ Haset). apply Hfin; [split; [apply lookup_insert_eq|done]|].
    apply agree_off_insert; [apply agree_off_refl|set_solver].
  - destruct (link_first_spec h1 None b ys t v None) as (h2 & Hlink & Hs2 & Hag);
      [rewrite <- Esl; apply (rep_nodup _ _ Hr)|done|done|apply lookup_insert_eq|].
    unfold link_first in Hlink. apply bind_ok_inv in Hlink as (h3 & E3 & E4).
    rewrite (bind_ok _ _ _ E3), (bind_ok _ _ _ E4), (bind_ok _ _ _ Haset). apply Hfin; [done|].
    intros l Hl. rewrite Hag by set_solver. apply lookup_insert_ne. set_solver.
Qed.

(** ** Unlinking *)

(** A node that is not the first of its list, unlinked and freed. *)
Lemma unlink_free h xs a (x : entry) ys :
  NoDup (locs (xs ++ a :: x :: ys)) -> dseg h None (xs ++ a :: x :: ys) None ->
  exists h1, unlink_opt h (Some x.1) = Ok h1 /\
    get_next h1 (Some x.1) = Ok (first_of ys None) /\
    free h1 (Some x.1) = Ok (delete x.1 h1) /\
    dseg (delete x.1 h1) None (xs ++ a :: ys) None /\
    agree_off (locs (xs ++ a :: ys)) h h1.
Proof.
  intros Hnd Hs.
  assert (exists h1, unlink_opt h (Some x.1) = Ok h1 /\ dseg h1 None (xs ++ a :: ys) None /\
    h1 !! x.1 = Some (Node x.2 (Some a.1) (first_of ys None)) /\
    agree_off (locs (xs ++ a :: ys)) h h1) as (h1 & E & Hs1 & Hx & Hag).
  { unfold unlink_opt. apply dseg_app in Hs as (Hxs & Ha & Hx & Hys). cbn in Ha, Hx.
    erewrite bind_ok by (eapply get_prev_ok; exact Hx).
    erewrite bind_ok by (eapply get_next_ok; exact Hx). cbn [prev next].
    erewrite bind_ok by (eapply set_next_ok; exact Ha).
    destruct ys as [|b ys]; [|destruct Hys as [Hb Hys]]; dll_facts;
      (erewrite bind_ok by (eapply get_next_ok; dll_lookup));
      (erewrite bind_ok by (eapply get_prev_ok; dll_lookup)); cbn [prev next set_prev_opt first_of].
    - eexists. split; [reflexivity|]. split_ands.
      + apply dseg_app. split; [dll_seg|]. split; [dll_lookup|done].
      + dll_lookup.
      + apply agree_off_insert; [apply agree_off_refl|]. rewrite locs_app, locs_cons. set_solver.
    - erewrite set_prev_ok by dll_lookup. eexists. split; [reflexivity|]. split_ands.
      + apply dseg_app. split; [dll_seg|]. split; [dll_lookup|]. split; [dll_lookup|dll_seg].
      + dll_lookup.
      + apply agree_off_insert; [apply agree_off_insert; [apply agree_off_refl|]|];
          rewrite locs_app, !locs_cons; set_solver. }
  exists h1. split_ands; [done|by erewrite get_next_ok by exact Hx|by erewrite free_ok by exact Hx| |done].
  apply dseg_delete_ne; [done|]. rewrite cons_middle, app_assoc in Hnd.
  rewrite cons_middle, app_assoc. by apply nodup_remove in Hnd as [_ ?].
Qed.

(** The first node cut off and freed; [del_timer] and [tick] do the two steps
    in different orders. *)
Lemma cut_free h (x : entry) ys :
  NoDup (locs (x :: ys)) -> dseg h None (x :: ys) None ->
  exists h1, set_prev_opt h (first_of ys None) None = Ok h1 /\
    free h1 (Some x.1) = Ok (delete x.1 h1) /\
    free h (Some x.1) = Ok (delete x.1 h) /\
    set_prev_opt (delete x.1 h) (first_of ys None) None = Ok (delete x.1 h1) /\
    dseg (delete x.1 h1) None ys None /\ agree_off (locs ys) h h1.
Proof.
  intros Hnd Hs. destruct ys as [|b ys].
  - destruct Hs as [Hx _]. exists h. cbn [first_of set_prev_opt].
    rewrite (free_ok _ _ _ Hx). split_ands; try done.
  - destruct (cut_first_spec h None x b ys Hnd Hs) as (h1 & E & Hs1 & Hx1 & Hag).
    destruct Hs as (Hx & Hb & Hys). cbn [first_of set_prev_opt]. exists h1.
    rewrite Hx in Hx1. rewrite (free_ok _ _ _ Hx1), (free_ok _ _ _ Hx). split_ands; try done.
    + unfold set_prev in *. dll_facts. rewrite (deref_Some h _ _ Hb) in E.
      erewrite deref_Some by dll_lookup. cbn in *. injection E as <-.
      by rewrite delete_insert_ne by dll_ne.
    + apply dseg_delete_ne; [done|]. by apply NoDup_cons in Hnd as [? _].
    + eapply agree_off_weaken; [exact Hag|]. rewrite locs_cons. set_solver.
Qed.

Lemma first_of_ne (xs : list entry) d l : xs <> [] -> l ∉ locs xs -> first_of xs d <> Some l.
Proof. destruct xs as [|x xs]; [done|]. cbn. intros _ Hl [= <-]. by apply Hl, list_elem_of_here. Qed.

(** ** Deleting *)

(** Where a live timer is. *)
Lemma rep_locate w sls t v :
  rep w sls -> vals w !! t = Some v ->
  exists i xs ys, (i < 60)%nat /\ time_slot v = Z.of_nat i /\ 0 <= rotation v /\
    sls i = xs ++ (t, v) :: ys /\ get_val (tw_heap w) (Some t) = Ok v.
Proof.
  intros Hr Hv. apply (rep_vals _ _ _ _ Hr) in Hv as [i Hin].
  destruct (rep_slot _ _ Hr _ _ Hin) as [Hts Hrot].
  assert (i < 60)%nat as Hi.
  { destruct (decide (i < 60)%nat); [done|]. rewrite (rep_out _ _ Hr) in Hin by lia.
    by apply not_elem_of_nil in Hin. }
  destruct (dseg_lookup _ _ _ _ _ (rep_seg _ _ Hr i Hi) Hin) as (p & n & Hn). cbn in Hn.
  apply list_elem_of_split in Hin as (xs & ys & Esl). exists i, xs, ys. split_ands; try done.
  by erewrite get_val_ok by exact Hn.
Qed.

(** The timer [t] of slot [i] unlinked and freed. *)
Lemma rep_removed w sls i xs t v ys h' :
  rep w sls -> (i < 60)%nat -> sls i = xs ++ (t, v) :: ys ->
  dseg h' None (xs ++ ys) None -> (forall l, l ∉ locs (sls i) -> h' !! l = tw_heap w !! l) -> h' !! t = None ->
  let w' := TimeWheel h' (<[i := first_of (xs ++ ys) None]> (slots w)) (cur_slot w) in
  wf w' /\ vals w' = delete t (vals w).
Proof.
  intros Hr Hi Esl Hs' Hag Hnone w'. pose proof (rep_nodup _ _ Hr i) as Hnd. rewrite Esl in Hnd.
  apply nodup_remove in Hnd as [Hnd Hnt]. cbn in Hnt.
  assert (rep w' (upd sls i (xs ++ ys))) as Hr'.
  { apply (rep_update w sls i); try done.
    - intros l Hl1 Hl2. by apply Hag.
    - intros l Hl. left. rewrite Esl. rewrite locs_app in *. rewrite locs_cons. set_solver.
    - intros l [? Hl] Hin. rewrite Esl, locs_middle in Hin.
      apply elem_of_cons in Hin as [->|Hin]; [cbn in Hl; congruence|done].
    - apply Forall_forall. intros x Hx. apply (rep_slot _ _ Hr). rewrite Esl. set_solver. }
  split; [by eexists|].
  apply (vals_eq _ _ _ Hr'). intros l v'. rewrite upd_elem, lookup_delete_Some, (rep_vals _ _ _ _ Hr).
  split.
  - intros [Hx|(j & Hj & Hx)].
    + split; [intros <-; apply Hnt; by apply (in_locs _ (t, v'))|].
      exists i. rewrite Esl. set_solver.
    + split; [|eauto]. intros <-.
      destruct (rep_unique w sls j i t v' v Hr Hx) as [? _]; [rewrite Esl; set_solver|done].
  - intros [Hne [j Hx]]. destruct (decide (j = i)) as [->|Hji]; [left|eauto].
    rewrite Esl in Hx. apply elem_of_app in Hx as [Hx|Hx]; [set_solver|].
    apply elem_of_cons in Hx as [Hx|Hx]; [by injection Hx as ->|set_solver].
Qed.

Lemma del_timer_vals w t v :
  wf w -> vals w !! t = Some v ->
  exists w', del_timer (Some t) w = Ok w' /\ wf w' /\ cur_slot w' = cur_slot w /\
    vals w' = delete t (vals w).
Proof.
  intros [sls Hr] Hv. destruct (rep_locate w sls t v Hr Hv) as (i & xs & ys & Hi & Hts & _ & Esl & Ev).
  pose proof (rep_seg _ _ Hr i Hi) as Hs. pose proof (rep_nodup _ _ Hr i) as Hnd. rewrite Esl in Hs, Hnd.
  unfold del_timer. rewrite (bind_ok _ _ _ Ev), Hts.
  rewrite (bind_ok _ _ _ (aget_ok _ (Z.of_nat i) _ ltac:(lia)
    ltac:(rewrite Nat2Z.id; exact (rep_head _ _ Hr i Hi)))).
  assert (forall h', dseg h' None (xs ++ ys) None ->
    (forall l, l ∉ locs (sls i) -> h' !! l = tw_heap w !! l) -> h' !! t = None ->
    exists w', Ok (TimeWheel h' (<[i := first_of (xs ++ ys) None]> (slots w)) (cur_slot w)) = Ok w' /\
      wf w' /\ cur_slot w' = cur_slot w /\ vals w' = delete t (vals w)) as Hfin.
  { intros h' Hs' Hag Hnone. eexists. split; [done|].
    by destruct (rep_removed w sls i xs t v ys h') as [? ?]. }
  assert (forall l, l ∉ locs (sls i) -> l <> t /\ l ∉ locs (xs ++ ys)) as Hout.
  { intros l Hl. rewrite Esl, locs_middle in Hl. set_solver. }
  destruct xs as [|a xs _] using rev_ind.
  - rewrite Esl. cbn [app first_of fst]. rewrite decide_True by done.
    destruct (cut_free _ _ _ Hnd Hs) as (h1 & E1 & E2 & _ & _ & Hs' & Hag). cbn [fst app] in *.
    destruct Hs as [Hx _]. erewrite bind_ok by (eapply get_next_ok; exact Hx). cbn [next].
    rewrite (bind_ok _ _ _ (aset_ok _ (Z.of_nat i) _ ltac:(rewrite (rep_len _ _ Hr); lia))).
    rewrite (bind_ok _ _ _ E1), (bind_ok _ _ _ E2), Nat2Z.id. apply Hfin; [done| |].
    + intros l Hl. destruct (Hout l Hl). rewrite lookup_delete_ne by done. by apply Hag.
    + apply lookup_delete_eq.
  - rewrite <- app_assoc in Hs, Hnd. cbn [app] in Hs, Hnd.
    rewrite decide_False.
    2:{ rewrite Esl, first_of_app. apply not_eq_sym, first_of_ne; [by destruct xs|].
        rewrite cons_middle, app_assoc in Hnd. apply nodup_remove in Hnd as [_ Hnt].
        cbn in Hnt. rewrite locs_app in Hnt. set_solver. }
    destruct (unlink_free _ _ _ _ _ Hnd Hs) as (h1 & E1 & _ & E2 & Hs' & Hag). cbn [fst] in *.
    rewrite (bind_ok _ _ _ E1), (bind_ok _ _ _ E2).
    assert (slots w = <[i := first_of ((xs ++ [a]) ++ ys) None]> (slots w)) as ->.
    { symmetry. apply list_insert_id. rewrite (rep_head _ _ Hr i Hi), Esl, <- !app_assoc, !first_of_app.
      done. }
    rewrite <- app_assoc in *. cbn [app] in *. apply Hfin; [done| |].
    + intros l Hl. destruct (Hout l Hl). rewrite lookup_delete_ne by done. by apply Hag.
    + apply lookup_delete_eq.
Qed.

(** ** Ticking *)

Definition dec_rotation (v : tw_timer) : tw_timer :=
  TwTimer (rotation v - 1) (time_slot v) (tw_cb_func v) (tw_user_data v).
Definition due_now (xs : list entry) : list entry := filter (fun x => rotation x.2 <= 0) xs.
Definition kept (xs : list entry) : list entry :=
  (fun x => (x.1, dec_rotation x.2)) <$> filter (fun x => 0 < rotation x.2) xs.
Definition calls_of (xs : list entry) : list (Z * Z) :=
  omap (fun x => f ← tw_cb_func x.2; Some (f, tw_user_data x.2)) xs.

Lemma kept_cons x xs :
  kept (x :: xs) = if decide (0 < rotation x.2) then (x.1, dec_rotation x.2) :: kept xs else kept xs.
Proof. unfold kept. rewrite filter_cons. by case_decide. Qed.

Lemma locs_kept xs l : l ∈ locs (kept xs) -> l ∈ locs xs.
Proof.
  unfold locs, kept. rewrite <- list_fmap_compose. cbn.
  intros (x & -> & Hx)%list_elem_of_fmap. apply list_elem_of_filter in Hx as [_ Hx].
  apply list_elem_of_fmap. eauto.
Qed.

Section TickStep.
Context (h : gmap loc (node tw_timer)) (sl : list ptr) (i : nat) (dn : list entry) (t : loc) (v : tw_timer)
  (rest : list entry).
Context (Hi : (i < length sl)%nat) (Hnd : NoDup (locs (dn ++ (t, v) :: rest)))
  (Hs : dseg h None (dn ++ (t, v) :: rest) None) (Hsl : sl !! i = Some (first_of (dn ++ (t, v) :: rest) None)).

(** One turn of the loop, on a timer that has turns left. *)
Lemma tick_loop_turns fuel :
  rotation v > 0 ->
  exists h1, dseg h1 None (dn ++ (t, dec_rotation v) :: rest) None /\ agree_off [t] h h1 /\
    tick_loop (S fuel) h sl (Z.of_nat i) (Some t) = tick_loop fuel h1 sl (Z.of_nat i) (first_of rest None).
Proof.
  intros Hrot. cbn [tick_loop]. pose proof Hs as Ht. apply dseg_app in Ht as (_ & Ht & _). cbn in Ht.
  erewrite bind_ok by (eapply get_val_ok; exact Ht). cbn [val]. rewrite decide_True by done.
  destruct (set_val_spec h None None dn t v (dec_rotation v) rest Hnd Hs) as (h1 & E & Hs1 & Hag).
  exists h1. split_ands; [done|done|]. unfold dec_rotation in E at 1. rewrite (bind_ok _ _ _ E).
  apply dseg_app in Hs1 as (_ & Ht1 & _). cbn in Ht1.
  by erewrite bind_ok by (eapply get_next_ok; exact Ht1).
Qed.

(** One turn of the loop, on a timer that is due: it is called, unlinked and freed. *)
Lemma tick_loop_fires fuel f :
  rotation v <= 0 -> tw_cb_func v = Some f ->
  exists h1, dseg h1 None (dn ++ rest) None /\ h1 !! t = None /\ agree_off (locs (dn ++ (t, v) :: rest)) h h1 /\
    tick_loop (S fuel) h sl (Z.of_nat i) (Some t) =
      ('(h2, sl2, cs) ← tick_loop fuel h1 (<[i := first_of (dn ++ rest) None]> sl) (Z.of_nat i) (first_of rest None);
       Ok (h2, sl2, (f, tw_user_data v) :: cs)).
Proof.
  intros Hrot Hf. cbn [tick_loop]. pose proof Hs as Ht. apply dseg_app in Ht as (_ & Ht & _). cbn in Ht.
  erewrite bind_ok by (eapply get_val_ok; exact Ht). cbn [val]. rewrite decide_False by lia.
  unfold invoke. rewrite Hf. cbn [from_opt mbind res_bind].
  rewrite (aget_ok sl (Z.of_nat i) _ ltac:(lia) ltac:(rewrite Nat2Z.id; exact Hsl)). cbn [mbind res_bind].
  assert (t ∉ locs (dn ++ rest)) as Hnt by (by apply nodup_remove in Hnd as [_ ?]).
  assert (forall h1, agree_off (locs (dn ++ rest)) h h1 -> agree_off (locs (dn ++ (t, v) :: rest)) h (delete t h1)) as Hoff.
  { intros h1 Hag l Hl. rewrite locs_middle in Hl. apply not_elem_of_cons in Hl as [? Hl].
    rewrite lookup_delete_ne by done. by apply Hag. }
  destruct dn as [|a dn' _] eqn:Edn using rev_ind.
  - cbn [app first_of fst] in *. rewrite decide_True by done.
    erewrite bind_ok by (eapply get_next_ok; exact Ht). cbn [next].
    rewrite aset_ok by lia. rewrite Nat2Z.id. cbn [mbind res_bind].
    destruct (cut_free _ _ _ Hnd Hs) as (h1 & _ & _ & E2 & E3 & Hs1 & Hag). cbn [fst] in *.
    exists (delete t h1). split_ands; [done|apply lookup_delete_eq|by apply Hoff|].
    rewrite E2. cbn [mbind res_bind].
    rewrite (aget_ok _ (Z.of_nat i) (first_of rest None)) by
      (lia || (rewrite Nat2Z.id; by apply list_lookup_insert_eq)).
    cbn [mbind res_bind]. by rewrite E3.
  - rewrite decide_False.
    2:{ rewrite first_of_app. apply not_eq_sym, first_of_ne; [by destruct dn'|].
        rewrite locs_app in Hnt. set_solver. }
    rewrite <- app_assoc in *. cbn [app] in *.
    destruct (unlink_free _ _ _ _ _ Hnd Hs) as (h1 & E1 & E2 & E3 & Hs' & Hag). cbn [fst] in *.
    exists (delete t h1). split_ands; [done|apply lookup_delete_eq|by apply Hoff|].
    rewrite E1. cbn [mbind res_bind]. rewrite E2. cbn [mbind res_bind]. rewrite E3. cbn [mbind res_bind].
    rewrite (list_insert_id sl); [done|]. by rewrite Hsl, !first_of_app.
Qed.
End TickStep.

Lemma wheel_tick_loop_spec fuel h sl (i : nat) dn rest :
  (length rest <= fuel)%nat -> (i < length sl)%nat ->
  NoDup (locs (dn ++ rest)) -> dseg h None (dn ++ rest) None ->
  sl !! i = Some (first_of (dn ++ rest) None) ->
  Forall (fun x => rotation x.2 <= 0 -> is_Some (tw_cb_func x.2)) rest ->
  exists h', tick_loop fuel h sl (Z.of_nat i) (first_of rest None) =
      Ok (h', <[i := first_of (dn ++ kept rest) None]> sl, calls_of (due_now rest)) /\
    dseg h' None (dn ++ kept rest) None /\ agree_off (locs (dn ++ rest)) h h' /\
    (forall x, x ∈ due_now rest -> h' !! x.1 = None).
Proof.
  revert fuel h sl dn. induction rest as [|[t v] rest IH];
    intros fuel h sl dn Hf Hi Hnd Hs Hsl Hcb.
  { exists h. rewrite app_nil_r in *. split_ands.
    - destruct fuel; cbn [first_of tick_loop]; by rewrite list_insert_id.
    - done.
    - apply agree_off_refl.
    - intros x []%not_elem_of_nil. }
  destruct fuel as [|fuel]; [cbn in Hf; lia|]. cbn in Hf. apply Forall_cons in Hcb as [Hc Hcb].
  cbn [first_of fst]. rewrite kept_cons. unfold due_now. rewrite filter_cons. cbn [fst snd] in *. fold (due_now rest).
  destruct (decide (rotation v > 0)) as [Hrot|Hrot].
  - rewrite (decide_True (P := 0 < rotation v)), (decide_False (P := rotation v <= 0)) by lia.
    destruct (tick_loop_turns h sl i dn t v rest Hnd Hs fuel Hrot) as (h1 & Hs1 & Hag & ->).
    destruct (IH fuel h1 sl (dn ++ [(t, dec_rotation v)])) as (h' & E' & Hs' & Hag' & Hfree);
      [lia|done|by rewrite <- app_assoc, locs_app in *|by rewrite <- app_assoc| |done|].
    { rewrite Hsl, <- app_assoc, !first_of_app. done. }
    exists h'. rewrite E', <- app_assoc in *. cbn [app] in *. split_ands; try done.
    eapply agree_off_trans; eapply agree_off_weaken; [exact Hag| |exact Hag'|];
      intros l; rewrite !locs_app, !locs_cons; set_solver.
  - rewrite (decide_False (P := 0 < rotation v)), (decide_True (P := rotation v <= 0)) by lia.
    destruct (Hc ltac:(lia)) as [f Hfc].
    destruct (tick_loop_fires h sl i dn t v rest Hi Hnd Hs Hsl fuel f ltac:(lia) Hfc) as (h1 & Hs1 & Hn1 & Hag1 & ->).
    pose proof (nodup_remove _ _ _ Hnd) as [Hnd' Hnt].
    destruct (IH fuel h1 (<[i := first_of (dn ++ rest) None]> sl) dn) as (h' & E' & Hs' & Hag' & Hfree);
      [lia|by rewrite length_insert|done|done|by apply list_lookup_insert_eq|done|].
    exists h'. rewrite E'. cbn [mbind res_bind]. rewrite list_insert_insert_eq. split_ands; [|done| |].
    + unfold calls_of. cbn. by rewrite Hfc.
    + eapply agree_off_trans; [exact Hag1|]. eapply agree_off_weaken; [exact Hag'|].
      intros l. rewrite !locs_app, !locs_cons. set_solver.
    + intros x [->|Hx]%elem_of_cons; [|by apply Hfree]. cbn in *. by rewrite Hag'.
Qed.

(** The timer is due when the hand is at [cur]; what a tick makes of it if not. *)
Definition due_at (cur : Z) (v : tw_timer) : Prop := time_slot v = cur /\ rotation v <= 0.
#[export] Instance due_at_dec cur v : Decision (due_at cur v).
Proof. apply _. Defined.
Definition turned (cur : Z) (v : tw_timer) : tw_timer :=
  if decide (time_slot v = cur) then dec_rotation v else v.

(** The entries of the current slot after a tick. *)
Lemma elem_of_kept xs l v :
  (l, v) ∈ kept xs <-> exists v0, (l, v0) ∈ xs /\ 0 < rotation v0 /\ v = dec_rotation v0.
Proof.
  unfold kept. rewrite list_elem_of_fmap. setoid_rewrite list_elem_of_filter. split.
  - intros ([l' v'] & [= -> ->] & ? & ?). eauto.
  - intros (v0 & ? & ? & ->). exists (l, v0). auto.
Qed.

(** The heap after the loop of [tick] on the slot [i] of the wheel. *)
Lemma rep_ticked w sls i h' :
  rep w sls -> (i < 60)%nat -> dseg h' None (kept (sls i)) None ->
  agree_off (locs (sls i)) (tw_heap w) h' -> (forall x, x ∈ due_now (sls i) -> h' !! x.1 = None) ->
  rep (TimeWheel h' (<[i := first_of (kept (sls i)) None]> (slots w)) ((cur_slot w + 1) mod N))
    (upd sls i (kept (sls i))).
Proof.
  intros Hr Hi Hs' Hag Hfree.
  assert (rep (TimeWheel h' (<[i := first_of (kept (sls i)) None]> (slots w)) (cur_slot w))
            (upd sls i (kept (sls i)))) as Hr'.
  { apply (rep_update w sls i); try done.
    - unfold kept, locs. rewrite <- list_fmap_compose. cbn.
      eapply sublist_NoDup; [apply (rep_nodup _ _ Hr i)|]. unfold locs.
      apply fmap_sublist, sublist_filter.
    - intros l Hl1 _. by apply Hag.
    - intros l Hl. left. by apply locs_kept.
    - intros l Hl Hx. apply list_elem_of_fmap in Hx as ([l' v] & -> & Hx). cbn in *.
      destruct (decide (0 < rotation v)) as [Hrot|Hrot].
      + apply (in_locs _ (l', dec_rotation v)), elem_of_kept. eauto.
      + assert (h' !! l' = None) as Hn.
        { apply (Hfree (l', v)), list_elem_of_filter. split; [cbn; lia|done]. }
        rewrite Hn in Hl. by destruct Hl.
    - apply Forall_forall. intros [l v] (v0 & Hx & Hrot & ->)%elem_of_kept.
      destruct (rep_slot _ _ Hr _ _ Hx) as [? ?]. cbn in *. lia. }
  destruct Hr'. split; try done. cbn. by apply Z.mod_pos_bound.
Qed.

Section Ticked.
Context (w : time_wheel) (sls : nat -> list entry) (Hr : rep w sls) (i : nat) (Hic : Z.of_nat i = cur_slot w).

Lemma in_slot j l v : (l, v) ∈ sls j -> time_slot v = Z.of_nat j.
Proof. intros Hx. apply (rep_slot _ _ Hr _ _ Hx). Qed.

(** The timers after a tick, and those that were due. *)
Lemma vals_ticked w' :
  rep w' (upd sls i (kept (sls i))) ->
  vals w' = turned (cur_slot w) <$> filter (fun kv => ~ due_at (cur_slot w) kv.2) (vals w).
Proof.
  intros Hr'. apply (vals_eq _ _ _ Hr'). intros l v. rewrite upd_elem, lookup_fmap_Some.
  setoid_rewrite map_lookup_filter_Some. setoid_rewrite (rep_vals _ _ _ _ Hr). cbn. split.
  - intros [(v0 & Hx & Hrot & ->)%elem_of_kept|(j & Hji & Hx)].
    + exists v0. unfold turned, due_at. rewrite (in_slot _ _ _ Hx), decide_True by lia.
      split; [done|]. split; [eauto|]. lia.
    + exists v. unfold turned, due_at. rewrite (in_slot _ _ _ Hx), decide_False by lia.
      split; [done|]. split; [eauto|]. lia.
  - intros (v0 & <- & [j Hx] & Hnd). unfold turned, due_at in *. rewrite (in_slot _ _ _ Hx) in *.
    case_decide as Hj.
    + left. assert (j = i) as -> by lia. apply elem_of_kept. exists v0. split_ands; [done|lia|done].
    + right. exists j. split; [lia|done].
Qed.

Lemma due_ticked :
  due_now (sls i) ≡ₚ map_to_list (filter (fun kv => due_at (cur_slot w) kv.2) (vals w)).
Proof.
  apply NoDup_Permutation.
  - apply NoDup_filter, (NoDup_fmap_1 fst), (rep_nodup _ _ Hr).
  - apply NoDup_map_to_list.
  - intros [l v]. rewrite elem_of_map_to_list, map_lookup_filter_Some, (rep_vals _ _ _ _ Hr).
    unfold due_now. rewrite list_elem_of_filter. unfold due_at. cbn. split.
    + intros [Hrot Hx]. split; [eauto|]. rewrite (in_slot _ _ _ Hx). lia.
    + intros [[j Hx] [Htj Hrot]]. rewrite (in_slot _ _ _ Hx) in Htj.
      assert (j = i) as -> by lia. done.
Qed.
End Ticked.

Lemma tick_vals w :
  wf w -> map_Forall (fun _ v => due_at (cur_slot w) v -> is_Some (tw_cb_func v)) (vals w) ->
  exists w' cs, tick w = Ok (w', cs) /\ wf w' /\ cur_slot w' = (cur_slot w + 1) mod N /\
    vals w' = turned (cur_slot w) <$> filter (fun kv => ~ due_at (cur_slot w) kv.2) (vals w) /\
    cs ≡ₚ calls_of (map_to_list (filter (fun kv => due_at (cur_slot w) kv.2) (vals w))).
Proof.
  intros [sls Hr] Hcb. pose proof (rep_cur _ _ Hr) as Hcur.
  set (i := Z.to_nat (cur_slot w)). assert (Z.of_nat i = cur_slot w) as Hic by lia.
  assert (i < 60)%nat as Hi by lia. unfold tick.
  rewrite (bind_ok _ _ _ (aget_ok _ (cur_slot w) _ ltac:(lia) (rep_head _ _ Hr i Hi))).
  assert (forall l v, (l, v) ∈ sls i -> vals w !! l = Some v) as Hin
    by (intros l v Hx; apply (rep_vals _ _ _ _ Hr); eauto).
  destruct (wheel_tick_loop_spec (S (size (tw_heap w))) (tw_heap w) (slots w) i [] (sls i))
    as (h' & E & Hs' & Hag & Hfree).
  - pose proof (dseg_length _ _ _ _ (rep_nodup _ _ Hr i) (rep_seg _ _ Hr i Hi)). lia.
  - rewrite (rep_len _ _ Hr). lia.
  - apply (rep_nodup _ _ Hr).
  - by apply (rep_seg _ _ Hr).
  - by apply (rep_head _ _ Hr).
  - apply Forall_forall. intros [l v] Hx Hrot. cbn in *.
    apply (Hcb l v (Hin _ _ Hx)). split; [|done].
    destruct (rep_slot _ _ Hr _ _ Hx) as [Hts _]. cbn in Hts. lia.
  - rewrite Hic in E. rewrite E. cbn [mbind res_bind app] in *. eexists _, _. split; [done|].
    pose proof (rep_ticked w sls i h' Hr Hi Hs' Hag Hfree) as Hr'.
    split_ands; [by eexists|done|by apply (vals_ticked w sls Hr i Hic)|].
    apply omap_Permutation, due_ticked; done.
Qed.

(** ** The wheel implements the table of delays *)

Inductive wheel_op :=
  | OpAdd (t : loc) (timeout : Z)
  | OpDel (t : loc)
  | OpAssign (t : loc) (cb data : Z)
  | OpTick.

Definition run_op (o : wheel_op) w : res (time_wheel * list (Z * Z)) :=
  match o with
  | OpAdd t timeout => '(w, _) ← add_timer t timeout w; Ok (w, [])
  | OpDel t => w ← del_timer (Some t) w; Ok (w, [])
  | OpAssign t cb data => w ← assign (Some t) cb data w; Ok (w, [])
  | OpTick => tick w
  end.

Definition expired (M : gmap loc pending_timer) : list (Z * Z) :=
  omap (fun x => f ← p_cb x.2; Some (f, p_data x.2)) (map_to_list (filter (fun kv => left kv.2 <= 0) M)).

(** When an operation may be used, its effect on the table, its calls. *)
Definition op_valid (o : wheel_op) (M : gmap loc pending_timer) : Prop :=
  match o with
  | OpAdd t timeout => M !! t = None /\ 0 <= timeout
  | OpDel t | OpAssign t _ _ => is_Some (M !! t)
  | OpTick => map_Forall (fun _ p => left p <= 0 -> is_Some (p_cb p)) M
  end.
Definition op_next (o : wheel_op) (M : gmap loc pending_timer) : gmap loc pending_timer :=
  match o with
  | OpAdd t timeout => <[t := PendingTimer (Z.max 1 timeout) None 0]> M
  | OpDel t => delete t M
  | OpAssign t cb data => alter (fun p => PendingTimer (left p) (Some cb) data) t M
  | OpTick => (fun p => PendingTimer (left p - 1) (p_cb p) (p_data p)) <$>
              filter (fun kv => 0 < left kv.2) M
  end.
Definition op_calls (o : wheel_op) (M : gmap loc pending_timer) : list (Z * Z) :=
  match o with OpTick => expired M | _ => [] end.

(** The timer [t] of slot [i] changed. *)
Lemma rep_replaced w sls i xs t v v' ys h1 :
  rep w sls -> (i < 60)%nat -> sls i = xs ++ (t, v) :: ys ->
  time_slot v' = time_slot v -> 0 <= rotation v' ->
  dseg h1 None (xs ++ (t, v') :: ys) None -> (forall l, l <> t -> h1 !! l = tw_heap w !! l) ->
  let w' := TimeWheel h1 (slots w) (cur_slot w) in
  wf w' /\ vals w' = <[t := v']> (vals w).
Proof.
  intros Hr Hi Esl Hts Hrot Hs1 Hag w'. pose proof (rep_nodup _ _ Hr i) as Hnd. rewrite Esl in Hnd.
  assert (locs (xs ++ (t, v') :: ys) = locs (sls i)) as Hlocs by (rewrite Esl, !locs_app; done).
  assert (rep w' (upd sls i (xs ++ (t, v') :: ys))) as Hr'.
  { apply (rep_update w sls i); try done.
    - by rewrite Hlocs, Esl.
    - symmetry. apply list_insert_id. rewrite (rep_head _ _ Hr i Hi), Esl, !first_of_app. done.
    - intros l Hl _. apply Hag. rewrite Esl, locs_app, locs_cons in Hl. set_solver.
    - intros l. rewrite Hlocs. by left.
    - intros l _. by rewrite Hlocs.
    - apply Forall_forall. intros x Hx. apply elem_of_app in Hx as [Hx|Hx].
      + apply (rep_slot _ _ Hr). rewrite Esl. set_solver.
      + apply elem_of_cons in Hx as [->|Hx]; [|apply (rep_slot _ _ Hr); rewrite Esl; set_solver].
        cbn. rewrite Hts. split; [|done]. apply (rep_slot _ _ Hr i (t, v)). rewrite Esl. set_solver. }
  split; [by eexists|].
  apply (vals_eq _ _ _ Hr'). intros l u. rewrite upd_elem, lookup_insert_Some, (rep_vals _ _ _ _ Hr).
  apply nodup_remove in Hnd as [_ Hnt]. cbn in Hnt. split.
  - intros [Hx|(j & Hj & Hx)].
    + apply elem_of_app in Hx as [Hx|[Hx|Hx]%elem_of_cons].
      * right. split; [|exists i; rewrite Esl; set_solver].
        intros <-. apply Hnt. rewrite locs_app. apply elem_of_app. left. by apply (in_locs _ (t, u)).
      * injection Hx as -> ->. by left.
      * right. split; [|exists i; rewrite Esl; set_solver].
        intros <-. apply Hnt. rewrite locs_app. apply elem_of_app. right. by apply (in_locs _ (t, u)).
    + right. split; [|eauto]. intros <-.
      destruct (rep_unique w sls j i t u v Hr Hx) as [? _]; [rewrite Esl; set_solver|done].
  - intros [[<- <-]|[Hne [j Hx]]]; [left; set_solver|].
    destruct (decide (j = i)) as [->|Hji]; [left|eauto].
    rewrite Esl in Hx. apply elem_of_app in Hx as [Hx|Hx]; [set_solver|].
    apply elem_of_cons in Hx as [Hx|Hx]; [by injection Hx as ->|set_solver].
Qed.

Lemma assign_vals w t v cb data :
  wf w -> vals w !! t = Some v ->
  exists w', assign (Some t) cb data w = Ok w' /\ wf w' /\ cur_slot w' = cur_slot w /\
    vals w' = <[t := TwTimer (rotation v) (time_slot v) (Some cb) data]> (vals w).
Proof.
  intros [sls Hr] Hv. destruct (rep_locate w sls t v Hr Hv) as (i & xs & ys & Hi & Hts & Hrot & Esl & Ev).
  pose proof (rep_seg _ _ Hr i Hi) as Hs. pose proof (rep_nodup _ _ Hr i) as Hnd. rewrite Esl in Hs, Hnd.
  unfold assign. rewrite (bind_ok _ _ _ Ev).
  set (v' := TwTimer (rotation v) (time_slot v) (Some cb) data).
  destruct (set_val_spec _ None None xs t v v' ys Hnd Hs) as (h1 & E & Hs1 & Hag).
  rewrite (bind_ok _ _ _ E). eexists. split; [done|].
  destruct (rep_replaced w sls i xs t v v' ys h1) as [? ?]; try done.
  intros l Hl. apply Hag. set_solver.
Qed.

(** Slots and turns of the live timers are in range. *)
Lemma wf_range w : wf w -> 0 <= cur_slot w < 60 /\
  map_Forall (fun _ v => 0 <= time_slot v < 60 /\ 0 <= rotation v) (vals w).
Proof.
  intros [sls Hr]. split; [apply (rep_cur _ _ Hr)|]. intros l v [i Hx]%(rep_vals _ _ _ _ Hr).
  destruct (rep_slot _ _ Hr _ _ Hx) as [Hts ?]. cbn in *.
  destruct (decide (i < 60)%nat); [lia|]. rewrite (rep_out _ _ Hr) in Hx by lia.
  by apply not_elem_of_nil in Hx.
Qed.

Lemma view_due cur v :
  0 <= cur < 60 -> 0 <= time_slot v < 60 -> 0 <= rotation v ->
  left (view cur v) <= 0 <-> due_at cur v.
Proof.
  unfold view, due_at, N. cbn [left]. intros Hc Ht Hr.
  destruct (Z_lt_ge_dec (time_slot v) cur).
  - rewrite <- (Z.mod_unique_pos (time_slot v - cur) 60 (-1) (time_slot v - cur + 60)) by lia. lia.
  - rewrite Z.mod_small by lia. lia.
Qed.

Lemma view_turned cur v :
  0 <= cur < 60 -> 0 <= time_slot v < 60 -> 0 <= rotation v -> ~ due_at cur v ->
  view ((cur + 1) mod N) (turned cur v) =
  PendingTimer (left (view cur v) - 1) (tw_cb_func v) (tw_user_data v).
Proof.
  unfold view, due_at, turned, N. intros Hc Ht Hr Hd.
  assert ((time_slot v - (cur + 1) mod 60) mod 60 = (time_slot v - cur - 1) mod 60) as Hm.
  { rewrite Zminus_mod_idemp_r. f_equal. lia. }
  case_decide as Hts; cbn [left time_slot rotation tw_cb_func tw_user_data dec_rotation]; f_equal.
  - rewrite Hm, Hts. replace (cur - cur) with 0 by lia.
    change (0 mod 60) with 0. change ((0 - 1) mod 60) with 59. lia.
  - rewrite Hm. destruct (Z_lt_ge_dec (time_slot v) cur).
    + rewrite <- (Z.mod_unique_pos (time_slot v - cur) 60 (-1) (time_slot v - cur + 60)) by lia.
      rewrite <- (Z.mod_unique_pos (time_slot v - cur - 1) 60 (-1) (time_slot v - cur - 1 + 60)) by lia.
      lia.
    + rewrite !Z.mod_small by lia. lia.
Qed.

(** The delay that [add_timer] gives a timer. *)
Lemma view_added cur ticks cb data :
  0 <= cur < 60 -> 0 <= ticks ->
  view cur (TwTimer (ticks / N) ((cur + ticks mod N) mod N) cb data) = PendingTimer ticks cb data.
Proof.
  unfold view, N. cbn. intros Hc Ht. f_equal. rewrite Zminus_mod_idemp_l.
  replace (cur + ticks mod 60 - cur) with (ticks mod 60) by lia.
  rewrite Z.mod_mod by lia. pose proof (Z.div_mod ticks 60). lia.
Qed.

Lemma table_lookup w l : table w !! l = view (cur_slot w) <$> vals w !! l.
Proof. apply lookup_fmap. Qed.

Section Views.
Context (w : time_wheel) (Hw : wf w).

(** A tick in terms of the table. *)
Lemma table_ticked w' :
  cur_slot w' = (cur_slot w + 1) mod N ->
  vals w' = turned (cur_slot w) <$> filter (fun kv => ~ due_at (cur_slot w) kv.2) (vals w) ->
  table w' = op_next OpTick (table w).
Proof.
  destruct (wf_range w Hw) as [Hc Hrange]. intros Hcur Hvals.
  unfold table. rewrite Hcur, Hvals. cbn [op_next]. apply map_eq. intros l.
  apply option_eq. intros p. rewrite !lookup_fmap, !fmap_Some.
  setoid_rewrite fmap_Some. setoid_rewrite map_lookup_filter_Some. cbn [snd]. split.
  - intros (v' & (v & (Hl & Hd) & ->) & ->). destruct (Hrange l v Hl) as [H1 H2].
    exists (view (cur_slot w) v). split; [|by apply view_turned].
    split; [by rewrite lookup_fmap, Hl|].
    destruct (Z_le_gt_dec (left (view (cur_slot w) v)) 0) as [Hle|]; [|lia].
    by apply (view_due (cur_slot w) v Hc H1 H2) in Hle.
  - intros (q & (Hq & Hpos) & ->). rewrite lookup_fmap in Hq.
    apply fmap_Some in Hq as (v & Hl & ->). destruct (Hrange l v Hl) as [H1 H2].
    assert (~ due_at (cur_slot w) v) as Hd
      by (intros Hd%(view_due (cur_slot w) v Hc H1 H2); lia).
    exists (turned (cur_slot w) v). split; [eauto|]. symmetry. by apply view_turned.
Qed.

Lemma expired_views :
  map_to_list (filter (fun kv => left kv.2 <= 0) (table w)) ≡ₚ
  (fun x => (x.1, view (cur_slot w) x.2)) <$>
    map_to_list (filter (fun kv => due_at (cur_slot w) kv.2) (vals w)).
Proof.
  destruct (wf_range w Hw) as [Hc Hrange]. apply NoDup_Permutation; [apply NoDup_map_to_list|..].
  - apply (NoDup_fmap_1 fst). rewrite <- list_fmap_compose. apply NoDup_fst_map_to_list.
  - intros [l p]. rewrite elem_of_map_to_list, map_lookup_filter_Some, table_lookup, fmap_Some.
    rewrite list_elem_of_fmap. cbn. split.
    + intros [(v & Hl & ->) Hle]. destruct (Hrange l v Hl) as [H1 H2].
      exists (l, v). split; [done|]. rewrite elem_of_map_to_list, map_lookup_filter_Some.
      split; [done|]. by apply view_due.
    + intros ([l' v] & [= -> ->] & Hx).
      rewrite elem_of_map_to_list, map_lookup_filter_Some in Hx. destruct Hx as [Hl Hd].
      destruct (Hrange l' v Hl) as [H1 H2]. split; [eauto|]. by apply view_due.
Qed.
End Views.

Lemma wheel_step o w :
  wf w -> op_valid o (table w) ->
  exists w' cs, run_op o w = Ok (w', cs) /\ wf w' /\ table w' = op_next o (table w) /\
    cs ≡ₚ op_calls o (table w).
Proof.
  intros Hw Hv. destruct (wf_range w Hw) as [Hc Hrange]. destruct o as [t timeout|t|t cb data|]; cbn in Hv.
  - destruct Hv as [Ht H0]. rewrite table_lookup in Ht.
    assert (tw_heap w !! t = None) as Hh.
    { apply fmap_None in Ht. unfold vals in Ht. by rewrite lookup_fmap, fmap_None in Ht. }
    destruct (add_timer_vals w t timeout Hw Hh H0) as (w' & E & Hw' & Hcur & Hvals).
    exists w', []. cbn [run_op]. rewrite E. split_ands; try done.
    unfold table. rewrite Hcur, Hvals, fmap_insert. cbn [op_next].
    by rewrite view_added by (lia || done).
  - destruct Hv as [p Hp]. rewrite table_lookup in Hp. apply fmap_Some in Hp as (v & Hv & _).
    destruct (del_timer_vals w t v Hw Hv) as (w' & E & Hw' & Hcur & Hvals).
    exists w', []. cbn [run_op]. rewrite E. split_ands; try done.
    unfold table. by rewrite Hcur, Hvals, fmap_delete.
  - destruct Hv as [p Hp]. rewrite table_lookup in Hp. apply fmap_Some in Hp as (v & Hv & _).
    destruct (assign_vals w t v cb data Hw Hv) as (w' & E & Hw' & Hcur & Hvals).
    exists w', []. cbn [run_op]. rewrite E. split_ands; try done.
    unfold table. rewrite Hcur, Hvals, fmap_insert. cbn [op_next].
    apply map_eq. intros l. destruct (decide (l = t)) as [->|Hne].
    + rewrite lookup_insert_eq, lookup_alter_eq, lookup_fmap, Hv. done.
    + by rewrite lookup_insert_ne, lookup_alter_ne by done.
  - assert (map_Forall (fun _ v => due_at (cur_slot w) v -> is_Some (tw_cb_func v)) (vals w)) as Hcb.
    { intros l v Hl Hd. destruct (Hrange l v Hl) as [H1 H2].
      apply (Hv l (view (cur_slot w) v)); [by rewrite table_lookup, Hl|]. by apply view_due. }
    destruct (tick_vals w Hw Hcb) as (w' & cs & E & Hw' & Hcur & Hvals & Hcs).
    exists w', cs. split_ands; [done|done|by apply table_ticked|].
    rewrite Hcs. cbn [op_calls]. unfold expired, calls_of. by rewrite expired_views, omap_fmap.
Qed.

(** A history of operations, with the calls that each of them makes. *)
Fixpoint run_ops (os : list wheel_op) w : res (time_wheel * list (list (Z * Z))) :=
  match os with
  | [] => Ok (w, [])
  | o :: os => '(w, cs) ← run_op o w; '(w, css) ← run_ops os w; Ok (w, cs :: css)
  end.
Fixpoint ops_valid (os : list wheel_op) (M : gmap loc pending_timer) : Prop :=
  match os with [] => True | o :: os => op_valid o M /\ ops_valid os (op_next o M) end.
Definition ops_next (os : list wheel_op) (M : gmap loc pending_timer) : gmap loc pending_timer :=
  foldl (fun M o => op_next o M) M os.

Lemma wheel_run os w :
  wf w -> ops_valid os (table w) ->
  exists w' css, run_ops os w = Ok (w', css) /\ wf w' /\ table w' = ops_next os (table w).
Proof.
  revert w. induction os as [|o os IH]; intros w Hw Hv.
  - exists w, []. done.
  - destruct Hv as [Ho Hos]. destruct (wheel_step o w Hw Ho) as (w1 & cs & E & Hw1 & Ht & _).
    destruct (IH w1 Hw1) as (w2 & css & E2 & Hw2 & Ht2); [by rewrite Ht|].
    exists w2, (cs :: css). cbn [run_ops]. rewrite E. cbn [mbind res_bind]. rewrite E2.
    cbn [mbind res_bind]. split_ands; [done|done|]. by rewrite Ht2, Ht.
Qed.

(** [C7] The wheel implements a table of delays: on every well-formed wheel each
    operation that is valid for the table returns, keeps the wheel well formed,
    changes the table as the operation says (a tick takes one off every delay)
    and calls exactly the callbacks of the timers that have expired. *)
Theorem wheel_implements_table o w :
  wf w -> op_valid o (table w) ->
  exists w' cs, run_op o w = Ok (w', cs) /\ wf w' /\ table w' = op_next o (table w) /\
    cs ≡ₚ op_calls o (table w).
Proof. apply wheel_step. Qed.

(** The operation is not about the timer [t]. *)
Definition not_about (t : loc) (o : wheel_op) : Prop :=
  match o with OpAdd t' _ | OpDel t' | OpAssign t' _ _ => t' <> t | OpTick => True end.
Fixpoint ticks_in (os : list wheel_op) : Z :=
  match os with [] => 0 | OpTick :: os => 1 + ticks_in os | _ :: os => ticks_in os end.

Lemma ticks_in_nonneg os : 0 <= ticks_in os.
Proof. induction os as [|[] os IH]; cbn [ticks_in]; lia. Qed.

Lemma left_after t p os M :
  M !! t = Some p -> Forall (not_about t) os ->
  ticks_in os <= left p ->
  ops_next os M !! t =
    Some (PendingTimer (left p - ticks_in os) (p_cb p) (p_data p)).
Proof.
  revert M p. induction os as [|o os IH]; intros M p Hp Hn Hle.
  { cbn. rewrite Z.sub_0_r. by destruct p. }
  apply Forall_cons in Hn as [Ho Hn]. cbn [ops_next foldl].
  change (foldl _ (op_next o M) os) with (ops_next os (op_next o M)).
  pose proof (ticks_in_nonneg os).
  destruct o as [t' k|t'|t' f d|]; cbn [ticks_in not_about op_next] in *.
  - rewrite (IH _ p); [done|by rewrite lookup_insert_ne|done|done].
  - rewrite (IH _ p); [done|by rewrite lookup_delete_ne|done|done].
  - rewrite (IH _ p); [done|by rewrite lookup_alter_ne|done|done].
  - rewrite (IH _ (PendingTimer (left p - 1) (p_cb p) (p_data p))).
    + cbn [left p_cb p_data]. do 2 f_equal. lia.
    + rewrite lookup_fmap. rewrite map_lookup_filter_Some_2 with (x := p); [done|done|cbn; lia].
    + done.
    + cbn [left]. lia.
Qed.

(** [C20] When a timer fires: a timer added with [timeout] and given a callback
    is still pending after [max 1 timeout] ticks, whatever happens to the other
    timers in between, and the very next tick calls its callback and drops it. *)
Theorem timer_fires w t timeout f d os :
  wf w -> ops_valid (OpAdd t timeout :: OpAssign t f d :: os ++ [OpTick]) (table w) ->
  Forall (not_about t) os -> ticks_in os = Z.max 1 timeout ->
  exists w1 css w2 cs,
    run_ops (OpAdd t timeout :: OpAssign t f d :: os) w = Ok (w1, css) /\
    is_Some (table w1 !! t) /\ run_op OpTick w1 = Ok (w2, cs) /\ (f, d) ∈ cs /\
    table w2 !! t = None.
Proof.
  intros Hw Hv Hn Hlen. set (pre := OpAdd t timeout :: OpAssign t f d :: os).
  assert (forall os1 os2 M, ops_valid (os1 ++ os2) M ->
            ops_valid os1 M /\ ops_valid os2 (ops_next os1 M)) as Happ.
  { clear. intros os1. induction os1 as [|o os1 IH]; intros os2 M H; [done|].
    destruct H as [Ho H]. destruct (IH _ _ H). done. }
  destruct (Happ pre [OpTick] (table w) Hv) as [Hpre [Htick _]].
  destruct (wheel_run pre w Hw Hpre) as (w1 & css & E1 & Hw1 & Ht1).
  rewrite <- Ht1 in Htick. destruct (wheel_step OpTick w1 Hw1 Htick) as (w2 & cs & E2 & Hw2 & Ht2 & Hcs).
  assert (table w1 !! t = Some (PendingTimer 0 (Some f) d)) as Hp.
  { rewrite Ht1. unfold pre. cbn [ops_next foldl].
    change (foldl _ ?M os) with (ops_next os M).
    rewrite (left_after t (PendingTimer (Z.max 1 timeout) (Some f) d)).
    - cbn [left p_cb p_data]. do 2 f_equal. lia.
    - cbn [op_next]. by rewrite lookup_alter_eq, lookup_insert_eq.
    - done.
    - cbn [left]. lia. }
  exists w1, css, w2, cs. split_ands; [done|by rewrite Hp|done|..].
  - rewrite Hcs. cbn [op_calls]. unfold expired. apply list_elem_of_omap.
    exists (t, PendingTimer 0 (Some f) d). split; [|done].
    apply elem_of_map_to_list, map_lookup_filter_Some. split; [done|cbn; lia].
  - rewrite Ht2. cbn [op_next]. rewrite lookup_fmap.
    rewrite map_lookup_filter_None_2; [done|]. right. intros p Hp'. cbn.
    rewrite Hp in Hp'. injection Hp' as <-. cbn. lia.
Qed.

(** ** Witnesses *)

Lemma wheel_implements_table_witness :
  exists w' cs, run_op (OpAdd 1 70) new_wheel = Ok (w', cs) /\ wf w' /\
    table w' = {[1%positive := PendingTimer 70 None 0]} /\ cs ≡ₚ [].
Proof.
  destruct (wheel_implements_table (OpAdd 1 70) new_wheel) as (w' & cs & H1 & H2 & H3 & H4).
  - exists (fun _ => []). apply rep_new.
  - split; [reflexivity|lia].
  - exists w', cs. auto.
Defined.

Lemma timer_fires_witness : exists w1 css w2 cs,
  run_ops [OpAdd 1 2; OpAssign 1 7 8; OpTick; OpAdd 2 61; OpTick] new_wheel = Ok (w1, css) /\
  is_Some (table w1 !! 1%positive) /\ run_op OpTick w1 = Ok (w2, cs) /\ (7, 8) ∈ cs /\
  table w2 !! 1%positive = None.
Proof.
  apply (timer_fires new_wheel 1 2 7 8 [OpTick; OpAdd 2 61; OpTick]).
  - exists (fun _ => []). apply rep_new.
  - cbn [ops_valid app]. split_ands; try exact I; unfold op_valid; try split; decided.
  - repeat constructor. discriminate.
  - reflexivity.
Defined.
