(* ===== verification/HeapTimer.v ===== *)
(** * The timing heap

    The class [time_heap] of socket/timer/time_heap_timer.h: an array of
    pointers to timers meant to be a binary heap on the expiry time, with lazy
    deletion.  [percolate_down] is shown to be the sift-down of a heap that ends
    one element before [cur_size]; [tick] is shown safe and to run only due
    timers; the first [add_timer] of every new heap is shown to fault. *)

From S2P Require Import Prelude.

(** ** Data (lines 26-48) *)

Record heap_timer := HeapTimer {
  expire : Z;
  cb_func : option Z;
  user_data : Z }.

Record time_heap := TimeHeap {
  objs : gmap loc heap_timer;
  array : list ptr;
  capacity : Z;
  cur_size : Z }.

Definition get_expire (o : gmap loc heap_timer) (p : ptr) : res Z :=
  '(_, v) ← deref o p; Ok (expire v).

(** ** Operations *)

(** The loop of [percolate_down]: the array and the final [hole]. *)
Fixpoint percolate_loop (fuel : nat) (o : gmap loc heap_timer) (a : list ptr) (cur_size hole : Z)
    (temp : ptr) : res (list ptr * Z) :=
  if decide (hole * 2 + 1 < cur_size - 1) then
    match fuel with
    | O => Err OutOfFuel
    | S fuel =>
        let child := hole * 2 + 1 in
        child ← (if decide (child + 1 < cur_size - 1) then
                   q ← aget a (child + 1);
                   e2 ← get_expire o q;
                   p ← aget a child;
                   e1 ← get_expire o p;
                   Ok (if decide (e2 < e1) then child + 1 else child)
                 else Ok child);
        p ← aget a child;
        e ← get_expire o p;
        et ← get_expire o temp;
        if decide (e < et) then
          a ← aset a hole p;
          percolate_loop fuel o a cur_size child temp
        else Ok (a, hole)
    end
  else Ok (a, hole).

Definition percolate_down (hole : Z) (th : time_heap) : res time_heap :=
  temp ← aget (array th) hole;
  '(a, hole) ← percolate_loop (Z.to_nat (cur_size th)) (objs th) (array th) (cur_size th) hole temp;
  a ← aset a hole temp;
  Ok (TimeHeap (objs th) a (capacity th) (cur_size th)).

(** The copying loops of [resize] and the constructors. *)
Fixpoint copy_to (n : nat) (src dst : list ptr) : res (list ptr) :=
  match n with
  | O => Ok dst
  | S n =>
      dst ← copy_to n src dst;
      p ← aget src (Z.of_nat n);
      aset dst (Z.of_nat n) p
  end.

Definition resize (th : time_heap) : res time_heap :=
  let temp := replicate (Z.to_nat (2 * capacity th)) None in
  temp ← copy_to (Z.to_nat (cur_size th)) (array th) temp;
  Ok (TimeHeap (objs th) temp (2 * capacity th) (cur_size th)).

(** [time_heap(int cap)] *)
Definition new_heap (o : gmap loc heap_timer) (cap : Z) : time_heap :=
  TimeHeap o (replicate (Z.to_nat cap) None) cap 0.

(** The sifting loop of the second constructor, for [i] down to 0. *)
Fixpoint sift_all (i : nat) (th : time_heap) : res time_heap :=
  th ← percolate_down (Z.of_nat i) th;
  match i with O => Ok th | S i => sift_all i th end.

(** [time_heap(heap_timer **init_array, int size, int capacity)] *)
Definition new_heap_from (o : gmap loc heap_timer) (init_array : list ptr) (size capacity : Z)
    : res time_heap :=
  if decide (capacity < size) then Err Thrown
  else
    let a := replicate (Z.to_nat capacity) None in
    if decide (size <> 0) then
      a ← copy_to (Z.to_nat size) init_array a;
      let i := Z.quot (size - 1) 2 in
      if decide (0 <= i) then sift_all (Z.to_nat i) (TimeHeap o a capacity size)
      else Ok (TimeHeap o a capacity size)
    else Ok (TimeHeap o a capacity size).

(** [delete p]; deleting the null pointer does nothing. *)
Definition delete_timer (o : gmap loc heap_timer) (p : ptr) : res (gmap loc heap_timer) :=
  match p with
  | None => Ok o
  | Some _ => '(l, _) ← deref o p; Ok (delete l o)
  end.

(** [~time_heap()] *)
Fixpoint delete_all (n : nat) (o : gmap loc heap_timer) (a : list ptr) : res (gmap loc heap_timer) :=
  match n with
  | O => Ok o
  | S n =>
      o ← delete_all n o a;
      p ← aget a (Z.of_nat n);
      delete_timer o p
  end.
Definition destroy (th : time_heap) : res (gmap loc heap_timer) :=
  delete_all (Z.to_nat (cur_size th)) (objs th) (array th).

Definition empty (th : time_heap) : bool := bool_decide (cur_size th = 0).

(** The loop of [add_timer], from the hole towards the root. *)
Fixpoint percolate_up (fuel : nat) (o : gmap loc heap_timer) (a : list ptr) (hole : Z) (timer : ptr)
    : res (list ptr * Z) :=
  if decide (hole > 0) then
    match fuel with
    | O => Err OutOfFuel
    | S fuel =>
        let parent := (hole - 1) / 2 in
        p ← aget a parent;
        ep ← get_expire o p;
        et ← get_expire o timer;
        if decide (ep <= et) then Ok (a, hole)
        else a ← aset a hole p; percolate_up fuel o a parent timer
    end
  else Ok (a, hole).

Definition add_timer (timer : ptr) (th : time_heap) : res time_heap :=
  match timer with
  | None => Ok th
  | Some _ =>
      th ← (if decide (cur_size th >= capacity th) then resize th else Ok th);
      let size := cur_size th + 1 in
      '(a, hole) ← percolate_up (Z.to_nat size) (objs th) (array th) size timer;
      a ← aset a hole timer;
      Ok (TimeHeap (objs th) a (capacity th) size)
  end.

Definition del_timer (timer : ptr) (th : time_heap) : res time_heap :=
  match timer with
  | None => Ok th
  | Some _ =>
      '(l, v) ← deref (objs th) timer;
      Ok (TimeHeap (<[l := HeapTimer (expire v) None (user_data v)]> (objs th)) (array th)
        (capacity th) (cur_size th))
  end.

Definition top (th : time_heap) : res ptr :=
  if empty th then Ok None else aget (array th) 0.

Definition pop_timer (th : time_heap) : res time_heap :=
  if empty th then Ok th
  else
    p ← aget (array th) 0;
    match p with
    | None => Ok th
    | Some _ =>
        o ← delete_timer (objs th) p;
        let size := cur_size th - 1 in
        q ← aget (array th) size;
        a ← aset (array th) 0 q;
        percolate_down 0 (TimeHeap o a (capacity th) size)
    end.

(** The loop of [tick] at time [cur]; the calls made are returned in order. *)
Fixpoint tick_loop (fuel : nat) (cur : Z) (tmp : ptr) (th : time_heap)
    : res (time_heap * list (Z * Z)) :=
  if empty th then Ok (th, [])
  else
    match tmp with
    | None => Ok (th, [])
    | Some _ =>
        match fuel with
        | O => Err OutOfFuel
        | S fuel =>
            e ← get_expire (objs th) tmp;
            if decide (e > cur) then Ok (th, [])
            else
              p ← aget (array th) 0;
              '(_, v) ← deref (objs th) p;
              let cs := match cb_func v with Some f => [(f, user_data v)] | None => [] end in
              th ← pop_timer th;
              tmp ← aget (array th) 0;
              '(th, cs') ← tick_loop fuel cur tmp th;
              Ok (th, cs ++ cs')
        end
    end.

Definition tick (cur : Z) (th : time_heap) : res (time_heap * list (Z * Z)) :=
  tmp ← aget (array th) 0;
  tick_loop (S (Z.to_nat (cur_size th))) cur tmp th.

(** ** Sifting down *)

(** The expiry time at index [i] (0 where there is no timer). *)
Definition kof (o : gmap loc heap_timer) (a : list ptr) (i : nat) : Z :=
  match a !! i with
  | Some (Some l) => match o !! l with Some v => expire v | None => 0 end
  | _ => 0
  end.

(** The first [n] pointers lead to timers. *)
Definition live (o : gmap loc heap_timer) (a : list ptr) (n : nat) : Prop :=
  forall i, (i < n)%nat -> exists l v, a !! i = Some (Some l) /\ o !! l = Some v.

(** Heap order below [r] among the first [n] elements. *)
Definition heap_from (o : gmap loc heap_timer) (a : list ptr) (r n : nat) : Prop :=
  forall p i, (r <= p)%nat -> (i = 2 * p + 1 \/ i = 2 * p + 2)%nat -> (i < n)%nat ->
    kof o a p <= kof o a i.

Lemma live_get o a n i :
  live o a n -> (i < n)%nat ->
  exists l v, aget a (Z.of_nat i) = Ok (Some l) /\ o !! l = Some v /\ a !! i = Some (Some l) /\
    kof o a i = expire v.
Proof.
  intros Hl Hi. destruct (Hl i Hi) as (l & v & Ha & Ho). exists l, v. split_ands; try done.
  - apply aget_ok; [lia|]. by rewrite Nat2Z.id.
  - unfold kof. by rewrite Ha, Ho.
Qed.

Lemma get_expire_ok o l v : o !! l = Some v -> get_expire o (Some l) = Ok (expire v).
Proof. intros H. unfold get_expire. by rewrite (deref_Some _ _ _ H). Qed.

(** The invariant of the loop: [b] is the array with [temp] put into the hole
    [h]; its order is broken at most below [h], and the parent of [h] fits. *)
Record sifting (o : gmap loc heap_timer) (b : list ptr) (r h n : nat) : Prop := {
  sf_le : (r <= h)%nat;
  sf_order : forall p i, (r <= p)%nat -> p <> h -> (i = 2 * p + 1 \/ i = 2 * p + 2)%nat ->
    (i < n)%nat -> kof o b p <= kof o b i;
  sf_parent : forall p i, (r <= p)%nat -> (h = 2 * p + 1 \/ h = 2 * p + 2)%nat ->
    (i = 2 * h + 1 \/ i = 2 * h + 2)%nat -> (i < n)%nat -> kof o b p <= kof o b i }.

Lemma sifting_start o a r n : heap_from o a (S r) n -> sifting o a r r n.
Proof.
  intros H. split; [done|..].
  - intros p i Hp Hne Hi Hn. apply (H p i); [lia|done|done].
  - intros p i Hp Hr. lia.
Qed.

Lemma sifting_stop o b r h n :
  sifting o b r h n ->
  (forall i, (i = 2 * h + 1 \/ i = 2 * h + 2)%nat -> (i < n)%nat -> kof o b h <= kof o b i) ->
  heap_from o b r n.
Proof.
  intros [H1 H2 H3] Hh p i Hp Hi Hn. destruct (decide (p = h)) as [->|Hne]; [by apply Hh|by apply H2].
Qed.

(** Exchanging the hole with its smaller child. *)
Lemma sifting_swap o b b' r h c n :
  sifting o b r h n -> (c = 2 * h + 1 \/ c = 2 * h + 2)%nat -> (c < n)%nat ->
  kof o b c < kof o b h ->
  (forall i, (i = 2 * h + 1 \/ i = 2 * h + 2)%nat -> (i < n)%nat -> kof o b c <= kof o b i) ->
  kof o b' h = kof o b c -> kof o b' c = kof o b h ->
  (forall i, i <> h -> i <> c -> kof o b' i = kof o b i) ->
  sifting o b' r c n.
Proof.
  intros [H1 H2 H3] Hc Hn Hlt Hmin Eh Ec Eo. split; [lia|..].
  - intros p i Hp Hne Hi Hin. destruct (decide (p = h)) as [->|Hph].
    + rewrite Eh. destruct (decide (i = c)) as [->|Hic]; [rewrite Ec; lia|].
      rewrite Eo by lia. by apply Hmin.
    + rewrite (Eo p) by done. destruct (decide (i = h)) as [->|Hih].
      * rewrite Eh. apply (H3 p c); [done|done|done|done].
      * destruct (decide (i = c)) as [->|Hic]; [lia|]. rewrite Eo by done. by apply H2.
  - intros p i Hp Hpc Hi Hin. assert (p = h) as -> by lia. rewrite Eh, Eo by lia.
    apply H2; [lia|lia|done|done].
Qed.

Lemma kof_lookup o a i p : a !! i = Some p -> kof o a i =
  match p with Some l => match o !! l with Some v => expire v | None => 0 end | None => 0 end.
Proof. unfold kof. by intros ->. Qed.

Lemma kof_ext o a b i : a !! i = b !! i -> kof o a i = kof o b i.
Proof. unfold kof. by intros ->. Qed.

(** Which child the loop looks at. *)
Lemma child_choice o a h (size : Z) n :
  live o a n -> Z.of_nat n = size - 1 -> (2 * h + 1 < n)%nat ->
  exists c, (if decide (Z.of_nat h * 2 + 1 + 1 < size - 1) then
               q ← aget a (Z.of_nat h * 2 + 1 + 1);
               e2 ← get_expire o q;
               p ← aget a (Z.of_nat h * 2 + 1);
               e1 ← get_expire o p;
               Ok (if decide (e2 < e1) then Z.of_nat h * 2 + 1 + 1 else Z.of_nat h * 2 + 1)
             else Ok (Z.of_nat h * 2 + 1)) = Ok (Z.of_nat c) /\
    (c = 2 * h + 1 \/ c = 2 * h + 2)%nat /\ (c < n)%nat /\
    forall i, (i = 2 * h + 1 \/ i = 2 * h + 2)%nat -> (i < n)%nat -> kof o a c <= kof o a i.
Proof.
  intros Hl Hn Hlt.
  replace (Z.of_nat h * 2 + 1 + 1) with (Z.of_nat (2 * h + 2)) by lia.
  replace (Z.of_nat h * 2 + 1) with (Z.of_nat (2 * h + 1)) by lia.
  destruct (live_get _ _ _ _ Hl Hlt) as (l1 & v1 & E1 & Ho1 & Ha1 & K1).
  case_decide as Hd.
  - destruct (live_get o a n (2 * h + 2) Hl) as (l2 & v2 & E2 & Ho2 & Ha2 & K2); [lia|].
    rewrite (bind_ok _ _ _ E2), (bind_ok _ _ _ (get_expire_ok _ _ _ Ho2)).
    rewrite (bind_ok _ _ _ E1), (bind_ok _ _ _ (get_expire_ok _ _ _ Ho1)).
    case_decide as Hlt2.
    + exists (2 * h + 2)%nat. split_ands; [done|lia|lia|]. intros i [->| ->] _; lia.
    + exists (2 * h + 1)%nat. split_ands; [done|lia|lia|]. intros i [->| ->] _; lia.
  - exists (2 * h + 1)%nat. split_ands; [done|lia|lia|]. intros i [->| ->] Hi; [lia|].
    exfalso. lia.
Qed.

(** The smaller child moved up, and what is carried written where it was. *)
Lemma swap_down {A} (a : list A) h c x y :
  c <> h -> (h < length a)%nat -> a !! c = Some y ->
  let a' := <[c := x]> (<[h := y]> a) in let b := <[h := x]> a in
  a' ≡ₚ b /\ (forall i, i <> h -> i <> c -> a' !! i = b !! i) /\ a' !! h = Some y /\ a' !! c = Some x.
Proof.
  intros Hne Hh Hc a' b. apply lookup_lt_Some in Hc as Hcl. unfold a', b. split_ands.
  - rewrite <- (list_insert_insert_eq a h y x).
    apply Permutation_insert_swap; [by apply list_lookup_insert_eq|]. by rewrite list_lookup_insert_ne by done.
  - intros i Hih Hic. by rewrite !list_lookup_insert_ne by done.
  - rewrite list_lookup_insert_ne by done. by apply list_lookup_insert_eq.
  - apply list_lookup_insert_eq. by rewrite length_insert.
Qed.

Lemma percolate_loop_spec fuel o a (size : Z) h n r lt vt :
  Z.of_nat n = size - 1 -> (n <= fuel + h)%nat -> (h < length a)%nat ->
  live o a n -> o !! lt = Some vt ->
  exists a' h', percolate_loop fuel o a size (Z.of_nat h) (Some lt) = Ok (a', Z.of_nat h') /\
    (h' < length a')%nat /\ <[h' := Some lt]> a' ≡ₚ <[h := Some lt]> a /\
    (sifting o (<[h := Some lt]> a) r h n -> heap_from o (<[h' := Some lt]> a') r n) /\
    (forall i, (n <= i)%nat -> (<[h' := Some lt]> a') !! i = (<[h := Some lt]> a) !! i).
Proof.
  intros Hn. revert a h. induction fuel as [|fuel IH]; intros a h Hf Hh Hl Ho;
    cbn [percolate_loop]; case_decide as Hd; try lia.
  1,3: exists a, h; split_ands; [done|done|done| |done]; intros Hsf;
    eapply sifting_stop; [exact Hsf|]; intros i Hi Hin; lia.
  assert (2 * h + 1 < n)%nat as Hc1 by lia.
  destruct (child_choice _ _ _ _ _ Hl Hn Hc1) as (c & Ec & Hc & Hcn & Hmin).
  rewrite (bind_ok _ _ _ Ec). clear Ec.
  destruct (live_get _ _ _ _ Hl Hcn) as (lc & vc & Eac & Hoc & Hac & Kc).
  rewrite (bind_ok _ _ _ Eac), (bind_ok _ _ _ (get_expire_ok _ _ _ Hoc)),
    (bind_ok _ _ _ (get_expire_ok _ _ _ Ho)).
  set (b := <[h := Some lt]> a) in *.
  assert (forall i, i <> h -> b !! i = a !! i) as Hb by (intros; by apply list_lookup_insert_ne).
  assert (b !! h = Some (Some lt)) as Hbh by by apply list_lookup_insert_eq.
  assert (kof o b h = expire vt) as Kh by (rewrite (kof_lookup _ _ _ _ Hbh); by rewrite Ho).
  assert (kof o b c = expire vc) as Kbc by (rewrite <- Kc; apply kof_ext, Hb; lia).
  assert (forall i, (i = 2 * h + 1 \/ i = 2 * h + 2)%nat -> (i < n)%nat -> kof o b c <= kof o b i) as Hmb.
  { intros i Hi Hin. rewrite (kof_ext o b a c), (kof_ext o b a i) by (apply Hb; lia). by apply Hmin. }
  case_decide as Hlt.
  - rewrite (bind_ok _ _ _ (aset_ok a (Z.of_nat h) (Some lc) ltac:(lia))), Nat2Z.id.
    set (a1 := <[h := Some lc]> a).
    destruct (swap_down a h c (Some lt) (Some lc)) as (Hperm & Hoth & H1h & H1c); [lia|done|done|].
    fold a1 b in Hperm, Hoth, H1h, H1c.
    destruct (IH a1 c) as (a' & h' & E' & Hlen' & Hp' & Hheap & Hrest).
    + lia.
    + unfold a1. rewrite length_insert. by apply lookup_lt_Some in Hac.
    + intros i Hi. unfold a1. destruct (decide (i = h)) as [->|Hih].
      * rewrite list_lookup_insert_eq by done. eauto.
      * rewrite list_lookup_insert_ne by done. by apply Hl.
    + done.
    + exists a', h'. split_ands; [done|done|by rewrite Hp'| |].
      * intros Hsf. apply Hheap. apply (sifting_swap o b _ r h c n Hsf); try done.
        -- by rewrite Kbc, Kh.
        -- by rewrite (kof_lookup _ _ _ _ H1h), Hoc, Kbc.
        -- by rewrite (kof_lookup _ _ _ _ H1c), Ho, Kh.
        -- intros i Hih Hic. apply kof_ext. by apply Hoth.
      * intros i Hi. rewrite Hrest by done. apply Hoth; lia.
  - exists a, h. split_ands; [done|done|done| |done].
    intros Hsf. eapply sifting_stop; [exact Hsf|]. intros i Hi Hin.
    change (kof o b h <= kof o b i). etrans; [|exact (Hmb i Hi Hin)]. rewrite Kh, Kbc. lia.
Qed.

Lemma percolate_down_spec th (r n : nat) :
  Z.of_nat n = cur_size th - 1 -> live (objs th) (array th) (S n) -> (r <= n)%nat ->
  exists a, percolate_down (Z.of_nat r) th = Ok (TimeHeap (objs th) a (capacity th) (cur_size th)) /\
    a ≡ₚ array th /\ (forall i, (n <= i)%nat -> a !! i = array th !! i) /\
    (heap_from (objs th) (array th) (S r) n -> heap_from (objs th) a r n).
Proof.
  intros Hn Hl Hr. unfold percolate_down.
  destruct (live_get (objs th) (array th) (S n) r Hl) as (lt & vt & E & Ho & Ha & K); [lia|].
  rewrite (bind_ok _ _ _ E). apply lookup_lt_Some in Ha as Hlen.
  assert (<[r := Some lt]> (array th) = array th) as Hid by by apply list_insert_id.
  destruct (percolate_loop_spec (Z.to_nat (cur_size th)) (objs th) (array th) (cur_size th) r n r lt vt)
    as (a' & h' & E' & Hlen' & Hp & Hh & Hrest); [done|lia|done| |done|].
  - intros i Hi. apply Hl. lia.
  - rewrite (bind_ok _ _ _ E'). cbv beta iota. rewrite aset_ok by lia. rewrite Nat2Z.id.
    cbn [mbind res_bind]. eexists. split; [done|]. rewrite Hid in *. split_ands; [done|done|].
    intros Hheap. by apply Hh, sifting_start.
Qed.

Lemma live_Forall o a n :
  live o a n <-> (n <= length a)%nat /\
    Forall (fun p => exists l v, p = Some l /\ o !! l = Some v) (take n a).
Proof.
  split.
  - intros H. split.
    + destruct n as [|n]; [lia|]. destruct (H n) as (l & v & Ha & _); [lia|].
      apply lookup_lt_Some in Ha. lia.
    + apply Forall_lookup. intros i p Hp. apply lookup_take_Some in Hp as [Hp Hi].
      destruct (H i Hi) as (l & v & Ha & Ho). rewrite Hp in Ha. injection Ha as ->. eauto.
  - intros [Hlen Hf] i Hi. destruct (lookup_lt_is_Some_2 a i) as [p Hp]; [lia|].
    rewrite Forall_lookup in Hf. destruct (Hf i p) as (l & v & -> & Ho); [|eauto].
    by apply lookup_take_Some.
Qed.

(** A permutation that fixes what is behind [n] permutes the first [n]. *)
Lemma take_perm (a b : list ptr) n :
  a ≡ₚ b -> (forall i, (n <= i)%nat -> a !! i = b !! i) -> take n a ≡ₚ take n b.
Proof.
  intros Hp Hrest. apply (Permutation_app_inv_r (drop n b)). rewrite take_drop.
  assert (drop n a = drop n b) as <-
    by (apply list_eq; intros i; rewrite !lookup_drop; apply Hrest; lia).
  by rewrite take_drop.
Qed.

Lemma live_perm o a b n :
  a ≡ₚ b -> (forall i, (n <= i)%nat -> a !! i = b !! i) -> live o b (S n) -> live o a (S n).
Proof.
  intros Hp Hrest [Hlen Hf]%live_Forall. apply live_Forall.
  split; [by rewrite (Permutation_length Hp)|].
  rewrite (take_perm a b (S n) Hp) by (intros; apply Hrest; lia). done.
Qed.

(** ** Building a heap from an array *)

Lemma copy_to_spec n src dst :
  (n <= length src)%nat -> (n <= length dst)%nat ->
  copy_to n src dst = Ok (take n src ++ drop n dst).
Proof.
  induction n as [|n IH]; intros Hs Hd; [done|]. cbn [copy_to].
  rewrite IH by lia. cbn [mbind res_bind].
  destruct (lookup_lt_is_Some_2 src n) as [p Hp]; [lia|].
  destruct (lookup_lt_is_Some_2 dst n) as [q Hq]; [lia|].
  rewrite (aget_ok _ _ p) by (lia || by rewrite Nat2Z.id). cbn [mbind res_bind].
  rewrite (drop_S dst q n Hq), (take_S_r _ _ _ Hp), <- app_assoc.
  apply aset_at. rewrite length_take. lia.
Qed.

Lemma sift_all_spec r th n :
  Z.of_nat n = cur_size th - 1 -> live (objs th) (array th) (S n) -> (r <= n)%nat ->
  heap_from (objs th) (array th) (S r) n ->
  exists a, sift_all r th = Ok (TimeHeap (objs th) a (capacity th) (cur_size th)) /\
    a ≡ₚ array th /\ (forall i, (n <= i)%nat -> a !! i = array th !! i) /\ heap_from (objs th) a 0 n.
Proof.
  revert th. induction r as [|r IH]; intros th Hn Hl Hr Hheap; cbn [sift_all];
    destruct (percolate_down_spec th _ n Hn Hl Hr) as (a & E & Hp & Hrest & Hh);
    rewrite (bind_ok _ _ _ E).
  - exists a. split_ands; auto.
  - destruct (IH (TimeHeap (objs th) a (capacity th) (cur_size th))) as (a2 & E2 & Hp2 & Hr2 & Hh2).
    + done.
    + by eapply live_perm.
    + lia.
    + by apply Hh.
    + exists a2. cbn [objs array capacity cur_size] in *. split_ands; [done|by rewrite Hp2| |done].
      intros i Hi. by rewrite Hr2, Hrest.
Qed.

(** [C9] The constructor from an array keeps exactly the timers it is given and
    establishes heap order among all of them but the last, which
    [percolate_down] never looks at. *)
Theorem new_heap_from_order o init n cap :
  live o init (S n) -> Z.of_nat n + 1 <= cap ->
  exists a, new_heap_from o init (Z.of_nat n + 1) cap =
      Ok (TimeHeap o a cap (Z.of_nat n + 1)) /\
    take (S n) a ≡ₚ take (S n) init /\ heap_from o a 0 n /\ a !! n = init !! n.
Proof.
  intros Hl Hcap. unfold new_heap_from. rewrite decide_False by lia. rewrite decide_True by lia.
  pose proof (proj1 (live_Forall _ _ _) Hl) as [Hlen Hf].
  rewrite copy_to_spec by (rewrite ?length_replicate; lia). cbn [mbind res_bind]. cbv zeta.
  rewrite Z.quot_div_nonneg by lia. rewrite decide_True by (apply Z.div_pos; lia).
  replace (Z.to_nat (Z.of_nat n + 1)) with (S n) by lia.
  set (a0 := take (S n) init ++ drop (S n) (replicate (Z.to_nat cap) None)).
  assert (take (S n) a0 = take (S n) init) as Ht0
    by (unfold a0; rewrite take_app_le by (rewrite length_take; lia); apply take_ge; rewrite length_take; lia).
  assert (live o a0 (S n)) as Hl0.
  { apply live_Forall. rewrite Ht0. split; [|done].
    unfold a0. rewrite length_app, length_take. lia. }
  destruct (sift_all_spec (Z.to_nat ((Z.of_nat n + 1 - 1) / 2))
    (TimeHeap o a0 cap (Z.of_nat n + 1)) n) as (a & E & Hp & Hrest & Hh).
  - cbn. lia.
  - done.
  - replace (Z.of_nat n + 1 - 1) with (Z.of_nat n) by lia.
    pose proof (Z.div_le_upper_bound (Z.of_nat n) 2 (Z.of_nat n)). lia.
  - intros p i Hpr Hi Hin. exfalso.
    replace (Z.of_nat n + 1 - 1) with (Z.of_nat n) in Hpr by lia.
    pose proof (Z.div_mod (Z.of_nat n) 2). pose proof (Z.mod_pos_bound (Z.of_nat n) 2). lia.
  - exists a. cbn [objs array capacity cur_size] in *. split_ands; [done| |done|].
    + rewrite <- Ht0. apply take_perm; [done|]. intros; apply Hrest; lia.
    + rewrite Hrest by done. unfold a0. rewrite lookup_app_l by (rewrite length_take; lia).
      apply lookup_take_lt. lia.
Qed.

(** ** Adding *)

(** The first [add_timer] of a new heap of any capacity dereferences the
    null pointer in slot 0: the hole is taken after [cur_size] has been
    incremented, so its parent is an empty slot. *)
Theorem first_add_faults o cap l v :
  1 <= cap -> o !! l = Some v -> add_timer (Some l) (new_heap o cap) = Err NullDeref.
Proof.
  intros Hcap Hl. unfold add_timer, new_heap. cbn [cur_size capacity].
  rewrite decide_False by lia. cbn [mbind res_bind cur_size objs array capacity].
  change (Z.to_nat (0 + 1)) with 1%nat. cbn [percolate_up]. rewrite decide_True by lia.
  change ((0 + 1 - 1) / 2) with 0.
  rewrite (aget_ok _ 0 None) by (lia || (apply lookup_replicate_2; lia)). done.
Qed.

(** ** Popping and ticking *)

(** The first [n] slots hold different live timers. *)
Record hwf (th : time_heap) (n : nat) : Prop := {
  hw_size : cur_size th = Z.of_nat n;
  hw_live : live (objs th) (array th) n;
  hw_nodup : NoDup (take n (array th)) }.

Lemma percolate_down_empty th p :
  cur_size th = 0 -> array th !! 0%nat = Some p -> percolate_down 0 th = Ok th.
Proof.
  intros Hs Hp. unfold percolate_down. rewrite (aget_ok _ 0 p) by (lia || done).
  rewrite Hs. change (Z.to_nat 0) with 0%nat. cbn [mbind res_bind percolate_loop].
  rewrite decide_False by lia. cbn [mbind res_bind]. apply lookup_lt_Some in Hp as Hlt.
  rewrite aset_ok by lia. cbn [mbind res_bind]. change (Z.to_nat 0) with 0%nat.
  rewrite list_insert_id by done. rewrite <- Hs. by destruct th.
Qed.

Lemma pop_timer_spec th n :
  hwf th (S n) ->
  exists l v a, array th !! 0%nat = Some (Some l) /\ objs th !! l = Some v /\
    let th' := TimeHeap (delete l (objs th)) a (capacity th) (Z.of_nat n) in
    pop_timer th = Ok th' /\ hwf th' n /\ length a = length (array th) /\
    Some l :: take n a ≡ₚ take (S n) (array th).
Proof.
  intros [Hs Hl Hnd]. destruct (Hl 0%nat) as (l & v & H0 & Ho); [lia|].
  unfold pop_timer, empty. rewrite bool_decide_false by lia.
  rewrite (aget_ok _ 0 _ ltac:(lia) H0). cbn [mbind res_bind].
  unfold delete_timer. rewrite (deref_Some _ _ _ Ho). cbn [mbind res_bind].
  destruct (Hl n) as (q & vq & Hq & Hoq); [lia|].
  replace (cur_size th - 1) with (Z.of_nat n) by lia.
  rewrite (aget_ok _ (Z.of_nat n) _ ltac:(lia) ltac:(rewrite Nat2Z.id; exact Hq)).
  cbn [mbind res_bind]. apply lookup_lt_Some in Hq as Hlen.
  rewrite aset_ok by lia. cbn [mbind res_bind]. change (Z.to_nat 0) with 0%nat.
  destruct (array th) as [|p0 t] eqn:Ea; [done|]. cbn in H0. injection H0 as ->.
  cbn [insert list_insert] in *. destruct n as [|n].
  - cbn in Hq. injection Hq as <-.
    rewrite (percolate_down_empty _ (Some l)) by done.
    exists l, v, (Some l :: t). split_ands; try done. split; [done|intros i Hi; lia|constructor].
  - change ((Some l :: t) !! S n) with (t !! n) in Hq.
    change (take (S (S n)) (Some l :: t)) with (Some l :: take (S n) t) in Hnd.
    apply NoDup_cons in Hnd as [Hlt Hnd].
    assert (live (delete l (objs th)) (Some q :: t) (S n)) as Hl1.
    { intros i Hi. destruct (Hl (S i)) as (x & vx & Hx & Hox); [lia|]. cbn in Hx.
      assert (forall j y, (j < S n)%nat -> t !! j = Some (Some y) -> y <> l) as Hne.
      { intros j y Hj Hy ->. apply Hlt. apply (list_elem_of_lookup_2 _ j). by apply lookup_take_Some. }
      destruct i as [|i].
      - exists q, vq. split; [done|]. rewrite lookup_delete_ne; [done|].
        apply not_eq_sym, (Hne n); [lia|done].
      - destruct (Hl (S i)) as (y & vy & Hy & Hoy); [lia|]. cbn in Hy.
        exists y, vy. split; [done|]. rewrite lookup_delete_ne; [done|].
        apply not_eq_sym, (Hne i); [lia|done]. }
    destruct (percolate_down_spec (TimeHeap (delete l (objs th)) (Some q :: t) (capacity th)
      (Z.of_nat (S n))) 0 n) as (a & E & Hp & Hrest & _); [cbn; lia|done|lia|].
    change (Z.of_nat 0) with 0 in E. cbn [objs array capacity cur_size] in *.
    exists l, v, a. split_ands; [done|done|exact E| |by rewrite (Permutation_length Hp)|].
    + split; [done|by eapply live_perm|].
      cbn [array]. rewrite (take_perm a (Some q :: t) (S n) Hp) by (intros; apply Hrest; lia).
      cbn [take]. rewrite (take_S_r _ _ _ Hq) in Hnd. by rewrite Permutation_cons_append.
    + rewrite (take_perm a (Some q :: t) (S n) Hp) by (intros; apply Hrest; lia).
      cbn [take]. change (match t with [] => [] | y :: l => y :: take n l end) with (take (S n) t).
      rewrite (take_S_r _ _ _ Hq). apply perm_skip, Permutation_cons_append.
Qed.

(** The calls for the popped timers [ls]. *)
Definition calls_for (o : gmap loc heap_timer) (ls : list loc) : list (Z * Z) :=
  omap (fun l => v ← o !! l; f ← cb_func v; Some (f, user_data v)) ls.

Lemma calls_for_delete o l ls : l ∉ ls -> calls_for (delete l o) ls = calls_for o ls.
Proof.
  unfold calls_for. induction ls as [|y ls IH]; intros Hl; [done|]. cbn.
  rewrite lookup_delete_ne by set_solver. rewrite IH by set_solver. done.
Qed.

Lemma tick_loop_safe n th fuel cur tmp :
  hwf th n -> (n <= fuel)%nat -> array th !! 0%nat = Some tmp ->
  exists th' n' ls, tick_loop fuel cur tmp th = Ok (th', calls_for (objs th) ls) /\ hwf th' n' /\
    (Some <$> ls) ++ take n' (array th') ≡ₚ take n (array th) /\
    Forall (fun l => exists v, objs th !! l = Some v /\ expire v <= cur) ls /\
    (n' <> 0%nat -> cur < kof (objs th') (array th') 0) /\
    (forall l, l ∉ ls -> objs th' !! l = objs th !! l) /\
    Forall (fun l => objs th' !! l = None) ls.
Proof.
  revert th fuel tmp. induction n as [|n IH]; intros th fuel tmp Hw Hf H0.
  { exists th, 0%nat, []. split_ands; try done.
    destruct fuel; cbn [tick_loop]; unfold empty; rewrite bool_decide_true by apply Hw; done. }
  destruct fuel as [|fuel]; [lia|]. cbn [tick_loop].
  unfold empty. rewrite bool_decide_false by (rewrite (hw_size _ _ Hw); lia).
  destruct (pop_timer_spec th n Hw) as (l & v & a & Hl & Ho & Hpop & Hw' & Hlen & Hperm).
  rewrite H0 in Hl. injection Hl as ->.
  rewrite (get_expire_ok _ _ _ Ho). cbn [mbind res_bind]. case_decide as Hdue.
  - exists th, (S n), []. split_ands; try done.
    intros _. unfold kof. rewrite H0, Ho. lia.
  - rewrite (aget_ok _ 0 _ ltac:(lia) H0). cbn [mbind res_bind].
    rewrite (deref_Some _ _ _ Ho). cbn [mbind res_bind]. rewrite Hpop. cbn [mbind res_bind array].
    destruct (lookup_lt_is_Some_2 a 0) as [tmp' Htmp];
      [rewrite Hlen; by apply lookup_lt_Some in H0|].
    rewrite (aget_ok _ 0 _ ltac:(lia) Htmp). cbn [mbind res_bind].
    destruct (IH _ fuel tmp' Hw') as (th' & n' & ls & E & Hw2 & Hp & Hdues & Htop & Hobj & Hfree);
      [lia|done|].
    rewrite E. cbn [mbind res_bind objs array] in *.
    assert (l ∉ ls) as Hll.
    { intros Hin. rewrite Forall_forall in Hdues. destruct (Hdues l Hin) as (u & Hu & _).
      by rewrite lookup_delete_eq in Hu. }
    exists th', n', (l :: ls). split_ands.
    + do 2 f_equal. rewrite calls_for_delete by done. unfold calls_for. cbn. rewrite Ho. cbn.
      by destruct (cb_func v).
    + done.
    + cbn [fmap list_fmap app]. rewrite <- Hperm. by f_equiv.
    + constructor; [exists v; split; [done|lia]|].
      eapply Forall_impl; [exact Hdues|]. intros y (u & Hu & ?). cbn.
      apply lookup_delete_Some in Hu as [_ Hu]. eauto.
    + done.
    + intros y Hy. rewrite Hobj by set_solver. rewrite lookup_delete_ne; [done|]. set_solver.
    + constructor; [|done]. rewrite Hobj by done. apply lookup_delete_eq.
Qed.

(** [C21] [tick] is safe and lazy deletion works: it returns, it deletes and
    calls only timers that are due (those whose callback [del_timer] has cleared
    without a call), keeps all the others, and stops when the array is empty or
    the timer on top is not due. *)
Theorem tick_safe n th cur :
  hwf th n -> (0 < length (array th))%nat ->
  exists th' n' ls, tick cur th = Ok (th', calls_for (objs th) ls) /\ hwf th' n' /\
    (Some <$> ls) ++ take n' (array th') ≡ₚ take n (array th) /\
    Forall (fun l => exists v, objs th !! l = Some v /\ expire v <= cur) ls /\
    (n' <> 0%nat -> cur < kof (objs th') (array th') 0) /\
    Forall (fun l => objs th' !! l = None) ls.
Proof.
  intros Hw Hlen. destruct (lookup_lt_is_Some_2 (array th) 0 Hlen) as [tmp Htmp].
  unfold tick. rewrite (aget_ok _ 0 _ ltac:(lia) Htmp). cbn [mbind res_bind].
  destruct (tick_loop_safe n th (S (Z.to_nat (cur_size th))) cur tmp Hw)
    as (th' & n' & ls & E & ? & ? & ? & ? & _ & ?); [|done|].
  - rewrite (hw_size _ _ Hw). lia.
  - exists th', n', ls. split_ands; done.
Qed.

(** ** Witnesses and a missed timer *)

Definition objs0 : gmap loc heap_timer :=
  {[ 1%positive := HeapTimer 1 (Some 11) 0; 2%positive := HeapTimer 2 (Some 12) 0;
     3%positive := HeapTimer 3 (Some 13) 0 ]}.
Definition init0 : list ptr := [Some 1%positive; Some 2%positive; Some 3%positive].
Definition heap0 : time_heap := TimeHeap objs0 init0 3 3.

Lemma live0 : live objs0 init0 3.
Proof.
  intros i Hi. destruct i as [|[|[|i]]]; [eexists _, _; split; reflexivity..|lia].
Qed.

(** After one pop the order is lost: of timers due at 1, 2 and 3 the tick at
    time 2 runs only the first, because [percolate_down] leaves the timer for 3
    on top of the one for 2. *)
Theorem tick_misses_timer :
  exists th', tick 2 heap0 = Ok (th', [(11, 0)]) /\ cur_size th' = 2 /\
    objs th' !! 2%positive = Some (HeapTimer 2 (Some 12) 0).
Proof. eexists. split; [vm_compute; reflexivity|]. split; reflexivity. Qed.

Lemma new_heap_from_order_witness : exists a,
  new_heap_from objs0 init0 3 5 = Ok (TimeHeap objs0 a 5 3) /\
  take 3 a ≡ₚ take 3 init0 /\ heap_from objs0 a 0 2 /\ a !! 2%nat = init0 !! 2%nat.
Proof. apply (new_heap_from_order objs0 init0 2 5); [apply live0|lia]. Defined.

Lemma first_add_faults_witness : add_timer (Some 1%positive) (new_heap objs0 8) = Err NullDeref.
Proof. apply (first_add_faults objs0 8 1 (HeapTimer 1 (Some 11) 0)); [lia|reflexivity]. Defined.

Lemma tick_safe_witness : exists th' n' ls,
  tick 1 heap0 = Ok (th', calls_for objs0 ls) /\ hwf th' n' /\
  (Some <$> ls) ++ take n' (array th') ≡ₚ init0.
Proof.
  destruct (tick_safe 3 heap0 1) as (th' & n' & ls & E & Hw & Hp & _).
  - split; [reflexivity|apply live0|decided].
  - cbn. lia.
  - exists th', n', ls. auto.
Defined.
