(* ===== verification/InactiveLink.v ===== *)
(** * The server that closes idle connections
    (socket/timer/handling_inactive_link.cpp)

    The event loop of [main], written against the [TimerQueue] interface: each
    accepted client gets a timer that expires [3 * TIMESLOT] seconds later,
    data on the connection pushes the expiry back, and SIGALRM makes the loop
    run the due timers, whose callback closes the connection. *)

From S2P Require Import Prelude TimerQueue.

Definition FD_LIMIT : Z := 65535.
Definition TIMESLOT : Z := 5.
Definition BUFFER_SIZE : nat := 64.
Definition SIGALRM : Z := 14.
Definition SIGTERM : Z := 15.

(** The file-scope [epollfd] that [cb_func] uses; [main] declares a local
    variable of the same name and leaves this one at its initial value. *)
Definition epollfd_static : Z := 0.

(** The only callback of the program, as a function pointer. *)
Definition cb_func_id : Z := 1.

(** [client_data]; an entry of [users] that was never written has no value. *)
Record client_data := ClientData {
  sockfd : Z;
  buf : list ascii;
  timer : ptr;
}.

(** System calls with an effect on descriptors and alarms, in order. *)
Inductive action :=
  | EpollAdd (ep fd : Z)
  | EpollDel (ep fd : Z)
  | Close (fd : Z)
  | Alarm (secs : Z).

(** What [recv] returned: [-1] with or without EAGAIN, or the bytes read. *)
Inductive recv_result :=
  | RecvErr (again : bool)
  | RecvData (bytes : list ascii).

(** One entry of [events] with what the calls made for it return.  [now] is
    [time(nullptr)], [t] the address [new util_timer] returns. *)
Inductive event :=
  | EvListen (connfd now : Z) (t : loc)
  | EvPipe (signals : recv_result)
  | EvClient (fd now : Z) (r : recv_result)
  | EvOther.

(** One return of [epoll_wait]: failure other than EINTR, or the events (none
    for EINTR), with the time at which the batch has been handled. *)
Inductive poll_result :=
  | PollFail
  | PollEvents (evs : list event) (now : Z).

Section server.
Context {Q : Type} `{TimerQueue Q}.
(** [main]'s local [epollfd] *)
Context (epollfd : Z).

Record server := Server {
  timer_lst : Q;
  users : gmap Z client_data;
  timeout : bool;
  stop_server : bool;
  conns : gset Z;          (** the kernel's view: the open client sockets *)
  trace : list action;     (** the system calls so far, latest first *)
}.

(** [users[i]]: the bounds check, then the element if it was ever written *)
Definition in_users (i : Z) : bool := (0 <=? i) && (i <? FD_LIMIT).
Definition user (w : server) (i : Z) : res (option client_data) :=
  if in_users i then mret (users w !! i) else Err OutOfBounds.

Definition set_user (w : server) (i : Z) (c : client_data) : server :=
  Server (timer_lst w) (<[i := c]> (users w)) (timeout w) (stop_server w) (conns w) (trace w).
Definition set_timers (w : server) (q : Q) : server :=
  Server q (users w) (timeout w) (stop_server w) (conns w) (trace w).
Definition log (w : server) (a : action) : server :=
  Server (timer_lst w) (users w) (timeout w) (stop_server w)
    (match a with Close fd => conns w ∖ {[fd]} | _ => conns w end) (a :: trace w).

(** [cb_func(&users[i])] *)
Definition cb_func (w : server) (i : Z) : res server :=
  c ← user w i;
  c ← from_opt Uninit c;
  mret (log (log w (EpollDel epollfd_static (sockfd c))) (Close (sockfd c))).

Definition call_back (w : server) (c : call) : res server :=
  if c.1 =? cb_func_id then cb_func w c.2 else Err NullCall.

Fixpoint call_backs (w : server) (cs : list call) : res server :=
  match cs with
  | [] => mret w
  | c :: cs => w ← call_back w c; call_backs w cs
  end.

(** [timer_handler()] *)
Definition timer_handler (w : server) (now : Z) : res server :=
  '(q, cs) ← q_tick (timer_lst w) now;
  w ← call_backs (set_timers w q) cs;
  mret (log w (Alarm TIMESLOT)).

(** A new client. *)
Definition on_listen (w : server) (connfd now : Z) (t : loc) : res server :=
  let w := log w (EpollAdd epollfd connfd) in
  c ← user w connfd;
  let w := set_user w connfd
    (ClientData connfd (match c with Some c => buf c | None => [] end) (Some t)) in
  q ← q_add (timer_lst w) t (UtilTimer (now + 3 * TIMESLOT) (Some cb_func_id) connfd);
  mret (Server q (users w) (timeout w) (stop_server w) ({[connfd]} ∪ conns w) (trace w)).

(** The signal bytes read from the pipe. *)
Fixpoint on_signals (w : server) (sigs : list ascii) : server :=
  match sigs with
  | [] => w
  | c :: sigs =>
      let s := Z.of_nat (nat_of_ascii c) in
      on_signals (Server (timer_lst w) (users w)
        (if s =? SIGALRM then true else timeout w)
        (if s =? SIGTERM then true else stop_server w) (conns w) (trace w)) sigs
  end.

(** Closing a client from the loop: the callback, then its timer. *)
Definition drop_client (w : server) (fd : Z) (t : ptr) : res server :=
  w ← cb_func w fd;
  match t with
  | None => mret w
  | Some t => q ← q_del (timer_lst w) t; mret (set_timers w q)
  end.

(** Data, an error or the end of the stream on a client's socket. *)
Definition on_client (w : server) (fd now : Z) (r : recv_result) : res server :=
  c ← user w fd;
  c ← from_opt Uninit c;
  let bytes := match r with RecvData bs => bs | RecvErr _ => [] end in
  let w := set_user w fd (ClientData (sockfd c)
    (bytes ++ replicate (BUFFER_SIZE - length bytes) zero) (timer c)) in
  match r with
  | RecvErr true => mret w
  | RecvErr false => drop_client w fd (timer c)
  | RecvData [] => drop_client w fd (timer c)
  | RecvData _ =>
      match timer c with
      | None => mret w
      | Some t =>
          q ← q_touch (timer_lst w) t (now + 3 * TIMESLOT);
          mret (set_timers w q)
      end
  end.

Definition handle_event (w : server) (e : event) : res server :=
  match e with
  | EvListen connfd now t => on_listen w connfd now t
  | EvPipe (RecvErr _) => mret w
  | EvPipe (RecvData sigs) => mret (on_signals w sigs)
  | EvClient fd now r => on_client w fd now r
  | EvOther => mret w
  end.

Fixpoint handle_events (w : server) (es : list event) : res server :=
  match es with
  | [] => mret w
  | e :: es => w ← handle_event w e; handle_events w es
  end.

(** After a batch: the due timers are run if an alarm arrived. *)
Definition after_batch (w : server) (now : Z) : res server :=
  if timeout w then
    w ← timer_handler w now;
    mret (Server (timer_lst w) (users w) false (stop_server w) (conns w) (trace w))
  else mret w.

(** The loop of [main] over the successive returns of [epoll_wait]; the
    [bool] says whether the loop has been left. *)
Fixpoint run (w : server) (ps : list poll_result) : res (server * bool) :=
  if stop_server w then mret (w, true) else
  match ps with
  | [] => mret (w, false)
  | PollFail :: _ => mret (w, true)
  | PollEvents es now :: ps =>
      w ← handle_events w es;
      w ← after_batch w now;
      run w ps
  end.

(** ** Specification: a table of deadlines *)

Record spec := Spec {
  deadlines : gmap Z Z;       (** open connection to the time it is closed *)
  sp_timeout : bool;
  sp_stop : bool;
}.

Definition idle_limit : Z := 3 * TIMESLOT.

Definition has_signal (s : Z) (sigs : list ascii) : bool :=
  existsb (fun c => Z.of_nat (nat_of_ascii c) =? s) sigs.

Definition spec_event (m : spec) (e : event) : spec :=
  match e with
  | EvListen fd now _ => Spec (<[fd := now + idle_limit]> (deadlines m)) (sp_timeout m) (sp_stop m)
  | EvClient fd now (RecvErr true) => m
  | EvClient fd now (RecvErr false) => Spec (delete fd (deadlines m)) (sp_timeout m) (sp_stop m)
  | EvClient fd now (RecvData []) => Spec (delete fd (deadlines m)) (sp_timeout m) (sp_stop m)
  | EvClient fd now (RecvData _) =>
      Spec (<[fd := now + idle_limit]> (deadlines m)) (sp_timeout m) (sp_stop m)
  | EvPipe (RecvData sigs) =>
      Spec (deadlines m) (sp_timeout m || has_signal SIGALRM sigs)
        (sp_stop m || has_signal SIGTERM sigs)
  | EvPipe (RecvErr _) | EvOther => m
  end.

(** What [accept] returned is an index of [users]; -1 and what is too large are not,
    and the code does not look. *)
Definition fits (e : event) : bool :=
  match e with EvListen connfd _ _ => in_users connfd | _ => true end.

Fixpoint spec_events (m : spec) (es : list event) : res spec :=
  match es with
  | [] => Ok m
  | e :: es => if fits e then spec_events (spec_event m e) es else Err OutOfBounds
  end.

Definition spec_tick (m : spec) (now : Z) : spec :=
  if sp_timeout m then
    Spec (filter (fun kv => now < kv.2) (deadlines m)) false (sp_stop m)
  else m.

Fixpoint spec_run (m : spec) (ps : list poll_result) : res (spec * bool) :=
  if sp_stop m then Ok (m, true) else
  match ps with
  | [] => Ok (m, false)
  | PollFail :: _ => Ok (m, true)
  | PollEvents es now :: ps => m ← spec_events m es; spec_run (spec_tick m now) ps
  end.

(** [refines clock m M w]: the open connections are those of [m], each has one
    live timer in [M] with its deadline, and there are no other timers.  [clock] is
    the last time seen. *)
Record refines (clock : Z) (m : spec) (M : gmap loc util_timer) (w : server) : Prop := {
  ref_holds : q_holds (timer_lst w) M;
  ref_conns : conns w = dom (deadlines m);
  ref_conn fd d : deadlines m !! fd = Some d ->
    in_users fd = true /\ d <= clock + idle_limit /\
    exists c t, users w !! fd = Some c /\ sockfd c = fd /\ timer c = Some t /\
      M !! t = Some (UtilTimer d (Some cb_func_id) fd);
  ref_timer t v : M !! t = Some v ->
    user_data v ∈ conns w /\
    exists c, users w !! user_data v = Some c /\ timer c = Some t;
  ref_timeout : timeout w = sp_timeout m;
  ref_stop : stop_server w = sp_stop m;
}.

(** What the kernel and the allocator guarantee of an event: descriptors and
    addresses handed out are fresh (or [accept] failed), events name open sockets, time
    goes on. *)
Definition event_ok (clock : Z) (w : server) (e : event) : Prop :=
  match e with
  | EvListen connfd now t =>
      connfd ∉ conns w /\ clock <= now /\
      forall M, q_holds (timer_lst w) M -> M !! t = None
  | EvClient fd now r => fd ∈ conns w /\ clock <= now
  | EvPipe _ | EvOther => True
  end.

Definition clock_after (clock : Z) (e : event) : Z :=
  match e with
  | EvListen _ now _ | EvClient _ now _ => now
  | EvPipe _ | EvOther => clock
  end.

Fixpoint events_ok (clock : Z) (w : server) (es : list event) : Prop :=
  match es with
  | [] => True
  | e :: es => event_ok clock w e /\
      forall w', handle_event w e = Ok w' -> events_ok (clock_after clock e) w' es
  end.

Definition clock_after_all (clock : Z) (es : list event) : Z := foldl clock_after clock es.

Fixpoint polls_ok (clock : Z) (w : server) (ps : list poll_result) : Prop :=
  match ps with
  | [] | PollFail :: _ => True
  | PollEvents es now :: ps =>
      events_ok clock w es /\ clock_after_all clock es <= now /\
      forall w1 w2, handle_events w es = Ok w1 -> after_batch w1 now = Ok w2 ->
        polls_ok now w2 ps
  end.

(** The descriptors a list of timers stands for. *)
Definition fds_of (ys : list (loc * util_timer)) : list Z := (fun y => user_data y.2) <$> ys.
(** The calls the callback makes for them, latest first. *)
Definition closes (fds : list Z) : list action :=
  reverse (fd ← fds; [EpollDel epollfd_static fd; Close fd]).

(** ** Lemmas: callbacks *)

Implicit Types (w : server) (m : spec) (M : gmap loc util_timer).

Lemma user_ok w i : in_users i = true -> user w i = Ok (users w !! i).
Proof. intros Hi. unfold user. by rewrite Hi. Qed.

Lemma cb_func_ok w i c :
  in_users i = true -> users w !! i = Some c ->
  cb_func w i = Ok (log (log w (EpollDel epollfd_static (sockfd c))) (Close (sockfd c))).
Proof. intros Hi Hc. unfold cb_func. rewrite user_ok by done. cbn. by rewrite Hc. Qed.

Lemma closes_cons fd fds :
  closes (fd :: fds) = closes fds ++ [Close fd; EpollDel epollfd_static fd].
Proof. unfold closes. cbn [mbind list_bind]. by rewrite reverse_app. Qed.

Lemma call_backs_ok w ys :
  (forall t v, (t, v) ∈ ys -> TimerQueue.cb_func v = Some cb_func_id /\
    in_users (user_data v) = true /\
    exists c, users w !! user_data v = Some c /\ sockfd c = user_data v) ->
  call_backs w (calls_of ys) = Ok (Server (timer_lst w) (users w) (timeout w) (stop_server w)
    (conns w ∖ list_to_set (fds_of ys)) (closes (fds_of ys) ++ trace w)).
Proof.
  revert w; induction ys as [|[t v] ys IH]; intros w Hys.
  { cbn. rewrite difference_empty_L. by destruct w. }
  destruct (Hys t v) as (Hcb & Hi & c & Hc & Hsock); [set_solver|].
  cbn [calls_of omap list_omap snd]. rewrite Hcb. cbn [mbind option_bind].
  cbn [call_backs]. erewrite bind_ok.
  2:{ unfold call_back. cbn [fst snd]. rewrite Z.eqb_refl. by apply cb_func_ok. }
  fold (calls_of ys). rewrite IH.
  - cbn -[closes fds_of]. rewrite Hsock. f_equal. f_equal; [cbn; set_solver|].
    unfold fds_of. rewrite fmap_cons. cbn [snd].
    rewrite closes_cons. by rewrite <- app_assoc.
  - intros t' v' Hin. apply (Hys t'). by apply list_elem_of_further.
Qed.

(** ** Lemmas: the parts of the loop against the table of deadlines *)

Lemma refines_timer clock m M w :
  refines clock m M w -> forall t v, M !! t = Some v ->
  exists c, deadlines m !! user_data v = Some (expire v) /\
    TimerQueue.cb_func v = Some cb_func_id /\ in_users (user_data v) = true /\
    users w !! user_data v = Some c /\ sockfd c = user_data v.
Proof.
  intros [Hh Hconns Hconn Htimer Hto Hst] t v Hv.
  destruct (Htimer t v Hv) as (Hin & c & Hc & Ht).
  rewrite Hconns in Hin. apply elem_of_dom in Hin as [d Hd].
  destruct (Hconn _ _ Hd) as (Hi & _ & c' & t' & Hc' & Hs & Ht' & Hv').
  destruct v; cbn in *. simplify_eq. by exists c.
Qed.

(** Two connections never share a timer. *)
Lemma refines_inj clock m M w fd fd' c c' t :
  refines clock m M w -> fd ∈ conns w -> fd' ∈ conns w ->
  users w !! fd = Some c -> users w !! fd' = Some c' ->
  timer c = Some t -> timer c' = Some t -> fd = fd'.
Proof.
  intros [Hh Hconns Hconn Htimer Hto Hst] Hin Hin' Hc Hc' Ht Ht'.
  rewrite Hconns in Hin, Hin'.
  apply elem_of_dom in Hin as [d Hd], Hin' as [d' Hd'].
  destruct (Hconn _ _ Hd) as (_ & _ & c1 & t1 & H1 & _ & H2 & H3).
  destruct (Hconn _ _ Hd') as (_ & _ & c2 & t2 & H4 & _ & H5 & H6).
  by simplify_eq.
Qed.

Lemma timer_handler_refines clock m M w now :
  refines clock m M w -> clock <= now ->
  exists w' ys, timer_handler w now = Ok w' /\
    refines now (Spec (filter (fun kv => now < kv.2) (deadlines m)) (sp_timeout m) (sp_stop m))
      (filter (fun kv => now < expire kv.2) M) w' /\
    trace w' = Alarm TIMESLOT :: closes (fds_of ys) ++ trace w /\
    ascending ys /\ ys ≡ₚ map_to_list (filter (fun kv => expire kv.2 <= now) M).
Proof.
  intros Href Hclk.
  pose proof (refines_timer clock m M w Href) as HM.
  destruct Href as [Hh Hconns Hconn Htimer Hto Hst].
  destruct (q_tick_law (timer_lst w) M now) as (q' & ys & Hr & Hh' & Hasc & Hys); [done| |].
  { intros t v Hv. destruct (HM t v Hv) as (c & _ & -> & _). eauto. }
  assert (forall t v, (t, v) ∈ ys <-> M !! t = Some v /\ expire v <= now) as Hin.
  { intros t v. rewrite Hys, elem_of_map_to_list, map_lookup_filter_Some. naive_solver. }
  unfold timer_handler. erewrite bind_ok by exact Hr. cbv beta iota.
  erewrite bind_ok.
  2:{ apply call_backs_ok. intros t v [Hv _]%Hin.
      destruct (HM t v Hv) as (c & ? & ? & ? & ? & ?). cbn. eauto 10. }
  eexists _, ys. split; [reflexivity|]. split; [|done].
  constructor; cbn; [done| | | |done|done].
  - rewrite Hconns. apply set_eq. intros fd.
    rewrite elem_of_difference, elem_of_list_to_set, !elem_of_dom.
    unfold fds_of. rewrite list_elem_of_fmap. split.
    + intros [[d Hd] Hn]. exists d. apply map_lookup_filter_Some. split; [done|].
      destruct (Z_lt_dec now d) as [|Hge]; [done|]. contradict Hn.
      destruct (Hconn fd d Hd) as (_ & _ & c & t & _ & _ & _ & Ht).
      eexists (t, _). split; [|apply Hin; split; [exact Ht|cbn; lia]]. done.
    + intros [d [Hd Hlt]%map_lookup_filter_Some]. split; [eauto|].
      intros ([t v] & Hfd & [Hv Hle]%Hin). cbn in *. subst fd.
      destruct (HM t v Hv) as (c & Hd' & _). rewrite Hd in Hd'. injection Hd' as ->. lia.
  - intros fd d [Hd Hlt]%map_lookup_filter_Some.
    destruct (Hconn fd d Hd) as (Hi & Hle & c & t & Hc & Hs & Ht & Hv).
    split_ands; [done|unfold idle_limit, TIMESLOT in *; lia|].
    exists c, t. split_ands; [done..|]. apply map_lookup_filter_Some. done.
  - intros t v [Hv Hlt]%map_lookup_filter_Some. cbn in Hlt.
    destruct (HM t v Hv) as (c & Hd & _ & _ & Hc & _).
    destruct (Htimer t v Hv) as (Hin' & c' & Hc' & Ht). split; [|eauto].
    apply elem_of_difference. split; [done|].
    rewrite elem_of_list_to_set. unfold fds_of. rewrite list_elem_of_fmap.
    intros ([t2 v2] & Hfd & [Hv2 Hle2]%Hin). cbn in *.
    destruct (HM t2 v2 Hv2) as (c2 & Hd2 & _). rewrite <- Hfd, Hd in Hd2.
    injection Hd2 as E. lia.
Qed.

Lemma on_signals_eq w sigs :
  on_signals w sigs = Server (timer_lst w) (users w)
    (timeout w || has_signal SIGALRM sigs) (stop_server w || has_signal SIGTERM sigs)
    (conns w) (trace w).
Proof.
  revert w; induction sigs as [|c sigs IH]; intros w; cbn [on_signals].
  - cbn. rewrite !orb_false_r. by destruct w.
  - rewrite IH. cbn. f_equal.
    + case_match; cbn; [by rewrite orb_true_r|done].
    + case_match; cbn; [by rewrite orb_true_r|done].
Qed.

Lemma on_listen_refines clock m M w connfd now t :
  refines clock m M w -> event_ok clock w (EvListen connfd now t) -> in_users connfd = true ->
  exists w' M', on_listen w connfd now t = Ok w' /\
    refines now (spec_event m (EvListen connfd now t)) M' w'.
Proof.
  intros [Hh Hconns Hconn Htimer Hto Hst] (Hnew & Hclk & Hfresh) Hi.
  specialize (Hfresh M Hh). unfold on_listen. rewrite user_ok by done. cbn [mbind res_bind].
  destruct (q_add_law (timer_lst w) M t
    (UtilTimer (now + 3 * TIMESLOT) (Some cb_func_id) connfd)) as (q' & Hr & Hh'); [done..|].
  cbn [timer_lst set_user log]. rewrite Hr. eexists _, _. split; [reflexivity|].
  constructor; cbn; [exact Hh'| | | |done|done].
  - rewrite dom_insert_L, Hconns. done.
  - intros fd d. destruct (decide (fd = connfd)) as [->|Hne].
    + rewrite lookup_insert_eq. intros [= <-]. split_ands; [done|unfold idle_limit; lia|].
      rewrite lookup_insert_eq. eexists _, t. split_ands; [done..|]. by rewrite lookup_insert_eq.
    + rewrite lookup_insert_ne by done. intros Hd.
      destruct (Hconn _ _ Hd) as (? & ? & c & t' & Hc & Hs & Ht & Hv).
      split_ands; [done|unfold idle_limit in *; lia|]. exists c, t'.
      rewrite !lookup_insert_ne by congruence. done.
  - intros t' v. destruct (decide (t' = t)) as [->|Hne].
    + rewrite lookup_insert_eq. intros [= <-]. cbn. rewrite lookup_insert_eq.
      split; [set_solver|eauto].
    + rewrite lookup_insert_ne by done. intros Hv.
      destruct (Htimer _ _ Hv) as (Hin & c & Hc & Ht).
      rewrite lookup_insert_ne by (intros ->; done). split; [set_solver|eauto].
Qed.

(** Overwriting the receive buffer changes nothing the relation sees. *)
Lemma set_buf_refines clock m M w fd c bs :
  refines clock m M w -> users w !! fd = Some c ->
  refines clock m M (set_user w fd (ClientData (sockfd c) bs (timer c))).
Proof.
  intros [Hh Hconns Hconn Htimer Hto Hst] Hfd.
  constructor; cbn; [done|done| | |done|done].
  - intros fd' d Hd. destruct (Hconn _ _ Hd) as (? & ? & c' & t' & Hc & Hs & Ht & Hv).
    split_ands; [done..|]. rewrite lookup_insert. case_decide; [|by eauto 10].
    simplify_eq. by eexists _, t'.
  - intros t v Hv. destruct (Htimer _ _ Hv) as (Hin & c' & Hc & Ht). split; [done|].
    rewrite lookup_insert. case_decide; [|by eauto]. simplify_eq. eauto.
Qed.

Lemma drop_client_refines clock m M w fd c t v :
  refines clock m M w -> users w !! fd = Some c -> sockfd c = fd -> in_users fd = true ->
  timer c = Some t -> M !! t = Some v -> fd ∈ conns w ->
  exists w' M', drop_client w fd (Some t) = Ok w' /\
    refines clock (Spec (delete fd (deadlines m)) (sp_timeout m) (sp_stop m)) M' w'.
Proof.
  intros Href Hc Hs Hi Ht Hv Hin. pose proof Href as [Hh Hconns Hconn Htimer Hto Hst].
  unfold drop_client. erewrite bind_ok by (by apply cb_func_ok). cbn [timer_lst log].
  destruct (q_del_law (timer_lst w) M t v) as (q' & Hr & Hh'); [done..|].
  erewrite bind_ok by exact Hr. eexists _, _. split; [reflexivity|].
  constructor; cbn; [exact Hh'| | | |done|done].
  - rewrite dom_delete_L, Hconns, Hs. done.
  - intros fd' d [Hne Hd]%lookup_delete_Some.
    destruct (Hconn _ _ Hd) as (? & ? & c' & t' & Hc' & Hs' & Ht' & Hv').
    split_ands; [done..|]. exists c', t'. split_ands; [done..|].
    rewrite lookup_delete_ne; [done|]. intros ->. apply Hne.
    eapply (refines_inj clock m M w fd fd' c c'); eauto.
    rewrite Hconns. by apply elem_of_dom.
  - intros t' v' [Hne Hv']%lookup_delete_Some.
    destruct (Htimer _ _ Hv') as (Hin' & c' & Hc' & Ht'). split; [|eauto].
    rewrite Hs. apply elem_of_difference. split; [done|].
    intros E%elem_of_singleton. apply Hne. rewrite E in *. congruence.
Qed.

Lemma touch_refines clock m M w fd now t q' :
  refines clock m M w -> fd ∈ conns w -> clock <= now ->
  (forall c, users w !! fd = Some c -> timer c = Some t) ->
  q_holds q' (<[t := UtilTimer (now + idle_limit) (Some cb_func_id) fd]> M) ->
  refines now (Spec (<[fd := now + idle_limit]> (deadlines m)) (sp_timeout m) (sp_stop m))
    (<[t := UtilTimer (now + idle_limit) (Some cb_func_id) fd]> M) (set_timers w q').
Proof.
  intros Href Hin Hclk Hfd Hh'. pose proof Href as [Hh Hconns Hconn Htimer Hto Hst].
  pose proof Hin as Hin2. rewrite Hconns in Hin2. apply elem_of_dom in Hin2 as [d0 Hd0].
  destruct (Hconn _ _ Hd0) as (Hi & _ & c & t0 & Hc & Hs & Ht & Hv).
  assert (t0 = t) as -> by (specialize (Hfd _ Hc); congruence).
  constructor; cbn; [exact Hh'| | | |done|done].
  - rewrite dom_insert_L, Hconns. apply elem_of_dom_2 in Hd0. set_solver.
  - intros fd' d. rewrite lookup_insert. case_decide as E.
    + subst fd'. intros [= <-]. split_ands; [done|lia|]. exists c, t.
      split_ands; [done..|]. by rewrite lookup_insert_eq.
    + intros Hd. destruct (Hconn _ _ Hd) as (? & ? & c' & t' & Hc' & Hs' & Ht' & Hv').
      split_ands; [done|lia|]. exists c', t'. split_ands; [done..|].
      rewrite lookup_insert_ne; [done|]. intros <-. apply E.
      eapply (refines_inj clock m M w fd fd' c c'); eauto.
      rewrite Hconns. by apply elem_of_dom.
  - intros t' v. rewrite lookup_insert. case_decide as E.
    + subst t'. intros [= <-]. cbn. eauto.
    + apply Htimer.
Qed.

Lemma refines_clock clock clock' m M w :
  refines clock m M w -> clock <= clock' -> refines clock' m M w.
Proof.
  intros [Hh Hconns Hconn Htimer Hto Hst] Hle. constructor; [done..| |done|done|done].
  intros fd d Hd. destruct (Hconn _ _ Hd) as (? & ? & ?). split_ands; [done|lia|done].
Qed.

Lemma on_client_refines clock m M w fd now r :
  refines clock m M w -> event_ok clock w (EvClient fd now r) ->
  exists w' M', on_client w fd now r = Ok w' /\
    refines now (spec_event m (EvClient fd now r)) M' w'.
Proof.
  intros Href [Hin Hclk]. pose proof Href as [Hh Hconns Hconn Htimer Hto Hst].
  pose proof Hin as Hd. rewrite Hconns in Hd. apply elem_of_dom in Hd as [d Hd].
  destruct (Hconn _ _ Hd) as (Hi & Hle & c & t & Hc & Hs & Ht & Hv).
  unfold on_client. rewrite user_ok by done. rewrite Hc. cbn [mbind res_bind from_opt].
  set (bytes := match r with RecvData bs => bs | RecvErr _ => [] end).
  set (bs := bytes ++ replicate (BUFFER_SIZE - length bytes) zero).
  pose proof (set_buf_refines clock m M w fd c bs Href Hc) as Href1.
  assert (exists w' M', drop_client (set_user w fd (ClientData (sockfd c) bs (timer c))) fd (timer c)
    = Ok w' /\ refines now (Spec (delete fd (deadlines m)) (sp_timeout m) (sp_stop m)) M' w') as Hdrop.
  { edestruct (drop_client_refines clock m M _ fd (ClientData (sockfd c) bs (timer c)) t (UtilTimer d (Some cb_func_id) fd) Href1)
      as (w' & M' & Hr & Href'); [cbn; apply lookup_insert_eq|done..|].
    exists w', M'. rewrite Ht in *. split; [exact Hr|]. by eapply refines_clock. }
  destruct r as [[]|[|b bs']]; cbn [spec_event].
  - eexists _, _. split; [reflexivity|]. by eapply refines_clock.
  - exact Hdrop.
  - exact Hdrop.
  - rewrite Ht. cbn [timer_lst set_user].
    destruct (q_touch_law (timer_lst w) M t _ (now + 3 * TIMESLOT) Hh Hv) as (q' & Hr & Hh').
    { cbn. unfold idle_limit in Hle. lia. }
    erewrite bind_ok by exact Hr. eexists _, _. split; [reflexivity|].
    rewrite <- Ht. eapply touch_refines; [exact Href1|done|done| |exact Hh'].
    intros c'. cbn. rewrite lookup_insert_eq. by intros [= <-].
Qed.

(** Where [accept]'s result is no index the handler faults. *)
Lemma handle_event_faults w e : fits e = false -> handle_event w e = Err OutOfBounds.
Proof. destruct e as [connfd now t| | |]; [|done..]. cbn. unfold on_listen, user. by intros ->. Qed.

Lemma handle_event_refines clock m M w e :
  refines clock m M w -> event_ok clock w e -> fits e = true ->
  exists w' M', handle_event w e = Ok w' /\
    refines (clock_after clock e) (spec_event m e) M' w'.
Proof.
  intros Href Hok Hfit. destruct e as [connfd now t|[again|sigs]|fd now r|]; cbn [handle_event].
  - by eapply on_listen_refines.
  - by exists w, M.
  - eexists _, M. split; [reflexivity|]. rewrite on_signals_eq.
    destruct Href as [Hh Hconns Hconn Htimer Hto Hst].
    constructor; cbn; [done..|by rewrite Hto|by rewrite Hst].
  - by eapply on_client_refines.
  - by exists w, M.
Qed.

Lemma handle_events_refines es : forall clock m M w,
  refines clock m M w -> events_ok clock w es ->
  match spec_events m es with
  | Ok m' => exists w' M', handle_events w es = Ok w' /\ refines (clock_after_all clock es) m' M' w'
  | Err e => handle_events w es = Err e
  end.
Proof.
  induction es as [|e es IH]; intros clock m M w Href Hok; [by exists w, M|].
  destruct Hok as [He Hes]. cbn [spec_events handle_events]. destruct (fits e) eqn:Hfit.
  - destruct (handle_event_refines clock m M w e) as (w1 & M1 & Hr & Href1); [done..|].
    rewrite (bind_ok _ _ _ Hr). by apply (IH _ _ M1 w1 Href1), Hes.
  - by rewrite handle_event_faults.
Qed.

Lemma after_batch_refines clock m M w now :
  refines clock m M w -> clock <= now ->
  exists w' M', after_batch w now = Ok w' /\
    refines now (spec_tick m now) M' w'.
Proof.
  intros Href Hclk. unfold after_batch, spec_tick. rewrite (ref_timeout _ _ _ _ Href).
  destruct (sp_timeout m); [|by eexists w, M; split; [|eapply refines_clock]].
  destruct (timer_handler_refines clock m M w now) as (w1 & ys & Hr & [] & _); [done..|].
  erewrite bind_ok by exact Hr. eexists _, _. split; [reflexivity|].
  by econstructor; cbn; [exact ref_holds0| | | | |].
Qed.

Lemma run_refines ps : forall clock m M w,
  refines clock m M w -> polls_ok clock w ps ->
  match spec_run m ps with
  | Ok (m', gone) => exists clock' w' M', run w ps = Ok (w', gone) /\ refines clock' m' M' w'
  | Err e => run w ps = Err e
  end.
Proof.
  induction ps as [|[|es now] ps IH]; intros clock m M w Href Hok; cbn [run spec_run];
    rewrite (ref_stop _ _ _ _ Href); destruct (sp_stop m); try by exists clock, w, M.
  destruct Hok as (Hes & Hclk & Hps).
  pose proof (handle_events_refines es _ _ _ _ Href Hes) as H1.
  destruct (spec_events m es) as [m1|err]; [|by rewrite H1]. destruct H1 as (w1 & M1 & Hr1 & Href1).
  destruct (after_batch_refines _ _ _ _ now Href1 Hclk) as (w2 & M2 & Hr2 & Href2).
  rewrite (bind_ok _ _ _ Hr1), (bind_ok _ _ _ Hr2). cbn [mbind res_bind].
  eapply IH; [exact Href2|]. by eapply Hps.
Qed.

(** ** Properties *)

(** [C3] server_refines: for any sequence of [epoll_wait] results that the kernel can
    produce (fresh descriptors and addresses, events on open sockets only, time not
    going back; [accept] may fail), the event loop does what a table of deadlines says:
    accepting or reading sets a connection's deadline to [now + 15], an error or the end
    of the stream removes it, a batch that received SIGALRM removes the entries whose
    deadline has passed, the open connections are those of the table, and the loop is
    left exactly when the table says.  It faults exactly at the first result of [accept]
    that is no index of [users]: -1, or a descriptor that does not fit the array. *)
Theorem server_refines clock m M w ps :
  refines clock m M w -> polls_ok clock w ps ->
  match spec_run m ps with
  | Ok (m', gone) => exists clock' w' M', run w ps = Ok (w', gone) /\ refines clock' m' M' w'
  | Err e => run w ps = Err e
  end.
Proof. apply run_refines. Qed.

(** [C19] A timer tick closes exactly the connections whose deadline has
    passed, earliest deadline first, each with [epoll_ctl(0, EPOLL_CTL_DEL)]
    (the file-scope [epollfd], which is never set) followed by [close], keeps
    the other connections with their deadlines, and rearms the alarm. *)
Theorem tick_closes_idle clock m M w now :
  refines clock m M w -> clock <= now ->
  exists w' ys, timer_handler w now = Ok w' /\
    refines now (Spec (filter (fun kv => now < kv.2) (deadlines m)) (sp_timeout m) (sp_stop m))
      (filter (fun kv => now < expire kv.2) M) w' /\
    trace w' = Alarm TIMESLOT :: closes (fds_of ys) ++ trace w /\
    ascending ys /\ ys ≡ₚ map_to_list (filter (fun kv => expire kv.2 <= now) M).
Proof. apply timer_handler_refines. Qed.
End server.
