(* ===== verification/IdleServer.v ===== *)
(** * The idle-connection server on the timer list

    [InactiveLink]'s event loop instantiated with the container it uses,
    [ListTimer]'s doubly linked list, on a run that accepts a client, reads from
    it, and closes it when it has been idle for fifteen seconds. *)

From S2P Require Import Prelude Dll TimerQueue ListTimer InactiveLink.

(** [main]'s state before its loop: no clients, an empty list, no timers. *)
Definition initial : server (Q := sort_timer_list) := Server (empty_list ∅) ∅ false false ∅ [].

Definition bytes_of (z : list Z) : list ascii := (fun x => ascii_of_nat (Z.to_nat x)) <$> z.

(** Descriptor 7 is accepted at 100 and sends a byte at 104; alarms arrive
    at 115 and 120; then SIGTERM. *)
Definition example_polls : list poll_result :=
  [PollEvents [EvListen 7 100 1%positive] 100;
   PollEvents [EvClient 7 104 (RecvData (bytes_of [65]))] 104;
   PollEvents [EvPipe (RecvData (bytes_of [14]))] 115;
   PollEvents [EvPipe (RecvData (bytes_of [14; 15]))] 120].

Lemma initial_refines : refines 0 (Spec ∅ false false) ∅ initial.
Proof.
  constructor; cbn; [|set_solver|intros ?? []%lookup_empty_Some|
    intros ?? []%lookup_empty_Some|done|done].
  exists []. split_ands; [by constructor; cbn; [constructor|..]|constructor| |done].
  by intros l [? ?].
Qed.

(** The alarm at 115 leaves the client alone, the one at 120 closes it. *)
Example example_run :
  (fun r => match r with Ok (w, b) => Some (trace w, conns w, b) | Err _ => None end)
    (run 5 initial example_polls)
  = Some ([Alarm 5; Close 7; EpollDel 0 7; Alarm 5; EpollAdd 5 7], ∅, true).
Proof. vm_compute. reflexivity. Qed.

(** Replace the state that a computed step returns by its normal form. *)
Ltac step_state := let w := fresh in let Hw := fresh in
  intros w Hw; vm_compute in Hw; injection Hw as <-.

(** The same, but [accept] fails at 105. *)
Definition failed_polls : list poll_result :=
  [PollEvents [EvListen 7 100 1%positive] 100; PollEvents [EvListen (-1) 105 2%positive] 105].

(** Runs and the table's answer are computed, the hypotheses discharged. *)
Ltac polls_are_ok :=
  repeat match goal with
    | |- _ /\ _ => split
    | |- forall w1 w2 : server, _ -> _ -> _ => do 2 (let w := fresh in intros w)
    | |- _ = Ok _ -> _ => let Hw := fresh in
        intros Hw; vm_compute in Hw; (discriminate Hw || injection Hw as <-)
    | |- forall w, _ = Ok w -> _ => let w := fresh in let Hw := fresh in
        intros w Hw; vm_compute in Hw; (discriminate Hw || injection Hw as <-)
    | |- forall M, q_holds _ M -> _ => intros M; apply holds_fresh; vm_compute; reflexivity
    | |- _ ∈ _ => apply (bool_decide_unpack _); vm_compute; exact I
    | |- _ ∉ _ => apply (bool_decide_unpack _); vm_compute; exact I
    | |- _ <= _ => vm_compute; discriminate
    | |- True => exact I
    | |- _ = _ => vm_compute; reflexivity
    | |- polls_ok _ _ _ _ => cbn [polls_ok example_polls failed_polls]
    | |- events_ok _ _ _ _ => cbn [events_ok event_ok]
    end.

Lemma server_refines_witness :
  (exists m' clock' w' M',
     spec_run (Spec ∅ false false) example_polls = Ok (m', true) /\
     run 5 initial example_polls = Ok (w', true) /\ refines clock' m' M' w') /\
  run 5 initial failed_polls = Err OutOfBounds.
Proof.
  split.
  - destruct (spec_run (Spec ∅ false false) example_polls) as [[m' gone]|] eqn:E; [|vm_compute in E; discriminate E].
    pose proof (server_refines 5 0 (Spec ∅ false false) ∅ initial example_polls initial_refines) as H.
    rewrite E in H. assert (gone = true) as -> by (vm_compute in E; by injection E).
    destruct H as (clock' & w' & M' & Hr & Href); [polls_are_ok|].
    by exists m', clock', w', M'.
  - exact (server_refines 5 0 (Spec ∅ false false) ∅ initial failed_polls initial_refines ltac:(polls_are_ok)).
Defined.

(** One client, accepted at 100. *)
Definition one_client : server (Q := sort_timer_list) :=
  Server (SortTimerList {[1%positive := Node (UtilTimer 115 (Some 1) 7) None None]}
      (Some 1%positive) (Some 1%positive))
    {[7 := ClientData 7 [] (Some 1%positive)]} true false {[7]} [].

Definition one_M : gmap loc util_timer := {[1%positive := UtilTimer 115 (Some 1) 7]}.
Definition one_spec : spec := Spec {[7 := 115]} true false.

Lemma one_client_refines :
  refines 100 one_spec one_M one_client.
Proof.
  unfold one_M. constructor; cbn; [|set_solver| | |done|done].
  - exists [(1%positive, UtilTimer 115 (Some 1) 7)].
    split_ands; [constructor; cbn|repeat constructor| |done].
    + repeat constructor. set_solver.
    + done.
    + done.
    + done.
    + intros l [? Hl]. cbn in Hl. apply lookup_singleton_Some in Hl as [<- _]. set_solver.
  - intros fd d [<- <-]%lookup_singleton_Some. split_ands; [done|done|].
    eexists _, _. split_ands; [apply lookup_singleton_eq|done|done|]. apply lookup_singleton_eq.
  - intros t v Hv. apply lookup_singleton_Some in Hv as [<- <-]. split; [set_solver|].
    eexists. split; [apply lookup_singleton_eq|done].
Qed.

Lemma tick_closes_idle_witness :
  exists w' ys, timer_handler one_client 120 = Ok w' /\
    refines 120 (Spec (filter (fun kv => 120 < kv.2) (deadlines one_spec)) true false)
      (filter (fun kv => 120 < expire kv.2) one_M) w' /\
    trace w' = Alarm TIMESLOT :: closes (fds_of ys) ++ [] /\
    ascending ys /\ ys ≡ₚ map_to_list (filter (fun kv => expire kv.2 <= 120) one_M).
Proof.
  apply (tick_closes_idle 100 one_spec one_M one_client 120).
  - exact one_client_refines.
  - vm_compute. discriminate.
Defined.
