(* ===== verification/HttpConn.v ===== *)
(** * The HTTP connection: state and operations

    The class [http_conn] of socket/pool/http_conn.h with every function of
    socket/pool/http_conn.cpp.  A [char *] into the read buffer is an offset in
    it; the write buffer, the mapped file and the iovecs are fields.  What a
    function asks of the kernel is appended to the trace of a [world], which
    also holds the two static members; the results of [recv], [writev], [stat],
    [open] and [mmap] are arguments. *)

From S2P Require Import Prelude CString.

(** ** Constants and enumerations (http_conn.h) *)

Definition FILENAME_LEN : Z := 200.
Definition READ_BUFFER_SIZE : Z := 2048.
Definition WRITE_BUFFER_SIZE : Z := 1024.

Inductive METHOD :=
  | GET | POST | HEAD | PUT | DELETE | TRACE | OPTIONS | CONNECT | PATCH.
Inductive CHECK_STATE :=
  | CHECK_STATE_REQUESTLINE | CHECK_STATE_HEADER | CHECK_STATE_CONNECT.
Inductive HTTP_CODE :=
  | NO_REQUEST | GET_REQUEST | BAD_REQUEST | NO_RESOURCE | FORBIDDEN_REQUEST
  | FILE_REQUEST | INTERNAL_ERROR | CLOSED_CONNECTION.
Inductive LINE_STATUS := LINE_OK | LINE_BAD | LINE_OPEN.

#[export] Instance METHOD_eqdec : EqDecision METHOD.
Proof. solve_decision. Defined.
#[export] Instance CHECK_STATE_eqdec : EqDecision CHECK_STATE.
Proof. solve_decision. Defined.
#[export] Instance HTTP_CODE_eqdec : EqDecision HTTP_CODE.
Proof. solve_decision. Defined.
#[export] Instance LINE_STATUS_eqdec : EqDecision LINE_STATUS.
Proof. solve_decision. Defined.

(** ** Data *)

(** What [m_file_address] points to. *)
Inductive mapping :=
  | MapNull
  | MapFailed               (** [MAP_FAILED] *)
  | Mapped (content : bytes).

Record stat_t := Stat { st_mode : Z; st_size : Z }.

(** A base address in an iovec. *)
Inductive iov_ptr :=
  | IovGarbage
  | IovWriteBuf             (** [m_write_buf] *)
  | IovFile (m : mapping).  (** [m_file_address] *)
Record iovec := Iovec { iov_base : iov_ptr; iov_len : Z }.

(** The members of the class.  [m_file_address] and [m_iv_count] are [None]
    until they are first assigned: no constructor or [init] gives them a
    value. *)
Record http_conn := HttpConn {
  m_sockfd : Z;
  m_address : Z;
  m_read_buf : bytes;
  m_read_idx : Z;
  m_checked_idx : Z;
  m_start_line : Z;
  m_write_buf : bytes;
  m_write_idx : Z;
  m_check_state : CHECK_STATE;
  m_method : METHOD;
  m_real_file : bytes;
  m_url : option Z;
  m_version : option Z;
  m_host : option Z;
  m_content_lenght : Z;
  m_linger : bool;
  m_file_address : option mapping;
  m_file_stat : option stat_t;
  m_iv : list iovec;
  m_iv_count : option Z }.

Definition set_sockfd (x : Z) (c : http_conn) : http_conn :=
  HttpConn x (m_address c) (m_read_buf c) (m_read_idx c) (m_checked_idx c) (m_start_line
    c) (m_write_buf c) (m_write_idx c) (m_check_state c) (m_method c) (m_real_file c)
    (m_url c) (m_version c) (m_host c) (m_content_lenght c) (m_linger c) (m_file_address
    c) (m_file_stat c) (m_iv c) (m_iv_count c).
Definition set_address (x : Z) (c : http_conn) : http_conn :=
  HttpConn (m_sockfd c) x (m_read_buf c) (m_read_idx c) (m_checked_idx c) (m_start_line c)
    (m_write_buf c) (m_write_idx c) (m_check_state c) (m_method c) (m_real_file c) (m_url
    c) (m_version c) (m_host c) (m_content_lenght c) (m_linger c) (m_file_address c)
    (m_file_stat c) (m_iv c) (m_iv_count c).
Definition set_read_buf (x : bytes) (c : http_conn) : http_conn :=
  HttpConn (m_sockfd c) (m_address c) x (m_read_idx c) (m_checked_idx c) (m_start_line c)
    (m_write_buf c) (m_write_idx c) (m_check_state c) (m_method c) (m_real_file c) (m_url
    c) (m_version c) (m_host c) (m_content_lenght c) (m_linger c) (m_file_address c)
    (m_file_stat c) (m_iv c) (m_iv_count c).
Definition set_read_idx (x : Z) (c : http_conn) : http_conn :=
  HttpConn (m_sockfd c) (m_address c) (m_read_buf c) x (m_checked_idx c) (m_start_line c)
    (m_write_buf c) (m_write_idx c) (m_check_state c) (m_method c) (m_real_file c) (m_url
    c) (m_version c) (m_host c) (m_content_lenght c) (m_linger c) (m_file_address c)
    (m_file_stat c) (m_iv c) (m_iv_count c).
Definition set_checked_idx (x : Z) (c : http_conn) : http_conn :=
  HttpConn (m_sockfd c) (m_address c) (m_read_buf c) (m_read_idx c) x (m_start_line c)
    (m_write_buf c) (m_write_idx c) (m_check_state c) (m_method c) (m_real_file c) (m_url
    c) (m_version c) (m_host c) (m_content_lenght c) (m_linger c) (m_file_address c)
    (m_file_stat c) (m_iv c) (m_iv_count c).
Definition set_start_line (x : Z) (c : http_conn) : http_conn :=
  HttpConn (m_sockfd c) (m_address c) (m_read_buf c) (m_read_idx c) (m_checked_idx c) x
    (m_write_buf c) (m_write_idx c) (m_check_state c) (m_method c) (m_real_file c) (m_url
    c) (m_version c) (m_host c) (m_content_lenght c) (m_linger c) (m_file_address c)
    (m_file_stat c) (m_iv c) (m_iv_count c).
Definition set_write_buf (x : bytes) (c : http_conn) : http_conn :=
  HttpConn (m_sockfd c) (m_address c) (m_read_buf c) (m_read_idx c) (m_checked_idx c)
    (m_start_line c) x (m_write_idx c) (m_check_state c) (m_method c) (m_real_file c)
    (m_url c) (m_version c) (m_host c) (m_content_lenght c) (m_linger c) (m_file_address
    c) (m_file_stat c) (m_iv c) (m_iv_count c).
Definition set_write_idx (x : Z) (c : http_conn) : http_conn :=
  HttpConn (m_sockfd c) (m_address c) (m_read_buf c) (m_read_idx c) (m_checked_idx c)
    (m_start_line c) (m_write_buf c) x (m_check_state c) (m_method c) (m_real_file c)
    (m_url c) (m_version c) (m_host c) (m_content_lenght c) (m_linger c) (m_file_address
    c) (m_file_stat c) (m_iv c) (m_iv_count c).
Definition set_check_state (x : CHECK_STATE) (c : http_conn) : http_conn :=
  HttpConn (m_sockfd c) (m_address c) (m_read_buf c) (m_read_idx c) (m_checked_idx c)
    (m_start_line c) (m_write_buf c) (m_write_idx c) x (m_method c) (m_real_file c) (m_url
    c) (m_version c) (m_host c) (m_content_lenght c) (m_linger c) (m_file_address c)
    (m_file_stat c) (m_iv c) (m_iv_count c).
Definition set_method (x : METHOD) (c : http_conn) : http_conn :=
  HttpConn (m_sockfd c) (m_address c) (m_read_buf c) (m_read_idx c) (m_checked_idx c)
    (m_start_line c) (m_write_buf c) (m_write_idx c) (m_check_state c) x (m_real_file c)
    (m_url c) (m_version c) (m_host c) (m_content_lenght c) (m_linger c) (m_file_address
    c) (m_file_stat c) (m_iv c) (m_iv_count c).
Definition set_real_file (x : bytes) (c : http_conn) : http_conn :=
  HttpConn (m_sockfd c) (m_address c) (m_read_buf c) (m_read_idx c) (m_checked_idx c)
    (m_start_line c) (m_write_buf c) (m_write_idx c) (m_check_state c) (m_method c) x
    (m_url c) (m_version c) (m_host c) (m_content_lenght c) (m_linger c) (m_file_address
    c) (m_file_stat c) (m_iv c) (m_iv_count c).
Definition set_url (x : (option Z)) (c : http_conn) : http_conn :=
  HttpConn (m_sockfd c) (m_address c) (m_read_buf c) (m_read_idx c) (m_checked_idx c)
    (m_start_line c) (m_write_buf c) (m_write_idx c) (m_check_state c) (m_method c)
    (m_real_file c) x (m_version c) (m_host c) (m_content_lenght c) (m_linger c)
    (m_file_address c) (m_file_stat c) (m_iv c) (m_iv_count c).
Definition set_version (x : (option Z)) (c : http_conn) : http_conn :=
  HttpConn (m_sockfd c) (m_address c) (m_read_buf c) (m_read_idx c) (m_checked_idx c)
    (m_start_line c) (m_write_buf c) (m_write_idx c) (m_check_state c) (m_method c)
    (m_real_file c) (m_url c) x (m_host c) (m_content_lenght c) (m_linger c)
    (m_file_address c) (m_file_stat c) (m_iv c) (m_iv_count c).
Definition set_host (x : (option Z)) (c : http_conn) : http_conn :=
  HttpConn (m_sockfd c) (m_address c) (m_read_buf c) (m_read_idx c) (m_checked_idx c)
    (m_start_line c) (m_write_buf c) (m_write_idx c) (m_check_state c) (m_method c)
    (m_real_file c) (m_url c) (m_version c) x (m_content_lenght c) (m_linger c)
    (m_file_address c) (m_file_stat c) (m_iv c) (m_iv_count c).
Definition set_content_lenght (x : Z) (c : http_conn) : http_conn :=
  HttpConn (m_sockfd c) (m_address c) (m_read_buf c) (m_read_idx c) (m_checked_idx c)
    (m_start_line c) (m_write_buf c) (m_write_idx c) (m_check_state c) (m_method c)
    (m_real_file c) (m_url c) (m_version c) (m_host c) x (m_linger c) (m_file_address c)
    (m_file_stat c) (m_iv c) (m_iv_count c).
Definition set_linger (x : bool) (c : http_conn) : http_conn :=
  HttpConn (m_sockfd c) (m_address c) (m_read_buf c) (m_read_idx c) (m_checked_idx c)
    (m_start_line c) (m_write_buf c) (m_write_idx c) (m_check_state c) (m_method c)
    (m_real_file c) (m_url c) (m_version c) (m_host c) (m_content_lenght c) x
    (m_file_address c) (m_file_stat c) (m_iv c) (m_iv_count c).
Definition set_file_address (x : (option mapping)) (c : http_conn) : http_conn :=
  HttpConn (m_sockfd c) (m_address c) (m_read_buf c) (m_read_idx c) (m_checked_idx c)
    (m_start_line c) (m_write_buf c) (m_write_idx c) (m_check_state c) (m_method c)
    (m_real_file c) (m_url c) (m_version c) (m_host c) (m_content_lenght c) (m_linger c) x
    (m_file_stat c) (m_iv c) (m_iv_count c).
Definition set_file_stat (x : (option stat_t)) (c : http_conn) : http_conn :=
  HttpConn (m_sockfd c) (m_address c) (m_read_buf c) (m_read_idx c) (m_checked_idx c)
    (m_start_line c) (m_write_buf c) (m_write_idx c) (m_check_state c) (m_method c)
    (m_real_file c) (m_url c) (m_version c) (m_host c) (m_content_lenght c) (m_linger c)
    (m_file_address c) x (m_iv c) (m_iv_count c).
Definition set_iv (x : (list iovec)) (c : http_conn) : http_conn :=
  HttpConn (m_sockfd c) (m_address c) (m_read_buf c) (m_read_idx c) (m_checked_idx c)
    (m_start_line c) (m_write_buf c) (m_write_idx c) (m_check_state c) (m_method c)
    (m_real_file c) (m_url c) (m_version c) (m_host c) (m_content_lenght c) (m_linger c)
    (m_file_address c) (m_file_stat c) x (m_iv_count c).
Definition set_iv_count (x : (option Z)) (c : http_conn) : http_conn :=
  HttpConn (m_sockfd c) (m_address c) (m_read_buf c) (m_read_idx c) (m_checked_idx c)
    (m_start_line c) (m_write_buf c) (m_write_idx c) (m_check_state c) (m_method c)
    (m_real_file c) (m_url c) (m_version c) (m_host c) (m_content_lenght c) (m_linger c)
    (m_file_address c) (m_file_stat c) (m_iv c) x.

(** What the functions ask of the kernel. *)
Inductive sys :=
  | EpollAdd (epfd fd events : Z)
  | EpollMod (epfd fd events : Z)
  | EpollDel (epfd fd : Z)
  | SetReuse (fd : Z)
  | SetNonblock (fd : Z)
  | Close (fd : Z)
  | Munmap (m : mapping) (size : Z)
  | Sent (fd : Z) (data : bytes).   (** what one [writev] transmitted *)

(** The static members and the calls made so far, in order. *)
Record world := World {
  m_epollfd : Z;
  m_user_count : Z;
  trace : list sys }.

Definition emit (e : sys) (w : world) : world :=
  World (m_epollfd w) (m_user_count w) (trace w ++ [e]).
Definition set_user_count (n : Z) (w : world) : world := World (m_epollfd w) n (trace w).

#[export] Instance mapping_eqdec : EqDecision mapping.
Proof. solve_decision. Defined.
#[export] Instance sys_eqdec : EqDecision sys.
Proof. solve_decision. Defined.

(** ** epoll (lines 19-45) *)

Definition EPOLLIN : Z := 1.
Definition EPOLLOUT : Z := 4.
Definition EPOLLRDHUP : Z := 8192.
Definition EPOLLONESHOT : Z := 1073741824.
Definition EPOLLET : Z := 2147483648.

Definition setnonblocking (fd : Z) (w : world) : world := emit (SetNonblock fd) w.

Definition addfd (epollfd fd : Z) (one_shot : bool) (w : world) : world :=
  let events := Z.lor (Z.lor EPOLLIN EPOLLET) EPOLLRDHUP in
  let events := if one_shot then Z.lor events EPOLLONESHOT else events in
  setnonblocking fd (emit (EpollAdd epollfd fd events) w).

Definition removefd (epollfd fd : Z) (w : world) : world :=
  emit (Close fd) (emit (EpollDel epollfd fd) w).

Definition modfd (epollfd fd ev : Z) (w : world) : world :=
  emit (EpollMod epollfd fd (Z.lor (Z.lor (Z.lor ev EPOLLET) EPOLLONESHOT) EPOLLRDHUP)) w.

(** ** Opening and closing (lines 50-86) *)

Definition close_conn (real_close : bool) (c : http_conn) (w : world) : http_conn * world :=
  if real_close && negb (m_sockfd c =? -1) then
    let w := removefd (m_epollfd w) (m_sockfd c) w in
    let c := set_sockfd (-1) c in
    (c, set_user_count (m_user_count w - 1) w)
  else (c, w).

(** [init()] *)
Definition init (c : http_conn) : http_conn :=
  let c := set_check_state CHECK_STATE_REQUESTLINE c in
  let c := set_linger false c in
  let c := set_method GET c in
  let c := set_url None c in
  let c := set_version None c in
  let c := set_content_lenght 0 c in
  let c := set_host None c in
  let c := set_start_line 0 c in
  let c := set_checked_idx 0 c in
  let c := set_read_idx 0 c in
  let c := set_write_idx 0 c in
  let c := set_read_buf (replicate (Z.to_nat READ_BUFFER_SIZE) NUL) c in
  let c := set_write_buf (replicate (Z.to_nat WRITE_BUFFER_SIZE) NUL) c in
  set_real_file (replicate (Z.to_nat FILENAME_LEN) NUL) c.

(** [init(int sockfd, const sockaddr_in &addr)] *)
Definition init_conn (sockfd addr : Z) (c : http_conn) (w : world) : http_conn * world :=
  let c := set_sockfd sockfd c in
  let c := set_address addr c in
  let w := emit (SetReuse sockfd) w in
  let w := addfd (m_epollfd w) sockfd true w in
  let w := set_user_count (m_user_count w + 1) w in
  (init c, w).

(** ** Reading (lines 89-126) *)

(** [parse_line]; [n] bounds the loop, which runs [m_read_idx - m_checked_idx]
    times at most. *)
Fixpoint parse_line_loop (n : nat) (c : http_conn) : res (http_conn * LINE_STATUS) :=
  if decide (m_checked_idx c < m_read_idx c) then
    match n with
    | O => Err OutOfFuel
    | S n =>
        temp ← aget (m_read_buf c) (m_checked_idx c);
        if decide (temp = CR) then
          if decide (m_checked_idx c + 1 = m_read_idx c) then Ok (c, LINE_OPEN)
          else
            next ← aget (m_read_buf c) (m_checked_idx c + 1);
            if decide (next = LF) then
              buf ← aset (m_read_buf c) (m_checked_idx c) NUL;
              buf ← aset buf (m_checked_idx c + 1) NUL;
              Ok (set_checked_idx (m_checked_idx c + 2) (set_read_buf buf c), LINE_OK)
            else Ok (c, LINE_BAD)
        else if decide (temp = LF) then
          if decide (m_checked_idx c > 1) then
            prev ← aget (m_read_buf c) (m_checked_idx c - 1);
            if decide (prev = CR) then
              buf ← aset (m_read_buf c) (m_checked_idx c - 1) NUL;
              buf ← aset buf (m_checked_idx c) NUL;
              Ok (set_checked_idx (m_checked_idx c + 1) (set_read_buf buf c), LINE_OK)
            else Ok (c, LINE_BAD)
          else Ok (c, LINE_BAD)
        else parse_line_loop n (set_checked_idx (m_checked_idx c + 1) c)
    end
  else Ok (c, LINE_OPEN).

Definition parse_line (c : http_conn) : res (http_conn * LINE_STATUS) :=
  parse_line_loop (Z.to_nat (m_read_idx c - m_checked_idx c)) c.

(** [read]: the [recv]s return the elements of [rs] in turn; a [recv] returns at
    most as much as was asked for, and [0] at the peer's close or when nothing
    was asked for. *)
Fixpoint read_loop (rs : list recv_t) (c : http_conn) : res (http_conn * bool) :=
  match rs with
  | [] => Err OutOfFuel
  | Again :: _ => Ok (c, true)
  | RecvError :: _ => Ok (c, false)
  | Received data :: rs =>
      let data := take (Z.to_nat (READ_BUFFER_SIZE - m_read_idx c)) data in
      if decide (data = []) then Ok (c, false)
      else
        buf ← awrite (m_read_buf c) (m_read_idx c) data;
        read_loop rs (set_read_idx (m_read_idx c + Z.of_nat (length data)) (set_read_buf buf c))
  end.

Definition read (rs : list recv_t) (c : http_conn) : res (http_conn * bool) :=
  if decide (m_read_idx c >= READ_BUFFER_SIZE) then Ok (c, false) else read_loop rs c.

(** ** Parsing the request (lines 129-245) *)

Definition blanks : bytes := [SP; TAB].

Definition parse_request_line (text : Z) (c : http_conn) : res (http_conn * HTTP_CODE) :=
  s ← cstr (m_read_buf c) text;
  match strpbrk s blanks with
  | None => Ok (set_url None c, BAD_REQUEST)
  | Some i =>
      let url := text + Z.of_nat i in
      buf ← aset (m_read_buf c) url NUL;
      let url := url + 1 in
      let c := set_url (Some url) (set_read_buf buf c) in
      method ← cstr (m_read_buf c) text;
      if negb (strcaseeq method (lit "GET")) then Ok (c, BAD_REQUEST) else
      let c := set_method GET c in
      s ← cstr (m_read_buf c) url;
      let url := url + Z.of_nat (strspn s blanks) in
      let c := set_url (Some url) c in
      s ← cstr (m_read_buf c) url;
      match strpbrk s blanks with
      | None => Ok (set_version None c, BAD_REQUEST)
      | Some j =>
          let version := url + Z.of_nat j in
          buf ← aset (m_read_buf c) version NUL;
          let version := version + 1 in
          let c := set_read_buf buf c in
          s ← cstr (m_read_buf c) version;
          let version := version + Z.of_nat (strspn s blanks) in
          let c := set_version (Some version) c in
          s ← cstr (m_read_buf c) version;
          if negb (strcaseeq s (lit "HTTP/1.1")) then Ok (c, BAD_REQUEST) else
          u ← cstr (m_read_buf c) url;
          c ← (if strncaseeq u (lit "http://") 7 then
                 u ← cstr (m_read_buf c) (url + 7);
                 Ok (set_url ((fun k => url + 7 + Z.of_nat k) <$> strchr u "/") c)
               else Ok c);
          match m_url c with
          | None => Ok (c, BAD_REQUEST)
          | Some url =>
              ch ← aget (m_read_buf c) url;
              if decide (ch <> "/"%char) then Ok (c, BAD_REQUEST)
              else Ok (set_check_state CHECK_STATE_HEADER c, NO_REQUEST)
          end
      end
  end.

Definition pares_headers (text : Z) (c : http_conn) : res (http_conn * HTTP_CODE) :=
  ch ← aget (m_read_buf c) text;
  if decide (ch = NUL) then
    if decide (m_content_lenght c <> 0) then
      Ok (set_check_state CHECK_STATE_CONNECT c, NO_REQUEST)
    else Ok (c, GET_REQUEST)
  else
    s ← cstr (m_read_buf c) text;
    if strncaseeq s (lit "Connection:") 11 then
      s ← cstr (m_read_buf c) (text + 11);
      s ← cstr (m_read_buf c) (text + 11 + Z.of_nat (strspn s blanks));
      Ok (if strcaseeq s (lit "keep-alive") then set_linger true c else c, NO_REQUEST)
    else if strncaseeq s (lit "Content-Length:") 15 then
      s ← cstr (m_read_buf c) (text + 15);
      s ← cstr (m_read_buf c) (text + 15 + Z.of_nat (strspn s blanks));
      Ok (set_content_lenght (atoi s) c, NO_REQUEST)
    else if strncaseeq s (lit "Host:") 5 then
      s ← cstr (m_read_buf c) (text + 5);
      Ok (set_host (Some (text + 5 + Z.of_nat (strspn s blanks))) c, NO_REQUEST)
    else Ok (c, NO_REQUEST).

Definition pares_content (text : Z) (c : http_conn) : res (http_conn * HTTP_CODE) :=
  sum ← int_op (m_content_lenght c + m_checked_idx c);
  if decide (m_read_idx c >= sum) then
    buf ← aset (m_read_buf c) (text + m_content_lenght c) NUL;
    Ok (set_read_buf buf c, GET_REQUEST)
  else Ok (c, NO_REQUEST).

(** The file system: [stat] of a path (if it succeeds), [open] and [mmap]. *)
Record fsys := Fsys {
  fs_stat : bytes -> option stat_t;
  fs_open : bytes -> Z;
  fs_mmap : Z -> Z -> mapping }.   (** of a descriptor and a length *)

Definition doc_root : bytes := lit ".".
Definition S_IROTH : Z := 4.
Definition S_IFMT : Z := 61440.
Definition S_IFDIR : Z := 16384.

Definition do_request (fs : fsys) (c : http_conn) (w : world)
    : res (http_conn * world * HTTP_CODE) :=
  file ← awrite (m_real_file c) 0 (doc_root ++ [NUL]);
  let len := Z.of_nat (length doc_root) in
  url ← from_opt NullDeref (m_url c);
  s ← cstr (m_read_buf c) url;
  file ← awrite file len (strncpy s (Z.to_nat (FILENAME_LEN - len - 1)));
  let c := set_real_file file c in
  path ← cstr (m_real_file c) 0;
  match fs_stat fs path with
  | None => Ok (c, w, NO_RESOURCE)
  | Some st =>
      let c := set_file_stat (Some st) c in
      if decide (Z.land (st_mode st) S_IROTH = 0) then Ok (c, w, FORBIDDEN_REQUEST)
      else if decide (Z.land (st_mode st) S_IFMT = S_IFDIR) then Ok (c, w, BAD_REQUEST)
      else
        let fd := fs_open fs path in
        let c := set_file_address (Some (fs_mmap fs fd (st_size st))) c in
        Ok (c, emit (Close fd) w, FILE_REQUEST)
  end.

(** The state of [process_read]'s loop: the connection and [line_status]; one
    evaluation of the condition with one pass of the body either goes on or
    returns. *)
Inductive pr_result :=
  | Go (c : http_conn) (st : LINE_STATUS)
  | Return (c : http_conn) (w : world) (ret : HTTP_CODE).

Definition pr_body (fs : fsys) (w : world) (c : http_conn) (st : LINE_STATUS)
    : res pr_result :=
  let text := m_start_line c in
  let c := set_start_line (m_checked_idx c) c in
  match m_check_state c with
  | CHECK_STATE_REQUESTLINE =>
      '(c, ret) ← parse_request_line text c;
      Ok (if decide (ret = BAD_REQUEST) then Return c w BAD_REQUEST else Go c st)
  | CHECK_STATE_HEADER =>
      '(c, ret) ← pares_headers text c;
      if decide (ret = BAD_REQUEST) then Ok (Return c w BAD_REQUEST)
      else if decide (ret = GET_REQUEST) then
        '(c, w, ret) ← do_request fs c w; Ok (Return c w ret)
      else Ok (Go c st)
  | CHECK_STATE_CONNECT =>
      '(c, ret) ← pares_content text c;
      if decide (ret = GET_REQUEST) then
        '(c, w, ret) ← do_request fs c w; Ok (Return c w ret)
      else Ok (Go c LINE_OPEN)
  end.

Definition pr_step (fs : fsys) (w : world) (c : http_conn) (st : LINE_STATUS)
    : res pr_result :=
  if decide (m_check_state c = CHECK_STATE_CONNECT /\ st = LINE_OK) then pr_body fs w c st
  else
    '(c, st) ← parse_line c;
    if decide (st = LINE_OK) then pr_body fs w c st else Ok (Return c w NO_REQUEST).

Fixpoint pr_loop (n : nat) (fs : fsys) (w : world) (c : http_conn) (st : LINE_STATUS)
    : res (http_conn * world * HTTP_CODE) :=
  match n with
  | O => Err OutOfFuel
  | S n =>
      r ← pr_step fs w c st;
      match r with
      | Go c st => pr_loop n fs w c st
      | Return c w ret => Ok (c, w, ret)
      end
  end.

Definition pr_fuel (c : http_conn) : nat := S (S (Z.to_nat (2 * (m_read_idx c - m_checked_idx c)))).

Definition process_read (fs : fsys) (w : world) (c : http_conn)
    : res (http_conn * world * HTTP_CODE) :=
  pr_loop (pr_fuel c) fs w c LINE_OK.

(** ** Writing (lines 248-291) *)

Definition unmap (c : http_conn) (w : world) : res (http_conn * world) :=
  m ← from_opt Uninit (m_file_address c);
  if decide (m = MapNull) then Ok (c, w)
  else
    st ← from_opt Uninit (m_file_stat c);
    Ok (set_file_address (Some MapNull) c, emit (Munmap m (st_size st)) w).

(** The bytes an iovec designates; an address that is not mapped ends the
    transfer. *)
Fixpoint iov_bytes (c : http_conn) (iov : list iovec) : bytes :=
  match iov with
  | [] => []
  | v :: iov =>
      match iov_base v with
      | IovWriteBuf => take (Z.to_nat (iov_len v)) (m_write_buf c) ++ iov_bytes c iov
      | IovFile (Mapped b) => take (Z.to_nat (iov_len v)) b ++ iov_bytes c iov
      | _ => []
      end
  end.

(** The results of [writev]: how many bytes the kernel took, [EAGAIN], or
    another error. *)
Inductive writev_t := Wrote (n : Z) | WAgain | WError.

(** The loop of [write]; the [writev]s return the elements of [rs] in turn. *)
Fixpoint write_loop (rs : list writev_t) (bytes_to_send bytes_have_send : Z)
    (c : http_conn) (w : world) : res (http_conn * world * bool) :=
  match rs with
  | [] => Err OutOfFuel
  | WAgain :: _ => Ok (c, modfd (m_epollfd w) (m_sockfd c) EPOLLOUT w, true)
  | WError :: _ => '(c, w) ← unmap c w; Ok (c, w, false)
  | Wrote temp :: rs =>
      iv_count ← from_opt Uninit (m_iv_count c);
      let w := emit (Sent (m_sockfd c)
                 (take (Z.to_nat temp) (iov_bytes c (take (Z.to_nat iv_count) (m_iv c))))) w in
      let bytes_to_send := bytes_to_send - temp in
      let bytes_have_send := bytes_have_send + temp in
      if decide (bytes_to_send <= bytes_have_send) then
        '(c, w) ← unmap c w;
        if m_linger c then
          let c := init c in
          Ok (c, modfd (m_epollfd w) (m_sockfd c) EPOLLIN w, true)
        else Ok (c, modfd (m_epollfd w) (m_sockfd c) EPOLLIN w, false)
      else write_loop rs bytes_to_send bytes_have_send c w
  end.

Definition write (rs : list writev_t) (c : http_conn) (w : world)
    : res (http_conn * world * bool) :=
  let bytes_have_send := 0 in
  let bytes_to_send := m_write_idx c in
  if decide (bytes_to_send = 0) then
    let w := modfd (m_epollfd w) (m_sockfd c) EPOLLIN w in
    Ok (init c, w, true)
  else write_loop rs bytes_to_send bytes_have_send c w.

(** ** The response (lines 6-14 and 294-383) *)

Definition ok_200_title : bytes := lit "OK".
Definition error_400_title : bytes := lit "Bad Request".
Definition error_400_form : bytes :=
  lit "Your request has bad syntax or is inherently impossible to satisfy." ++ [LF].
Definition error_403_title : bytes := lit "Forbidden".
Definition error_403_form : bytes :=
  lit "You do not have permission to get file from this server." ++ [LF].
Definition error_404_title : bytes := lit "Not Found".
Definition error_404_form : bytes :=
  lit "The requested file was not found on this server." ++ [LF].
Definition error_500_title : bytes := lit "Internal Error".
Definition error_500_form : bytes :=
  lit "There was an unusual problem serving the requested file." ++ [LF].

(** [add_response]: [msg] is what the format and its arguments print;
    [vsnprintf] writes at most [n - 1] characters of it and a NUL. *)
Definition add_response (msg : bytes) (c : http_conn) : res (http_conn * bool) :=
  if decide (m_write_idx c >= WRITE_BUFFER_SIZE) then Ok (c, false)
  else
    let n := WRITE_BUFFER_SIZE - 1 - m_write_idx c in
    buf ← (if decide (n = 0) then Ok (m_write_buf c)
           else awrite (m_write_buf c) (m_write_idx c) (take (Z.to_nat (n - 1)) msg ++ [NUL]));
    let c := set_write_buf buf c in
    let len := Z.of_nat (length msg) in
    if decide (len >= n) then Ok (c, false)
    else Ok (set_write_idx (m_write_idx c + len) c, true).

Definition add_status_line (status : Z) (title : bytes) (c : http_conn) : res (http_conn * bool) :=
  add_response (lit "HTTP/1.1" ++ lit " " ++ dec status ++ lit " " ++ title ++ CRLF) c.

Definition add_content_length (content_length : Z) (c : http_conn) : res (http_conn * bool) :=
  add_response (lit "Content-Length: " ++ dec content_length ++ CRLF) c.

Definition add_linger (c : http_conn) : res (http_conn * bool) :=
  add_response (lit "Connection: " ++ (if m_linger c then lit "keep-alive" else lit "close")
                  ++ CRLF) c.

Definition add_blank_line (c : http_conn) : res (http_conn * bool) := add_response CRLF c.

Definition add_content (content : bytes) (c : http_conn) : res (http_conn * bool) :=
  add_response content c.

Definition add_headers (content_length : Z) (c : http_conn) : res (http_conn * bool) :=
  '(c, _) ← add_content_length content_length c;
  '(c, _) ← add_linger c;
  '(c, _) ← add_blank_line c;
  Ok (c, true).

(** [m_iv[i].iov_base = base; m_iv[i].iov_len = len] *)
Definition set_iov (i : nat) (base : iov_ptr) (len : Z) (c : http_conn) : http_conn :=
  set_iv (<[i := Iovec base len]> (m_iv c)) c.

(** The cases of [process_write] that break out of the switch, with the code
    after it. *)
Definition send_form (status : Z) (title form : bytes) (c : http_conn) : res (http_conn * bool) :=
  '(c, _) ← add_status_line status title c;
  '(c, _) ← add_headers (Z.of_nat (length form)) c;
  '(c, ok) ← add_content form c;
  if negb ok then Ok (c, false)
  else
    let c := set_iov 0 IovWriteBuf (m_write_idx c) c in
    Ok (set_iv_count (Some 1) c, true).

Definition process_write (ret : HTTP_CODE) (c : http_conn) : res (http_conn * bool) :=
  match ret with
  | INTERNAL_ERROR => send_form 500 error_500_title error_500_form c
  | BAD_REQUEST => send_form 400 error_400_title error_400_form c
  | NO_RESOURCE => send_form 404 error_404_title error_404_form c
  | FORBIDDEN_REQUEST => send_form 403 error_403_title error_403_form c
  | FILE_REQUEST =>
      '(c, _) ← add_status_line 200 ok_200_title c;
      st ← from_opt Uninit (m_file_stat c);
      if decide (st_size st <> 0) then
        '(c, _) ← add_headers (to_int (st_size st)) c;
        let c := set_iov 0 IovWriteBuf (m_write_idx c) c in
        m ← from_opt Uninit (m_file_address c);
        let c := set_iov 1 (IovFile m) (st_size st) c in
        Ok (set_iv_count (Some 2) c, true)
      else
        let ok_string := lit "<html><body></body></html>" in
        '(c, _) ← add_headers (Z.of_nat (length ok_string)) c;
        '(c, ok) ← add_content ok_string c;
        Ok (c, false)   (** falls into [default] either way *)
  | NO_REQUEST | GET_REQUEST | CLOSED_CONNECTION => Ok (c, false)
  end.

(** ** The entry point (lines 386-395) *)

Definition process (fs : fsys) (c : http_conn) (w : world) : res (http_conn * world) :=
  '(c, w, read_ret) ← process_read fs w c;
  if decide (read_ret = NO_REQUEST) then Ok (c, modfd (m_epollfd w) (m_sockfd c) EPOLLIN w)
  else
    '(c, write_ret) ← process_write read_ret c;
    let '(c, w) := if negb write_ret then close_conn true c w else (c, w) in
    Ok (c, modfd (m_epollfd w) (m_sockfd c) EPOLLOUT w).

(** A connection object as [new] leaves it, before [init_conn]. *)
Definition new_conn : http_conn :=
  HttpConn 0 0 [] 0 0 0 [] 0 CHECK_STATE_REQUESTLINE GET [] None None None 0 false None None
    (replicate 2 (Iovec IovGarbage 0)) None.

(** What the kernel received on a connection, in order. *)
Definition sent_on (fd : Z) (l : list sys) : bytes :=
  mjoin ((fun e => match e with Sent fd' d => if decide (fd = fd') then d else [] | _ => [] end)
    <$> l).
