(* ===== verification/HttpParse.v ===== *)
(** * The HTTP connection: reading and parsing

    What [parse_line], [parse_request_line], [pares_headers] and
    [process_read] compute, and that the split of the input into [recv]s does
    not matter up to the end of the headers. *)

From S2P Require Import Prelude CString HttpConn.

(** ** The read buffer

    [layout c pre rest tail]: the buffer is what has been checked, what is
    still to be checked, and the free part. *)
Record layout (c : http_conn) (pre rest tail : bytes) : Prop := {
  lay_buf : m_read_buf c = pre ++ rest ++ tail;
  lay_checked : m_checked_idx c = Z.of_nat (length pre);
  lay_read : m_read_idx c = Z.of_nat (length pre + length rest) }.

(** [received d c]: [c] after [d] has been received. *)
Definition received (d : bytes) (c : http_conn) : http_conn :=
  let r := Z.to_nat (m_read_idx c) in
  set_read_idx (m_read_idx c + Z.of_nat (length d))
    (set_read_buf (take r (m_read_buf c) ++ d ++ drop (r + length d) (m_read_buf c)) c).

(** There is room for [d]. *)
Definition fits (d : bytes) (c : http_conn) : Prop :=
  m_read_idx c + Z.of_nat (length d) <= Z.of_nat (length (m_read_buf c)).

(** The read indices are in order and the last checked character is not a CR. *)
Record pwf (c : http_conn) : Prop := {
  pwf_idx : 0 <= m_start_line c <= m_checked_idx c /\
            m_checked_idx c <= m_read_idx c <= Z.of_nat (length (m_read_buf c));
  pwf_cr : 0 < m_checked_idx c -> m_read_buf c !! Z.to_nat (m_checked_idx c - 1) <> Some CR }.

Lemma layout_exists c :
  0 <= m_checked_idx c <= m_read_idx c -> m_read_idx c <= Z.of_nat (length (m_read_buf c)) ->
  exists pre rest tail, layout c pre rest tail.
Proof.
  intros H1 H2. set (k := Z.to_nat (m_checked_idx c)). set (r := Z.to_nat (m_read_idx c)).
  exists (take k (m_read_buf c)), (take (r - k) (drop k (m_read_buf c))), (drop r (m_read_buf c)).
  split.
  - assert (drop r (m_read_buf c) = drop (r - k) (drop k (m_read_buf c))) as ->
      by (rewrite drop_drop; f_equal; lia).
    by rewrite !take_drop.
  - rewrite length_take. lia.
  - rewrite !length_take, length_drop. lia.
Qed.

Lemma layout_received c pre rest tail d :
  layout c pre rest tail -> fits d c -> layout (received d c) pre (rest ++ d) (drop (length d) tail).
Proof.
  intros [Hb Hc Hr] Hd. unfold fits in Hd. rewrite Hb, !length_app in Hd.
  split; cbn -[take drop]; [|done|rewrite length_app; lia].
  rewrite Hb, Hr, Nat2Z.id, (app_assoc pre rest tail), <- length_app, take_app_length.
  rewrite drop_app_add'; [by rewrite <- !app_assoc|done].
Qed.

(** ** Lines (parse_line) *)

(** Where the next line ends and how: [n] characters of [rest] are consumed and
    [rest'] is what is left. *)
Inductive line_end :=
  | EndOk (line rest' : bytes)    (** [line] CR LF [rest'] *)
  | EndBad (n : nat)
  | EndOpen (n : nat).

Definition next_line (rest : bytes) : line_end :=
  match strpbrk rest CRLF with
  | None => EndOpen (length rest)
  | Some i =>
      match drop i rest with
      | [c] => if decide (c = CR) then EndOpen i else EndBad i
      | c :: d :: rest' => if decide (c = CR /\ d = LF) then EndOk (take i rest) rest' else EndBad i
      | [] => EndOpen i
      end
  end.

Lemma parse_line_skip n c pre rest tail x :
  layout c pre (x :: rest) tail -> x <> CR -> x <> LF ->
  parse_line_loop (S n) c = parse_line_loop n (set_checked_idx (m_checked_idx c + 1) c).
Proof.
  intros [Hb Hc Hr] H1 H2. cbn in Hr. cbn [parse_line_loop].
  rewrite decide_True by lia.
  rewrite Hb. cbn [app]. rewrite (bind_ok _ _ _ (aget_at _ _ _ _ Hc)).
  by rewrite !decide_False by done.
Qed.

Lemma layout_skip c pre rest tail x :
  layout c pre (x :: rest) tail -> layout (set_checked_idx (m_checked_idx c + 1) c) (pre ++ [x]) rest tail.
Proof.
  intros [Hb Hc Hr]. split; cbn.
  - by rewrite Hb, <- app_assoc.
  - rewrite length_app; cbn; lia.
  - rewrite Hr, length_app; cbn; lia.
Qed.

Lemma next_line_skip x rest :
  x <> CR -> x <> LF ->
  next_line (x :: rest) =
  match next_line rest with
  | EndOk line rest' => EndOk (x :: line) rest'
  | EndBad n => EndBad (S n)
  | EndOpen n => EndOpen (S n)
  end.
Proof.
  intros H1 H2. unfold next_line. cbn. rewrite decide_False.
  2:{ intros H. inversion H as [|? ? ? H']; subst; [done|]. inversion H' as [|? ? ? H'']; subst; [done|].
      inversion H''. }
  destruct (strpbrk rest CRLF) as [i|]; cbn; [|done].
  destruct (drop i rest) as [|c [|d l]]; [done|..]; by case_decide.
Qed.

Lemma strpbrk_CR l : strpbrk (CR :: l) CRLF = Some 0%nat.
Proof. done. Qed.
Lemma strpbrk_LF l : strpbrk (LF :: l) CRLF = Some 0%nat.
Proof. done. Qed.

Lemma parse_line_loop_spec rest n c pre tail :
  layout c pre rest tail -> last pre <> Some CR -> (length rest <= n)%nat ->
  parse_line_loop n c = Ok
    match next_line rest with
    | EndOk line rest' =>
        (set_checked_idx (m_checked_idx c + Z.of_nat (length line) + 2)
          (set_read_buf (pre ++ line ++ NUL :: NUL :: rest' ++ tail) c), LINE_OK)
    | EndBad k => (set_checked_idx (m_checked_idx c + Z.of_nat k) c, LINE_BAD)
    | EndOpen k => (set_checked_idx (m_checked_idx c + Z.of_nat k) c, LINE_OPEN)
    end.
Proof.
  assert (forall c, set_checked_idx (m_checked_idx c + Z.of_nat 0) c = c) as Hz
    by (intros [] ; unfold set_checked_idx; cbn; f_equal; lia).
  revert n c pre. induction rest as [|x rest IH]; intros n c pre Hl Hlast Hn.
  - destruct Hl as [Hb Hc Hr]. cbn in Hr. cbn. rewrite Hz. destruct n; cbn;
      by rewrite decide_False by lia.
  - destruct n as [|n]; [cbn in Hn; lia|].
    destruct (decide (x = CR)) as [->|H1]; [|destruct (decide (x = LF)) as [->|H2]].
    + destruct Hl as [Hb Hc Hr]. cbn [length] in Hr. cbn [parse_line_loop].
      rewrite decide_True by lia. rewrite Hb. cbn [app].
      rewrite (bind_ok _ _ _ (aget_at _ _ _ _ Hc)). rewrite decide_True by done.
      unfold next_line. rewrite strpbrk_CR. cbn [drop take]. destruct rest as [|y rest]; cbn [length] in Hr.
      { rewrite !decide_True by (done || lia). by rewrite Hz. }
      rewrite decide_False by lia. cbn [app]. erewrite bind_ok.
      2:{ rewrite cons_middle, app_assoc. apply aget_at. rewrite length_app. cbn. lia. }
      cbv beta. destruct (decide (y = LF)) as [->|Hy].
      * rewrite (bind_ok _ _ _ (aset_at _ _ _ _ _ Hc)).
        erewrite bind_ok.
        2:{ rewrite cons_middle, app_assoc. apply aset_at. rewrite length_app. cbn. lia. }
        rewrite decide_True by done. rewrite <- !app_assoc. cbn. do 3 f_equal. lia.
      * rewrite decide_False by naive_solver. by rewrite Hz.
    + destruct Hl as [Hb Hc Hr]. cbn [length] in Hr. cbn [parse_line_loop].
      rewrite decide_True by lia. rewrite Hb. cbn [app].
      rewrite (bind_ok _ _ _ (aget_at _ _ _ _ Hc)). rewrite decide_False, decide_True by done.
      unfold next_line. rewrite strpbrk_LF. cbn [drop take].
      assert (match rest with
              | [] => if decide (LF = CR) then EndOpen 0 else EndBad 0
              | d :: rest' => if decide (LF = CR /\ d = LF) then EndOk [] rest' else EndBad 0
              end = EndBad 0) as -> by (destruct rest; by rewrite decide_False by naive_solver).
      rewrite Hz. case_decide; [|done].
      destruct pre as [|p pre _] using rev_ind; [cbn in Hc; lia|].
      rewrite last_snoc in Hlast. rewrite length_app in Hc. cbn in Hc.
      rewrite <- app_assoc. cbn [app].
      erewrite bind_ok by (apply aget_at; lia). cbv beta. by rewrite decide_False by congruence.
    + rewrite (parse_line_skip _ _ _ _ _ _ Hl H1 H2). apply layout_skip in Hl.
      rewrite (IH _ _ _ Hl); [|rewrite last_snoc; congruence|cbn in Hn; lia].
      rewrite next_line_skip by done.
      assert (forall k, m_checked_idx c + Z.of_nat (S k) = m_checked_idx c + 1 + Z.of_nat k) as Hk
        by lia.
      destruct (next_line rest) as [line rest'|k|k]; cbn -[Z.of_nat]; rewrite Hk, <- ?app_assoc;
        done.
Qed.

(** [parse_line] in terms of [next_line]. *)
Definition line_result (c : http_conn) (pre rest tail : bytes) : http_conn * LINE_STATUS :=
  match next_line rest with
  | EndOk line rest' =>
      (set_checked_idx (m_checked_idx c + Z.of_nat (length line) + 2)
        (set_read_buf (pre ++ line ++ NUL :: NUL :: rest' ++ tail) c), LINE_OK)
  | EndBad k => (set_checked_idx (m_checked_idx c + Z.of_nat k) c, LINE_BAD)
  | EndOpen k => (set_checked_idx (m_checked_idx c + Z.of_nat k) c, LINE_OPEN)
  end.

Lemma parse_line_result c pre rest tail :
  layout c pre rest tail -> last pre <> Some CR -> parse_line c = Ok (line_result c pre rest tail).
Proof.
  intros Hl Hlast. unfold parse_line. rewrite (parse_line_loop_spec _ _ _ _ _ Hl Hlast).
  - unfold line_result. by destruct (next_line rest).
  - destruct Hl. lia.
Qed.

Lemma next_line_ok rest line rest' :
  next_line rest = EndOk line rest' <->
  rest = line ++ CR :: LF :: rest' /\ Forall (fun x => x ∉ CRLF) line.
Proof.
  split.
  - unfold next_line. destruct (strpbrk rest CRLF) as [i|] eqn:E; [|done].
    apply strpbrk_Some in E as (pre & c & post & -> & -> & Hc & Hpre).
    rewrite drop_app_length, take_app_length.
    destruct post as [|d post]; case_decide as H; try done.
    destruct H as [-> ->]. by intros [= <- <-].
  - intros (-> & Hl). unfold next_line.
    rewrite (strpbrk_at line CR (LF :: rest')), drop_app_length, take_app_length by (left || done).
    done.
Qed.

(** What remains unconsumed after an incomplete or a bad line. *)
Definition shift_line (pre : bytes) (e : line_end) : line_end :=
  match e with
  | EndOk line rest => EndOk (pre ++ line) rest
  | EndBad n => EndBad (length pre + n)
  | EndOpen n => EndOpen (length pre + n)
  end.

Lemma next_line_app rest d :
  match next_line rest with
  | EndOk line rest' => next_line (rest ++ d) = EndOk line (rest' ++ d)
  | EndBad n | EndOpen n =>
      (n <= length rest)%nat /\ Forall (fun x => x ∉ CRLF) (take n rest) /\
      next_line (rest ++ d) = shift_line (take n rest) (next_line (drop n rest ++ d))
  end.
Proof.
  assert (forall e, shift_line [] e = e) as H0 by by intros [].
  induction rest as [|x rest IH].
  { cbn. rewrite H0. split_ands; [lia|constructor|done]. }
  destruct (decide (x = CR)) as [->|H1]; [|destruct (decide (x = LF)) as [->|H2]].
  - unfold next_line at 1. rewrite strpbrk_CR. cbn [drop].
    destruct rest as [|y rest]; cbn [app].
    + rewrite decide_True by done. cbn [take drop app]. rewrite H0.
      split_ands; [lia|constructor|done].
    + case_decide as H.
      * destruct H as [_ ->]. unfold next_line. by rewrite strpbrk_CR.
      * cbn [take drop app]. rewrite H0. split_ands; [lia|constructor|done].
  - unfold next_line at 1. rewrite strpbrk_LF. cbn [drop].
    destruct rest as [|y rest]; rewrite decide_False by naive_solver; cbn [take drop app];
      rewrite H0; split_ands; (lia || constructor || done).
  - rewrite next_line_skip by done. cbn [app]. rewrite next_line_skip by done.
    assert (x ∉ CRLF) by set_solver.
    destruct (next_line rest) as [line rest'|n|n]; [by rewrite IH|..];
      destruct IH as (Hn & Hf & ->); cbn [take drop];
      (split_ands; [cbn; lia|by constructor|]); by destruct (next_line (drop n rest ++ d)).
Qed.

(** ** Receiving between two calls of parse_line *)

Lemma received_eq c pre rest tail d :
  layout c pre rest tail ->
  received d c = set_read_idx (m_read_idx c + Z.of_nat (length d))
    (set_read_buf (pre ++ rest ++ d ++ drop (length d) tail) c).
Proof.
  intros [Hb Hc Hr]. unfold received. rewrite Hb, Hr, Nat2Z.id.
  rewrite (app_assoc pre rest tail), <- length_app, take_app_length.
  rewrite drop_app_add'; [by rewrite <- !app_assoc|done].
Qed.

Lemma pwf_layout c :
  pwf c -> exists pre rest tail, layout c pre rest tail /\ last pre <> Some CR.
Proof.
  intros [[H1 H2] H3]. destruct (layout_exists c) as (pre & rest & tail & Hl); [lia|lia|].
  exists pre, rest, tail. split; [done|]. destruct Hl as [Hb Hc Hr].
  destruct pre as [|x pre _] using rev_ind; [done|]. rewrite last_snoc. intros [= ->].
  rewrite length_app in Hc. cbn in Hc. apply H3; [lia|].
  rewrite Hb, <- app_assoc, Hc. cbn.
  replace (Z.to_nat _) with (length pre) by lia. by apply list_lookup_middle.
Qed.

Lemma pwf_of_layout c pre rest tail :
  layout c pre rest tail -> last pre <> Some CR -> 0 <= m_start_line c <= m_checked_idx c -> pwf c.
Proof.
  intros [Hb Hc Hr] Hlast Hs. split.
  - rewrite Hb, !length_app. lia.
  - intros Hpos. destruct pre as [|x pre _] using rev_ind; [cbn in Hc; lia|].
    rewrite last_snoc in Hlast. rewrite Hb, <- app_assoc, Hc, length_app. cbn.
    replace (Z.to_nat _) with (length pre) by lia.
    rewrite list_lookup_middle by done. done.
Qed.

Lemma last_take_not_CR pre l n :
  Forall (fun x => x ∉ CRLF) (take n l) -> last pre <> Some CR -> last (pre ++ take n l) <> Some CR.
Proof.
  intros Hf Hlast. rewrite last_app. destruct (last (take n l)) as [x|] eqn:E; [|done].
  apply last_Some_elem_of in E. rewrite Forall_forall in Hf. specialize (Hf x E). set_solver.
Qed.

(** When [parse_line] stops after [n] characters without a line. *)
Lemma parse_line_stopped c pre rest tail d n :
  layout c pre rest tail -> last pre <> Some CR -> 0 <= m_start_line c <= m_checked_idx c ->
  fits d c -> (n <= length rest)%nat -> Forall (fun x => x ∉ CRLF) (take n rest) ->
  next_line (rest ++ d) = shift_line (take n rest) (next_line (drop n rest ++ d)) ->
  let c' := set_checked_idx (m_checked_idx c + Z.of_nat n) c in
  pwf c' /\ Ok (line_result (received d c) pre (rest ++ d) (drop (length d) tail))
            = parse_line (received d c').
Proof.
  intros Hl Hlast Hs Hd Hn Hf Happ c'.
  assert (layout c' (pre ++ take n rest) (drop n rest) tail) as Hl'.
  { destruct Hl as [Hb Hc Hr]. split; cbn -[Z.of_nat].
    - by rewrite <- app_assoc, (app_assoc (take n rest)), take_drop.
    - rewrite length_app, length_take. lia.
    - rewrite Hr, length_app, length_take, length_drop. lia. }
  pose proof (last_take_not_CR _ _ _ Hf Hlast) as Hlast'.
  split; [eapply pwf_of_layout; [exact Hl'|done|cbn; lia]|].
  assert (fits d c') as Hd' by exact Hd.
  erewrite (parse_line_result _ _ _ _ (layout_received _ _ _ _ _ Hl' Hd') Hlast').
  unfold line_result. rewrite Happ.
  destruct (next_line (drop n rest ++ d)); cbn -[Z.of_nat]; rewrite ?length_app, ?length_take,
    ?Nat.min_l by lia; rewrite ?Nat2Z.inj_add, ?Z.add_assoc.
  all: rewrite <- ?app_assoc; reflexivity.
Qed.

(** The effect of [parse_line] on well-formed states, before and after more
    data has arrived. *)
Lemma parse_line_received c d :
  pwf c -> fits d c ->
  exists c' st, parse_line c = Ok (c', st) /\ pwf c' /\
    match st with
    | LINE_OK => parse_line (received d c) = Ok (received d c', LINE_OK)
    | _ => parse_line (received d c) = parse_line (received d c')
    end.
Proof.
  intros Hwf Hd. destruct (pwf_layout c Hwf) as (pre & rest & tail & Hl & Hlast).
  pose proof (pwf_idx c Hwf) as [Hs _].
  pose proof (layout_received _ _ _ _ _ Hl Hd) as Hld.
  pose proof (parse_line_result _ _ _ _ Hl Hlast) as E.
  pose proof (parse_line_result _ _ _ _ Hld Hlast) as Ed.
  pose proof (next_line_app rest d) as Happ.
  unfold line_result in E, Ed.
  destruct (next_line rest) as [line rest'|n|n] eqn:En.
  - apply next_line_ok in En as [-> Hline]. eexists _, _. split; [exact E|].
    match type of E with _ = Ok (?x, _) => assert (layout x (pre ++ line ++ [NUL; NUL]) rest' tail)
      as Hl' end.
    { destruct Hl as [Hb Hc Hr]. split; cbn -[Z.of_nat]; [by rewrite <- !app_assoc|..];
        rewrite ?Hr, ?Hc, !length_app; cbn; lia. }
    split.
    + eapply pwf_of_layout; [exact Hl'| |cbn -[Z.of_nat]; lia].
      rewrite app_assoc, last_app. cbn. discriminate.
    + rewrite Ed, Happ, (received_eq _ _ _ _ _ Hl'), (received_eq _ _ _ _ _ Hl).
      rewrite <- !app_assoc. done.
  - destruct Happ as (Hn & Hf & Happ).
    destruct (parse_line_stopped _ _ _ _ _ _ Hl Hlast Hs Hd Hn Hf Happ).
    eexists _, _. split_ands; [exact E|done|by rewrite Ed].
  - destruct Happ as (Hn & Hf & Happ).
    destruct (parse_line_stopped _ _ _ _ _ _ Hl Hlast Hs Hd Hn Hf Happ).
    eexists _, _. split_ands; [exact E|done|by rewrite Ed].
Qed.

(** ** The request line (parse_request_line) *)

(** The pieces of METHOD blank+ TARGET blank+ VERSION; [rp_path] is where the
    path begins in the target. *)
Record request_parts := RequestParts {
  rp_method : bytes; rp_b1 : ascii; rp_ws1 : bytes;
  rp_target : bytes; rp_b2 : ascii; rp_ws2 : bytes;
  rp_version : bytes; rp_path : nat }.

(** The path of a target: what follows the host in an absolute http URL. *)
Definition path_offset (target : bytes) : option nat :=
  if strncaseeq target (lit "http://") 7 then (fun k => (7 + k)%nat) <$> strchr (drop 7 target) "/"
  else match target with c :: _ => if decide (c = "/"%char) then Some 0%nat else None | [] => None end.

Abbreviation is_blank := (fun x => x ∈ blanks).
Abbreviation not_blank := (fun x => x ∉ blanks).

(** The request lines that the server accepts. *)
Record request_line (line : bytes) (p : request_parts) : Prop := {
  rl_line : line = rp_method p ++ rp_b1 p :: rp_ws1 p ++ rp_target p ++
                   rp_b2 p :: rp_ws2 p ++ rp_version p;
  rl_method : strcaseeq (rp_method p) (lit "GET") = true;
  rl_version : strcaseeq (rp_version p) (lit "HTTP/1.1") = true;
  rl_method_nb : Forall not_blank (rp_method p);
  rl_target_nb : Forall not_blank (rp_target p);
  rl_version_nb : forall x, head (rp_version p) = Some x -> x ∉ blanks;
  rl_target_ne : rp_target p <> [];
  rl_b1 : rp_b1 p ∈ blanks;
  rl_b2 : rp_b2 p ∈ blanks;
  rl_ws1 : Forall is_blank (rp_ws1 p);
  rl_ws2 : Forall is_blank (rp_ws2 p);
  rl_path : path_offset (rp_target p) = Some (rp_path p) }.

(** The connection after an accepted request line. *)
Definition accepted (pre post : bytes) (p : request_parts) (c : http_conn) : http_conn :=
  let url := (length pre + length (rp_method p) + 1 + length (rp_ws1 p))%nat in
  let version := (url + length (rp_target p) + 1 + length (rp_ws2 p))%nat in
  set_check_state CHECK_STATE_HEADER
    (set_url (Some (Z.of_nat (url + rp_path p)))
      (set_version (Some (Z.of_nat version))
        (set_method GET
          (set_read_buf (pre ++ rp_method p ++ NUL :: rp_ws1 p ++ rp_target p ++
                         NUL :: rp_ws2 p ++ rp_version p ++ NUL :: post) c)))).

Lemma path_offset_lookup t k : path_offset t = Some k -> t !! k = Some "/"%char.
Proof.
  unfold path_offset. case_match.
  - unfold strchr. destruct (strpbrk (drop 7 t) ["/"%char]) as [i|] eqn:E; [|done].
    intros [= <-]. apply strpbrk_Some in E as (a & c & b & E & -> & Hc & _).
    etrans; [symmetry; exact (lookup_drop t 7 (length a))|]. rewrite E, list_lookup_middle by done. set_solver.
  - destruct t as [|c t]; [done|]. case_decide; [|done]. intros [= <-]. cbn. congruence.
Qed.

Lemma strncaseeq_length s t n :
  strncaseeq s t n = true -> (n <= length t)%nat -> (n <= length s)%nat.
Proof.
  unfold strncaseeq. intros H%bool_decide_eq_true Hn.
  apply (f_equal length) in H. rewrite !length_take, !length_fmap in H. lia.
Qed.

(** The part after the version has been found. *)
Lemma url_path_spec c buf L t R url :
  buf = m_read_buf c -> buf = L ++ t ++ NUL :: R -> url = Z.of_nat (length L) -> NUL ∉ t -> t <> [] ->
  m_url c = Some url ->
  (c' ← (if strncaseeq t (lit "http://") 7 then
           u ← cstr buf (url + 7);
           Ok (set_url ((fun k => url + 7 + Z.of_nat k) <$> strchr u "/") c)
         else Ok c);
   match m_url c' with
   | None => Ok (c', BAD_REQUEST)
   | Some url =>
       ch ← aget (m_read_buf c') url;
       if decide (ch <> "/"%char) then Ok (c', BAD_REQUEST)
       else Ok (set_check_state CHECK_STATE_HEADER c', NO_REQUEST)
   end) =
  match path_offset t with
  | Some k => Ok (set_check_state CHECK_STATE_HEADER (set_url (Some (url + Z.of_nat k)) c), NO_REQUEST)
  | None => Ok (if strncaseeq t (lit "http://") 7 then set_url None c else c, BAD_REQUEST)
  end.
Proof.
  intros -> Hb -> Hnul Hne Hu. unfold path_offset.
  destruct (strncaseeq t (lit "http://") 7) eqn:E.
  - pose proof (strncaseeq_length _ _ _ E ltac:(cbn; lia)) as Hlen.
    assert (cstr (m_read_buf c) (Z.of_nat (length L) + 7) = Ok (drop 7 t)) as ->.
    { eapply (cstr_at _ _ (L ++ take 7 t) (drop 7 t) R).
      - by rewrite Hb, <- app_assoc, (app_assoc (take 7 t)), take_drop.
      - rewrite length_app, length_take. lia.
      - intros Hin. apply Hnul. rewrite <- (take_drop 7 t). set_solver. }
    cbn -[Z.of_nat aget drop take strchr Nat.add].
    destruct (strchr (drop 7 t) "/") as [k|] eqn:Ek; cbn -[Z.of_nat aget drop take Nat.add];
      [|done].
    unfold strchr in Ek.
    apply strpbrk_Some in Ek as (a & x & b & Ek & -> & Hx & _).
    assert (t = (take 7 t ++ a) ++ x :: b) as Ht by by rewrite <- app_assoc, <- Ek, take_drop.
    rewrite Hb, Ht, <- app_assoc, (app_assoc L). cbn [app].
    erewrite aget_at by (rewrite !length_app, length_take; lia).
    cbn -[Z.of_nat Nat.add]. rewrite decide_False by set_solver.
    replace (Z.of_nat (length L) + 7 + _) with (Z.of_nat (length L) + Z.of_nat (7 + length a)) by lia.
    done.
  - rewrite (bind_ok _ _ c) by done. rewrite Hu, Hb.
    destruct t as [|x t]; [done|]. cbn [app].
    rewrite (bind_ok _ _ x) by (by apply aget_at).
    destruct (decide (x = "/"%char)) as [->|Hx].
    + rewrite decide_False by auto. rewrite Z.add_0_r. by destruct c; cbn in *; subst.
    + by rewrite decide_True.
Qed.

Ltac layout_eq := repeat first [rewrite <- !app_assoc | progress cbn [app]]; reflexivity.
Ltac len_eq := repeat first [rewrite length_app | progress cbn [length]]; lia.

Lemma cons_split_unique {A} (P : A -> Prop) (m m' : list A) b b' s s' :
  Forall (fun x => ~ P x) m -> Forall (fun x => ~ P x) m' -> P b -> P b' ->
  m ++ b :: s = m' ++ b' :: s' -> m = m' /\ b = b' /\ s = s'.
Proof.
  intros Hm. revert m'. induction Hm as [|x m Hx _ IH]; intros m' Hm' Hb Hb'.
  - destruct Hm' as [|y m' Hy _]; cbn; intros [= <- ?]; [done|]. contradiction.
  - destruct Hm' as [|y m' Hy Hm']; cbn; intros [= -> E]; [contradiction|].
    by destruct (IH m' Hm' Hb Hb' E) as (-> & -> & ->).
Qed.

Lemma prefix_unique {A} (P : A -> Prop) (ws ws' t t' : list A) :
  Forall P ws -> Forall P ws' ->
  (forall x, head t = Some x -> ~ P x) -> (forall x, head t' = Some x -> ~ P x) ->
  ws ++ t = ws' ++ t' -> ws = ws' /\ t = t'.
Proof.
  intros Hw. revert ws'. induction Hw as [|x ws Hx _ IH]; intros ws' Hw' Ht Ht'.
  - destruct Hw' as [|y ws' Hy _]; cbn; [done|]. intros ->. exfalso. by apply (Ht y).
  - destruct Hw' as [|y ws' Hy Hw']; cbn.
    + intros <-. exfalso. by apply (Ht' x).
    + intros [= -> E]. by destruct (IH ws' Hw' Ht Ht' E) as (-> & ->).
Qed.

(** The pieces of an accepted line are determined by it. *)
Lemma request_line_pieces line p m b1 ws1 t :
  request_line line p -> line = m ++ b1 :: ws1 ++ t ->
  Forall not_blank m -> b1 ∈ blanks -> Forall is_blank ws1 ->
  (forall x, head t = Some x -> x ∉ blanks) ->
  rp_method p = m /\ t = rp_target p ++ rp_b2 p :: rp_ws2 p ++ rp_version p /\
  rp_b1 p = b1 /\ rp_ws1 p = ws1.
Proof.
  intros Hp -> Hm Hb1 Hw1 Ht. pose proof (rl_line _ _ Hp) as E.
  destruct (cons_split_unique is_blank _ _ _ _ _ _ Hm (rl_method_nb _ _ Hp) Hb1 (rl_b1 _ _ Hp) E)
    as (<- & <- & E').
  assert (forall x, head (rp_target p ++ rp_b2 p :: rp_ws2 p ++ rp_version p) = Some x ->
            x ∉ blanks) as Hhd.
  { intros x Hx. pose proof (rl_target_ne _ _ Hp). pose proof (rl_target_nb _ _ Hp) as Hf.
    destruct (rp_target p) as [|y l]; [done|]. cbn in Hx. injection Hx as ->. by inversion Hf. }
  by destruct (prefix_unique is_blank _ _ _ _ Hw1 (rl_ws1 _ _ Hp) Ht Hhd E') as (<- & ->).
Qed.

(** The assignments of an accepted line, without those that are overwritten. *)
Lemma collapse s u v b u1 m u2 b' c :
  set_check_state s (set_url u (set_version v (set_read_buf b
    (set_url u1 (set_method m (set_url u2 (set_read_buf b' c))))))) =
  set_check_state s (set_url u (set_version v (set_method m (set_read_buf b c)))).
Proof. reflexivity. Qed.

(** The target and the version of a request line are determined by the blanks. *)
Lemma target_version_unique m b1 ws1 t b2 ws2 v :
  Forall not_blank m -> b1 ∈ blanks -> Forall is_blank ws1 -> Forall not_blank t -> b2 ∈ blanks ->
  Forall is_blank ws2 -> (forall x, head v = Some x -> x ∉ blanks) ->
  (forall x, head (t ++ b2 :: ws2 ++ v) = Some x -> x ∉ blanks) ->
  forall p, request_line (m ++ b1 :: ws1 ++ t ++ b2 :: ws2 ++ v) p -> rp_target p = t /\ rp_version p = v.
Proof.
  intros Hm Hb1 Hw1 Ht Hb2 Hw2 Hv Ht1 p Hp.
  eapply request_line_pieces in Hp as Hq; [|done..]. destruct Hq as (_ & E & _ & _).
  destruct (cons_split_unique is_blank _ _ _ _ _ _ Ht (rl_target_nb _ _ Hp) Hb2 (rl_b2 _ _ Hp) E)
    as (<- & _ & E').
  by destruct (prefix_unique is_blank _ _ _ _ Hw2 (rl_ws2 _ _ Hp) Hv (rl_version_nb _ _ Hp) E')
    as (_ & ->).
Qed.

Lemma parse_request_line_cases c pre line post :
  m_read_buf c = pre ++ line ++ NUL :: post -> NUL ∉ line ->
  exists c' ret, parse_request_line (Z.of_nat (length pre)) c = Ok (c', ret) /\
    ((ret = BAD_REQUEST /\ forall p, ~ request_line line p) \/
     (ret = NO_REQUEST /\ exists p, request_line line p /\ c' = accepted pre post p c)).
Proof.
  intros Hb Hnul. unfold parse_request_line.
  rewrite (bind_ok _ _ _ (cstr_at _ _ _ _ _ Hb eq_refl Hnul)).
  destruct (strpbrk line blanks) as [i|] eqn:E1.
  2:{ eexists _, _. split; [done|]. left. split; [done|]. intros p Hp.
      apply strpbrk_None in E1. rewrite (rl_line _ _ Hp), Forall_app, Forall_cons in E1.
      by destruct E1 as (_ & ? & _); pose proof (rl_b1 _ _ Hp). }
  apply strpbrk_Some in E1 as (m & b1 & s1 & -> & -> & Hb1 & Hm).
  rewrite <- app_assoc in Hb. cbn [app] in Hb.
  assert (NUL ∉ m /\ NUL ∉ s1) as [Hnm Hns] by set_solver.
  erewrite bind_ok by (rewrite Hb, app_assoc; apply aset_at; len_eq).
  cbv zeta. cbn [m_read_buf set_url set_read_buf].
  erewrite bind_ok by (eapply (cstr_at _ _ pre m (s1 ++ NUL :: post)); [layout_eq|done|done]).
  destruct (strspn_decompose s1 blanks) as (ws1 & t1 & Es & Hsp & Hw1 & Ht1). subst s1.
  destruct (strcaseeq m (lit "GET")) eqn:EG; cbn [negb].
  2:{ eexists _, _. split; [done|]. left. split; [done|]. intros p Hp.
      eapply request_line_pieces in Hp as Hq; [|done..]. destruct Hq as (<- & _).
      pose proof (rl_method _ _ Hp). congruence. }
  cbn [m_read_buf set_url set_read_buf set_method].
  erewrite bind_ok by
    (eapply (cstr_at _ _ (pre ++ m ++ [NUL]) (ws1 ++ t1) post); [layout_eq|len_eq|done]).
  rewrite Hsp. cbn [m_read_buf set_url set_read_buf set_method].
  assert (NUL ∉ t1 /\ NUL ∉ ws1) as [Hnt Hnw] by set_solver.
  erewrite bind_ok by
    (eapply (cstr_at _ _ (pre ++ m ++ NUL :: ws1) t1 post); [layout_eq|len_eq|done]).
  destruct (strpbrk t1 blanks) as [j|] eqn:E2.
  2:{ eexists _, _. split; [done|]. left. split; [done|]. intros p Hp.
      eapply request_line_pieces in Hp as Hq; [|done..]. destruct Hq as (_ & -> & _).
      apply strpbrk_None in E2. rewrite Forall_app, Forall_cons in E2.
      by destruct E2 as (_ & ? & _); pose proof (rl_b2 _ _ Hp). }
  apply strpbrk_Some in E2 as (t & b2 & s2 & -> & -> & Hb2 & Ht).
  destruct (strspn_decompose s2 blanks) as (ws2 & v & Es & Hsp2 & Hw2 & Hv). subst s2.
  assert (t <> []) as Htne by (intros ->; by apply (Ht1 b2)).
  assert (NUL ∉ t /\ NUL ∉ ws2 /\ NUL ∉ v) as (Hnt' & Hnw2 & Hnv) by set_solver.
  pose proof (target_version_unique m b1 ws1 t b2 ws2 v Hm Hb1 Hw1 Ht Hb2 Hw2 Hv Ht1) as Huniq.
  erewrite bind_ok.
  2:{ match goal with |- aset ?b _ _ = _ =>
        replace b with ((pre ++ m ++ NUL :: ws1 ++ t) ++ b2 :: ws2 ++ v ++ NUL :: post) by layout_eq end.
      apply aset_at. len_eq. }
  cbn [m_read_buf set_url set_read_buf set_method].
  erewrite bind_ok by (eapply (cstr_at _ _ (pre ++ m ++ NUL :: ws1 ++ t ++ [NUL]) (ws2 ++ v) post);
    [layout_eq|len_eq|set_solver]).
  rewrite Hsp2. cbn [m_read_buf set_url set_read_buf set_method set_version].
  erewrite bind_ok by (eapply (cstr_at _ _ (pre ++ m ++ NUL :: ws1 ++ t ++ NUL :: ws2) v post);
    [layout_eq|len_eq|done]).
  destruct (strcaseeq v (lit "HTTP/1.1")) eqn:EV; cbn [negb].
  2:{ eexists _, _. split; [done|]. left. split; [done|]. intros p Hp.
      destruct (Huniq p Hp) as [_ <-]. pose proof (rl_version _ _ Hp). congruence. }
  erewrite bind_ok by (eapply (cstr_at _ _ (pre ++ m ++ NUL :: ws1) t (ws2 ++ v ++ NUL :: post));
    [layout_eq|len_eq|done]).
  match goal with |- context [cstr ?buf (?u + 7)] =>
    match goal with |- context [Ok (set_version ?x ?y)] =>
      pose proof (url_path_spec (set_version x y) buf (pre ++ m ++ NUL :: ws1) t
        (ws2 ++ v ++ NUL :: post) u eq_refl ltac:(layout_eq) ltac:(len_eq) Hnt' Htne eq_refl) as ->
    end end.
  destruct (path_offset t) as [k|] eqn:Ek.
  - eexists _, _. split; [done|]. right. split; [done|].
    exists (RequestParts m b1 ws1 t b2 ws2 v k). split; [by split|].
    rewrite collapse. unfold accepted. cbn [rp_method rp_ws1 rp_target rp_ws2 rp_version rp_path].
    f_equal. f_equal; [f_equal; lia|]. f_equal; [f_equal; lia|]. do 2 f_equal. layout_eq.
  - eexists _, _. split; [done|]. left. split; [done|]. intros p Hp.
    destruct (Huniq p Hp) as [<- _]. pose proof (rl_path _ _ Hp). congruence.
Qed.

(** ** Header lines (pares_headers) *)

(** The value after a field name of [n] characters. *)
Definition header_value (n : nat) (line : bytes) : bytes :=
  drop (strspn (drop n line) blanks) (drop n line).

(** What a header line that starts at offset [text] does. *)
Definition header_effect (text : Z) (line : bytes) (c : http_conn) : http_conn * HTTP_CODE :=
  match line with
  | [] =>
      if decide (m_content_lenght c <> 0) then (set_check_state CHECK_STATE_CONNECT c, NO_REQUEST)
      else (c, GET_REQUEST)
  | _ =>
      (if strncaseeq line (lit "Connection:") 11 then
         if strcaseeq (header_value 11 line) (lit "keep-alive") then set_linger true c else c
       else if strncaseeq line (lit "Content-Length:") 15 then
         set_content_lenght (atoi (header_value 15 line)) c
       else if strncaseeq line (lit "Host:") 5 then
         set_host (Some (text + 5 + Z.of_nat (strspn (drop 5 line) blanks))) c
       else c, NO_REQUEST)
  end.

Lemma cstr_field b pre line post n :
  b = pre ++ line ++ NUL :: post -> NUL ∉ line -> (n <= length line)%nat ->
  cstr b (Z.of_nat (length pre) + Z.of_nat n) = Ok (drop n line).
Proof.
  intros -> Hnul Hn. apply (cstr_at _ _ (pre ++ take n line) (drop n line) post).
  - by rewrite <- app_assoc, (app_assoc (take n line)), take_drop.
  - rewrite length_app, length_take. lia.
  - intros Hin. apply Hnul. rewrite <- (take_drop n line). set_solver.
Qed.

Lemma cstr_value b pre line post n :
  b = pre ++ line ++ NUL :: post -> NUL ∉ line -> (n <= length line)%nat ->
  cstr b (Z.of_nat (length pre) + Z.of_nat n + Z.of_nat (strspn (drop n line) blanks))
  = Ok (header_value n line).
Proof.
  intros -> Hnul Hn. unfold header_value.
  pose proof (proj1 (proj2 (strspn_split (drop n line) blanks))) as Hle. rewrite length_drop in Hle.
  rewrite <- Z.add_assoc, <- Nat2Z.inj_add, drop_drop. by eapply cstr_field; [done..|lia].
Qed.

Lemma pares_headers_effect c pre line post :
  m_read_buf c = pre ++ line ++ NUL :: post -> NUL ∉ line ->
  pares_headers (Z.of_nat (length pre)) c = Ok (header_effect (Z.of_nat (length pre)) line c).
Proof.
  intros Hb Hnul. unfold pares_headers, header_effect.
  destruct line as [|x line].
  { rewrite Hb. cbn [app]. erewrite bind_ok by (by apply aget_at).
    rewrite decide_True by done. by case_decide. }
  erewrite bind_ok by (rewrite Hb; by apply aget_at). rewrite decide_False by set_solver.
  rewrite (bind_ok _ _ _ (cstr_at _ _ _ _ _ Hb eq_refl Hnul)).
  change 11 with (Z.of_nat 11). change 15 with (Z.of_nat 15). change 5 with (Z.of_nat 5).
  destruct (strncaseeq _ _ 11) eqn:E1; [|destruct (strncaseeq _ _ 15) eqn:E2;
    [|destruct (strncaseeq _ _ 5) eqn:E3; [|done]]].
  - apply strncaseeq_length in E1; [|done].
    rewrite (bind_ok _ _ _ (cstr_field _ _ _ _ _ Hb Hnul E1)).
    by rewrite (bind_ok _ _ _ (cstr_value _ _ _ _ _ Hb Hnul E1)).
  - apply strncaseeq_length in E2; [|done].
    rewrite (bind_ok _ _ _ (cstr_field _ _ _ _ _ Hb Hnul E2)).
    by rewrite (bind_ok _ _ _ (cstr_value _ _ _ _ _ Hb Hnul E2)).
  - apply strncaseeq_length in E3; [|done].
    by rewrite (bind_ok _ _ _ (cstr_field _ _ _ _ _ Hb Hnul E3)).
Qed.

(** ** The loop terminates (process_read) *)

(** [erased b b']: [b'] is [b] with some characters replaced by NULs. *)
Definition erased (b b' : bytes) : Prop :=
  length b' = length b /\ forall k x, b' !! k = Some x -> b !! k = Some x \/ x = NUL.

Lemma erased_refl b : erased b b.
Proof. split; auto. Qed.

Lemma erased_trans b1 b2 b3 : erased b1 b2 -> erased b2 b3 -> erased b1 b3.
Proof.
  intros [H1 H2] [H3 H4]. split; [congruence|]. intros k x Hx.
  destruct (H4 k x Hx) as [H|]; auto.
Qed.

Lemma erased_aset b b' i : aset b i NUL = Ok b' -> erased b b' /\ b' !! Z.to_nat i = Some NUL.
Proof.
  intros (Hi & ->)%aset_ok_inv. split.
  - split; [apply length_insert|]. intros k x Hx.
    apply list_lookup_insert_Some in Hx. naive_solver.
  - apply list_lookup_insert_eq. lia.
Qed.

Lemma erased_nul b b' k : erased b b' -> b !! k = Some NUL -> b' !! k = Some NUL.
Proof.
  intros [Hl H] Hk. apply lookup_lt_Some in Hk as Hlt. rewrite <- Hl in Hlt.
  apply lookup_lt_is_Some_2 in Hlt as [x Hx]. destruct (H k x Hx); congruence.
Qed.

Lemma erased_not_nul b b' k x : erased b b' -> b' !! k = Some x -> x <> NUL -> b !! k = Some x.
Proof. intros [_ H] Hx Hn. by destruct (H k x Hx). Qed.

(** What [parse_line] changes, whatever the state. *)
Lemma parse_line_loop_frame n c c' st :
  parse_line_loop n c = Ok (c', st) ->
  exists k b, c' = set_checked_idx k (set_read_buf b c) /\ erased (m_read_buf c) b /\
    m_checked_idx c <= k /\
    (st = LINE_OK -> m_checked_idx c < k <= m_read_idx c /\ b !! Z.to_nat (k - 1) = Some NUL).
Proof.
  assert (forall c st, st <> LINE_OK ->
    exists k b, c = set_checked_idx k (set_read_buf b c) /\ erased (m_read_buf c) b /\
      m_checked_idx c <= k /\
      (st = LINE_OK -> m_checked_idx c < k <= m_read_idx c /\ b !! Z.to_nat (k - 1) = Some NUL))
    as Hid.
  { intros d ? ?. exists (m_checked_idx d), (m_read_buf d).
    split_ands; [by destruct d|apply erased_refl|lia|done]. }
  revert c. induction n as [|n IH]; intros c; cbn [parse_line_loop]; case_decide as Hlt; try done.
  1,3: by intros [= <- <-]; apply Hid.
  intros H. apply bind_ok_inv in H as (x & Hx & H).
  repeat case_decide; simplify_eq; try (by apply Hid).
  - apply bind_ok_inv in H as (y & Hy & H). case_decide; simplify_eq; [|by apply Hid].
    apply bind_ok_inv in H as (b1 & E1 & H). apply bind_ok_inv in H as (b2 & E2 & H).
    simplify_eq. apply erased_aset in E1 as [E1 _], E2 as [E2 Hn]. eexists _, b2.
    split_ands; [reflexivity|by eapply erased_trans|lia|].
    intros _. split; [lia|]. rewrite <- Hn. f_equal. lia.
  - apply bind_ok_inv in H as (y & Hy & H). case_decide; simplify_eq; [|by apply Hid].
    apply bind_ok_inv in H as (b1 & E1 & H). apply bind_ok_inv in H as (b2 & E2 & H).
    simplify_eq. apply erased_aset in E1 as [E1 _], E2 as [E2 Hn]. eexists _, b2.
    split_ands; [reflexivity|by eapply erased_trans|lia|].
    intros _. split; [lia|]. rewrite <- Hn. f_equal. lia.
  - apply IH in H as (k & b & -> & Her & Hk & Hok). exists k, b.
    cbn in Her, Hk, Hok. split_ands; [done|done|lia|].
    intros ->. destruct (Hok eq_refl). split; [lia|done].
Qed.

Lemma parse_line_fuel n c : parse_line_loop n c = Err OutOfFuel ->
  (n < Z.to_nat (m_read_idx c - m_checked_idx c))%nat.
Proof.
  assert (forall A (l : list A) i, aget l i <> Err OutOfFuel) as Hg
    by (intros A l i; unfold aget, from_opt; repeat case_match; congruence).
  assert (forall A (l : list A) i x, aset l i x <> Err OutOfFuel) as Hs
    by (intros A l i x; unfold aset; case_match; congruence).
  revert c. induction n as [|n IH]; intros c; cbn [parse_line_loop]; case_decide as Hlt; try done.
  { intros _. lia. }
  intros H.
  repeat (first
    [ match type of H with aget ?l ?i ≫= _ = _ =>
        pose proof (Hg _ l i); destruct (aget l i) as [?|[]]; cbn [mbind res_bind] in H end
    | match type of H with aset ?l ?i ?x ≫= _ = _ =>
        pose proof (Hs _ l i x); destruct (aset l i x) as [?|[]]; cbn [mbind res_bind] in H end
    | case_decide ]; try done).
  apply IH in H. cbn in H. lia.
Qed.

(** [never_fuel m]: [m] does not run out of fuel. *)
Definition fueled {A} (m : res A) : Prop := m <> Err OutOfFuel.

Lemma fueled_bind {A B} (m : res A) (k : A -> res B) :
  fueled m -> (forall x, m = Ok x -> fueled (k x)) -> fueled (m ≫= k).
Proof. unfold fueled. destruct m as [x|f]; cbn; [auto|]. congruence. Qed.
Lemma fueled_Ok {A} (x : A) : fueled (Ok x).
Proof. done. Qed.
Lemma fueled_aget {A} (l : list A) i : fueled (aget l i).
Proof. unfold fueled, aget, from_opt. repeat case_match; congruence. Qed.
Lemma fueled_aset {A} (l : list A) i x : fueled (aset l i x).
Proof. unfold fueled, aset. repeat case_match; congruence. Qed.
Lemma fueled_awrite {A} (l : list A) i s : fueled (awrite l i s).
Proof. unfold fueled, awrite. repeat case_match; congruence. Qed.
Lemma fueled_cstr b p : fueled (cstr b p).
Proof. unfold fueled, cstr, from_opt. repeat case_match; congruence. Qed.
Lemma fueled_int_op z : fueled (int_op z).
Proof. unfold fueled, int_op. repeat case_match; congruence. Qed.
Lemma fueled_from_opt {A} f (o : option A) : f <> OutOfFuel -> fueled (from_opt f o).
Proof. unfold fueled. destruct o; cbn; congruence. Qed.

#[export] Hint Resolve fueled_Ok fueled_aget fueled_aset fueled_awrite fueled_cstr fueled_int_op
  : verif.

Ltac fueled_tac :=
  repeat first
    [ solve [eauto with verif]
    | apply fueled_from_opt; discriminate
    | apply fueled_bind; [|intros ? _]
    | case_match ].

Lemma parse_request_line_fueled text c : fueled (parse_request_line text c).
Proof. unfold parse_request_line. fueled_tac. Qed.
Lemma pares_headers_fueled text c : fueled (pares_headers text c).
Proof. unfold pares_headers. fueled_tac. Qed.
Lemma pares_content_fueled text c : fueled (pares_content text c).
Proof. unfold pares_content. fueled_tac. Qed.
Lemma do_request_fueled fs c w : fueled (do_request fs c w).
Proof. unfold do_request. fueled_tac. Qed.
Lemma parse_line_fueled c : fueled (parse_line c).
Proof. intros H. apply parse_line_fuel in H. lia. Qed.
#[export] Hint Resolve parse_request_line_fueled pares_headers_fueled pares_content_fueled
  do_request_fueled parse_line_fueled : verif.

Lemma pr_step_fueled fs w c st : fueled (pr_step fs w c st).
Proof. unfold pr_step, pr_body. fueled_tac. Qed.

(** Open every bind and case of a computation that returned. *)
Ltac run_inv H :=
  repeat first
    [ apply bind_ok_inv in H; let x := fresh "x" in let E := fresh "E" in
      destruct H as (x & E & H)
    | match type of H with (match ?m with _ => _ end) = Ok _ => destruct m eqn:?; try discriminate H end ].

(** The part of a connection that the parsers do not look at. *)
Definition wside (c : http_conn) := (m_sockfd c, m_write_buf c, m_write_idx c, m_iv c).

(** What the parsers leave alone; they only write NULs. *)
Record same_idx (c c' : http_conn) : Prop := {
  same_read : m_read_idx c' = m_read_idx c;
  same_checked : m_checked_idx c' = m_checked_idx c;
  same_start : m_start_line c' = m_start_line c;
  same_real_file : m_real_file c' = m_real_file c;
  same_wside : wside c' = wside c;
  same_buf : erased (m_read_buf c) (m_read_buf c') }.

Lemma same_idx_refl c : same_idx c c.
Proof. split; try done. apply erased_refl. Qed.

Ltac frame_split :=
  split; [split; match goal with H : _ |- _ => exact H | _ => reflexivity end|auto].
Ltac frame_done := simplify_eq; split; [first [assumption | split; try done; apply erased_refl]|auto].

Lemma parse_request_line_frame text c c' ret :
  parse_request_line text c = Ok (c', ret) -> same_idx c c' /\
    (ret = BAD_REQUEST \/ ret = NO_REQUEST /\ m_check_state c' = CHECK_STATE_HEADER).
Proof.
  unfold parse_request_line. intros H. apply bind_ok_inv in H as (s & _ & H).
  destruct (strpbrk s blanks); [|frame_done]. cbv zeta in H.
  apply bind_ok_inv in H as (buf & E1 & H). apply bind_ok_inv in H as (m & _ & H).
  apply erased_aset in E1 as [E1 _].
  destruct (negb _); [injection H as <- <-; frame_split|].
  apply bind_ok_inv in H as (s1 & _ & H). apply bind_ok_inv in H as (s2 & _ & H).
  destruct (strpbrk s2 blanks); [|injection H as <- <-; frame_split].
  apply bind_ok_inv in H as (buf' & E2 & H). apply bind_ok_inv in H as (s3 & _ & H).
  apply erased_aset in E2 as [E2 _]. cbn in E2. pose proof (erased_trans _ _ _ E1 E2) as E3.
  apply bind_ok_inv in H as (s4 & _ & H).
  destruct (negb _); [injection H as <- <-; frame_split|].
  apply bind_ok_inv in H as (u & _ & H). apply bind_ok_inv in H as (c2 & E & H).
  assert (same_idx c c2) as [].
  { destruct (strncaseeq u _ _); [apply bind_ok_inv in E as (v & _ & E)|]; by injection E as <-. }
  destruct (m_url c2); [|injection H as <- <-; frame_split].
  apply bind_ok_inv in H as (ch & _ & H). case_decide; injection H as <- <-; frame_split.
Qed.

Lemma pares_headers_frame text c c' ret :
  pares_headers text c = Ok (c', ret) -> same_idx c c' /\ m_url c' = m_url c /\
    (ret = NO_REQUEST \/ ret = GET_REQUEST).
Proof.
  unfold pares_headers. intros H. run_inv H; simplify_eq;
    try (split_ands; [split; try done; apply erased_refl|done|by auto]).
  case_match; (split_ands; [split; try done; apply erased_refl|done|by auto]).
Qed.

Lemma pares_content_frame text c c' ret :
  pares_content text c = Ok (c', ret) -> same_idx c c' /\ m_url c' = m_url c /\
    (ret = NO_REQUEST /\ c' = c \/ ret = GET_REQUEST).
Proof.
  unfold pares_content. intros H. run_inv H; simplify_eq;
    (split_ands; [split; try done; try apply erased_refl|done|by auto]).
  by eapply erased_aset.
Qed.

Lemma do_request_frame fs c w c' w' ret :
  do_request fs c w = Ok (c', w', ret) ->
  (ret = NO_RESOURCE \/ ret = FORBIDDEN_REQUEST \/ ret = BAD_REQUEST \/ ret = FILE_REQUEST) /\
  wside c' = wside c /\ (w' = w \/ exists path, w' = emit (Close (fs_open fs path)) w).
Proof. unfold do_request. intros H. run_inv H; simplify_eq; split_ands; eauto. Qed.

(** Each pass of the loop has less to do. *)
Definition pr_measure (c : http_conn) (st : LINE_STATUS) : nat :=
  Z.to_nat (2 * (m_read_idx c - m_checked_idx c)) +
  (if decide (m_check_state c = CHECK_STATE_CONNECT /\ st = LINE_OK) then 1 else 0).

Lemma pr_body_go fs w c st c' st' :
  pr_body fs w c st = Ok (Go c' st') ->
  same_idx (set_start_line (m_checked_idx c) c) c' /\
  match m_check_state c with
  | CHECK_STATE_REQUESTLINE => m_check_state c' = CHECK_STATE_HEADER /\ st' = st
  | CHECK_STATE_HEADER => m_url c' = m_url c /\ st' = st
  | CHECK_STATE_CONNECT => c' = set_start_line (m_checked_idx c) c /\ st' = LINE_OPEN
  end.
Proof.
  unfold pr_body. intros H. cbn [m_check_state set_start_line] in H.
  destruct (m_check_state c) eqn:Es;
    apply bind_ok_inv in H as ([c1 ret] & E & H).
  - apply parse_request_line_frame in E as (? & Hst).
    case_decide; simplify_eq. naive_solver.
  - apply pares_headers_frame in E as (? & ? & ?).
    repeat case_decide; simplify_eq; [|by auto].
    by apply bind_ok_inv in H as ([[c2 w2] r2] & _ & [=]).
  - apply pares_content_frame in E as (? & ? & ?).
    repeat case_decide; simplify_eq; [|naive_solver].
    by apply bind_ok_inv in H as ([[c2 w2] r2] & _ & [=]).
Qed.

Lemma pr_step_go fs w c st c' st' :
  pr_step fs w c st = Ok (Go c' st') -> (pr_measure c' st' < pr_measure c st)%nat.
Proof.
  unfold pr_step. intros H. unfold pr_measure at 2. case_decide as Hd.
  - destruct Hd as [Hs ->]. apply pr_body_go in H as ([H1 H2 _ _ _ _] & H3). rewrite Hs in H3.
    unfold pr_measure. rewrite H1, H2, decide_False by naive_solver. cbn -[Z.mul]. lia.
  - apply bind_ok_inv in H as ([c1 st1] & E & H).
    apply parse_line_loop_frame in E as (k & b & -> & _ & _ & Hok).
    case_decide; [|done]. subst st1. destruct (Hok eq_refl) as [? _].
    apply pr_body_go in H as ([H1 H2 _ _ _ _] & _). unfold pr_measure. rewrite H1, H2. cbn -[Z.mul].
    case_decide; lia.
Qed.

Lemma pr_loop_enough fs w n c st :
  (pr_measure c st < n)%nat ->
  fueled (pr_loop n fs w c st) /\ forall m, (n <= m)%nat -> pr_loop m fs w c st = pr_loop n fs w c st.
Proof.
  revert c st. induction n as [|n IH]; intros c st Hn; [lia|]. split.
  - cbn. apply fueled_bind; [apply pr_step_fueled|]. intros [c' st'|] E; [|done].
    apply pr_step_go in E. apply IH. lia.
  - intros [|m] Hm; [lia|]. cbn. destruct (pr_step fs w c st) as [[c' st'|]|] eqn:E; cbn; try done.
    apply pr_step_go in E. apply IH; lia.
Qed.

Lemma pr_fuel_enough c st : (pr_measure c st < pr_fuel c)%nat.
Proof. unfold pr_measure, pr_fuel. case_decide; lia. Qed.

(** [C12] Termination of the main state machine: whatever the connection
    holds, [process_read]'s loop comes to an end within its bound, and a larger
    bound changes nothing. *)
Theorem process_read_terminates fs w c :
  process_read fs w c <> Err OutOfFuel /\
  forall n, (pr_fuel c <= n)%nat -> pr_loop n fs w c LINE_OK = process_read fs w c.
Proof. apply pr_loop_enough, pr_fuel_enough. Qed.

(** ** The input may arrive in pieces (process_read) *)

(** The line that the next pass of the body looks at is complete. *)
Definition terminated (c : http_conn) : Prop :=
  exists k, m_start_line c <= Z.of_nat k < m_checked_idx c /\ m_read_buf c !! k = Some NUL.

Lemma nul_split l i :
  l !! i = Some NUL -> exists line post, l = line ++ NUL :: post /\ NUL ∉ line /\ (length line <= i)%nat.
Proof.
  revert i. induction l as [|x l IH]; intros i Hi; [done|].
  destruct (decide (x = NUL)) as [->|Hx].
  { exists [], l. split_ands; [done|set_solver|cbn; lia]. }
  destruct i as [|i]; [cbn in Hi; congruence|].
  destruct (IH i Hi) as (line & post & -> & Hn & Hlen).
  exists (x :: line), post. split_ands; [done|set_solver|cbn; lia].
Qed.

Lemma terminated_split c :
  terminated c -> 0 <= m_start_line c ->
  exists pre line post, m_read_buf c = pre ++ line ++ NUL :: post /\ NUL ∉ line /\
    m_start_line c = Z.of_nat (length pre) /\
    Z.of_nat (length pre + length line) < m_checked_idx c.
Proof.
  intros (k & Hk & Hl) Hs. set (s := Z.to_nat (m_start_line c)).
  assert (drop s (m_read_buf c) !! (k - s)%nat = Some NUL) as Hd
    by (rewrite lookup_drop; replace (s + (k - s))%nat with k by lia; done).
  apply nul_split in Hd as (line & post & E & Hn & Hlen).
  apply lookup_lt_Some in Hl.
  exists (take s (m_read_buf c)), line, post. split_ands.
  - by rewrite <- E, take_drop.
  - done.
  - rewrite length_take. lia.
  - rewrite length_take. lia.
Qed.

Definition overwrite (k : nat) (d post : bytes) : bytes := take k post ++ d ++ drop (k + length d) post.

(** Data that is received lands after everything before [m_read_idx]. *)
Lemma received_after c A post d :
  m_read_buf c = A ++ post -> Z.of_nat (length A) <= m_read_idx c ->
  m_read_buf (received d c) = A ++ overwrite (Z.to_nat (m_read_idx c) - length A) d post.
Proof.
  intros Hb HA. unfold received, overwrite. cbn [m_read_buf set_read_idx set_read_buf]. rewrite Hb.
  set (r := Z.to_nat (m_read_idx c)).
  rewrite take_app, take_ge, <- app_assoc by lia. do 3 f_equal.
  rewrite drop_app, drop_ge by lia. cbn [app]. f_equal. lia.
Qed.

Lemma request_line_unique line p p' : request_line line p -> request_line line p' -> p = p'.
Proof.
  intros Hp Hp'. pose proof (rl_line _ _ Hp') as E.
  assert (forall x, head (rp_target p' ++ rp_b2 p' :: rp_ws2 p' ++ rp_version p') = Some x ->
            x ∉ blanks) as Hhd.
  { intros x Hx. pose proof (rl_target_ne _ _ Hp'). pose proof (rl_target_nb _ _ Hp') as Hf.
    destruct (rp_target p') as [|y l]; [done|]. cbn in Hx. injection Hx as ->. by inversion Hf. }
  destruct (request_line_pieces _ _ _ _ _ _ Hp E (rl_method_nb _ _ Hp') (rl_b1 _ _ Hp')
    (rl_ws1 _ _ Hp') Hhd) as (H1 & H2 & H3 & H4).
  destruct (cons_split_unique is_blank _ _ _ _ _ _ (rl_target_nb _ _ Hp') (rl_target_nb _ _ Hp)
    (rl_b2 _ _ Hp') (rl_b2 _ _ Hp) H2) as (H5 & H6 & H7).
  destruct (prefix_unique is_blank _ _ _ _ (rl_ws2 _ _ Hp') (rl_ws2 _ _ Hp)
    (rl_version_nb _ _ Hp') (rl_version_nb _ _ Hp) H7) as (H8 & H9).
  pose proof (rl_path _ _ Hp). pose proof (rl_path _ _ Hp') as Hq. rewrite H5 in Hq.
  destruct p, p'; cbn in *. by simplify_eq.
Qed.

Lemma header_effect_received text line d c :
  header_effect text line (received d c) =
  (received d (fst (header_effect text line c)), snd (header_effect text line c)).
Proof. unfold header_effect. destruct line; repeat case_match; done. Qed.

Lemma received_def d c :
  received d c =
  set_read_idx (m_read_idx c + Z.of_nat (length d)) (set_read_buf (m_read_buf (received d c)) c).
Proof. reflexivity. Qed.

Lemma accepted_commute i b s u v g b' c b'' :
  set_check_state s (set_url u (set_version v (set_method g (set_read_buf b
    (set_read_idx i (set_read_buf b'' c)))))) =
  set_read_idx i (set_read_buf b (set_check_state s (set_url u (set_version v (set_method g
    (set_read_buf b' c)))))).
Proof. reflexivity. Qed.

(** The assignments of an accepted line and those of a [recv] commute. *)
Lemma accepted_received pre line post p c d :
  request_line line p ->
  Z.of_nat (length (pre ++ line ++ [NUL])) <= m_read_idx c ->
  received d (accepted pre post p c) =
  accepted pre (overwrite (Z.to_nat (m_read_idx c) - length (pre ++ line ++ [NUL])) d post) p
    (received d c).
Proof.
  intros Hp%rl_line Hle. set (A := pre ++ rp_method p ++ NUL :: rp_ws1 p ++ rp_target p ++ NUL ::
                             rp_ws2 p ++ rp_version p ++ [NUL]).
  assert (length (pre ++ line ++ [NUL]) = length A) as Hlen by (rewrite Hp; subst A; len_eq).
  rewrite Hlen in *.
  set (o := overwrite _ d post).
  rewrite received_def, (received_after (accepted pre post p c) A post);
    [|subst A; cbn [m_read_buf accepted set_check_state set_url set_version set_method set_read_buf];
      layout_eq|done].
  change (m_read_idx (accepted pre post p c)) with (m_read_idx c). fold o.
  assert (A ++ o = pre ++ rp_method p ++ NUL :: rp_ws1 p ++ rp_target p ++ NUL :: rp_ws2 p ++
                   rp_version p ++ NUL :: o) as -> by (subst A; layout_eq).
  unfold accepted, received. symmetry. apply accepted_commute.
Qed.

Lemma pr_body_received fs w c st c' st' d :
  0 <= m_start_line c <= m_checked_idx c -> m_checked_idx c <= m_read_idx c ->
  terminated c -> fits d c -> m_check_state c <> CHECK_STATE_CONNECT ->
  pr_body fs w c st = Ok (Go c' st') ->
  pr_body fs w (received d c) st = Ok (Go (received d c') st').
Proof.
  intros Hs Hc Ht Hd Hst H.
  destruct (terminated_split c Ht) as (pre & line & post & Hb & Hn & Hpre & Hlen); [lia|].
  assert (m_read_buf (received d c) =
            pre ++ line ++ NUL :: overwrite (Z.to_nat (m_read_idx c) - length (pre ++ line ++ [NUL]))
              d post) as Hbd.
  { rewrite (received_after c (pre ++ line ++ [NUL]) post).
    - layout_eq.
    - rewrite Hb. layout_eq.
    - len_eq. }
  set (c0 := set_start_line (m_checked_idx c) c) in *.
  change (m_read_buf c) with (m_read_buf c0) in Hb.
  change (m_read_buf (received d c)) with (m_read_buf (received d c0)) in Hbd.
  unfold pr_body in *. cbn [m_check_state set_start_line received set_read_idx set_read_buf].
  change (set_start_line (m_checked_idx (received d c)) (received d c)) with (received d c0).
  change (m_start_line (received d c)) with (m_start_line c).
  change (m_check_state (received d c0)) with (m_check_state c).
  fold c0 in H. change (m_check_state c0) with (m_check_state c) in H. rewrite Hpre in *.
  destruct (m_check_state c); [..|done].
  - destruct (parse_request_line_cases c0 pre line post Hb Hn) as (c1 & ret & E & Hcases).
    rewrite (bind_ok _ _ _ E) in H. case_decide; [done|]. injection H as <- <-.
    destruct Hcases as [[? _]|(-> & p & Hp & ->)]; [done|].
    destruct (parse_request_line_cases _ pre line _ Hbd Hn) as (c2 & ret & E2 & Hcases).
    rewrite (bind_ok _ _ _ E2).
    destruct Hcases as [[_ Hno]|(-> & p' & Hp' & ->)]; [by destruct (Hno p)|].
    rewrite decide_False by done. rewrite (request_line_unique _ _ _ Hp' Hp). do 2 f_equal.
    symmetry. apply (accepted_received pre line post p c0 d Hp).
    change (m_read_idx c0) with (m_read_idx c). len_eq.
  - rewrite (pares_headers_effect _ _ _ _ Hb Hn) in H.
    rewrite (pares_headers_effect _ _ _ _ Hbd Hn), header_effect_received.
    destruct (header_effect _ _ c0) as [c1 ret]. cbn [mbind res_bind fst snd] in *.
    repeat case_decide; simplify_eq; [by destruct (do_request _ _ _) as [[[]]|]|done].
Qed.

(** A complete line has just been found. *)
Lemma parse_line_ok_terminated c c' :
  0 <= m_start_line c <= m_checked_idx c -> parse_line c = Ok (c', LINE_OK) ->
  terminated c' /\ m_start_line c' = m_start_line c /\ m_check_state c' = m_check_state c.
Proof.
  intros Hs H. apply parse_line_loop_frame in H as (k & b & -> & _ & _ & Hok).
  destruct (Hok eq_refl) as [Hk Hn]. split_ands; [|done..].
  exists (Z.to_nat (k - 1)). cbn. split; [lia|done].
Qed.

Lemma same_idx_pwf c c' : pwf c -> same_idx (set_start_line (m_checked_idx c) c) c' -> pwf c'.
Proof.
  intros [[H1 H2] H3] [Hr Hc Hs _ _ Hb]. cbn in *. split.
  - rewrite Hs, Hr, Hc, (proj1 Hb). lia.
  - rewrite Hc. intros Hpos Hcr. apply (H3 Hpos). by eapply erased_not_nul.
Qed.

Lemma fits_same d c c' :
  m_read_idx c' = m_read_idx c -> erased (m_read_buf c) (m_read_buf c') -> fits d c -> fits d c'.
Proof. intros Hr [Hl _]. unfold fits. by rewrite Hr, Hl. Qed.

Lemma parse_line_fits c c' st d : parse_line c = Ok (c', st) -> fits d c -> fits d c'.
Proof.
  intros H. apply parse_line_loop_frame in H as (k & b & -> & He & _). by apply fits_same.
Qed.

(** Once the body is being read, the state does not change any more. *)
Lemma pr_loop_content n fs w c st c' w' :
  m_check_state c = CHECK_STATE_CONNECT -> pr_loop n fs w c st = Ok (c', w', NO_REQUEST) ->
  m_check_state c' = CHECK_STATE_CONNECT.
Proof.
  revert c st. induction n as [|n IH]; intros c st Hs H; [done|].
  cbn in H. apply bind_ok_inv in H as (r & E & H).
  assert (match r with
          | Go c1 _ => m_check_state c1 = CHECK_STATE_CONNECT
          | Return c1 _ ret => ret = NO_REQUEST -> m_check_state c1 = CHECK_STATE_CONNECT end) as Hr.
  2:{ destruct r as [c1 st1|c1 w1 ret]; [by eapply IH|]. simplify_eq. by apply Hr. }
  assert (forall c st r, m_check_state c = CHECK_STATE_CONNECT -> pr_body fs w c st = Ok r ->
          match r with
          | Go c1 _ => m_check_state c1 = CHECK_STATE_CONNECT
          | Return c1 _ ret => ret <> NO_REQUEST end) as Hbody.
  { clear. intros c st r Hs E. destruct r as [c1 st1|c1 w1 ret].
    - apply pr_body_go in E as (_ & H). rewrite Hs in H. by destruct H as [-> _].
    - unfold pr_body in E. cbn [m_check_state set_start_line] in E. rewrite Hs in E.
      apply bind_ok_inv in E as ([c2 r2] & _ & E). case_decide; [|done].
      apply bind_ok_inv in E as ([[c3 w3] r3] & E3 & E). apply do_request_frame in E3 as [E3 _].
      simplify_eq. naive_solver congruence. }
  unfold pr_step in E. case_decide.
  - apply Hbody in E; [|done]. by destruct r.
  - apply bind_ok_inv in E as ([c1 st1] & E1 & E).
    apply parse_line_loop_frame in E1 as (k & b & -> & _). case_decide.
    + apply Hbody in E; [|done]. by destruct r.
    + simplify_eq. done.
Qed.

Lemma pr_body_header fs w c st c1 w1 :
  m_check_state c <> CHECK_STATE_CONNECT -> pr_body fs w c st <> Ok (Return c1 w1 NO_REQUEST).
Proof.
  intros Hs E. unfold pr_body in E. cbn [m_check_state set_start_line] in E.
  destruct (m_check_state c); [..|done]; apply bind_ok_inv in E as ([c2 r2] & _ & E);
    repeat case_decide; simplify_eq.
  apply bind_ok_inv in E as ([[c3 w3] r3] & E3 & E). apply do_request_frame in E3 as [E3 _].
  simplify_eq. naive_solver congruence.
Qed.

Lemma pr_loop_received n fs w c c' w' d :
  pwf c -> fits d c -> m_check_state c' <> CHECK_STATE_CONNECT ->
  m_check_state c <> CHECK_STATE_CONNECT ->
  pr_loop n fs w c LINE_OK = Ok (c', w', NO_REQUEST) ->
  w' = w /\ pwf c' /\ fits d c' /\
  forall m, exists m', (m <= m')%nat /\
    pr_loop m' fs w (received d c) LINE_OK = pr_loop m fs w (received d c') LINE_OK.
Proof.
  intros Hwf Hd Hs'. revert c Hwf Hd. induction n as [|n IH]; intros c Hwf Hd Hs H; [done|].
  cbn in H. apply bind_ok_inv in H as (r & E & H).
  destruct (parse_line_received c d Hwf Hd) as (c1 & st & Ep & Hwf1 & Hst).
  pose proof (parse_line_fits _ _ _ _ Ep Hd) as Hd1.
  unfold pr_step in E. rewrite decide_False in E by naive_solver.
  rewrite Ep in E. cbn [mbind res_bind] in E.
  assert (m_check_state c1 = m_check_state c) as Hs1
    by (by apply parse_line_loop_frame in Ep as (? & ? & -> & _)).
  case_decide as Hok.
  - subst st. destruct r as [c2 st2|c2 w2 ret].
    2:{ simplify_eq. exfalso. eapply pr_body_header; [|exact E]. congruence. }
    destruct (decide (m_check_state c2 = CHECK_STATE_CONNECT)) as [Hc2|Hc2].
    { exfalso. apply Hs'. eapply pr_loop_content; [exact Hc2|exact H]. }
    pose proof (pwf_idx _ Hwf) as [Hi _]. pose proof (pwf_idx _ Hwf1) as [Hi1 Hr1].
    destruct (parse_line_ok_terminated _ _ Hi Ep) as (Ht & _).
    apply pr_body_go in E as Hgo. destruct Hgo as [Hsame Hcase]. rewrite Hs1 in Hcase.
    assert (st2 = LINE_OK) as -> by (destruct (m_check_state c); naive_solver).
    apply pr_body_received with (d := d) in E; [|done|lia|done|done|congruence].
    assert (fits d c2) as Hd2 by (eapply fits_same; [apply Hsame|apply Hsame|done]).
    destruct (IH c2) as (-> & Hwf' & Hd' & Hm); [by eapply same_idx_pwf|done..|].
    split_ands; [done..|]. intros m. destruct (Hm m) as (m' & Hle & Heq).
    exists (S m'). split; [lia|]. rewrite <- Heq. cbn [pr_loop]. unfold pr_step at 1.
    rewrite decide_False by naive_solver. rewrite Hst. cbn [mbind res_bind].
    rewrite decide_True by done. by rewrite E.
  - simplify_eq. split_ands; [done..|]. intros m. exists m. split; [done|].
    destruct m as [|m]; [done|]. cbn [pr_loop]. unfold pr_step.
    rewrite !decide_False by naive_solver. destruct st; [done|..]; by rewrite Hst.
Qed.

Lemma process_read_goes_on fs w c c' w' d :
  pwf c -> fits d c -> m_check_state c <> CHECK_STATE_CONNECT ->
  process_read fs w c = Ok (c', w', NO_REQUEST) -> m_check_state c' <> CHECK_STATE_CONNECT ->
  process_read fs w (received d c) = process_read fs w' (received d c').
Proof.
  intros Hwf Hd Hs H Hs'.
  destruct (pr_loop_received _ _ _ _ _ _ d Hwf Hd Hs' Hs H) as (-> & _ & _ & Hm).
  destruct (pr_loop_enough fs w (pr_fuel (received d c)) (received d c) LINE_OK
    (pr_fuel_enough _ _)) as [_ Ha].
  destruct (pr_loop_enough fs w (pr_fuel (received d c')) (received d c') LINE_OK
    (pr_fuel_enough _ _)) as [_ Hb].
  destruct (Hm (pr_fuel (received d c) + pr_fuel (received d c'))%nat) as (m' & Hle & Heq).
  unfold process_read. rewrite <- (Ha m' ltac:(lia)).
  rewrite <- (Hb (pr_fuel (received d c) + pr_fuel (received d c'))%nat ltac:(lia)).
  exact Heq.
Qed.

(** [C2] The request may be cut into pieces anywhere: if the state machine has
    stopped for lack of data, before the end of the headers, going on after [d]
    has arrived gives exactly what one pass over the whole input gives. *)
Theorem process_read_resumes fs w c c' w' d :
  pwf c -> fits d c -> m_check_state c <> CHECK_STATE_CONNECT ->
  process_read fs w c = Ok (c', w', NO_REQUEST) -> m_check_state c' <> CHECK_STATE_CONNECT ->
  process_read fs w (received d c) = process_read fs w' (received d c').
Proof. apply process_read_goes_on. Qed.

(** ** Memory safety (process_read) *)

(** [m_url] is a string in the checked part of the buffer. *)
Definition url_ok (c : http_conn) : Prop :=
  exists u k, m_url c = Some u /\ 0 <= u <= Z.of_nat k /\ Z.of_nat k < m_checked_idx c /\
    m_read_buf c !! k = Some NUL.

(** The connections that [init] and [read] produce and the parsers keep. *)
Record hwf (c : http_conn) : Prop := {
  hwf_pwf : pwf c;
  hwf_buf : length (m_read_buf c) = Z.to_nat READ_BUFFER_SIZE;
  hwf_file : length (m_real_file c) = Z.to_nat FILENAME_LEN;
  hwf_file_nul : m_real_file c !! 199%nat = Some NUL;
  hwf_url : m_check_state c <> CHECK_STATE_REQUESTLINE -> url_ok c }.

Lemma cstr_total b p k :
  0 <= p <= Z.of_nat k -> b !! k = Some NUL -> exists s, cstr b p = Ok s /\ NUL ∉ s.
Proof.
  intros Hp Hk. unfold cstr. rewrite decide_True by lia.
  assert (drop (Z.to_nat p) b !! (k - Z.to_nat p)%nat = Some NUL) as Hd
    by (rewrite lookup_drop; replace (_ + _)%nat with k by lia; done).
  apply nul_split in Hd as (line & post & E & Hn & _).
  exists line. by rewrite E, upto_nul_app.
Qed.

Lemma strncpy_length s n : length (strncpy s n) = n.
Proof. unfold strncpy. rewrite length_app, length_take, length_replicate. lia. Qed.

(** The file name that [do_request] builds from a URL. *)
Definition real_file (url : bytes) : bytes := doc_root ++ take 198 url.

Lemma real_file_built file url :
  length file = Z.to_nat FILENAME_LEN -> file !! 199%nat = Some NUL -> NUL ∉ url ->
  exists file1 file2,
    awrite file 0 (doc_root ++ [NUL]) = Ok file1 /\
    awrite file1 1 (strncpy url 198) = Ok file2 /\ cstr file2 0 = Ok (real_file url).
Proof.
  intros Hlen Hnul Hurl. change (Z.to_nat FILENAME_LEN) with 200%nat in Hlen.
  assert (exists a b mid, length mid = 197%nat /\ file = [a; b] ++ mid ++ [NUL])
    as (a & b & mid & Hmid & ->).
  { destruct file as [|a [|b file]]; [discriminate Hlen..|]. cbn in Hlen, Hnul.
    exists a, b, (take 197 file). rewrite length_take. split; [lia|]. cbn [app].
    do 2 f_equal. rewrite <- (take_drop 197 file) at 1. f_equal.
    apply list_eq. intros [|i]; rewrite lookup_drop; [done|]. cbn. rewrite lookup_ge_None. lia. }
  exists ((doc_root ++ [NUL]) ++ mid ++ [NUL]), (doc_root ++ strncpy url 198 ++ [NUL]).
  split; [by apply (awrite_at [] [a; b])|]. split.
  { apply (awrite_at doc_root (NUL :: mid) [NUL]); [done|]. rewrite strncpy_length. cbn. lia. }
  unfold real_file, strncpy.
  assert (NUL ∉ doc_root ++ take 198 url) as Hn.
  { rewrite elem_of_app. intros [Hin|Hin]; [by apply list_elem_of_singleton in Hin|].
    apply Hurl. rewrite <- (take_drop 198 url). set_solver. }
  destruct (198 - length url)%nat as [|m].
  - apply (cstr_at _ _ [] _ []); [|done|done]. cbn [replicate]. by rewrite app_nil_r, <- app_assoc.
  - apply (cstr_at _ _ [] _ (replicate m NUL ++ [NUL])); [|done|done].
    cbn [replicate app]. by rewrite <- !app_assoc.
Qed.

(** The answer to a request for the file [path]. *)
Definition answer (fs : fsys) (path : bytes) : HTTP_CODE :=
  match fs_stat fs path with
  | None => NO_RESOURCE
  | Some st =>
      if decide (Z.land (st_mode st) S_IROTH = 0) then FORBIDDEN_REQUEST
      else if decide (Z.land (st_mode st) S_IFMT = S_IFDIR) then BAD_REQUEST
      else FILE_REQUEST
  end.

Lemma do_request_answer fs c w u url :
  length (m_real_file c) = Z.to_nat FILENAME_LEN -> m_real_file c !! 199%nat = Some NUL ->
  m_url c = Some u -> cstr (m_read_buf c) u = Ok url -> NUL ∉ url ->
  exists c', do_request fs c w =
    Ok (c', match answer fs (real_file url) with
            | FILE_REQUEST => emit (Close (fs_open fs (real_file url))) w
            | _ => w
            end, answer fs (real_file url)) /\
    m_linger c' = m_linger c /\ wside c' = wside c /\
    match fs_stat fs (real_file url) with
    | Some st => m_file_stat c' = Some st
    | None => m_file_stat c' = m_file_stat c
    end /\
    m_file_address c' =
      match answer fs (real_file url), fs_stat fs (real_file url) with
      | FILE_REQUEST, Some st => Some (fs_mmap fs (fs_open fs (real_file url)) (st_size st))
      | _, _ => m_file_address c
      end.
Proof.
  intros Hlen Hnul Hu Hurl Hn. unfold do_request.
  destruct (real_file_built _ _ Hlen Hnul Hn) as (f1 & f2 & E1 & E2 & E3).
  rewrite (bind_ok _ _ _ E1), Hu. cbn [mbind res_bind from_opt].
  rewrite (bind_ok _ _ _ Hurl).
  change (awrite f1 _ _) with (awrite f1 1 (strncpy url 198)). rewrite (bind_ok _ _ _ E2).
  cbn [m_real_file set_real_file]. rewrite (bind_ok _ _ _ E3). unfold answer.
  destruct (fs_stat fs (real_file url)) as [st|]; [|eexists; by split_ands].
  repeat case_decide; eexists; by split_ands.
Qed.

(** The lengths that [pares_content] does not handle. *)
Definition bad_length (c : http_conn) : Prop :=
  m_content_lenght c < 0 \/ INT_MAX - READ_BUFFER_SIZE < m_content_lenght c \/
  m_read_idx c = READ_BUFFER_SIZE.

Lemma url_ok_same c c' :
  same_idx (set_start_line (m_checked_idx c) c) c' -> m_url c' = m_url c -> url_ok c -> url_ok c'.
Proof.
  intros [_ Hc _ _ _ Hb] Hu (u & k & H1 & H2 & H3 & H4). exists u, k. cbn in *.
  rewrite Hu, Hc. split_ands; [done|lia|lia|lia|]. by eapply erased_nul.
Qed.

Lemma hwf_same c c' :
  hwf c -> same_idx (set_start_line (m_checked_idx c) c) c' ->
  (m_check_state c' <> CHECK_STATE_REQUESTLINE -> url_ok c') -> hwf c'.
Proof.
  intros [Hp Hb Hf Hn _] Hs Hu. pose proof Hs as [_ _ _ Hrf _ [Hl _]]. cbn in *.
  split; [by eapply same_idx_pwf|congruence..|done].
Qed.

Lemma do_request_returns fs c w :
  length (m_real_file c) = Z.to_nat FILENAME_LEN -> m_real_file c !! 199%nat = Some NUL ->
  url_ok c -> exists r, do_request fs c w = Ok r.
Proof.
  intros Hl Hn (u & k & Hu & Hk1 & Hk2 & Hk3).
  destruct (cstr_total _ _ _ Hk1 Hk3) as (s & Hs & Hns).
  destruct (do_request_answer fs c w u s Hl Hn Hu Hs Hns) as (c' & E & _). eauto.
Qed.

Ltac returns := eexists; split; [reflexivity|cbn; auto].

(** The URL of an accepted request line ends before the byte to be checked next. *)
Lemma accepted_url_ok pre post p line c :
  request_line line p -> Z.of_nat (length pre + length line) < m_checked_idx c ->
  url_ok (accepted pre post p c).
Proof.
  intros Hpp Hlt. pose proof (path_offset_lookup _ _ (rl_path _ _ Hpp)) as Hlk. apply lookup_lt_Some in Hlk.
  rewrite (rl_line _ _ Hpp) in Hlt. unfold accepted.
  eexists _, (length pre + length (rp_method p) + 1 + length (rp_ws1 p) + length (rp_target p))%nat.
  cbn [m_url m_checked_idx m_read_buf set_check_state set_url set_version set_method set_read_buf].
  split_ands; [reflexivity|lia|lia|revert Hlt; len_eq|].
  replace (pre ++ rp_method p ++ _) with
    ((pre ++ rp_method p ++ NUL :: rp_ws1 p ++ rp_target p) ++ NUL :: rp_ws2 p ++ rp_version p ++
      NUL :: post) by layout_eq.
  apply list_lookup_middle. len_eq.
Qed.

(** The addition in [pares_content] stays in range, its terminator inside the buffer. *)
Lemma pares_content_total c :
  pwf c -> length (m_read_buf c) = Z.to_nat READ_BUFFER_SIZE -> ~ bad_length c ->
  exists r, pares_content (m_start_line c) (set_start_line (m_checked_idx c) c) = Ok r.
Proof.
  intros Hp Hb Hg. pose proof (pwf_idx _ Hp) as [Hi Hr]. unfold bad_length, INT_MAX in Hg.
  change (Z.to_nat READ_BUFFER_SIZE) with 2048%nat in Hb. change READ_BUFFER_SIZE with 2048 in Hg.
  unfold pares_content. cbn [m_content_lenght m_checked_idx set_start_line m_read_idx m_read_buf].
  rewrite int_op_ok by (unfold int_range, INT_MIN, INT_MAX; lia).
  cbn [mbind res_bind]. case_decide; [|by eexists]. rewrite aset_ok by lia. by eexists.
Qed.

Lemma pr_body_safe fs w c st :
  hwf c -> (m_check_state c <> CHECK_STATE_CONNECT -> terminated c) ->
  (m_check_state c = CHECK_STATE_CONNECT -> ~ bad_length c) ->
  exists r, pr_body fs w c st = Ok r /\ match r with Go c' _ => hwf c' | _ => True end.
Proof.
  intros Hw Ht Hg. pose proof Hw as [Hp Hb Hf Hn Hu]. pose proof (pwf_idx _ Hp) as [Hi Hr].
  enough (exists r, pr_body fs w c st = Ok r /\
            match r with Go c' _ => m_check_state c' <> CHECK_STATE_REQUESTLINE -> url_ok c'
            | _ => True end) as (r & E & H).
  { exists r. split; [done|]. destruct r as [c' st'|]; [|done].
    apply pr_body_go in E as [Hs _]. by eapply hwf_same. }
  unfold pr_body. cbn [m_check_state set_start_line].
  destruct (m_check_state c) eqn:Es.
  - destruct (terminated_split c) as (pre & line & post & E & Hnl & -> & Hlt); [by apply Ht|lia|].
    destruct (parse_request_line_cases (set_start_line (m_checked_idx c) c) pre line post E Hnl)
      as (c' & ret & Ep & Hcase).
    rewrite (bind_ok _ _ _ Ep). destruct Hcase as [[-> _]|(-> & p & Hpp & ->)].
    { rewrite decide_True by done. returns. }
    rewrite decide_False by done. eexists; split; [done|]. intros _.
    by apply (accepted_url_ok _ _ _ _ _ Hpp).
  - destruct (terminated_split c) as (pre & line & post & E & Hnl & -> & Hlt); [by apply Ht|lia|].
    assert (url_ok c) as Huc by (by apply Hu).
    pose proof (pares_headers_effect (set_start_line (m_checked_idx c) c) _ _ _ E Hnl) as Ep.
    rewrite (bind_ok _ _ _ Ep). destruct (header_effect _ _ _) as [c' ret] eqn:Eh.
    apply pares_headers_frame in Ep as (Hs & Hus & Hret).
    assert (url_ok c') as Hu' by by eapply url_ok_same.
    rewrite decide_False by naive_solver congruence. case_decide; [|by returns].
    destruct (do_request_returns fs c' w) as [[[c2 w2] r2] E2]; [..|done|].
    1,2: by rewrite (same_real_file _ _ Hs).
    rewrite (bind_ok _ _ _ E2). by returns.
  - assert (url_ok c) as Huc by (by apply Hu).
    destruct (pares_content_total c Hp Hb (Hg eq_refl)) as [[c' ret] Ep]. rewrite Ep.
    apply pares_content_frame in Ep as (Hs & Hus & Hret).
    assert (url_ok c') as Hu' by by eapply url_ok_same.
    cbn [mbind res_bind]. case_decide; [|by returns].
    destruct (do_request_returns fs c' w) as [[[c2 w2] r2] E2]; [..|done|].
    1,2: by rewrite (same_real_file _ _ Hs).
    rewrite (bind_ok _ _ _ E2). by returns.
Qed.

Lemma parse_line_hwf c :
  hwf c -> exists c' st, parse_line c = Ok (c', st) /\ hwf c' /\ (st = LINE_OK -> terminated c') /\
    m_check_state c' = m_check_state c /\ m_content_lenght c' = m_content_lenght c /\
    m_read_idx c' = m_read_idx c.
Proof.
  intros [Hp Hb Hf Hn Hu]. pose proof (pwf_idx _ Hp) as [Hi Hr].
  assert (fits [] c) as Hfit by (unfold fits; cbn; lia).
  destruct (parse_line_received c [] Hp Hfit) as (c' & st & E & Hp' & _).
  exists c', st. split; [done|]. split.
  2:{ split; [intros ->; by eapply parse_line_ok_terminated|].
      by apply parse_line_loop_frame in E as (k & b & -> & _). }
  apply parse_line_loop_frame in E as (k & b & -> & He & Hk & _).
  split; [done|cbn; rewrite (proj1 He); done|done|done|].
  intros Hst. destruct (Hu Hst) as (u & i & H1 & H2 & H3 & H4).
  exists u, i. cbn. split_ands; [done|lia|lia|lia|by eapply erased_nul].
Qed.

Lemma pr_step_safe fs w c st :
  hwf c -> (exists r, pr_step fs w c st = Ok r /\ match r with Go c' _ => hwf c' | _ => True end) \/
           (m_check_state c = CHECK_STATE_CONNECT /\ bad_length c).
Proof.
  intros Hw. destruct (decide (m_check_state c = CHECK_STATE_CONNECT)) as [Hs|Hs].
  - assert (bad_length c \/ ~ bad_length c) as [?|Hg] by (unfold bad_length; lia); [by right|left].
    unfold pr_step. case_decide.
    + apply pr_body_safe; [done|done|done].
    + destruct (parse_line_hwf c Hw) as (c' & st' & E & Hw' & Ht & Hs' & Hcl & Hr).
      rewrite (bind_ok _ _ _ E). case_decide; [|by returns].
      apply pr_body_safe; [done|by auto|]. intros _. unfold bad_length. by rewrite Hcl, Hr.
  - left. unfold pr_step. rewrite decide_False by naive_solver.
    destruct (parse_line_hwf c Hw) as (c' & st' & E & Hw' & Ht & Hs' & _).
    rewrite (bind_ok _ _ _ E). case_decide; [|by returns].
    apply pr_body_safe; [done|by auto|congruence].
Qed.

(** One pass of the loop that goes on. *)
Definition pr_go (fs : fsys) (w : world) (s s' : http_conn * LINE_STATUS) : Prop :=
  pr_step fs w s.1 s.2 = Ok (Go s'.1 s'.2).

Lemma pr_loop_safe n fs w c st :
  (pr_measure c st < n)%nat -> hwf c ->
  (exists r, pr_loop n fs w c st = Ok r) \/
  (exists c1 st1, rtc (pr_go fs w) (c, st) (c1, st1) /\
     m_check_state c1 = CHECK_STATE_CONNECT /\ bad_length c1).
Proof.
  revert c st. induction n as [|n IH]; intros c st Hn Hw; [lia|].
  destruct (pr_step_safe fs w c st Hw) as [(r & E & Hr)|?].
  2:{ right. exists c, st. split; [apply rtc_refl|done]. }
  cbn [pr_loop]. rewrite (bind_ok _ _ _ E). destruct r as [c' st'|c' w' ret]; [|by eauto].
  apply pr_step_go in E as Hm. destruct (IH c' st') as [?|(c1 & st1 & Hrtc & ?)]; [lia|done|by left|].
  right. exists c1, st1. split; [|done]. exact (rtc_l (pr_go fs w) (c, st) (c', st') (c1, st1) E Hrtc).
Qed.

(** [C11] Memory safety of request parsing: on every well-formed connection
    [process_read] either returns or its loop has reached the body with a
    Content-Length that is negative, close to [INT_MAX], or with a full read
    buffer.  No access to the buffers fails otherwise. *)
Theorem process_read_safe fs w c :
  hwf c ->
  (exists r, process_read fs w c = Ok r) \/
  (exists c1 st1, rtc (pr_go fs w) (c, LINE_OK) (c1, st1) /\
     m_check_state c1 = CHECK_STATE_CONNECT /\ bad_length c1).
Proof. apply pr_loop_safe, pr_fuel_enough. Qed.

(** ** Whole requests *)

Lemma cstr_prefix a b u s : cstr a u = Ok s -> cstr (a ++ b) u = Ok s.
Proof.
  intros (Hn & pre & post & -> & ->)%cstr_split. apply cstr_split. split; [done|].
  exists pre, (post ++ b). split; [layout_eq|done].
Qed.

(** The bytes of a list of lines. *)
Definition with_crlf (lines : list bytes) : bytes := mjoin ((fun l => l ++ CRLF) <$> lines).

(** A line as the scanner sees it: no CR, LF or NUL. *)
Definition plain (l : bytes) : Prop := Forall (fun x => x ∉ CRLF) l /\ NUL ∉ l.

Definition keep_alive (h : bytes) : bool :=
  strncaseeq h (lit "Connection:") 11 && strcaseeq (header_value 11 h) (lit "keep-alive").
Definition has_length (h : bytes) : bool :=
  negb (strncaseeq h (lit "Connection:") 11) && strncaseeq h (lit "Content-Length:") 15.

(** One complete line in the unread data. *)
Lemma parse_line_plain c pre line rest tail :
  layout c pre (line ++ CRLF ++ rest) tail -> last pre <> Some CR -> plain line ->
  exists c1, parse_line c = Ok (c1, LINE_OK) /\
    layout c1 (pre ++ line ++ [NUL; NUL]) rest tail /\
    c1 = set_checked_idx (m_checked_idx c1) (set_read_buf (m_read_buf c1) c).
Proof.
  intros Hl Hlast [Hp _]. pose proof (parse_line_result _ _ _ _ Hl Hlast) as E.
  unfold line_result in E. rewrite (proj2 (next_line_ok _ line rest)) in E by done.
  eexists. split; [exact E|]. split; [|done].
  destruct Hl as [Hb Hc Hr]. split; cbn -[Z.of_nat]; [layout_eq|..];
    rewrite ?Hr, ?Hc, ?length_app; cbn; rewrite ?length_app; cbn; lia.
Qed.

Lemma last_nuls (pre line : bytes) : last (pre ++ line ++ [NUL; NUL]) <> Some CR.
Proof. rewrite app_assoc, last_app. cbn. discriminate. Qed.

(** What a header line other than Content-Length changes. *)
Lemma header_effect_plain text h c :
  h <> [] -> has_length h = false ->
  header_effect text h c =
    (set_host (m_host (fst (header_effect text h c)))
      (if keep_alive h then set_linger true c else c), NO_REQUEST).
Proof.
  unfold has_length, keep_alive, header_effect. intros Hne Hl. destruct h as [|x h]; [done|].
  destruct (strncaseeq _ _ 11); cbn [negb andb] in *.
  - by destruct (strcaseeq _ _), c.
  - rewrite Hl. by destruct (strncaseeq _ _ 5), c.
Qed.

(** One header line is consumed. *)
Lemma header_step h fs w n c pre rest tail u url :
  layout c pre (h ++ CRLF ++ rest) tail -> last pre <> Some CR ->
  m_start_line c = m_checked_idx c -> m_check_state c = CHECK_STATE_HEADER ->
  m_url c = Some u -> cstr pre u = Ok url -> plain h -> h <> [] -> has_length h = false ->
  exists c' pre', pr_loop (S n) fs w c LINE_OK = pr_loop n fs w c' LINE_OK /\
    layout c' pre' rest tail /\ last pre' <> Some CR /\
    m_start_line c' = m_checked_idx c' /\ m_check_state c' = CHECK_STATE_HEADER /\
    m_content_lenght c' = m_content_lenght c /\ m_url c' = Some u /\ cstr pre' u = Ok url /\
    m_real_file c' = m_real_file c /\ m_linger c' = m_linger c || keep_alive h /\
    m_file_address c' = m_file_address c /\ wside c' = wside c.
Proof.
  intros Hl Hlast Hstart Hst Hu Hurl Hp Hne Hlen. cbn [pr_loop]. unfold pr_step.
  rewrite decide_False by (rewrite Hst; naive_solver).
  destruct (parse_line_plain _ _ _ _ _ Hl Hlast Hp) as (c1 & E & Hl1 & Hc1).
  rewrite (bind_ok _ _ _ E). rewrite decide_True by done.
  unfold pr_body. cbn [m_check_state set_start_line].
  assert (m_check_state c1 = CHECK_STATE_HEADER) as -> by by rewrite Hc1.
  assert (m_start_line c1 = Z.of_nat (length pre)) as -> by (rewrite Hc1; cbn; destruct Hl; congruence).
  pose proof (lay_buf _ _ _ _ Hl1) as Hb1. rewrite <- !app_assoc in Hb1. cbn [app] in Hb1.
  rewrite (bind_ok _ _ _ (pares_headers_effect (set_start_line (m_checked_idx c1) c1) pre h
    _ Hb1 (proj2 Hp))).
  rewrite header_effect_plain by done. rewrite !decide_False by done.
  set (c2 := set_host _ _). cbn [mbind res_bind].
  exists c2, (pre ++ h ++ [NUL; NUL]).
  assert (m_linger c2 = m_linger c || keep_alive h) as ->.
  { subst c2. rewrite Hc1. destruct (keep_alive h); cbn; by destruct (m_linger c). }
  assert (m_start_line c2 = m_checked_idx c2) as -> by (subst c2; by destruct (keep_alive h)).
  split_ands; try done; try (subst c2; rewrite Hc1; by destruct (keep_alive h)).
  - subst c2. destruct Hl1 as [? ? ?]. by destruct (keep_alive h).
  - apply last_nuls.
  - by apply cstr_prefix.
Qed.

Lemma header_lines hs fs w n c pre rest tail u url :
  layout c pre (with_crlf hs ++ CRLF ++ rest) tail -> last pre <> Some CR ->
  m_start_line c = m_checked_idx c -> m_check_state c = CHECK_STATE_HEADER ->
  m_content_lenght c = 0 -> m_url c = Some u -> cstr pre u = Ok url ->
  Forall (fun h => plain h /\ h <> [] /\ has_length h = false) hs ->
  (length hs < n)%nat ->
  exists c', m_url c' = Some u /\ cstr (m_read_buf c') u = Ok url /\ m_real_file c' = m_real_file c /\
    m_linger c' = m_linger c || existsb keep_alive hs /\ m_file_address c' = m_file_address c /\
    wside c' = wside c /\
    pr_loop n fs w c LINE_OK = do_request fs c' w.
Proof.
  revert n c pre. induction hs as [|h hs IH];
    intros n c pre Hl Hlast Hstart Hst Hcl Hu Hurl Hhs Hn;
    (destruct n as [|n]; [cbn in Hn; lia|]).
  - cbn [pr_loop]. unfold pr_step. rewrite decide_False by (rewrite Hst; naive_solver).
    change (with_crlf [] ++ CRLF ++ rest) with ([] ++ CRLF ++ rest) in Hl.
    destruct (parse_line_plain _ _ _ _ _ Hl Hlast) as (c1 & E & Hl1 & Hc1);
      [split; [constructor|set_solver]|].
    rewrite (bind_ok _ _ _ E). rewrite decide_True by done.
    unfold pr_body. cbn [m_check_state set_start_line].
    assert (m_check_state c1 = CHECK_STATE_HEADER) as -> by by rewrite Hc1.
    assert (m_start_line c1 = Z.of_nat (length pre)) as -> by (rewrite Hc1; cbn; destruct Hl; congruence).
    pose proof (lay_buf _ _ _ _ Hl1) as Hb1. cbn [app] in Hb1. rewrite <- app_assoc in Hb1. cbn [app] in Hb1.
    rewrite (bind_ok _ _ _ (pares_headers_effect (set_start_line (m_checked_idx c1) c1) pre []
      (NUL :: rest ++ tail) Hb1 ltac:(set_solver))).
    cbn [header_effect m_content_lenght set_start_line].
    assert (m_content_lenght c1 = 0) as -> by by rewrite Hc1.
    rewrite decide_False by lia. rewrite decide_False, decide_True by done.
    exists (set_start_line (m_checked_idx c1) c1). cbn [m_url m_read_buf m_real_file m_linger
      m_file_address set_start_line]. rewrite orb_false_r.
    split_ands; [by rewrite Hc1| |by rewrite Hc1..|].
    + rewrite Hb1. by apply cstr_prefix.
    + by destruct (do_request _ _ _) as [[[]]|].
  - inversion Hhs as [|? ? (Hp & Hne & Hlen) Hhs']; subst.
    cbn [with_crlf fmap list_fmap mjoin list_join] in Hl. fold (with_crlf hs) in Hl.
    rewrite <- !app_assoc in Hl.
    destruct (header_step h fs w n c pre _ tail u url Hl Hlast Hstart Hst Hu Hurl Hp Hne Hlen)
      as (c2 & pre2 & -> & Hl2 & Hlast2 & Hs2 & Hst2 & Hcl2 & Hu2 & Hurl2 & Hrf & Hli & Hfa & Hws).
    destruct (IH n c2 pre2 Hl2 Hlast2 Hs2 Hst2) as (c' & H1 & H2 & H3 & H4 & H5 & H6 & H7);
      [congruence|done..|cbn in Hn; lia|].
    exists c'. split_ands; try congruence.
    rewrite H4, Hli. cbn [existsb]. by rewrite orb_assoc.
Qed.

(** The path that an accepted request line asks for. *)
Definition rp_url (p : request_parts) : bytes := drop (rp_path p) (rp_target p).

Lemma init_layout input c0 :
  (length input <= 2048)%nat ->
  layout (received input (init c0)) [] input (replicate (2048 - length input) NUL).
Proof.
  intros Hlen. split; [|done|].
  - cbn [m_read_buf received set_read_idx set_read_buf m_read_idx init].
    change (m_read_buf (init c0)) with (replicate 2048 NUL).
    change (Z.to_nat 0) with 0%nat. rewrite take_0. cbn [app Nat.add].
    by rewrite drop_replicate.
  - cbn -[Z.of_nat]. lia.
Qed.

Lemma request_line_loop fs w n c line rest tail p :
  layout c [] (line ++ CRLF ++ rest) tail -> m_start_line c = 0 ->
  m_check_state c = CHECK_STATE_REQUESTLINE -> plain line -> request_line line p ->
  exists c1 pre,
    pr_loop (S n) fs w c LINE_OK = pr_loop n fs w c1 LINE_OK /\
    layout c1 pre rest tail /\ last pre <> Some CR /\ m_start_line c1 = m_checked_idx c1 /\
    m_check_state c1 = CHECK_STATE_HEADER /\ m_content_lenght c1 = m_content_lenght c /\
    m_linger c1 = m_linger c /\ m_real_file c1 = m_real_file c /\ wside c1 = wside c /\
    m_file_address c1 = m_file_address c /\
    exists u, m_url c1 = Some u /\ cstr pre u = Ok (rp_url p).
Proof.
  intros Hl Hs Hst Hp Hr. cbn [pr_loop]. unfold pr_step.
  rewrite decide_False by (rewrite Hst; naive_solver).
  destruct (parse_line_plain _ _ _ _ _ Hl) as (c1 & E & Hl1 & Hc1); [done..|].
  rewrite (bind_ok _ _ _ E). rewrite decide_True by done.
  unfold pr_body. cbn [m_check_state set_start_line].
  assert (m_check_state c1 = CHECK_STATE_REQUESTLINE) as -> by by rewrite Hc1.
  assert (m_start_line c1 = Z.of_nat (length (A:=ascii) [])) as -> by (by rewrite Hc1).
  pose proof (lay_buf _ _ _ _ Hl1) as Hb1. rewrite <- !app_assoc in Hb1. cbn [app] in Hb1.
  destruct (parse_request_line_cases (set_start_line (m_checked_idx c1) c1) [] line
    (NUL :: rest ++ tail) Hb1 (proj2 Hp)) as (c2 & ret & E2 & Hcase).
  rewrite (bind_ok _ _ _ E2).
  destruct Hcase as [[_ Hno]|(-> & q & Hq & ->)]; [by destruct (Hno p)|].
  rewrite (request_line_unique _ _ _ Hq Hr). rewrite decide_False by done.
  eexists _, (rp_method p ++ NUL :: rp_ws1 p ++ rp_target p ++ NUL :: rp_ws2 p ++ rp_version p ++
    [NUL; NUL]).
  split; [reflexivity|].
  pose proof (rl_line _ _ Hr) as El.
  pose proof (path_offset_lookup _ _ (rl_path _ _ Hr)) as Hlk%lookup_lt_Some.
  split_ands; try (unfold accepted; cbn; first [reflexivity | by rewrite Hc1]).
  - destruct Hl1 as [_ H1 H2]. rewrite El in H1, H2. split.
    + unfold accepted. cbn [m_read_buf set_check_state set_url set_version set_method set_read_buf].
      layout_eq.
    + unfold accepted. cbn [m_checked_idx set_check_state set_url set_version set_method
        set_read_buf set_start_line]. rewrite H1. len_eq.
    + unfold accepted. cbn [m_read_idx set_check_state set_url set_version set_method
        set_read_buf set_start_line]. rewrite H2. len_eq.
  - replace (rp_method p ++ _) with ((rp_method p ++ NUL :: rp_ws1 p ++ rp_target p ++ NUL ::
      rp_ws2 p ++ rp_version p) ++ [NUL; NUL]) by layout_eq.
    rewrite last_app. cbn. discriminate.
  - exists (Z.of_nat (0 + length (rp_method p) + 1 + length (rp_ws1 p) + rp_path p)).
    split; [reflexivity|]. unfold rp_url.
    eapply (cstr_at _ _ (rp_method p ++ NUL :: rp_ws1 p ++ take (rp_path p) (rp_target p)) _
      (rp_ws2 p ++ rp_version p ++ [NUL; NUL])).
    + rewrite <- (take_drop (rp_path p) (rp_target p)) at 1. layout_eq.
    + repeat first [rewrite length_app | progress cbn [length]]. rewrite length_take. lia.
    + destruct Hp as [_ Hn]. rewrite El in Hn. intros Hin. apply Hn.
      rewrite <- (take_drop (rp_path p) (rp_target p)). set_solver.
Qed.

Lemma wside_received d c : wside (received d c) = wside c.
Proof. reflexivity. Qed.

Lemma request_runs fs w c line hs rest p :
  let c0 := received (with_crlf (line :: hs) ++ CRLF ++ rest) (init c) in
  (length (with_crlf (line :: hs) ++ CRLF ++ rest) <= 2048)%nat ->
  plain line -> request_line line p ->
  Forall (fun h => plain h /\ h <> [] /\ has_length h = false) hs ->
  exists c', process_read fs w c0 =
    Ok (c', match answer fs (real_file (rp_url p)) with
            | FILE_REQUEST => emit (Close (fs_open fs (real_file (rp_url p)))) w
            | _ => w
            end, answer fs (real_file (rp_url p))) /\
    m_linger c' = existsb keep_alive hs /\ wside c' = wside (init c) /\
    (answer fs (real_file (rp_url p)) = FILE_REQUEST ->
       exists st, fs_stat fs (real_file (rp_url p)) = Some st /\ m_file_stat c' = Some st /\
         m_file_address c' = Some (fs_mmap fs (fs_open fs (real_file (rp_url p))) (st_size st))).
Proof.
  intros c0 Hlen Hp Hr Hhs. pose proof (init_layout _ c Hlen) as Hl. fold c0 in Hl.
  change (with_crlf (line :: hs)) with ((line ++ CRLF) ++ with_crlf hs) in Hl.
  rewrite <- !app_assoc in Hl.
  assert (length hs <= length (with_crlf hs))%nat as Hhl.
  { clear. induction hs as [|h hs IH]; [done|].
    change (with_crlf (h :: hs)) with ((h ++ CRLF) ++ with_crlf hs).
    rewrite !length_app. cbn. lia. }
  destruct (pr_fuel c0) as [|n] eqn:En; [done|]. assert (length hs + 2 < S n)%nat as Hn.
  { rewrite <- En. unfold pr_fuel. destruct Hl as [_ Hc Hrd]. rewrite Hc, Hrd.
    rewrite !length_app. cbn [length CRLF]. lia. }
  destruct (request_line_loop fs w n c0 line _ _ p Hl eq_refl eq_refl Hp Hr)
    as (c1 & pre & E & Hl1 & Hlast & Hs & Hst & Hcl & Hli & Hrf & Hw1 & Hfa1 & u & Hu & Hurl).
  destruct (header_lines hs fs w n c1 pre rest _ u (rp_url p) Hl1 Hlast Hs Hst Hcl Hu Hurl Hhs)
    as (c2 & Hu2 & Hurl2 & Hrf2 & Hli2 & Hfa2 & Hw2 & E2); [lia|].
  destruct (do_request_answer fs c2 w u (rp_url p)) as (c3 & E3 & Hl3 & Hw3 & Hst3 & Hfa3).
  - rewrite Hrf2, Hrf. done.
  - rewrite Hrf2, Hrf. done.
  - done.
  - done.
  - apply cstr_split in Hurl as [? _]. done.
  - exists c3. unfold process_read. rewrite En, E, E2, E3. split; [done|].
    rewrite Hl3, Hli2, Hli, Hw3, Hw2, Hw1. split; [reflexivity|].
    split; [apply wside_received|].
    intros Ha. rewrite Ha in Hfa3. unfold answer in Ha.
    destruct (fs_stat fs (real_file (rp_url p))) as [st|]; [|done].
    exists st. by split_ands.
Qed.

(** [C10] End to end: when a fresh connection has received an acceptable request
    line, any header lines other than Content-Length and the empty line, the
    answer is the one the file system gives for the requested path under the
    document root, and the connection is kept alive exactly if a header asks
    for it. *)
Theorem request_answered fs w c line hs rest p :
  (length (with_crlf (line :: hs) ++ CRLF ++ rest) <= 2048)%nat ->
  plain line -> request_line line p ->
  Forall (fun h => plain h /\ h <> [] /\ has_length h = false) hs ->
  exists c' w', process_read fs w (received (with_crlf (line :: hs) ++ CRLF ++ rest) (init c)) =
    Ok (c', w', answer fs (real_file (rp_url p))) /\ m_linger c' = existsb keep_alive hs.
Proof.
  intros H1 H2 H3 H4. destruct (request_runs fs w c line hs rest p H1 H2 H3 H4) as (c' & E & Hl & _).
  eauto.
Qed.

(** ** The request body *)

Lemma next_line_none rest : Forall (fun x => x ∉ CRLF) rest -> next_line rest = EndOpen (length rest).
Proof. intros H. unfold next_line. by rewrite (proj2 (strpbrk_None rest CRLF) H). Qed.

Lemma body_short fs w c pre rest tail :
  layout c pre rest tail -> last pre <> Some CR -> m_check_state c = CHECK_STATE_CONNECT ->
  Forall (fun x => x ∉ CRLF) rest -> Z.of_nat (length rest) < m_content_lenght c ->
  m_content_lenght c + m_checked_idx c <= INT_MAX ->
  process_read fs w c =
    Ok (set_checked_idx (m_read_idx c) (set_start_line (m_checked_idx c) c), w, NO_REQUEST).
Proof.
  intros Hl Hlast Hs Hrest Hlen Hmax. pose proof Hl as [Hb Hc Hr].
  set (c0 := set_start_line (m_checked_idx c) c).
  assert (pr_step fs w c LINE_OK = Ok (Go c0 LINE_OPEN)) as E1.
  { unfold pr_step. rewrite decide_True by done.
    unfold pr_body. cbn [m_check_state set_start_line]. rewrite Hs. unfold pares_content.
    cbn [m_content_lenght m_checked_idx set_start_line m_read_idx].
    rewrite int_op_ok by (unfold int_range, INT_MIN in *; lia). cbn [mbind res_bind].
    by rewrite decide_False by lia. }
  assert (pr_step fs w c0 LINE_OPEN =
            Ok (Return (set_checked_idx (m_read_idx c) c0) w NO_REQUEST)) as E2.
  { unfold pr_step. rewrite decide_False by naive_solver.
    assert (layout c0 pre rest tail) as Hl' by done.
    rewrite (parse_line_result _ _ _ _ Hl' Hlast). unfold line_result.
    rewrite next_line_none by done. cbn [mbind res_bind].
    rewrite decide_False by done. change (m_checked_idx c0) with (m_checked_idx c).
    rewrite Hc, Hr, Nat2Z.inj_add. done. }
  unfold process_read, pr_fuel. cbn [pr_loop].
  rewrite (bind_ok _ _ _ E1). cbv beta iota. by rewrite (bind_ok _ _ _ E2).
Qed.

(** A request body that arrives in two pieces, each shorter than
    Content-Length and without line ends, is never seen as complete, even when
    the two together are: the first pass moves [m_checked_idx] over the piece,
    and the second one counts from there. *)
Theorem body_in_two_pieces fs w c d1 d2 :
  pwf c -> m_check_state c = CHECK_STATE_CONNECT -> m_checked_idx c = m_read_idx c ->
  fits (d1 ++ d2) c -> Forall (fun x => x ∉ CRLF) (d1 ++ d2) ->
  Z.of_nat (length d1) < m_content_lenght c -> Z.of_nat (length d2) < m_content_lenght c ->
  m_content_lenght c + m_read_idx c + Z.of_nat (length d1) <= INT_MAX ->
  exists c1 c2, process_read fs w (received d1 c) = Ok (c1, w, NO_REQUEST) /\
    process_read fs w (received d2 c1) = Ok (c2, w, NO_REQUEST).
Proof.
  intros Hwf Hs Hck Hfit [Hf1 Hf2]%Forall_app H1 H2 Hmax.
  destruct (pwf_layout c Hwf) as (pre & rest & tail & Hl & Hlast).
  assert (rest = []) as -> by (destruct Hl as [_ ? ?]; apply length_zero_iff_nil; lia).
  unfold fits in Hfit. rewrite length_app in Hfit.
  pose proof (layout_received _ _ _ _ d1 Hl ltac:(unfold fits; lia)) as Hl1. cbn [app] in Hl1.
  set (c1 := set_checked_idx (m_read_idx (received d1 c))
    (set_start_line (m_checked_idx (received d1 c)) (received d1 c))).
  assert (layout c1 (pre ++ d1) [] (drop (length d1) tail)) as Hl1'.
  { destruct Hl1 as [Hb Hc Hr]. split; [cbn [app]; by rewrite <- app_assoc|..].
    - change (m_checked_idx c1) with (m_read_idx (received d1 c)). rewrite Hr, length_app. lia.
    - change (m_read_idx c1) with (m_read_idx (received d1 c)). rewrite Hr, length_app. cbn. lia. }
  assert (fits d2 c1) as Hfit2.
  { unfold fits. change (m_read_idx c1) with (m_read_idx c + Z.of_nat (length d1)).
    destruct Hl1' as [-> _ _], Hl as [Hb Hc Hr]. rewrite Hb in Hfit.
    rewrite !length_app, length_drop in *. cbn in *. lia. }
  pose proof (layout_received _ _ _ _ d2 Hl1' Hfit2) as Hl2. cbn [app] in Hl2.
  exists c1. eexists. split.
  - apply (body_short fs w _ _ _ _ Hl1); [done|done|done|done|].
    change (m_checked_idx (received d1 c)) with (m_checked_idx c).
    change (m_content_lenght (received d1 c)) with (m_content_lenght c). lia.
  - apply (body_short fs w _ _ _ _ Hl2); [|done|done|done|].
    + rewrite last_app. destruct (last d1) as [x|] eqn:E; [|done].
      apply last_Some_elem_of in E. rewrite Forall_forall in Hf1. specialize (Hf1 x E). set_solver.
    + change (m_checked_idx (received d2 c1)) with (m_read_idx c + Z.of_nat (length d1)).
      change (m_content_lenght (received d2 c1)) with (m_content_lenght c). lia.
Qed.

(** [C13] The request-line parser accepts exactly the lines METHOD blanks TARGET
    blanks VERSION with method GET, version HTTP/1.1 and a target that is a path
    or an http URL with one; it then records where path and version start and
    goes on to the headers, and otherwise answers "bad request". *)
Theorem parse_request_line_correct c pre line post :
  m_read_buf c = pre ++ line ++ NUL :: post -> NUL ∉ line ->
  (forall p, request_line line p ->
     parse_request_line (Z.of_nat (length pre)) c = Ok (accepted pre post p c, NO_REQUEST)) /\
  ((forall p, ~ request_line line p) ->
     exists c', parse_request_line (Z.of_nat (length pre)) c = Ok (c', BAD_REQUEST)).
Proof.
  intros Hb Hn. destruct (parse_request_line_cases c pre line post Hb Hn) as (c' & ret & E & Hcase).
  split.
  - intros p Hp. destruct Hcase as [[_ Hno]|(-> & q & Hq & ->)]; [by destruct (Hno p)|].
    by rewrite (request_line_unique _ _ _ Hp Hq).
  - intros Hno. destruct Hcase as [[-> _]|(_ & q & Hq & _)]; [by eexists|by destruct (Hno q)].
Qed.

(** One call of [parse_line]: it stops at the first CR or LF of the unread
    data; CR LF ends a line and both become NULs, a lone CR at the end of the data
    is left for later, anything else is a bad line, and without a line end all
    the data counts as checked. *)
Theorem parse_line_correct c pre rest tail :
  layout c pre rest tail -> last pre <> Some CR ->
  exists c', parse_line c = Ok (c',
      match next_line rest with EndOk _ _ => LINE_OK | EndBad _ => LINE_BAD | EndOpen _ => LINE_OPEN end)
    /\ match next_line rest with
       | EndOk line rest' =>
           rest = line ++ CRLF ++ rest' /\ Forall (fun x => x ∉ CRLF) line /\
           layout c' (pre ++ line ++ [NUL; NUL]) rest' tail
       | EndBad n | EndOpen n =>
           Forall (fun x => x ∉ CRLF) (take n rest) /\
           layout c' (pre ++ take n rest) (drop n rest) tail
       end.
Proof.
  intros Hl Hlast. pose proof (parse_line_result _ _ _ _ Hl Hlast) as E. unfold line_result in E.
  pose proof (next_line_app rest []) as Happ.
  destruct (next_line rest) as [line rest'|n|n] eqn:En; (eexists; split; [exact E|]).
  - apply next_line_ok in En as [-> Hline]. split_ands; [done..|].
    destruct Hl as [Hb Hc Hr]. split; cbn -[Z.of_nat]; [layout_eq|..]; rewrite ?Hc, ?Hr; len_eq.
  - destruct Happ as (Hn & Hf & _). split; [done|]. destruct Hl as [Hb Hc Hr].
    split; cbn -[Z.of_nat]; rewrite ?Hc, ?Hr, ?Hb.
    + by rewrite <- app_assoc, (app_assoc (take n rest)), take_drop.
    + rewrite length_app, length_take. lia.
    + rewrite length_app, length_take, length_drop. lia.
  - destruct Happ as (Hn & Hf & _). split; [done|]. destruct Hl as [Hb Hc Hr].
    split; cbn -[Z.of_nat]; rewrite ?Hc, ?Hr, ?Hb.
    + by rewrite <- app_assoc, (app_assoc (take n rest)), take_drop.
    + rewrite length_app, length_take. lia.
    + rewrite length_app, length_take, length_drop. lia.
Qed.
