(* ===== verification/HttpServe.v ===== *)
(** * The HTTP connection: receiving, answering, sending

    What [read], [process_write], [write] and [process] do, the invariants of
    the two buffers, and a request followed from its bytes to the bytes of the
    response. *)

From S2P Require Import Prelude CString HttpConn HttpParse.

(** ** Receiving (read) *)

Lemma received_app d1 d2 c :
  0 <= m_read_idx c -> fits (d1 ++ d2) c -> received d2 (received d1 c) = received (d1 ++ d2) c.
Proof.
  intros H0 Hfit. unfold fits in Hfit. rewrite length_app in Hfit.
  assert (m_read_buf (received d2 (received d1 c)) = m_read_buf (received (d1 ++ d2) c)) as Hb.
  { cbn [m_read_buf received set_read_idx set_read_buf m_read_idx].
    set (r := Z.to_nat (m_read_idx c)). set (b := m_read_buf c) in *.
    replace (Z.to_nat (m_read_idx c + Z.of_nat (length d1))) with (r + length d1)%nat by lia.
    assert (length (take r b ++ d1) = (r + length d1)%nat) as Hl
      by (rewrite length_app, length_take; lia).
    rewrite (app_assoc (take r b) d1), <- Hl, take_app_length, <- app_assoc.
    rewrite drop_app_add', Hl, drop_drop, length_app by done.
    rewrite <- !app_assoc, Nat.add_assoc. reflexivity. }
  rewrite (received_def (d1 ++ d2)), <- Hb, received_def, length_app, Nat2Z.inj_add, Z.add_assoc.
  reflexivity.
Qed.

Lemma received_step d c :
  0 <= m_read_idx c -> fits d c ->
  awrite (m_read_buf c) (m_read_idx c) d = Ok (m_read_buf (received d c)).
Proof. intros H0 Hf. by rewrite awrite_ok. Qed.

Lemma received_hwf d c : hwf c -> fits d c -> hwf (received d c).
Proof.
  intros [Hp Hb Hf Hn Hu] Hd. pose proof (pwf_idx _ Hp) as [Hi Hr].
  destruct (pwf_layout c Hp) as (pre & rest & tail & Hl & Hlast).
  pose proof (layout_received _ _ _ _ _ Hl Hd) as Hl'.
  assert (length (m_read_buf (received d c)) = length (m_read_buf c)) as Hlen.
  { unfold fits in Hd. cbn [m_read_buf received set_read_idx set_read_buf].
    rewrite !length_app, length_take, length_drop. lia. }
  split; [by eapply pwf_of_layout|congruence|done|done|].
  intros Hs. destruct (Hu Hs) as (u & k & H1 & H2 & H3 & H4). exists u, k.
  split_ands; [done|lia|lia|done|].
  rewrite (lay_buf _ _ _ _ Hl'). rewrite (lay_buf _ _ _ _ Hl) in H4.
  destruct Hl as [_ Hc _]. rewrite lookup_app_l in H4 |- * by lia. done.
Qed.

Lemma read_loop_hwf rs c :
  hwf c ->
  match read_loop rs c with Ok (c', _) => hwf c' | Err f => f = OutOfFuel end.
Proof.
  revert c. induction rs as [|[d| |] rs IH]; intros c Hw; cbn [read_loop]; try done.
  case_decide as Hd; [done|]. pose proof (pwf_idx _ (hwf_pwf _ Hw)) as [Hi Hr].
  set (d' := take _ d) in *.
  assert (fits d' c) as Hfit.
  { unfold fits, d'. rewrite length_take, (hwf_buf _ Hw).
    change (Z.to_nat READ_BUFFER_SIZE) with 2048%nat. rewrite (hwf_buf _ Hw) in Hr.
    change (Z.to_nat READ_BUFFER_SIZE) with 2048%nat in Hr. change READ_BUFFER_SIZE with 2048. lia. }
  rewrite received_step by (done || lia). cbn [mbind res_bind].
  rewrite <- received_def. by apply IH, received_hwf.
Qed.

(** Receiving is memory safe: whatever [recv] delivers, [read] writes
    inside the buffer and leaves the connection well formed. *)
Theorem read_safe rs c :
  hwf c -> match read rs c with Ok (c', _) => hwf c' | Err f => f = OutOfFuel end.
Proof. intros Hw. unfold read. case_decide; [done|]. by apply read_loop_hwf. Qed.

Lemma read_loop_data ds rs c :
  0 <= m_read_idx c -> length (m_read_buf c) = Z.to_nat READ_BUFFER_SIZE ->
  Forall (fun d => d <> []) ds -> fits (mjoin ds) c ->
  read_loop ((Received <$> ds) ++ Again :: rs) c = Ok (received (mjoin ds) c, true).
Proof.
  revert c. induction ds as [|d ds IH]; intros c H0 Hb Hds Hfit.
  - cbn. do 2 f_equal. destruct c; unfold received, set_read_idx, set_read_buf; cbn in *.
    rewrite Z.add_0_r, Nat.add_0_r, take_drop. done.
  - inversion Hds as [|? ? Hd Hds']; subst. change (mjoin (d :: ds)) with (d ++ mjoin ds) in Hfit |- *.
    unfold fits in Hfit. rewrite Hb, length_app in Hfit.
    change (Z.to_nat READ_BUFFER_SIZE) with 2048%nat in Hfit.
    cbn [fmap list_fmap app read_loop].
    rewrite take_ge by (change READ_BUFFER_SIZE with 2048; lia). rewrite decide_False by done.
    assert (fits (d ++ mjoin ds) c) as Hfit'.
    { unfold fits. rewrite Hb, length_app. change (Z.to_nat READ_BUFFER_SIZE) with 2048%nat. lia. }
    assert (fits d c) as Hfd
      by (unfold fits; rewrite Hb; change (Z.to_nat READ_BUFFER_SIZE) with 2048%nat; lia).
    rewrite (received_step _ _ H0 Hfd).
    cbn [mbind res_bind]. rewrite <- received_def, <- received_app by done.
    apply IH; [cbn; lia| |done|].
    + cbn [m_read_buf received set_read_idx set_read_buf].
      rewrite !length_app, length_take, length_drop, Hb.
      change (Z.to_nat READ_BUFFER_SIZE) with 2048%nat. lia.
    + unfold fits. cbn [m_read_buf m_read_idx received set_read_idx set_read_buf].
      rewrite !length_app, length_take, length_drop, Hb.
      change (Z.to_nat READ_BUFFER_SIZE) with 2048%nat. lia.
Qed.

(** However the kernel cuts the input, [read] appends all of it to the
    buffer and reports success, as long as it fits. *)
Theorem read_collects ds rs c :
  hwf c -> m_read_idx c < READ_BUFFER_SIZE -> Forall (fun d => d <> []) ds -> fits (mjoin ds) c ->
  read ((Received <$> ds) ++ Again :: rs) c = Ok (received (mjoin ds) c, true).
Proof.
  intros Hw Hlt Hds Hfit. unfold read. rewrite decide_False by lia.
  apply read_loop_data; [|apply Hw|done|done].
  pose proof (pwf_idx _ (hwf_pwf _ Hw)). lia.
Qed.

(** A connection is well formed from the moment it is set up. *)
Lemma init_hwf c : hwf (init c).
Proof.
  split.
  - split.
    + change (m_start_line (init c)) with 0. change (m_checked_idx (init c)) with 0.
      change (m_read_idx (init c)) with 0. lia.
    + change (m_checked_idx (init c)) with 0. lia.
  - apply length_replicate.
  - apply length_replicate.
  - reflexivity.
  - change (m_check_state (init c)) with CHECK_STATE_REQUESTLINE. done.
Qed.

(** ** Building the response (add_response, process_write)

    [written s c]: the write buffer holds the string [s]. *)
Record written (s : bytes) (c : http_conn) : Prop := {
  wr_len : length (m_write_buf c) = Z.to_nat WRITE_BUFFER_SIZE;
  wr_idx : m_write_idx c = Z.of_nat (length s);
  wr_room : (length s < 1023)%nat;
  wr_take : take (length s) (m_write_buf c) = s }.

(** [wrote c c']: only the write buffer and its index may differ. *)
Definition wrote (c c' : http_conn) : Prop :=
  c' = set_write_idx (m_write_idx c') (set_write_buf (m_write_buf c') c).

Lemma add_response_ok s msg c :
  written s c -> (length s + length msg < 1023)%nat ->
  exists c', add_response msg c = Ok (c', true) /\ written (s ++ msg) c' /\ wrote c c'.
Proof.
  intros [Hl Hi Hr Ht] Hlen. change (Z.to_nat WRITE_BUFFER_SIZE) with 1024%nat in Hl.
  unfold add_response. change WRITE_BUFFER_SIZE with 1024. rewrite Hi.
  rewrite decide_False by lia. rewrite decide_False by lia.
  rewrite take_ge by lia.
  assert (exists t, m_write_buf c = s ++ t) as [t Hb]
    by (exists (drop (length s) (m_write_buf c)); rewrite <- Ht at 1; by rewrite take_drop).
  rewrite Hb, length_app in Hl.
  rewrite Hb, <- (take_drop (length msg + 1) t), (awrite_at s _ _ (msg ++ [NUL])) by
    (rewrite ?length_take, ?length_app; cbn; lia).
  cbn [mbind res_bind]. rewrite decide_False by lia. eexists. split; [reflexivity|]. split; [|done].
  split.
  - cbn. change (Z.to_nat WRITE_BUFFER_SIZE) with 1024%nat.
    rewrite !length_app, length_drop. cbn. lia.
  - cbn. rewrite length_app. lia.
  - rewrite length_app. lia.
  - cbn. rewrite <- app_assoc, app_assoc. apply take_app_length.
Qed.

Lemma add_response_full s msg c :
  written s c -> (1023 <= length s + length msg)%nat ->
  exists c', add_response msg c = Ok (c', false) /\ written s c' /\ wrote c c'.
Proof.
  intros [Hl Hi Hr Ht] Hlen. change (Z.to_nat WRITE_BUFFER_SIZE) with 1024%nat in Hl.
  unfold add_response. change WRITE_BUFFER_SIZE with 1024. rewrite Hi.
  rewrite decide_False by lia. rewrite decide_False by lia.
  assert (exists t, m_write_buf c = s ++ t) as [t Hb]
    by (exists (drop (length s) (m_write_buf c)); rewrite <- Ht at 1; by rewrite take_drop).
  rewrite Hb, length_app in Hl. set (m := take _ msg ++ [NUL]).
  assert (length m <= length t)%nat as Hm
    by (subst m; rewrite length_app, length_take; cbn; lia).
  rewrite Hb, <- (take_drop (length m) t), (awrite_at s _ _ m) by (rewrite ?length_take; lia).
  cbn [mbind res_bind]. rewrite decide_True by lia. eexists. split; [reflexivity|]. split.
  - split; [|done|done|].
    + cbn. change (Z.to_nat WRITE_BUFFER_SIZE) with 1024%nat. rewrite !length_app, length_drop. lia.
    + cbn. apply take_app_length.
  - destruct c; cbn in *. by subst.
Qed.

(** [C40] The formatted writer stays inside the write buffer: a piece that fits
    is appended whole, a piece that does not is refused and leaves the length and
    the text before it as they were. *)
Theorem add_response_bounded s msg c :
  written s c ->
  exists c' ok, add_response msg c = Ok (c', ok) /\
    ok = bool_decide (length s + length msg < 1023)%nat /\
    written (if ok then s ++ msg else s) c' /\ wrote c c'.
Proof.
  intros Hw. destruct (decide (length s + length msg < 1023)%nat) as [H|H].
  - destruct (add_response_ok s msg c Hw H) as (c' & E & ? & ?).
    exists c', true. rewrite bool_decide_true by done. done.
  - destruct (add_response_full s msg c Hw) as (c' & E & ? & ?); [lia|].
    exists c', false. rewrite bool_decide_false by done. done.
Qed.

Lemma wrote_trans c1 c2 c3 : wrote c1 c2 -> wrote c2 c3 -> wrote c1 c3.
Proof. unfold wrote. intros H1 H2. rewrite H2, H1. reflexivity. Qed.

(** The text of the status line and the headers. *)
Definition status_line (status : Z) (title : bytes) : bytes :=
  lit "HTTP/1.1" ++ lit " " ++ dec status ++ lit " " ++ title ++ CRLF.
Definition header_text (len : Z) (linger : bool) : bytes :=
  (lit "Content-Length: " ++ dec len ++ CRLF) ++
  (lit "Connection: " ++ (if linger then lit "keep-alive" else lit "close") ++ CRLF) ++ CRLF.

Lemma add_headers_ok s n c :
  written s c -> (length s + length (header_text n (m_linger c)) < 1023)%nat ->
  exists c', add_headers n c = Ok (c', true) /\ written (s ++ header_text n (m_linger c)) c' /\
    wrote c c'.
Proof.
  intros Hw. unfold add_headers, add_content_length, add_linger, add_blank_line, header_text.
  set (l1 := lit "Content-Length: " ++ dec n ++ CRLF).
  set (l2 := lit "Connection: " ++ (if m_linger c then lit "keep-alive" else lit "close") ++ CRLF).
  intros Hlen. rewrite !length_app in Hlen.
  destruct (add_response_ok _ l1 c Hw) as (c1 & E1 & Hw1 & Hc1); [lia|].
  rewrite (bind_ok _ _ _ E1).
  assert (m_linger c1 = m_linger c) as -> by by rewrite Hc1. fold l2.
  destruct (add_response_ok _ l2 c1 Hw1) as (c2 & E2 & Hw2 & Hc2); [rewrite length_app; lia|].
  rewrite (bind_ok _ _ _ E2).
  destruct (add_response_ok _ CRLF c2 Hw2) as (c3 & E3 & Hw3 & Hc3); [rewrite !length_app; lia|].
  rewrite (bind_ok _ _ _ E3). exists c3. split; [done|]. split.
  - by rewrite <- !app_assoc in *.
  - eapply wrote_trans; [exact Hc1|]. by eapply wrote_trans.
Qed.

(** The three parts of an error answer. *)
Definition error_form (ret : HTTP_CODE) : option (Z * bytes * bytes) :=
  match ret with
  | INTERNAL_ERROR => Some (500, error_500_title, error_500_form)
  | BAD_REQUEST => Some (400, error_400_title, error_400_form)
  | NO_RESOURCE => Some (404, error_404_title, error_404_form)
  | FORBIDDEN_REQUEST => Some (403, error_403_title, error_403_form)
  | _ => None
  end.

(** The bytes that [write] is going to send. *)
Definition outgoing (c : http_conn) : bytes :=
  match m_iv_count c with
  | Some n => iov_bytes c (take (Z.to_nat n) (m_iv c))
  | None => []
  end.

Lemma written_nil c :
  m_write_buf c = replicate (Z.to_nat WRITE_BUFFER_SIZE) NUL -> m_write_idx c = 0 -> written [] c.
Proof. intros Hb Hi. split; [rewrite Hb; apply length_replicate|done|cbn; lia|done]. Qed.

Lemma send_form_ok c status title form :
  written [] c -> length (m_iv c) = 2%nat ->
  (length (status_line status title ++ header_text (Z.of_nat (length form)) (m_linger c) ++ form)
     < 1023)%nat ->
  exists c', send_form status title form c = Ok (c', true) /\
    outgoing c' = status_line status title ++ header_text (Z.of_nat (length form)) (m_linger c) ++ form
    /\ m_write_idx c' = Z.of_nat (length (outgoing c')) /\
    m_sockfd c' = m_sockfd c /\ m_linger c' = m_linger c.
Proof.
  intros Hw Hiv Hlen. rewrite !length_app in Hlen. unfold send_form, add_status_line, add_content.
  destruct (add_response_ok _ (status_line status title) c Hw) as (c1 & E1 & Hw1 & Hc1);
    [cbn [length]; lia|].
  unfold status_line in E1. rewrite (bind_ok _ _ _ E1).
  assert (m_linger c1 = m_linger c) as Hl1 by by rewrite Hc1.
  destruct (add_headers_ok _ (Z.of_nat (length form)) c1 Hw1) as (c2 & E2 & Hw2 & Hc2);
    [rewrite Hl1; cbn [app]; lia|].
  rewrite (bind_ok _ _ _ E2).
  destruct (add_response_ok _ form c2 Hw2) as (c3 & E3 & Hw3 & Hc3);
    [rewrite Hl1, !length_app; cbn [app length]; lia|].
  rewrite (bind_ok _ _ _ E3). cbn [negb]. rewrite Hl1 in Hw3. cbn [app] in Hw3.
  pose proof (wrote_trans _ _ _ Hc1 (wrote_trans _ _ _ Hc2 Hc3)) as Hc.
  assert (m_iv c3 = m_iv c) as Hiv3 by by rewrite Hc.
  rewrite <- Hiv3 in Hiv. destruct Hw3 as [_ Hi _ Ht].
  eexists. split; [reflexivity|].
  assert (outgoing (set_iv_count (Some 1) (set_iov 0 IovWriteBuf (m_write_idx c3) c3)) =
    (status_line status title ++ header_text (Z.of_nat (length form)) (m_linger c)) ++ form) as Ho.
  { unfold outgoing, set_iov. cbn [m_iv_count set_iv_count m_iv set_iv].
    destruct (m_iv c3) as [|v1 [|v2 [|]]]; try discriminate Hiv.
    change (Z.to_nat 1) with 1%nat. cbn [insert list_insert take iov_bytes iov_base iov_len].
    cbn [m_write_buf set_iv_count set_iv]. by rewrite Hi, Nat2Z.id, Ht, app_nil_r. }
  rewrite Ho. split_ands; [by rewrite <- app_assoc|exact Hi|by rewrite Hc..].
Qed.

(** Error answers: for each error code the bytes queued for sending are the
    status line, Content-Length with the length of the body, Connection, an empty
    line and the body, all of them and nothing else. *)
Theorem process_write_error ret status title form c :
  error_form ret = Some (status, title, form) -> written [] c -> length (m_iv c) = 2%nat ->
  exists c', process_write ret c = Ok (c', true) /\
    outgoing c' = status_line status title ++ header_text (Z.of_nat (length form)) (m_linger c) ++ form
    /\ m_write_idx c' = Z.of_nat (length (outgoing c')).
Proof.
  intros Hf Hw Hiv.
  destruct (send_form_ok c status title form Hw Hiv) as (c' & E & ? & ? & _);
    [destruct ret; try discriminate Hf; injection Hf as <- <- <-; destruct (m_linger c);
       apply Nat.ltb_lt; vm_compute; reflexivity|].
  exists c'. destruct ret; try discriminate Hf; injection Hf as <- <- <-; done.
Qed.

Lemma file_answer c st m :
  written [] c -> length (m_iv c) = 2%nat -> m_file_stat c = Some st -> st_size st <> 0 ->
  m_file_address c = Some m ->
  exists c', process_write FILE_REQUEST c = Ok (c', true) /\
    outgoing c' = status_line 200 ok_200_title ++ header_text (to_int (st_size st)) (m_linger c) ++
                  match m with Mapped b => take (Z.to_nat (st_size st)) b | _ => [] end /\
    m_write_idx c' = Z.of_nat (length (status_line 200 ok_200_title ++
      header_text (to_int (st_size st)) (m_linger c))) /\ m_iv_count c' = Some 2 /\ m_file_stat c' = Some st /\
    m_file_address c' = Some m /\ m_sockfd c' = m_sockfd c /\ m_linger c' = m_linger c /\
    length (m_iv c') = 2%nat.
Proof.
  intros Hw Hiv Hst Hsz Hm. unfold process_write, add_status_line.
  destruct (add_response_ok _ (status_line 200 ok_200_title) c Hw) as (c1 & E1 & Hw1 & Hc1);
    [apply Nat.ltb_lt; vm_compute; reflexivity|].
  unfold status_line in E1. rewrite (bind_ok _ _ _ E1).
  assert (m_linger c1 = m_linger c) as Hl1 by by rewrite Hc1.
  assert (m_file_stat c1 = Some st) as -> by by rewrite Hc1.
  cbn [from_opt mbind res_bind]. rewrite decide_True by done.
  pose proof (dec_length _ (to_int_range (st_size st))) as Hd.
  destruct (add_headers_ok _ (to_int (st_size st)) c1 Hw1) as (c2 & E2 & Hw2 & Hc2).
  { rewrite Hl1. unfold header_text, status_line. rewrite !length_app.
    change (length (dec 200)) with 3%nat.
    set (k := length (dec (to_int (st_size st)))) in *. clearbody k. destruct (m_linger c); cbn; lia. }
  rewrite (bind_ok _ _ _ E2). pose proof (wrote_trans _ _ _ Hc1 Hc2) as Hc.
  assert (m_iv c2 = m_iv c) as Hiv2 by by rewrite Hc. rewrite <- Hiv2 in Hiv.
  set (c3 := set_iov 0 IovWriteBuf (m_write_idx c2) c2).
  assert (m_file_address c3 = Some m) as Hm3 by (subst c3; rewrite Hc; exact Hm).
  rewrite Hm3. cbn [from_opt mbind res_bind]. eexists. split; [reflexivity|].
  destruct Hw2 as [_ Hi Hroom Ht]. rewrite Hl1 in *. cbn [app] in *.
  split_ands; try (subst c3; first [exact Hi | rewrite Hc; first [reflexivity | exact Hst | exact Hm]]).
  2:{ subst c3. cbn [set_iov set_iv set_iv_count m_iv]. by rewrite !length_insert. }
  - unfold outgoing, set_iov. cbn [m_iv_count set_iv_count m_iv set_iv].
    subst c3. unfold set_iov. cbn [m_iv set_iv].
    destruct (m_iv c2) as [|v1 [|v2 [|]]]; try discriminate Hiv.
    change (Z.to_nat 2) with 2%nat. cbn [insert list_insert take iov_bytes iov_base iov_len].
    cbn [m_write_buf set_iv_count set_iv]. rewrite Hi, Nat2Z.id, Ht, <- app_assoc. do 2 f_equal.
    destruct m; by rewrite ?app_nil_r.
Qed.

(** ** Sending (write) *)

(** The file mapping can be released. *)
Definition mapping_known (c : http_conn) : Prop :=
  is_Some (m_file_address c) /\ is_Some (m_file_stat c).

(** What [unmap] adds to the trace. *)
Definition unmap_calls (c : http_conn) : list sys :=
  match m_file_address c, m_file_stat c with
  | Some MapNull, _ => []
  | Some m, Some st => [Munmap m (st_size st)]
  | _, _ => []
  end.

Lemma unmap_ok c w :
  mapping_known c ->
  exists c', unmap c w = Ok (c', World (m_epollfd w) (m_user_count w) (trace w ++ unmap_calls c)) /\
    c' = set_file_address (Some MapNull) c.
Proof.
  intros [[m Hm] [st Hst]]. unfold unmap, unmap_calls. rewrite Hm, Hst. cbn [from_opt mbind res_bind].
  case_decide as Hd.
  - subst m. rewrite app_nil_r. exists c. split; [by destruct w|]. destruct c; cbn in *. by subst.
  - destruct m; [done|..]; (eexists; split; [reflexivity|done]).
Qed.

Definition rearm (ev : Z) (c : http_conn) (w : world) : sys :=
  EpollMod (m_epollfd w) (m_sockfd c) (Z.lor (Z.lor (Z.lor ev EPOLLET) EPOLLONESHOT) EPOLLRDHUP).

Lemma write_once n rs c w :
  0 < m_write_idx c -> m_write_idx c <= 2 * n -> is_Some (m_iv_count c) -> mapping_known c ->
  exists c' w', write (Wrote n :: rs) c w = Ok (c', w', m_linger c) /\
    trace w' = trace w ++ Sent (m_sockfd c) (take (Z.to_nat n) (outgoing c)) :: unmap_calls c ++
                 [rearm EPOLLIN c w] /\
    m_user_count w' = m_user_count w /\
    c' = (if m_linger c then init else id) (set_file_address (Some MapNull) c).
Proof.
  intros Hpos Hn [k Hk] Hm. unfold write. rewrite decide_False by lia. cbn [write_loop].
  unfold outgoing. rewrite Hk. cbn [from_opt mbind res_bind]. rewrite decide_True by lia.
  set (w1 := emit _ w). destruct (unmap_ok c w1 Hm) as (c1 & E & ->). rewrite (bind_ok _ _ _ E).
  assert (forall c2, m_sockfd c2 = m_sockfd c ->
    trace (modfd (m_epollfd w) (m_sockfd c2) EPOLLIN
      (World (m_epollfd w1) (m_user_count w1) (trace w1 ++ unmap_calls c))) =
    trace w ++ Sent (m_sockfd c) (take (Z.to_nat n) (iov_bytes c (take (Z.to_nat k) (m_iv c)))) ::
      unmap_calls c ++ [rearm EPOLLIN c w]) as Ht.
  { intros c2 Hc2. rewrite Hc2. cbn [trace modfd emit w1]. rewrite <- !app_assoc. done. }
  destruct (m_linger c) eqn:El; cbn [m_linger set_file_address]; rewrite El;
    (eexists _, _; split; [reflexivity|]; split_ands; [by apply Ht|done|done]).
Qed.

(** [C14] [write] stops after the first [writev] that has taken at least half of
    the header bytes: it has sent the first [n] bytes of the response, releases
    the file, waits for input again, and tells the caller to keep the connection
    exactly if keep-alive was asked for, in which case the state is reset. *)
Theorem write_completes n rs c w :
  0 < m_write_idx c -> m_write_idx c <= 2 * n -> is_Some (m_iv_count c) -> mapping_known c ->
  exists c' w', write (Wrote n :: rs) c w = Ok (c', w', m_linger c) /\
    trace w' = trace w ++ Sent (m_sockfd c) (take (Z.to_nat n) (outgoing c)) :: unmap_calls c ++
                 [rearm EPOLLIN c w] /\
    m_user_count w' = m_user_count w /\
    c' = (if m_linger c then init else id) (set_file_address (Some MapNull) c).
Proof. apply write_once. Qed.

(** A short [writev]: when less than half of the header has been taken and
    the socket is full, [write] keeps nothing of what was sent; the next call
    starts again at the first byte, so the peer receives the beginning twice. *)
Theorem short_write_repeats n k rs c w :
  0 < m_write_idx c -> 2 * n < m_write_idx c -> m_write_idx c <= 2 * k ->
  is_Some (m_iv_count c) -> mapping_known c ->
  exists w1 c' w' b, write (Wrote n :: WAgain :: rs) c w = Ok (c, w1, true) /\
    write (Wrote k :: rs) c w1 = Ok (c', w', b) /\
    exists l1 l2, trace w' = trace w ++ Sent (m_sockfd c) (take (Z.to_nat n) (outgoing c)) :: l1 ++
      Sent (m_sockfd c) (take (Z.to_nat k) (outgoing c)) :: l2.
Proof.
  intros Hpos Hn Hk [j Hj] Hm.
  assert (exists w1, write (Wrote n :: WAgain :: rs) c w = Ok (c, w1, true) /\
    exists l1, trace w1 = trace w ++ Sent (m_sockfd c) (take (Z.to_nat n) (outgoing c)) :: l1)
    as (w1 & E1 & l1 & Hl1).
  { unfold write. rewrite decide_False by lia. cbn [write_loop]. unfold outgoing. rewrite Hj.
    cbn [from_opt mbind res_bind]. rewrite decide_False by lia.
    eexists. split; [reflexivity|]. eexists. cbn [trace modfd emit]. by rewrite <- app_assoc. }
  destruct (write_once k rs c w1) as (c' & w' & E2 & Ht & _); [done|done|by eexists|done|].
  exists w1, c', w', (m_linger c). split_ands; [done..|].
  eexists l1, _. rewrite Ht, Hl1, <- app_assoc. reflexivity.
Qed.

(** ** One request from bytes to bytes (process) *)

Lemma process_file fs c w c1 w1 c2 :
  process_read fs w c = Ok (c1, w1, FILE_REQUEST) -> process_write FILE_REQUEST c1 = Ok (c2, true) ->
  process fs c w = Ok (c2, modfd (m_epollfd w1) (m_sockfd c2) EPOLLOUT w1).
Proof.
  intros E1 E2. unfold process. rewrite (bind_ok _ _ _ E1). rewrite decide_False by done.
  by rewrite (bind_ok _ _ _ E2).
Qed.

(** The worker's part: a complete request for a readable, non-empty file leaves
    the answer queued and asks to be told when it can be sent. *)
Lemma file_queued fs c w line hs rest p st b :
  (length (with_crlf (line :: hs) ++ CRLF ++ rest) <= 2048)%nat ->
  plain line -> request_line line p ->
  Forall (fun h => plain h /\ h <> [] /\ has_length h = false) hs ->
  answer fs (real_file (rp_url p)) = FILE_REQUEST ->
  fs_stat fs (real_file (rp_url p)) = Some st -> st_size st <> 0 ->
  fs_mmap fs (fs_open fs (real_file (rp_url p))) (st_size st) = Mapped b ->
  length (m_iv c) = 2%nat ->
  let response := status_line 200 ok_200_title ++
    header_text (to_int (st_size st)) (existsb keep_alive hs) ++ take (Z.to_nat (st_size st)) b in
  exists c1,
    process fs (received (with_crlf (line :: hs) ++ CRLF ++ rest) (init c)) w =
      Ok (c1, modfd (m_epollfd w) (m_sockfd c) EPOLLOUT
                (emit (Close (fs_open fs (real_file (rp_url p)))) w)) /\
    outgoing c1 = response /\ 0 < m_write_idx c1 <= Z.of_nat (length response) /\
    is_Some (m_iv_count c1) /\ mapping_known c1 /\ m_sockfd c1 = m_sockfd c /\
    m_linger c1 = existsb keep_alive hs /\ length (m_iv c1) = 2%nat.
Proof.
  intros Hlen Hp Hr Hhs Ha Hst Hsz Hmap Hiv response.
  destruct (request_runs fs w c line hs rest p Hlen Hp Hr Hhs) as (c1 & E & Hl & Hws & Hfile).
  destruct (Hfile Ha) as (st' & Hst' & Hs1 & Hm1). rewrite Hst in Hst'. injection Hst' as <-.
  rewrite Hmap in Hm1. rewrite Ha in E. unfold wside in Hws. injection Hws as Hsock Hwb Hwi Hiv1.
  destruct (file_answer c1 st (Mapped b)) as
    (c2 & E2 & Ho & Hwr & Hcnt & Hst2 & Hm2 & Hsock2 & Hl2 & Hiv2); try done.
  { by apply written_nil. }
  { by rewrite Hiv1. }
  rewrite Hl in Ho, Hl2, Hwr. fold response in Ho.
  exists c2. rewrite (process_file _ _ _ _ _ _ E E2), Hsock2, Hsock.
  split_ands; [done|done| | |by eexists|split; by eexists|done|done|done].
  - rewrite Hwr, length_app. change (length (status_line 200 ok_200_title)) with 17%nat. lia.
  - rewrite Hwr. subst response. rewrite !length_app. lia.
Qed.

(** A file is served: a fresh connection that has received a complete
    request for a readable, non-empty file queues, and with one full [writev]
    sends, exactly the status line 200, the headers with the file's length and the
    Connection the client asked for, and the file's first [st_size] bytes. *)
Theorem file_served fs c w line hs rest p st b rs :
  (length (with_crlf (line :: hs) ++ CRLF ++ rest) <= 2048)%nat ->
  plain line -> request_line line p ->
  Forall (fun h => plain h /\ h <> [] /\ has_length h = false) hs ->
  answer fs (real_file (rp_url p)) = FILE_REQUEST ->
  fs_stat fs (real_file (rp_url p)) = Some st -> st_size st <> 0 ->
  fs_mmap fs (fs_open fs (real_file (rp_url p))) (st_size st) = Mapped b ->
  length (m_iv c) = 2%nat ->
  let response := status_line 200 ok_200_title ++
    header_text (to_int (st_size st)) (existsb keep_alive hs) ++ take (Z.to_nat (st_size st)) b in
  exists c1 w1 c2 w2 l,
    process fs (received (with_crlf (line :: hs) ++ CRLF ++ rest) (init c)) w = Ok (c1, w1) /\
    write (Wrote (Z.of_nat (length response)) :: rs) c1 w1 = Ok (c2, w2, existsb keep_alive hs) /\
    trace w2 = trace w1 ++ Sent (m_sockfd c) response :: l.
Proof.
  intros Hlen Hp Hr Hhs Ha Hst Hsz Hmap Hiv response.
  destruct (file_queued fs c w line hs rest p st b Hlen Hp Hr Hhs Ha Hst Hsz Hmap Hiv)
    as (c1 & E & Ho & Hwr & Hcnt & Hm & Hsock & Hl & _). fold response in Ho, Hwr.
  eexists c1, _. rewrite E.
  destruct (write_once (Z.of_nat (length response)) rs c1
    (modfd (m_epollfd w) (m_sockfd c) EPOLLOUT
      (emit (Close (fs_open fs (real_file (rp_url p)))) w))) as (c2 & w2 & E2 & Ht & _);
    [lia|lia|done|done|].
  exists c2, w2. eexists. split; [reflexivity|]. split; [by rewrite <- Hl|].
  rewrite Ht, Ho, Hsock, Nat2Z.id, take_ge by done. reflexivity.
Qed.

(** ** Re-arming the one-shot event (process) *)

Definition is_mod (e : sys) : bool := match e with EpollMod _ _ _ => true | _ => false end.

(** What [process_read] asks of the kernel. *)
Lemma pr_body_world fs w c st r :
  pr_body fs w c st = Ok r ->
  match r with
  | Go c' _ => wside c' = wside c
  | Return c' w' _ => wside c' = wside c /\ (w' = w \/ exists path, w' = emit (Close (fs_open fs path)) w)
  end.
Proof.
  destruct r as [c' st'|c' w' ret].
  - intros H%pr_body_go. destruct H as [Hs _]. by rewrite (same_wside _ _ Hs).
  - unfold pr_body. cbn [m_check_state set_start_line]. intros H.
    destruct (m_check_state c); apply bind_ok_inv in H as ([c1 r1] & E1 & H).
    + apply parse_request_line_frame in E1 as [Hs _]. case_decide; simplify_eq.
      by rewrite (same_wside _ _ Hs); auto.
    + apply pares_headers_frame in E1 as [Hs _].
      repeat case_decide; simplify_eq; [by rewrite (same_wside _ _ Hs); auto|].
      apply bind_ok_inv in H as ([[c2 w2] r2] & E2 & H). injection H as <- <- <-.
      apply do_request_frame in E2 as (_ & -> & ?). by rewrite (same_wside _ _ Hs).
    + apply pares_content_frame in E1 as [Hs _]. case_decide; simplify_eq.
      apply bind_ok_inv in H as ([[c2 w2] r2] & E2 & H). injection H as <- <- <-.
      apply do_request_frame in E2 as (_ & -> & ?). by rewrite (same_wside _ _ Hs).
Qed.

Lemma pr_loop_world n fs w c st c' w' ret :
  pr_loop n fs w c st = Ok (c', w', ret) ->
  wside c' = wside c /\ (w' = w \/ exists path, w' = emit (Close (fs_open fs path)) w).
Proof.
  revert c st. induction n as [|n IH]; intros c st H; [done|]. cbn [pr_loop] in H.
  apply bind_ok_inv in H as (r & E & H).
  assert (match r with
          | Go c' _ => wside c' = wside c
          | Return c' w' _ => wside c' = wside c /\ (w' = w \/ exists path, w' = emit (Close (fs_open fs path)) w)
          end) as Hr.
  { unfold pr_step in E. case_decide; [by eapply pr_body_world|].
    apply bind_ok_inv in E as ([c1 st1] & E1 & E).
    apply parse_line_loop_frame in E1 as (k & b & -> & _). case_decide.
    - by apply pr_body_world in E.
    - injection E as <-. auto. }
  destruct r as [c1 st1|c1 w1 ret1].
  - apply IH in H as [-> ?]. auto.
  - by injection H as <- <- <-.
Qed.

Lemma add_response_sock msg c c' ok :
  add_response msg c = Ok (c', ok) -> m_sockfd c' = m_sockfd c.
Proof.
  unfold add_response. intros H. case_decide; [by injection H as <- <-|].
  apply bind_ok_inv in H as (b & _ & H). case_decide; by injection H as <- <-.
Qed.

Lemma add_headers_sock n c c' ok : add_headers n c = Ok (c', ok) -> m_sockfd c' = m_sockfd c.
Proof.
  unfold add_headers, add_content_length, add_linger, add_blank_line. intros H.
  apply bind_ok_inv in H as ([c1 b1] & E1 & H). apply bind_ok_inv in H as ([c2 b2] & E2 & H).
  apply bind_ok_inv in H as ([c3 b3] & E3 & H). apply add_response_sock in E1, E2, E3.
  injection H as <- <-. congruence.
Qed.

Lemma process_write_sock ret c c' ok : process_write ret c = Ok (c', ok) -> m_sockfd c' = m_sockfd c.
Proof.
  assert (forall status title form c c' ok,
    send_form status title form c = Ok (c', ok) -> m_sockfd c' = m_sockfd c) as Hf.
  { clear. unfold send_form, add_status_line, add_content. intros status title form c c' ok H.
    apply bind_ok_inv in H as ([c1 b1] & E1 & H). apply bind_ok_inv in H as ([c2 b2] & E2 & H).
    apply bind_ok_inv in H as ([c3 b3] & E3 & H). apply add_response_sock in E1, E3.
    apply add_headers_sock in E2. destruct (negb b3); injection H as <- <-; [congruence|].
    cbn. congruence. }
  destruct ret; cbn [process_write]; try apply Hf; try (by intros [= <- <-]).
  unfold add_status_line, add_content. intros H.
  apply bind_ok_inv in H as ([c1 b1] & E1 & H). apply bind_ok_inv in H as (st & _ & H).
  apply add_response_sock in E1. case_decide; apply bind_ok_inv in H as ([c2 b2] & E2 & H);
    apply add_headers_sock in E2; apply bind_ok_inv in H as (x & E3 & H).
  - injection H as <- <-. cbn. congruence.
  - destruct x as [c3 b3]. apply add_response_sock in E3. injection H as <- <-. congruence.
Qed.

(** What [process_read] answers: nothing yet, an error, or a file that was mapped. *)
Definition read_result (ret : HTTP_CODE) (c : http_conn) : Prop :=
  match ret with
  | NO_REQUEST | BAD_REQUEST | NO_RESOURCE | FORBIDDEN_REQUEST | INTERNAL_ERROR => True
  | FILE_REQUEST => exists st m, m_file_stat c = Some st /\ m_file_address c = Some m
  | GET_REQUEST | CLOSED_CONNECTION => False
  end.

Lemma do_request_result fs c w c' w' ret : do_request fs c w = Ok (c', w', ret) -> read_result ret c'.
Proof. unfold do_request. intros H. run_inv H; simplify_eq; cbn; eauto. Qed.

Lemma pr_body_result fs w c st c' w' ret : pr_body fs w c st = Ok (Return c' w' ret) -> read_result ret c'.
Proof.
  unfold pr_body. cbn [m_check_state set_start_line]. intros H.
  destruct (m_check_state c); apply bind_ok_inv in H as ([c1 r1] & _ & H);
    repeat case_decide; simplify_eq; try done;
    apply bind_ok_inv in H as ([[c2 w2] r2] & E2 & H); injection H as <- <- <-;
    by eapply do_request_result.
Qed.

Lemma process_read_result fs w c c' w' ret : process_read fs w c = Ok (c', w', ret) -> read_result ret c'.
Proof.
  unfold process_read. generalize (pr_fuel c) as n, LINE_OK as st. intros n. revert c.
  induction n as [|n IH]; intros c st H; [done|]. cbn [pr_loop] in H.
  apply bind_ok_inv in H as ([c1 st1|c1 w1 ret1] & E & H); [by eapply IH|]. injection H as <- <- <-.
  unfold pr_step in E. case_decide; [by eapply pr_body_result|].
  apply bind_ok_inv in E as ([c2 st2] & _ & E). case_decide; [by eapply pr_body_result|].
  by injection E as <- <- <-.
Qed.

(** The request is for a file of length 0. *)
Definition empty_file (ret : HTTP_CODE) (c : http_conn) : Prop :=
  ret = FILE_REQUEST /\ st_size <$> m_file_stat c = Some 0.

(** Every other complete request has its answer queued. *)
Lemma process_write_queues ret c :
  written [] c -> length (m_iv c) = 2%nat -> read_result ret c -> ret <> NO_REQUEST -> ~ empty_file ret c ->
  exists c', process_write ret c = Ok (c', true) /\ 0 < m_write_idx c' /\ outgoing c' <> [] /\
    m_sockfd c' = m_sockfd c.
Proof.
  intros Hw Hiv Hr Hn He. destruct (error_form ret) as [[[status title] form]|] eqn:Ef.
  - destruct (process_write_error ret status title form c Ef Hw Hiv) as (c' & E & Ho & Hi).
    pose proof (process_write_sock _ _ _ _ E). exists c'. rewrite Ho in Hi |- *. split_ands; try done.
    rewrite Hi. unfold status_line. cbn. lia.
  - destruct ret; try done. destruct Hr as (st & m & Hst & Hm).
    assert (st_size st <> 0) as Hsz by (intros E; apply He; split; [done|rewrite Hst; cbn; by rewrite E]).
    destruct (file_answer c st m Hw Hiv Hst Hsz Hm) as (c' & E & Ho & Hi & _ & _ & _ & Hs & _).
    exists c'. rewrite Ho, Hi, Hs. split_ands; [done|unfold status_line; cbn; lia|done|done].
Qed.

(** A request for an empty file gets no answer: [process_write] builds the
    headers and an empty page and then falls through to the failing case. *)
Theorem empty_file_refused c st :
  written [] c -> m_file_stat c = Some st -> st_size st = 0 ->
  exists c', process_write FILE_REQUEST c = Ok (c', false).
Proof.
  intros Hw Hst Hsz. unfold process_write, add_status_line, add_content.
  destruct (add_response_ok _ (status_line 200 ok_200_title) c Hw) as (c1 & E1 & Hw1 & Hc1);
    [apply Nat.ltb_lt; vm_compute; reflexivity|].
  unfold status_line in E1. rewrite (bind_ok _ _ _ E1).
  assert (m_file_stat c1 = Some st) as -> by by rewrite Hc1.
  cbn [from_opt mbind res_bind]. rewrite decide_False by lia.
  set (ok_string := lit "<html><body></body></html>").
  destruct (add_headers_ok _ (Z.of_nat (length ok_string)) c1 Hw1) as (c2 & E2 & Hw2 & Hc2);
    [destruct (m_linger c1); apply Nat.ltb_lt; vm_compute; reflexivity|].
  rewrite (bind_ok _ _ _ E2).
  destruct (decide (length (([] ++ status_line 200 ok_200_title) ++
    header_text (Z.of_nat (length ok_string)) (m_linger c1)) + length ok_string < 1023)%nat) as [H|H].
  - destruct (add_response_ok _ ok_string c2 Hw2 H) as (c3 & E3 & _). rewrite (bind_ok _ _ _ E3). eauto.
  - destruct (add_response_full _ ok_string c2 Hw2) as (c3 & E3 & _); [lia|].
    rewrite (bind_ok _ _ _ E3). eauto.
Qed.

(** [C15] process_rearms: one worker pass over a connection with nothing to send, as [init]
    leaves it.  When the request is not complete, the connection is kept and re-armed for
    input, with nothing queued.  When it is complete, an answer is queued and the
    connection is kept and re-armed for output; only a request for a file of length 0 has
    no answer: then the connection is taken from epoll, closed and counted off, and the
    re-arming is for descriptor -1.  Each pass re-arms once, as its last act; before that
    it may have closed the file it mapped. *)
Theorem process_rearms fs c w c' w' :
  written [] c -> length (m_iv c) = 2%nat -> m_sockfd c <> -1 -> process fs c w = Ok (c', w') ->
  exists c1 w1 ret l, process_read fs w c = Ok (c1, w1, ret) /\
    (l = [] \/ exists path, l = [Close (fs_open fs path)]) /\
    if decide (ret = NO_REQUEST) then
      trace w' = trace w ++ l ++ [rearm EPOLLIN c w] /\
      m_sockfd c' = m_sockfd c /\ m_user_count w' = m_user_count w /\ m_write_idx c' = 0
    else if decide (empty_file ret c1) then
      trace w' = trace w ++ l ++ [EpollDel (m_epollfd w) (m_sockfd c); Close (m_sockfd c); rearm EPOLLOUT c' w] /\
      m_sockfd c' = -1 /\ m_user_count w' = m_user_count w - 1
    else
      trace w' = trace w ++ l ++ [rearm EPOLLOUT c w] /\
      m_sockfd c' = m_sockfd c /\ m_user_count w' = m_user_count w /\
      0 < m_write_idx c' /\ outgoing c' <> [].
Proof.
  intros Hw Hiv Hneg H. unfold process in H. apply bind_ok_inv in H as ([[c1 w1] ret] & E & H).
  pose proof (process_read_result _ _ _ _ _ _ E) as Hres. pose proof E as Ew.
  apply pr_loop_world in Ew as [Hs Hl]. unfold wside in Hs. injection Hs as Hs Hb Hi Hv.
  assert (exists l, w1 = World (m_epollfd w) (m_user_count w) (trace w ++ l) /\
            (l = [] \/ exists path, l = [Close (fs_open fs path)])) as (l & -> & Hcl).
  { destruct Hl as [->|[path ->]]; [exists []|by eexists; split; [reflexivity|eauto]].
    rewrite app_nil_r. split; [by destruct w|by left]. }
  assert (Hw1 : written [] c1) by (destruct Hw; split; congruence).
  eexists c1, _, ret, l. split; [exact E|]. split; [done|]. unfold rearm. rewrite <- Hs.
  case_decide as Hn.
  { injection H as <- <-. unfold modfd, emit. cbn. rewrite <- app_assoc. split_ands; try done. apply (wr_idx _ _ Hw1). }
  case_decide as He.
  - destruct He as [-> He]. destruct (m_file_stat c1) as [st|] eqn:Est; [|done]. injection He as He.
    destruct (empty_file_refused c1 st Hw1 Est He) as (c2 & E2).
    pose proof (process_write_sock _ _ _ _ E2) as Hs2. rewrite (bind_ok _ _ _ E2) in H.
    unfold close_conn in H. cbn [andb negb] in H. rewrite Hs2, Hs in H.
    apply Z.eqb_neq in Hneg. rewrite Hneg in H. cbn [negb] in H. injection H as <- <-.
    unfold modfd, removefd, emit, set_user_count. cbn. rewrite <- !app_assoc, Hs. done.
  - destruct (process_write_queues ret c1 Hw1) as (c2 & E2 & Hpos & Ho & Hs2); [by rewrite Hv|done..|].
    rewrite (bind_ok _ _ _ E2) in H. injection H as <- <-. unfold modfd, emit. cbn.
    rewrite <- !app_assoc, Hs2. done.
Qed.
