(* ===== verification/HttpStream.v ===== *)
(** * Requests that arrive in pieces

    What [process_read] does with the beginning of a request, cut anywhere: it
    waits, and the connection stays as good as one to which everything came at
    once ([http_conn.cpp], through the definitions of HttpConn). *)

From S2P Require Import Prelude CString HttpConn HttpParse HttpServe.

(** ** Where a request may be cut *)

(** [part] does not hold a whole line. *)
Definition open_line (part : bytes) : Prop := exists k, next_line part = EndOpen k.

Lemma open_prefix (line part rest : bytes) :
  Forall (fun x => x ∉ CRLF) line -> part ++ rest = line ++ CRLF -> rest <> [] -> open_line part.
Proof.
  intros Hl. revert part. induction Hl as [|x line Hx _ IH]; intros part E Hr.
  - destruct part as [|a [|b [|]]]; try discriminate E; [by exists 0%nat|by injection E as -> ->; exists 0%nat|].
    injection E as -> -> ->. done.
  - destruct part as [|a part]; [by exists 0%nat|]. injection E as -> E.
    destruct (IH part E Hr) as [k Hk]. exists (S k).
    rewrite next_line_skip by (intros ->; apply Hx; vm_compute; set_solver). by rewrite Hk.
Qed.

Lemma with_crlf_app l1 l2 : with_crlf (l1 ++ l2) = with_crlf l1 ++ with_crlf l2.
Proof. unfold with_crlf. by rewrite fmap_app, join_app. Qed.

(** A strict prefix of some lines is whole lines and a part of the next one. *)
Lemma prefix_lines lines d rest :
  Forall (Forall (fun x => x ∉ CRLF)) lines -> d ++ rest = with_crlf lines -> rest <> [] ->
  exists l1 line l2 part, lines = l1 ++ line :: l2 /\ d = with_crlf l1 ++ part /\ open_line part.
Proof.
  intros Hls. revert d. induction Hls as [|line lines Hl _ IH]; intros d E Hr.
  - by apply app_eq_nil in E as [_ ->].
  - change (with_crlf (line :: lines)) with ((line ++ CRLF) ++ with_crlf lines) in E.
    destruct (decide (length d < length (line ++ CRLF))%nat) as [Hlt|Hge].
    + exists [], line, lines, d. split_ands; [done..|].
      apply (open_prefix line d (drop (length d) (line ++ CRLF))); [done| |].
      * rewrite <- (take_drop (length d) (line ++ CRLF)) at 2. f_equal.
        rewrite <- (take_app_le (line ++ CRLF) (with_crlf lines)), <- E by lia.
        by rewrite take_app_length.
      * intros H%(f_equal length). rewrite length_drop in H. cbn [length] in H. lia.
    + assert (exists d', d = (line ++ CRLF) ++ d') as [d' ->].
      { exists (drop (length (line ++ CRLF)) d).
        rewrite <- (take_drop (length (line ++ CRLF)) d) at 1. f_equal.
        rewrite <- (take_app_le d rest), E by lia. by rewrite take_app_length. }
      rewrite <- app_assoc in E. apply app_inv_head in E.
      destruct (IH d' E Hr) as (l1 & x & l2 & part & -> & -> & Ho).
      exists (line :: l1), x, l2, part. split_ands; [done| |done].
      change (with_crlf (line :: l1)) with ((line ++ CRLF) ++ with_crlf l1). by rewrite <- !app_assoc.
Qed.

(** ** Waiting *)

(** The body of the loop only returns with an answer. *)
Lemma pr_body_answers fs w c st c1 w1 : pr_body fs w c st <> Ok (Return c1 w1 NO_REQUEST).
Proof.
  intros E. unfold pr_body in E. cbn [m_check_state set_start_line] in E.
  destruct (m_check_state c); apply bind_ok_inv in E as ([c2 r2] & _ & E);
    repeat case_decide; simplify_eq;
    apply bind_ok_inv in E as ([[c3 w3] r3] & E3 & E); apply do_request_frame in E3 as [E3 _];
    simplify_eq; naive_solver congruence.
Qed.

(** A pass that stops for lack of data leaves everything but the parsed part
    alone. *)
Lemma pr_loop_waits n fs w c st c' w' :
  pr_loop n fs w c st = Ok (c', w', NO_REQUEST) ->
  w' = w /\ m_read_idx c' = m_read_idx c /\ erased (m_read_buf c) (m_read_buf c') /\
  wside c' = wside c.
Proof.
  revert c st. induction n as [|n IH]; intros c st H; [done|]. cbn [pr_loop] in H.
  apply bind_ok_inv in H as (r & E & H).
  assert (Hbody : forall c0 st0, pr_body fs w c0 st0 = Ok r -> w' = w /\ m_read_idx c' = m_read_idx c0 /\
            erased (m_read_buf c0) (m_read_buf c') /\ wside c' = wside c0).
  { intros c0 st0 E0. destruct r as [c1 st1|c1 w1 ret1].
    - apply pr_body_go in E0 as [[H1 _ _ _ H5 H6] _].
      apply IH in H as (-> & H7 & H8 & H9). split_ands; [done|by rewrite H7|by eapply erased_trans|by rewrite H9].
    - injection H as -> -> ->. by apply pr_body_answers in E0. }
  unfold pr_step in E. case_decide; [by eapply Hbody|].
  apply bind_ok_inv in E as ([c1 st1] & E1 & E).
  apply parse_line_loop_frame in E1 as (k & b & -> & He & _). case_decide.
  - apply Hbody in E as (-> & H2 & H3 & H4). split_ands; [done|by rewrite H2| |by rewrite H4].
    eapply erased_trans; [exact He|exact H3].
  - injection E as <-. injection H as <- <-. by split_ands.
Qed.

Lemma open_stops fs w n c pre part tail :
  layout c pre part tail -> last pre <> Some CR -> open_line part ->
  m_check_state c <> CHECK_STATE_CONNECT ->
  exists c', pr_loop (S n) fs w c LINE_OK = Ok (c', w, NO_REQUEST) /\
    m_check_state c' = m_check_state c.
Proof.
  intros Hl Hlast [k Hk] Hs. cbn [pr_loop]. unfold pr_step. rewrite decide_False by naive_solver.
  rewrite (bind_ok _ _ _ (parse_line_result _ _ _ _ Hl Hlast)). unfold line_result. rewrite Hk.
  rewrite decide_False by done. eexists. split; [reflexivity|done].
Qed.

Lemma open_headers hs fs w n c pre part tail u url :
  layout c pre (with_crlf hs ++ part) tail -> last pre <> Some CR -> open_line part ->
  m_start_line c = m_checked_idx c -> m_check_state c = CHECK_STATE_HEADER ->
  m_url c = Some u -> cstr pre u = Ok url ->
  Forall (fun h => plain h /\ h <> [] /\ has_length h = false) hs -> (length hs < n)%nat ->
  exists c', pr_loop n fs w c LINE_OK = Ok (c', w, NO_REQUEST) /\
    m_check_state c' = CHECK_STATE_HEADER.
Proof.
  revert n c pre. induction hs as [|h hs IH];
    intros n c pre Hl Hlast Ho Hstart Hst Hu Hurl Hhs Hn; (destruct n as [|n]; [cbn in Hn; lia|]).
  - rewrite <- Hst. eapply open_stops; [exact Hl|done..|by rewrite Hst].
  - apply Forall_cons in Hhs as [(Hp & Hne & Hlen) Hhs].
    change (with_crlf (h :: hs)) with ((h ++ CRLF) ++ with_crlf hs) in Hl. rewrite <- !app_assoc in Hl.
    destruct (header_step h fs w n c pre _ tail u url Hl Hlast Hstart Hst Hu Hurl Hp Hne Hlen)
      as (c2 & pre2 & -> & Hl2 & Hlast2 & Hs2 & Hst2 & _ & Hu2 & Hurl2 & _).
    cbn in Hn. apply (IH n c2 pre2); (done || lia).
Qed.

(** A pass that stops for lack of data has not looked at the file system or the
    world. *)
Lemma pr_body_go_any fs fs' w w' c st c1 st1 :
  pr_body fs w c st = Ok (Go c1 st1) -> pr_body fs' w' c st = Ok (Go c1 st1).
Proof.
  unfold pr_body. cbn [m_check_state set_start_line]. intros H.
  destruct (m_check_state c); apply bind_ok_inv in H as ([c2 r2] & E2 & H);
    rewrite (bind_ok _ _ _ E2); repeat case_decide; simplify_eq; try done;
    by apply bind_ok_inv in H as ([[c3 w3] r3] & _ & H).
Qed.

Lemma pr_loop_waits_any fs fs' w w' n c st c' :
  pr_loop n fs w c st = Ok (c', w, NO_REQUEST) -> pr_loop n fs' w' c st = Ok (c', w', NO_REQUEST).
Proof.
  revert c st. induction n as [|n IH]; intros c st H; [done|].
  assert (Hw : forall r, pr_step fs w c st = Ok r ->
    match r with
    | Go c1 st1 => pr_loop n fs w c1 st1 = Ok (c', w, NO_REQUEST)
    | Return c1 w1 ret => c1 = c' /\ w1 = w /\ ret = NO_REQUEST
    end -> pr_loop (S n) fs' w' c st = Ok (c', w', NO_REQUEST)).
  { intros r E Hr. cbn [pr_loop].
    destruct r as [c1 st1|c1 w1 ret].
    - assert (pr_step fs' w' c st = Ok (Go c1 st1)) as ->; [|by apply IH].
      revert E. unfold pr_step. case_decide; [by apply pr_body_go_any|].
      intros E. apply bind_ok_inv in E as ([c2 st2] & E2 & E). rewrite (bind_ok _ _ _ E2).
      case_decide; [by eapply pr_body_go_any|done].
    - destruct Hr as (-> & -> & ->).
      unfold pr_step in E |- *. case_decide; [by apply pr_body_answers in E|].
      apply bind_ok_inv in E as ([c2 st2] & E2 & E). rewrite (bind_ok _ _ _ E2).
      case_decide; [by apply pr_body_answers in E|]. by injection E as ->. }
  pose proof H as H'. cbn [pr_loop] in H'. apply bind_ok_inv in H' as (r & E & H').
  apply (Hw r E). destruct r as [c1 st1|c1 w1 ret1]; [done|]. by injection H' as -> -> ->.
Qed.

Lemma process_read_waits fs w c c' w' :
  process_read fs w c = Ok (c', w', NO_REQUEST) ->
  w' = w /\ m_read_idx c' = m_read_idx c /\ length (m_read_buf c') = length (m_read_buf c) /\
  wside c' = wside c.
Proof.
  unfold process_read. intros H. apply pr_loop_waits in H as (H1 & H2 & [H3 _] & H4). auto.
Qed.

Lemma process_read_waits_any fs fs' w w' c c' :
  process_read fs w c = Ok (c', w, NO_REQUEST) -> process_read fs' w' c = Ok (c', w', NO_REQUEST).
Proof. unfold process_read. apply pr_loop_waits_any. Qed.

(** ** Requests *)

(** A request: its line, the parts the line has, and the other header lines. *)
Record request := Request {
  rq_line : bytes;
  rq_parts : request_parts;
  rq_headers : list bytes }.

Definition rq_bytes (r : request) : bytes := with_crlf (rq_line r :: rq_headers r) ++ CRLF.
Definition rq_path (r : request) : bytes := real_file (rp_url (rq_parts r)).
Definition rq_stays (r : request) : bool := existsb keep_alive (rq_headers r).

(** It leaves room in the read buffer, its line is one the server accepts and no
    header announces a body. *)
Record well_formed (r : request) : Prop := {
  wf_room : (length (rq_bytes r) < 2048)%nat;
  wf_plain : plain (rq_line r);
  wf_line : request_line (rq_line r) (rq_parts r);
  wf_headers : Forall (fun h => plain h /\ h <> [] /\ has_length h = false) (rq_headers r) }.

(** The file system has the file that is asked for, not empty. *)
Record has_file (fs : fsys) (r : request) (st : stat_t) (b : bytes) : Prop := {
  hf_answer : answer fs (rq_path r) = FILE_REQUEST;
  hf_stat : fs_stat fs (rq_path r) = Some st;
  hf_size : st_size st <> 0;
  hf_mmap : fs_mmap fs (fs_open fs (rq_path r)) (st_size st) = Mapped b }.

(** What the client is to receive. *)
Definition file_response (r : request) (st : stat_t) (b : bytes) : bytes :=
  status_line 200 ok_200_title ++ header_text (to_int (st_size st)) (rq_stays r) ++
  take (Z.to_nat (st_size st)) b.

(** [waits d c0 c]: a pass over [d], received by the fresh connection [init c0],
    stops for lack of data and leaves [c]. *)
Definition waits (d : bytes) (c0 c : http_conn) : Prop :=
  m_check_state c <> CHECK_STATE_CONNECT /\
  forall fs w, process_read fs w (received d (init c0)) = Ok (c, w, NO_REQUEST).

(** [heard d c0 c]: the workers have seen [d] since the connection was reset as
    [init c0], in as many passes as it may have been, and wait for more. *)
Definition heard (d : bytes) (c0 c : http_conn) : Prop :=
  d = [] /\ c = init c0 \/ waits d c0 c.

Lemma rq_lines r : rq_bytes r = with_crlf ((rq_line r :: rq_headers r) ++ [[]]).
Proof. unfold rq_bytes. by rewrite with_crlf_app. Qed.

(** The beginning of a request is not answered, wherever it is cut. *)
Lemma prefix_waits r c0 d rest :
  well_formed r -> d ++ rest = rq_bytes r -> rest <> [] ->
  exists c, waits d c0 c.
Proof.
  intros [Hroom Hp Hr Hhs] E Hrest.
  destruct (prefix_lines ((rq_line r :: rq_headers r) ++ [[]]) d rest) as (l1 & x & l2 & part & El & Ed & Ho);
    [|rewrite <- rq_lines; exact E|exact Hrest|].
  { apply Forall_app. split; [|repeat constructor].
    constructor; [apply Hp|]. eapply Forall_impl; [exact Hhs|]. intros h [[? _] _]. done. }
  assert (Hlen : (length d <= 2048)%nat) by (rewrite <- E, length_app in Hroom; lia).
  pose proof (init_layout d c0 Hlen) as Hl. set (c := received d (init c0)) in *.
  assert (Hany : forall fs w c', process_read fs w c = Ok (c', w, NO_REQUEST) ->
            m_check_state c' <> CHECK_STATE_CONNECT -> waits d c0 c').
  { intros fs w c' H Hs. split; [done|]. intros fs' w'. exact (process_read_waits_any fs fs' w w' c c' H). }
  set (fs := Fsys (fun _ => None) (fun _ => 0) (fun _ _ => MapNull)). set (w := World 0 0 []).
  destruct l1 as [|y hs].
  - cbn [with_crlf fmap list_fmap mjoin list_join app] in Ed. subst part.
    destruct (pr_fuel c) as [|n] eqn:En; [done|].
    destruct (open_stops fs w n c [] d _ Hl) as (c' & E' & Hs); [done..|].
    exists c'. eapply (Hany fs w); [unfold process_read; rewrite En; exact E'|]. rewrite Hs. done.
  - injection El as <- El.
    assert (exists hs', rq_headers r = hs ++ hs') as [hs' Ehs].
    { destruct (decide (l2 = [])) as [->|Hne].
      - apply app_inj_tail in El as [-> _]. exists []. by rewrite app_nil_r.
      - destruct (exists_last Hne) as (l2' & z & ->).
        rewrite app_comm_cons, app_assoc in El. apply app_inj_tail in El as [-> _]. by exists (x :: l2'). }
    rewrite Ehs in Hhs. apply Forall_app in Hhs as [Hhs _].
    change (with_crlf (rq_line r :: hs)) with ((rq_line r ++ CRLF) ++ with_crlf hs) in Ed.
    rewrite Ed, <- !app_assoc in Hl.
    assert (length hs <= length (with_crlf hs))%nat as Hhl.
    { clear. induction hs as [|h hs IH]; [done|].
      change (with_crlf (h :: hs)) with ((h ++ CRLF) ++ with_crlf hs). rewrite !length_app. cbn. lia. }
    destruct (pr_fuel c) as [|n] eqn:En; [done|].
    assert (length hs < n)%nat as Hn.
    { apply eq_add_S in En. rewrite <- En. destruct Hl as [_ Hc Hrd]. rewrite Hc, Hrd.
      rewrite !length_app. cbn [length CRLF]. lia. }
    destruct (request_line_loop fs w n c _ _ _ (rq_parts r) Hl eq_refl eq_refl Hp Hr)
      as (c1 & pre & E1 & Hl1 & Hlast & Hs1 & Hst1 & _ & _ & _ & _ & _ & u & Hu & Hurl).
    destruct (open_headers hs fs w n c1 pre part _ u (rp_url (rq_parts r)) Hl1 Hlast Ho Hs1 Hst1 Hu Hurl Hhs Hn)
      as (c' & E' & Hs').
    exists c'. apply (Hany fs w); [unfold process_read; by rewrite En, E1|by rewrite Hs'].
Qed.

(** ** What the workers have seen *)

Lemma init_pwf_received d c0 : (length d <= 2048)%nat -> hwf (received d (init c0)).
Proof.
  intros Hd. apply received_hwf; [apply init_hwf|]. unfold fits.
  rewrite (hwf_buf _ (init_hwf c0)). change (Z.to_nat READ_BUFFER_SIZE) with 2048%nat.
  change (m_read_idx (init c0)) with 0. lia.
Qed.

Lemma heard_facts d c0 c :
  heard d c0 c -> (length d <= 2048)%nat ->
  m_read_idx c = Z.of_nat (length d) /\ length (m_read_buf c) = 2048%nat /\
  wside c = wside (init c0).
Proof.
  assert (Hb : forall x, hwf x -> length (m_read_buf x) = 2048%nat)
    by (intros x Hx; apply (hwf_buf _ Hx)).
  intros [[-> ->]|[_ H]] Hd.
  - split_ands; [reflexivity|apply Hb, init_hwf|reflexivity].
  - pose proof (process_read_waits _ _ _ _ _
      (H (Fsys (fun _ => None) (fun _ => 0) (fun _ _ => MapNull)) (World 0 0 []))) as (_ & -> & -> & ->).
    split_ands; [reflexivity|by apply Hb, init_pwf_received|apply wside_received].
Qed.

(** Going on after [e] has arrived is as if everything had come at once. *)
Lemma heard_resumes fs w d e c0 c :
  heard d c0 c -> (length (d ++ e) <= 2048)%nat ->
  process_read fs w (received e c) = process_read fs w (received (d ++ e) (init c0)).
Proof.
  rewrite length_app. intros [[-> ->]|[Hs H]] Hlen; [done|].
  assert (Hd : (length d <= 2048)%nat) by lia. pose proof (init_pwf_received d c0 Hd) as Hw.
  rewrite <- received_app.
  - symmetry. apply (process_read_goes_on fs w _ c w e); [apply Hw| |done|apply H|done].
    unfold fits. rewrite (hwf_buf _ Hw). change (Z.to_nat READ_BUFFER_SIZE) with 2048%nat.
    change (m_read_idx (received d (init c0))) with (Z.of_nat (length d)). lia.
  - done.
  - unfold fits. rewrite (hwf_buf _ (init_hwf c0)). change (Z.to_nat READ_BUFFER_SIZE) with 2048%nat.
    change (m_read_idx (init c0)) with 0. rewrite length_app. lia.
Qed.

Lemma process_ext fs w c c' :
  process_read fs w c = process_read fs w c' -> process fs c w = process fs c' w.
Proof. unfold process. by intros ->. Qed.

(** As long as the request is not complete, a worker's pass asks for more. *)
Lemma heard_waits d e rest c0 c r :
  heard d c0 c -> well_formed r -> (d ++ e) ++ rest = rq_bytes r -> rest <> [] ->
  exists c', heard (d ++ e) c0 c' /\ m_sockfd c' = m_sockfd c /\
    forall fs w, process fs (received e c) w = Ok (c', modfd (m_epollfd w) (m_sockfd c) EPOLLIN w).
Proof.
  intros Hh Hr E Hne. destruct (prefix_waits r c0 (d ++ e) rest Hr E Hne) as [c' Hc'].
  pose proof (wf_room _ Hr) as Hroom. rewrite <- E, length_app in Hroom.
  assert (Hd : (length d <= 2048)%nat) by (rewrite length_app in Hroom; lia).
  assert (Hde : (length (d ++ e) <= 2048)%nat) by lia.
  exists c'. split; [by right|].
  destruct (heard_facts d c0 c Hh Hd) as (_ & _ & [= H1 _ _ _]).
  destruct (heard_facts (d ++ e) c0 c' (or_intror Hc') Hde) as (_ & _ & [= H2 _ _ _]).
  assert (Hsock : m_sockfd c' = m_sockfd c) by congruence.
  split; [done|]. intros fs w. unfold process. rewrite (heard_resumes fs w d e c0 c Hh Hde).
  rewrite (bind_ok _ _ _ (proj2 Hc' fs w)). by rewrite decide_True, Hsock.
Qed.

(** When it is complete, the response is queued. *)
Lemma heard_answered fs w d e c0 c r st b :
  heard d c0 c -> well_formed r -> d ++ e = rq_bytes r -> has_file fs r st b ->
  length (m_iv c0) = 2%nat ->
  exists c1, process fs (received e c) w =
      Ok (c1, modfd (m_epollfd w) (m_sockfd c0) EPOLLOUT (emit (Close (fs_open fs (rq_path r))) w)) /\
    outgoing c1 = file_response r st b /\ 0 < m_write_idx c1 <= Z.of_nat (length (file_response r st b)) /\
    is_Some (m_iv_count c1) /\ mapping_known c1 /\ m_sockfd c1 = m_sockfd c0 /\
    m_linger c1 = rq_stays r /\ length (m_iv c1) = 2%nat.
Proof.
  intros Hh [Hroom Hp Hl Hhs] E [Ha Hst Hsz Hmap] Hiv.
  assert (Hde : (length (d ++ e) <= 2048)%nat) by (rewrite E; lia).
  unfold rq_bytes in Hroom, E. rewrite <- (app_nil_r CRLF) in Hroom, E.
  destruct (file_queued fs c0 w (rq_line r) (rq_headers r) [] (rq_parts r) st b) as (c1 & E1 & H);
    [lia|done..|].
  exists c1. split; [|exact H].
  rewrite (process_ext _ _ _ _ (heard_resumes fs w d e c0 c Hh Hde)), E. exact E1.
Qed.
