(* ===== verification/HttpExamples.v ===== *)
(** * The HTTP connection on concrete requests

    A request followed through the state machine, and the theorems of
    HttpParse.v and HttpServe.v applied to it. *)

From S2P Require Import Prelude CString HttpConn HttpParse HttpServe.

(** ** A file system, a connection and a request *)

Definition w0 : world := World 3 1 [].
Definition a_stat : stat_t := Stat 33188 5.   (** a regular file, rw-r--r-- *)
Definition fs0 : fsys :=
  Fsys (fun p => if decide (p = lit "./a") then Some a_stat else None)
       (fun _ => 9) (fun _ _ => Mapped (lit "hello")).
Definition line0 : bytes := lit "GET /a HTTP/1.1".
Definition parts0 : request_parts :=
  RequestParts (lit "GET") SP [] (lit "/a") SP [] (lit "HTTP/1.1") 0.
Definition headers0 : list bytes := [lit "Host: x"; lit "Connection: keep-alive"].
Definition input0 : bytes := with_crlf (line0 :: headers0) ++ CRLF ++ [].
Definition conn0 : http_conn := fst (init_conn 7 0 new_conn w0).
Definition full0 : http_conn := received input0 conn0.

Ltac decided := try unfold fits; apply (bool_decide_unpack _); vm_compute; exact I.

Lemma parts0_ok : request_line line0 parts0.
Proof.
  split; try reflexivity; try decided.
  intros x Hx. injection Hx as <-. decided.
Qed.
Lemma line0_plain : plain line0.
Proof. split; decided. Qed.
Lemma headers0_ok : Forall (fun h => plain h /\ h <> [] /\ has_length h = false) headers0.
Proof. repeat constructor; try discriminate; try decided. Qed.

(** What a client would see. *)
Example served_text :
  (c ← process fs0 full0 w0; '(c, w, b) ← write [Wrote 500] (fst c) (snd c);
   Ok (string_of_list_ascii (sent_on 7 (trace w)), b)) =
  Ok (string_of_list_ascii (lit "HTTP/1.1 200 OK" ++ CRLF ++ lit "Content-Length: 5" ++ CRLF ++
        lit "Connection: keep-alive" ++ CRLF ++ CRLF ++ lit "hello"), true).
Proof. vm_compute. reflexivity. Qed.

(** ** The theorems on it *)

Lemma conn0_hwf : hwf conn0.
Proof. apply (init_hwf (set_address 0 (set_sockfd 7 new_conn))). Qed.

Lemma process_read_resumes_witness : exists c', 
  process_read fs0 w0 (received (lit "GET /a HTT") conn0) = Ok (c', w0, NO_REQUEST) /\
  process_read fs0 w0 (received (drop 10 input0) (received (lit "GET /a HTT") conn0)) =
  process_read fs0 w0 (received (drop 10 input0) c').
Proof.
  pose proof (received_hwf (lit "GET /a HTT") conn0 conn0_hwf ltac:(decided)) as Hw.
  set (c := received (lit "GET /a HTT") conn0) in *.
  eexists. split; [vm_compute; reflexivity|].
  apply (process_read_resumes fs0 w0 c _ w0 (drop 10 input0)).
  - apply Hw.
  - decided.
  - discriminate.
  - vm_compute. reflexivity.
  - discriminate.
Defined.

Lemma process_read_safe_witness :
  (exists r, process_read fs0 w0 full0 = Ok r) \/
  (exists c1 st1, rtc (pr_go fs0 w0) (full0, LINE_OK) (c1, st1) /\
     m_check_state c1 = CHECK_STATE_CONNECT /\ bad_length c1).
Proof. apply process_read_safe. apply received_hwf; [apply conn0_hwf|decided]. Defined.

Lemma request_answered_witness : exists c' w',
  process_read fs0 w0 (received (with_crlf (line0 :: headers0) ++ CRLF ++ []) (init new_conn)) =
    Ok (c', w', answer fs0 (real_file (rp_url parts0))) /\ m_linger c' = existsb keep_alive headers0.
Proof.
  apply request_answered; [decided|apply line0_plain|apply parts0_ok|apply headers0_ok].
Defined.

Lemma parse_request_line_correct_witness :
  (forall p, request_line line0 p ->
     parse_request_line 0 (set_read_buf (line0 ++ [NUL]) conn0) =
       Ok (accepted [] [] p (set_read_buf (line0 ++ [NUL]) conn0), NO_REQUEST)) /\
  ((forall p, ~ request_line line0 p) ->
     exists c', parse_request_line 0 (set_read_buf (line0 ++ [NUL]) conn0) = Ok (c', BAD_REQUEST)).
Proof.
  apply (parse_request_line_correct (set_read_buf (line0 ++ [NUL]) conn0) [] line0 []);
    [reflexivity|apply line0_plain].
Defined.

Lemma full0_layout : layout full0 [] input0 (replicate (2048 - length input0) NUL).
Proof. apply (init_layout input0 (set_address 0 (set_sockfd 7 new_conn))). decided. Qed.

Lemma parse_line_correct_witness : exists c', parse_line full0 = Ok (c', LINE_OK) /\
  input0 = line0 ++ CRLF ++ drop 17 input0 /\ Forall (fun x => x ∉ CRLF) line0 /\
  layout c' ([] ++ line0 ++ [NUL; NUL]) (drop 17 input0) (replicate (2048 - length input0) NUL).
Proof.
  pose proof (parse_line_correct full0 [] input0 _ full0_layout ltac:(discriminate)) as H.
  assert (next_line input0 = EndOk line0 (drop 17 input0)) as E by (vm_compute; reflexivity).
  rewrite E in H. exact H.
Defined.

(** After the headers of a request with a body of 8 bytes. *)
Definition posting : http_conn :=
  match process_read fs0 w0 (received
    (with_crlf [line0; lit "Content-Length: 8"] ++ CRLF) conn0) with
  | Ok (c, _, _) => c
  | Err _ => conn0
  end.

Lemma posting_pwf : pwf posting.
Proof. split; [decided|intros _; vm_compute; discriminate]. Qed.

Lemma body_in_two_pieces_witness : exists c1 c2,
  process_read fs0 w0 (received (lit "abcd") posting) = Ok (c1, w0, NO_REQUEST) /\
  process_read fs0 w0 (received (lit "efgh") c1) = Ok (c2, w0, NO_REQUEST).
Proof.
  apply body_in_two_pieces; [apply posting_pwf|decided..].
Defined.

Lemma read_safe_witness :
  match read [Received input0; Again] conn0 with Ok (c', _) => hwf c' | Err f => f = OutOfFuel end.
Proof. apply read_safe, conn0_hwf. Defined.

Lemma conn0_written : written [] conn0.
Proof. apply written_nil; reflexivity. Qed.

Lemma add_response_bounded_witness : exists c' ok, add_response (lit "hello") conn0 = Ok (c', ok) /\
  ok = bool_decide (length (A:=ascii) [] + length (lit "hello") < 1023)%nat /\
  written (if ok then [] ++ lit "hello" else []) c' /\ wrote conn0 c'.
Proof. apply add_response_bounded, conn0_written. Defined.

Lemma process_write_error_witness : exists c', process_write NO_RESOURCE conn0 = Ok (c', true) /\
  outgoing c' = status_line 404 error_404_title ++
    header_text (Z.of_nat (length error_404_form)) false ++ error_404_form /\
  m_write_idx c' = Z.of_nat (length (outgoing c')).
Proof. apply (process_write_error NO_RESOURCE); [reflexivity|apply conn0_written|reflexivity]. Defined.

(** The connection with its answer queued. *)
Definition answered : http_conn * world :=
  match process fs0 full0 w0 with Ok r => r | Err _ => (conn0, w0) end.

Lemma answered_mapping : mapping_known (fst answered).
Proof. split; vm_compute; eexists; reflexivity. Qed.

Lemma write_completes_witness : exists c' w',
  write [Wrote 40] (fst answered) (snd answered) = Ok (c', w', m_linger (fst answered)) /\
  trace w' = trace (snd answered) ++ Sent 7 (take 40 (outgoing (fst answered))) ::
    unmap_calls (fst answered) ++ [rearm EPOLLIN (fst answered) (snd answered)] /\
  m_user_count w' = m_user_count (snd answered) /\
  c' = (if m_linger (fst answered) then init else id)
         (set_file_address (Some MapNull) (fst answered)).
Proof.
  apply (write_completes 40 [] (fst answered) (snd answered));
    [decided|decided|vm_compute; eexists; reflexivity|apply answered_mapping].
Defined.

Lemma short_write_repeats_witness : exists w1 c' w' b,
  write [Wrote 9; WAgain] (fst answered) (snd answered) = Ok (fst answered, w1, true) /\
  write [Wrote 67] (fst answered) w1 = Ok (c', w', b) /\ True.
Proof.
  destruct (short_write_repeats 9 67 [] (fst answered) (snd answered))
    as (w1 & c' & w' & b & E1 & E2 & _);
    [decided|decided|decided|vm_compute; eexists; reflexivity|apply answered_mapping|].
  exists w1, c', w', b. auto.
Defined.

Lemma file_served_witness : exists c1 w1 c2 w2 l,
  process fs0 (received (with_crlf (line0 :: headers0) ++ CRLF ++ []) (init new_conn)) w0 =
    Ok (c1, w1) /\
  write [Wrote (Z.of_nat (length (status_line 200 ok_200_title ++
    header_text (to_int 5) (existsb keep_alive headers0) ++ take (Z.to_nat 5) (lit "hello"))))] c1 w1
    = Ok (c2, w2, existsb keep_alive headers0) /\
  trace w2 = trace w1 ++ Sent 0 (status_line 200 ok_200_title ++
    header_text (to_int 5) (existsb keep_alive headers0) ++ take (Z.to_nat 5) (lit "hello")) :: l.
Proof.
  apply (file_served fs0 new_conn w0 line0 headers0 [] parts0 a_stat (lit "hello") []);
    [decided|apply line0_plain|apply parts0_ok|apply headers0_ok|vm_compute; reflexivity
    |vm_compute; reflexivity|discriminate|reflexivity|reflexivity].
Defined.

(** The complete request is answered; the same for a file of length 0 is not. *)
Definition fs_empty : fsys :=
  Fsys (fun p => if decide (p = lit "./a") then Some (Stat 33188 0) else None) (fun _ => 9) (fun _ _ => MapFailed).

Lemma process_rearms_witness :
  (exists c' w', process fs0 full0 w0 = Ok (c', w') /\
     exists l, trace w' = trace w0 ++ l ++ [rearm EPOLLOUT full0 w0] /\ m_sockfd c' = 7 /\ outgoing c' <> []) /\
  (exists c' w', process fs_empty full0 w0 = Ok (c', w') /\
     exists l, trace w' = trace w0 ++ l ++ [EpollDel 3 7; Close 7; rearm EPOLLOUT c' w0] /\ m_sockfd c' = -1).
Proof.
  assert (Hw : written [] full0) by (by apply written_nil).
  assert (Hiv : length (m_iv full0) = 2%nat) by (vm_compute; reflexivity).
  split.
  - destruct (process fs0 full0 w0) as [[c' w']|] eqn:E; [|vm_compute in E; discriminate E].
    exists c', w'. split; [done|].
    destruct (process_rearms fs0 full0 w0 c' w' Hw Hiv ltac:(decided) E) as (c1 & w1 & ret & l & E1 & _ & H).
    assert (ret = FILE_REQUEST /\ st_size <$> m_file_stat c1 = Some 5) as [-> Hst]
      by (vm_compute in E1; injection E1 as <- _ <-; by split).
    rewrite decide_False in H by done. rewrite decide_False in H by (intros [_ ?]; congruence).
    destruct H as (Ht & Hs & _ & _ & Ho). exists l. by split_ands.
  - destruct (process fs_empty full0 w0) as [[c' w']|] eqn:E; [|vm_compute in E; discriminate E].
    exists c', w'. split; [done|].
    destruct (process_rearms fs_empty full0 w0 c' w' Hw Hiv ltac:(decided) E) as (c1 & w1 & ret & l & E1 & _ & H).
    assert (empty_file ret c1 /\ ret <> NO_REQUEST) as [He Hn]
      by (vm_compute in E1; injection E1 as <- _ <-; by repeat split).
    rewrite decide_False, decide_True in H by done.
    destruct H as (Ht & Hs & _). exists l. by split_ands.
Defined.
