(* ===== verification/HttpDemo.v ===== *)
(** * The first HTTP programs (socket/http)

    http.c sends one file with [writev]; http_readParse.cpp is the first draft of the
    line and request-line parsers of the web server, compared here with the
    final ones in HttpConn. *)

From S2P Require Import Prelude CString HttpConn.

(** ** http.c *)
Module Sender.

Definition BUFFER_SIZE : nat := 1024.
#[global] Arguments BUFFER_SIZE : simpl never.

Definition status_line : list bytes := [lit "200 OK"; lit "500 Internal server error"].

(** What the file system says: the size, whether it is a regular file others may
    read, and what [read] delivers ([None]: an error, also of [open]). *)
Record file := File { st_size : nat; regular : bool; readable : bool; contents : option bytes }.

(** [snprintf] at offset [len] with room for [n] bytes: the buffer and the result. *)
Definition snprintf (buf : bytes) (len n : nat) (text : bytes) : res (bytes * nat) :=
  if decide (n = 0%nat) then Ok (buf, length text)
  else
    buf ← awrite buf (Z.of_nat len) (take (n - 1) text ++ [NUL]);
    Ok (buf, length text).

(** [file_buf]: [st_size + 1] zero bytes, and over them what was read. *)
Definition file_buf (f : file) (data : bytes) : res bytes :=
  awrite (replicate (st_size f + 1) NUL) 0 (take (st_size f) data).

(** The bytes given to [writev] or [send] for the result of [stat]. *)
Definition respond (st : option file) : res bytes :=
  let header_buf := replicate BUFFER_SIZE NUL in
  loaded ← (match st with
            | None => Ok None
            | Some f =>
                if regular f && readable f then
                  match contents f with
                  | None => Ok None
                  | Some data => b ← file_buf f data; Ok (Some (f, b))
                  end
                else Ok None
            end);
  match loaded with
  | Some (f, file_buf) =>
      '(h, len) ← snprintf header_buf 0 (BUFFER_SIZE - 1)
                    (lit "HTTP/1.1" ++ [SP] ++ default [] (status_line !! 0%nat) ++ CRLF);
      '(h, ret) ← snprintf h len (BUFFER_SIZE - 1 - len)
                    (lit "Content-Length: " ++ dec (Z.of_nat (st_size f)) ++ CRLF);
      let len := (len + ret)%nat in
      '(h, _) ← snprintf h len (BUFFER_SIZE - 1 - len) CRLF;
      head ← cstr h 0;
      body ← cstr file_buf 0;
      Ok (head ++ body)
  | None =>
      '(h, len) ← snprintf header_buf 0 (BUFFER_SIZE - 1)
                    (lit "HTTP/1.1" ++ [SP] ++ default [] (status_line !! 1%nat) ++ CRLF);
      '(h, ret) ← snprintf h len (BUFFER_SIZE - 1 - len) CRLF;
      Ok (take ret h)
  end.

(** The calls of [main], with their results: the status and what was sent. *)
Definition main (argc sock bnd lst connfd : Z) (st : option file) : res (Z * bytes) :=
  if decide (argc <> 3) then Ok (1, [])
  else
    _ ← assert_that (sock >= 0);
    _ ← assert_that (bnd <> -1);
    _ ← assert_that (lst <> -1);
    if decide (connfd < 0) then Ok (0, [])
    else sent ← respond st; Ok (0, sent).

(** *** What is sent *)

Lemma snprintf_at pre text n r :
  (length text < n)%nat -> (n <= S r)%nat ->
  snprintf (pre ++ replicate (S r) NUL) (length pre) n text =
  Ok ((pre ++ text) ++ replicate (S r - length text) NUL, length text).
Proof.
  intros Hn Hr. unfold snprintf. rewrite decide_False by lia. rewrite take_ge by lia.
  replace (S r) with ((length text + 1) + (r - length text))%nat at 1 by lia.
  rewrite replicate_add, awrite_at by (rewrite ?length_replicate, ?length_app; cbn; lia).
  cbn [mbind res_bind]. replace (S r - length text)%nat with (S (r - length text)) by lia.
  cbn [replicate]. by rewrite <- !app_assoc.
Qed.

(** The number of digits of a size, as far as it matters. *)
Lemma dec_size_length n : (Z.of_nat n <= INT_MAX) -> (length (dec (Z.of_nat n)) <= 11)%nat.
Proof. intros H. apply dec_length. unfold int_range, INT_MIN. lia. Qed.

Lemma pretty_N_go_no_nul x : forall s, NUL ∉ lit s -> NUL ∉ lit (pretty_N_go x s).
Proof.
  induction (N.lt_wf_0 x) as [x _ IH]. intros s Hs. destruct (decide (x = 0%N)) as [->|Hne].
  - by rewrite pretty_N_go_0.
  - rewrite pretty_N_go_step by lia. apply IH; [apply N.div_lt; lia|].
    cbn [list_ascii_of_string]. rewrite not_elem_of_cons. split; [|done].
    unfold pretty_N_char. by repeat case_match.
Qed.

Lemma dec_no_nul n : NUL ∉ dec (Z.of_nat n).
Proof.
  unfold dec. destruct (Z.of_nat n) as [|p|p] eqn:E; [decided| |lia].
  change (pretty (Z.pos p)) with (pretty (N.pos p)). unfold pretty, pretty_N.
  rewrite decide_False by done. apply pretty_N_go_no_nul. decided.
Qed.

(** file_sent: for a regular readable file the client is sent the status line,
    the file's size as Content-Length, and the contents, but only up to their first
    NUL: [strlen] stands in for the length. *)
Theorem file_sent f data t :
  regular f = true -> readable f = true -> contents f = Some data -> length data = st_size f ->
  Z.of_nat (st_size f) <= INT_MAX -> upto_nul (data ++ [NUL]) = Some t ->
  respond (Some f) =
  Ok (lit "HTTP/1.1 200 OK" ++ CRLF ++ lit "Content-Length: " ++ dec (Z.of_nat (st_size f)) ++
      CRLF ++ CRLF ++ t).
Proof.
  intros Hr Hd Hc Hlen Hmax Ht. unfold respond. rewrite Hr, Hd, Hc. cbn [andb].
  pose proof (dec_size_length _ Hmax) as Hdec. set (d := dec (Z.of_nat (st_size f))) in *.
  assert (Hbody : file_buf f data = Ok (data ++ [NUL])).
  { unfold file_buf. rewrite take_ge by lia. rewrite replicate_add, <- Hlen.
    apply (awrite_at [] (replicate (length data) NUL) (replicate 1 NUL)); [done|]. by rewrite length_replicate. }
  rewrite Hbody. cbn [mbind res_bind]. change BUFFER_SIZE with 1024%nat.
  set (l1 := lit "HTTP/1.1" ++ [SP] ++ default [] (status_line !! 0%nat) ++ CRLF).
  assert (Hl1 : length l1 = 17%nat) by reflexivity.
  pose proof (snprintf_at [] l1 1023 1023 ltac:(lia) ltac:(lia)) as E1. cbn [app length] in E1.
  rewrite (bind_ok _ _ _ E1), Hl1. cbv beta iota. clear E1.
  set (l2 := lit "Content-Length: " ++ d ++ CRLF).
  assert (Hl2 : (length l2 <= 29)%nat) by (unfold l2; rewrite !length_app; cbn; lia).
  pose proof (snprintf_at l1 l2 1006 1006 ltac:(lia) ltac:(lia)) as E2. rewrite Hl1 in E2.
  fold d. fold l2. change (1024 - 17)%nat with 1007%nat. change (1024 - 1 - 17)%nat with 1006%nat.
  rewrite (bind_ok _ _ _ E2). cbv beta iota zeta. clear E2.
  pose proof (snprintf_at (l1 ++ l2) CRLF (1006 - length l2) (1006 - length l2)
    ltac:(change (length CRLF) with 2%nat; lia) ltac:(lia)) as E3.
  rewrite length_app, Hl1 in E3. replace (1007 - length l2)%nat with (S (1006 - length l2)) by lia.
  replace (1024 - 1 - (17 + length l2))%nat with (1006 - length l2)%nat by lia.
  rewrite (bind_ok _ _ _ E3). cbv beta iota zeta. clear E3.
  replace (S (1006 - length l2) - length CRLF)%nat with (S (1004 - length l2))
    by (change (length CRLF) with 2%nat; lia).
  cbn [replicate].
  assert (Hn : NUL ∉ (l1 ++ l2) ++ CRLF).
  { pose proof (dec_no_nul (st_size f)) as Hd0. fold d in Hd0. unfold l2. rewrite !elem_of_app.
    intros [[Hin|[Hin|[Hin|Hin]]]|Hin]; [revert Hin; decided|revert Hin; decided|by apply Hd0|revert Hin; decided|revert Hin; decided]. }
  assert (Hcstr : forall b x, upto_nul b = Some x -> cstr b 0 = Ok x).
  { intros b x Hx. unfold cstr. by rewrite decide_True, drop_0, Hx by lia. }
  rewrite (bind_ok _ _ _ (Hcstr _ _ (upto_nul_app _ (replicate (1004 - length l2) NUL) Hn))).
  rewrite (bind_ok _ _ _ (Hcstr _ _ Ht)). unfold l1, l2. by rewrite <- !app_assoc.
Qed.

(** error_truncated: when the file cannot be read, the client is sent the first
    two characters of the status line and nothing else: the length given to [send]
    is that of the last piece written, not of the header. *)
Theorem error_truncated st :
  match st with
  | None => True
  | Some f => regular f = false \/ readable f = false \/ contents f = None
  end ->
  respond st = Ok (lit "HT").
Proof.
  intros H. unfold respond.
  assert (forall k : option (file * bytes) -> res bytes, (match st with
            | None => Ok None
            | Some f =>
                if regular f && readable f then
                  match contents f with
                  | None => Ok None
                  | Some data => b ← file_buf f data; Ok (Some (f, b))
                  end
                else Ok None
            end ≫= k) = k None) as Hn.
  { intros k. destruct st as [f|]; [|done].
    destruct (regular f), (readable f), (contents f); try done. naive_solver. }
  rewrite Hn. vm_compute. reflexivity.
Qed.

End Sender.

(** ** http_readParse.cpp *)
Module Draft.

Inductive HTTP_CODE :=
  | NO_REQUEST | GET_REQUEST | BAD_REQUEST | FORBIDDEN_REQUEST | INTERNAL_ERROR | CLOSED_CONNECTION.

(** The line reader; the index is a copy, so the caller only sees the buffer and the
    status.  [n] bounds the loop. *)
Fixpoint parse_line_loop (n : nat) (buffer : bytes) (checked_index read_index : Z)
    : res (bytes * LINE_STATUS) :=
  if decide (checked_index < read_index) then
    match n with
    | O => Err OutOfFuel
    | S n =>
        temp ← aget buffer checked_index;
        if decide (temp = CR) then
          if decide (checked_index + 1 = read_index) then Ok (buffer, LINE_OPEN)
          else
            next ← aget buffer (checked_index + 1);
            if decide (next = LF) then
              buffer ← aset buffer checked_index NUL;
              buffer ← aset buffer (checked_index + 1) NUL;
              Ok (buffer, LINE_OK)
            else Ok (buffer, LINE_BAD)
        else if decide (temp = LF) then
          if decide (checked_index > 1) then
            prev ← aget buffer (checked_index - 1);
            if decide (prev = CR) then
              buffer ← aset buffer (checked_index - 1) NUL;
              buffer ← aset buffer checked_index NUL;
              Ok (buffer, LINE_OK)
            else Ok (buffer, LINE_BAD)
          else Ok (buffer, LINE_BAD)
        else parse_line_loop n buffer (checked_index + 1) read_index
    end
  else Ok (buffer, LINE_OPEN).

Definition parse_line (buffer : bytes) (checked_index read_index : Z) : res (bytes * LINE_STATUS) :=
  parse_line_loop (Z.to_nat (read_index - checked_index)) buffer checked_index read_index.

(** The request line at offset [temp]: the buffer, the state, the code, and the
    address that is printed. *)
Definition parse_requestline (buffer : bytes) (temp : Z) (checkState : CHECK_STATE)
    : res (bytes * CHECK_STATE * HTTP_CODE * option bytes) :=
  s ← cstr buffer temp;
  match strpbrk s [SP] with
  | None => Ok (buffer, checkState, BAD_REQUEST, None)
  | Some i =>
      let url := temp + Z.of_nat i in
      buffer ← aset buffer url NUL;
      let url := url + 1 in
      method ← cstr buffer temp;
      if negb (streq method (lit "GET")) then Ok (buffer, checkState, BAD_REQUEST, None)
      else
        s ← cstr buffer url;
        match strpbrk s [SP] with
        | None => Ok (buffer, checkState, BAD_REQUEST, None)
        | Some j =>
            let version := url + Z.of_nat j in
            buffer ← aset buffer version NUL;
            let version := version + 1 in
            v ← cstr buffer version;
            if negb (streq v (lit "HTTP/1.1")) then Ok (buffer, checkState, BAD_REQUEST, None)
            else u ← cstr buffer url; Ok (buffer, CHECK_STATE_HEADER, NO_REQUEST, Some u)
        end
  end.

(** *** Comparison with the final parser *)

Lemma parse_line_loop_same n : forall c,
  parse_line_loop n (m_read_buf c) (m_checked_idx c) (m_read_idx c) =
  (fun '(c', st) => (m_read_buf c', st)) <$> HttpConn.parse_line_loop n c.
Proof.
  induction n as [|n IH]; intros c; cbn [parse_line_loop HttpConn.parse_line_loop]; case_decide; try done.
  destruct (aget (m_read_buf c) (m_checked_idx c)) as [x|]; cbn [mbind res_bind]; [|done].
  destruct (decide (x = CR)).
  - case_decide; [done|]. destruct (aget _ (m_checked_idx c + 1)) as [y|]; cbn [mbind res_bind]; [|done].
    case_decide; [|done]. destruct (aset _ (m_checked_idx c) NUL); cbn [mbind res_bind]; [|done].
    destruct (aset _ (m_checked_idx c + 1) NUL); done.
  - destruct (decide (x = LF)).
    + case_decide; [|done]. destruct (aget _ (m_checked_idx c - 1)) as [y|]; cbn [mbind res_bind]; [|done].
      case_decide; [|done]. destruct (aset _ (m_checked_idx c - 1) NUL); cbn [mbind res_bind]; [|done].
      destruct (aset _ (m_checked_idx c) NUL); done.
    + apply (IH (set_checked_idx (m_checked_idx c + 1) c)).
Qed.

(** draft_parse_line: the draft of the line reader does the same to the buffer
    and gives the same status as [http_conn::parse_line], on every buffer and for
    all indices; what it cannot give is the place where the next line starts, which
    http_conn keeps in [m_checked_idx]. *)
Theorem draft_parse_line c :
  parse_line (m_read_buf c) (m_checked_idx c) (m_read_idx c) =
  (fun '(c', st) => (m_read_buf c', st)) <$> HttpConn.parse_line c.
Proof. apply parse_line_loop_same. Qed.

(** A request line the draft accepts. *)
Definition plain_request (line url : bytes) : Prop :=
  line = lit "GET" ++ SP :: url ++ SP :: lit "HTTP/1.1" /\ SP ∉ url.

(** The first blank of a string divides it in one way. *)
Lemma first_blank_unique (m m' r r' : bytes) :
  SP ∉ m -> SP ∉ m' -> m ++ SP :: r = m' ++ SP :: r' -> m = m' /\ r = r'.
Proof.
  revert m'. induction m as [|c m IH]; intros [|c' m'] Hm Hm'; cbn; rewrite ?not_elem_of_cons in *;
    intros E; simplify_eq.
  - done.
  - naive_solver.
  - naive_solver.
  - destruct (IH m') as [-> ->]; naive_solver.
Qed.

(** The split at the first blank, if there is one. *)
Lemma blank_cases s :
  (strpbrk s [SP] = None /\ forall m r, s <> m ++ SP :: r) \/
  (exists m r, s = m ++ SP :: r /\ SP ∉ m /\ strpbrk s [SP] = Some (length m)).
Proof.
  destruct (strpbrk s [SP]) as [i|] eqn:E.
  - right. pose proof E as E'. apply strpbrk_Some in E as (m & c & r & -> & -> & Hc & Hm).
    apply list_elem_of_singleton in Hc as ->. exists m, r. split_and!; [done| |done].
    intros Hin. rewrite Forall_forall in Hm. destruct (Hm SP Hin). by apply list_elem_of_singleton.
  - left. split; [done|]. apply strpbrk_None in E. intros m r ->. rewrite Forall_forall in E.
    apply (E SP); [|by apply list_elem_of_singleton]. rewrite elem_of_app, elem_of_cons. auto.
Qed.

(** Storing a NUL in place of a blank at a known place. *)
Lemma cut (b l r : bytes) c i b' :
  b = l ++ c :: r -> i = Z.of_nat (length l) -> b' = l ++ NUL :: r -> aset b i NUL = Ok b'.
Proof. intros -> Hi ->. by apply aset_at. Qed.

Lemma requestline_cases pre line post st :
  NUL ∉ line ->
  exists b st' ret out,
    parse_requestline (pre ++ line ++ NUL :: post) (Z.of_nat (length pre)) st = Ok (b, st', ret, out) /\
    ((ret = BAD_REQUEST /\ st' = st /\ out = None /\ forall url, ~ plain_request line url) \/
     (ret = NO_REQUEST /\ st' = CHECK_STATE_HEADER /\ exists url, out = Some url /\ plain_request line url)).
Proof.
  intros Hn. set (p := Z.of_nat (length pre)). unfold parse_requestline.
  rewrite (bind_ok _ _ line) by by eapply cstr_at.
  destruct (blank_cases line) as [[-> Hno]|(m & r & -> & Hm & ->)].
  { eexists _, _, _, _. split; [reflexivity|]. left. split_and!; [done..|].
    intros url [-> _]. by apply (Hno (lit "GET") (url ++ SP :: lit "HTTP/1.1")). }
  rewrite not_elem_of_app, not_elem_of_cons in Hn. destruct Hn as (Hnm & _ & Hnr).
  rewrite (bind_ok _ _ (pre ++ m ++ NUL :: r ++ NUL :: post)).
  2: { apply (cut _ (pre ++ m) (r ++ NUL :: post) SP); [|rewrite length_app; lia|];
       rewrite <- !app_assoc; [|done]; by rewrite <- app_comm_cons. }
  cbv zeta. rewrite (bind_ok _ _ m) by by eapply cstr_at.
  unfold streq. destruct (bool_decide_reflect (m = lit "GET")) as [->|Hg]; cbn [negb].
  2: { eexists _, _, _, _. split; [reflexivity|]. left. split_and!; [done..|]. intros url [E _].
       apply first_blank_unique in E as [-> _]; [done|done|decided]. }
  rewrite (bind_ok _ _ r).
  2: { eapply (cstr_at _ _ (pre ++ lit "GET" ++ [NUL]) r post); [by rewrite <- !app_assoc| |done].
       rewrite !length_app. unfold p. cbn [length list_ascii_of_string]. lia. }
  assert (Hsame : forall url, plain_request (lit "GET" ++ SP :: r) url <->
            r = url ++ SP :: lit "HTTP/1.1" /\ SP ∉ url).
  { intros url. unfold plain_request. split; intros [E Hu]; (split; [|done]); [|by rewrite E].
    by apply first_blank_unique in E as [_ ->]; [|decided|decided]. }
  destruct (blank_cases r) as [[-> Hno]|(u & v & -> & Hu & ->)].
  { eexists _, _, _, _. split; [reflexivity|]. left. split_and!; [done..|].
    intros url [-> _]%Hsame. by apply (Hno url (lit "HTTP/1.1")). }
  rewrite not_elem_of_app, not_elem_of_cons in Hnr. destruct Hnr as (Hnu & _ & Hnv).
  set (q := pre ++ lit "GET" ++ [NUL]).
  assert (Hq : p + Z.of_nat (length (lit "GET")) + 1 = Z.of_nat (length q)).
  { unfold q, p. rewrite !length_app. cbn [length list_ascii_of_string]. lia. }
  rewrite Hq. rewrite (bind_ok _ _ (q ++ u ++ NUL :: v ++ NUL :: post)).
  2: { apply (cut _ (q ++ u) (v ++ NUL :: post) SP); [|rewrite length_app; lia|];
       unfold q; cbn; by rewrite <- !app_assoc. }
  rewrite (bind_ok _ _ v).
  2: { eapply (cstr_at _ _ (q ++ u ++ [NUL]) v post); [by rewrite <- !app_assoc| |done].
       rewrite !length_app. cbn. lia. }
  destruct (bool_decide_reflect (v = lit "HTTP/1.1")) as [->|Hv]; cbn [negb].
  - rewrite (bind_ok _ _ u) by by eapply cstr_at.
    eexists _, _, _, _. split; [reflexivity|]. right. split_and!; [done..|]. exists u. split; [done|].
    by apply Hsame.
  - eexists _, _, _, _. split; [reflexivity|]. left. split_and!; [done..|]. intros url [E Hu']%Hsame.
    apply first_blank_unique in E as [_ ->]; done.
Qed.

(** draft_requestline: the draft accepts exactly the lines GET, one blank, the
    target, one blank, HTTP/1.1, whatever the target is, and prints the target. *)
Theorem draft_requestline pre line post st :
  NUL ∉ line ->
  (forall url, plain_request line url ->
     exists b, parse_requestline (pre ++ line ++ NUL :: post) (Z.of_nat (length pre)) st =
       Ok (b, CHECK_STATE_HEADER, NO_REQUEST, Some url)) /\
  ((forall url, ~ plain_request line url) ->
     exists b, parse_requestline (pre ++ line ++ NUL :: post) (Z.of_nat (length pre)) st =
       Ok (b, st, BAD_REQUEST, None)).
Proof.
  intros Hn. destruct (requestline_cases pre line post st Hn) as (b & st' & ret & out & E & Hc).
  split.
  - intros url Hu. destruct Hc as [(_ & _ & _ & Hno)|(-> & -> & url' & -> & Hu')]; [by destruct (Hno url)|].
    exists b. rewrite E. do 2 f_equal. destruct Hu as [-> Hu], Hu' as [E' Hu'].
    apply first_blank_unique in E' as [_ E']; [|decided|decided].
    by apply first_blank_unique in E' as [-> _].
  - intros Hno. destruct Hc as [(-> & -> & -> & _)|(_ & _ & url & _ & Hu)]; [by exists b|by destruct (Hno url)].
Qed.

End Draft.

(** ** Examples *)

Definition page : Sender.file := Sender.File 5 true true (Some (lit "hi" ++ [NUL] ++ lit "yo")).

Lemma file_sent_witness :
  Sender.respond (Some page) =
  Ok (lit "HTTP/1.1 200 OK" ++ CRLF ++ lit "Content-Length: 5" ++ CRLF ++ CRLF ++ lit "hi").
Proof.
  exact (Sender.file_sent page (lit "hi" ++ [NUL] ++ lit "yo") (lit "hi") eq_refl eq_refl eq_refl eq_refl
           ltac:(vm_compute; discriminate) eq_refl).
Defined.

Lemma error_truncated_witness : Sender.respond None = Ok (lit "HT").
Proof. apply (Sender.error_truncated None). exact I. Defined.

Lemma draft_requestline_witness :
  (forall url, Draft.plain_request (lit "GET /a HTTP/1.1") url ->
     exists b, Draft.parse_requestline ([] ++ lit "GET /a HTTP/1.1" ++ NUL :: []) 0 CHECK_STATE_REQUESTLINE =
       Ok (b, CHECK_STATE_HEADER, Draft.NO_REQUEST, Some url)) /\
  Draft.plain_request (lit "GET /a HTTP/1.1") (lit "/a").
Proof.
  split; [|split; [reflexivity|decided]].
  apply (Draft.draft_requestline [] (lit "GET /a HTTP/1.1") [] CHECK_STATE_REQUESTLINE). decided.
Defined.
