(* ===== verification/Rio.v ===== *)
(** * Robust input and output (socket/csapp/rio.c)

    The unbuffered [rio_readn] and [rio_writen] and the buffered [rio_read],
    [rio_readlineb], [rio_readnb].  What the kernel will deliver on a descriptor
    is a list of items: data, in the pieces in which it arrives, interruptions by
    signals and errors; the empty list is the end of file. *)

From S2P Require Import Prelude CString.

(** ** The kernel's side *)

Inductive item :=
  | Chunk (d : bytes)   (** data that has arrived *)
  | Intr                (** [read] gives -1 with [EINTR] *)
  | Fail.               (** [read] gives -1 with another error *)

Inductive read_t := RData (d : bytes) | REof | RIntr | RFail.

(** [read(fd, buf, n)] takes at most [n] bytes of the data that is there. *)
Definition sys_read (n : nat) (s : list item) : read_t * list item :=
  match s with
  | [] => (REof, [])
  | Intr :: s => (RIntr, s)
  | Fail :: s => (RFail, s)
  | Chunk d :: s =>
      if decide (length d <= n)%nat then (RData d, s)
      else (RData (take n d), Chunk (drop n d) :: s)
  end.

(** All the bytes still to come. *)
Fixpoint bytes_of (s : list item) : bytes :=
  match s with
  | [] => []
  | Chunk d :: s => d ++ bytes_of s
  | _ :: s => bytes_of s
  end.

(** No errors, and no empty pieces. *)
Definition clean (s : list item) : Prop :=
  Forall (fun i => match i with Chunk d => d <> [] | Intr => True | Fail => False end) s.

(** ** Unbuffered *)

(** The loop of [rio_readn]: [off] bytes are in the buffer already. *)
Fixpoint readn_loop (k : nat) (usrbuf : bytes) (off nleft : nat) (s : list item)
    : res (option nat * bytes * list item) :=
  match nleft with
  | O => Ok (Some off, usrbuf, s)
  | S _ =>
      match k with
      | O => Err OutOfFuel
      | S k =>
          match sys_read nleft s with
          | (RIntr, s) => readn_loop k usrbuf off nleft s
          | (RFail, s) => Ok (None, usrbuf, s)
          | (REof, s) => Ok (Some off, usrbuf, s)
          | (RData d, s) =>
              if decide (d = []) then Ok (Some off, usrbuf, s)
              else
                usrbuf ← awrite usrbuf (Z.of_nat off) d;
                readn_loop k usrbuf (off + length d) (nleft - length d) s
          end
      end
  end.

(** [rio_readn]; [None] is -1.  The loop goes round at most once per byte and
    once per interruption. *)
Definition rio_readn (usrbuf : bytes) (n : nat) (s : list item)
    : res (option nat * bytes * list item) :=
  readn_loop (n + length s) usrbuf 0 n s.

(** [write(fd, bufp, nleft)]: its result and whether [errno] is [EINTR]. *)
Definition write_result : Type := Z * bool.

(** The loop of [rio_writen] on what is left to be written; the results are the
    return value ([false] is -1) and what the descriptor took. *)
Fixpoint writen_loop (rs : list write_result) (left : bytes) : res (bool * bytes) :=
  match left with
  | [] => Ok (true, [])
  | _ =>
      match rs with
      | [] => Err OutOfFuel
      | (nwritten, eintr) :: rs =>
          if decide (nwritten <= 0) then
            if eintr : bool then writen_loop rs left else Ok (false, [])
          else
            '(ok, w) ← writen_loop rs (drop (Z.to_nat nwritten) left);
            Ok (ok, take (Z.to_nat nwritten) left ++ w)
      end
  end.

(** [rio_writen(fd, usrbuf, n)]. *)
Definition rio_writen (usrbuf : bytes) (n : nat) (rs : list write_result) : res (bool * bytes) :=
  if decide (n <= length usrbuf)%nat then writen_loop rs (take n usrbuf) else Err OutOfBounds.

(** ** Buffered *)

Definition RIO_BUFSIZE : nat := 8192.
#[global] Arguments RIO_BUFSIZE : simpl never.

Record rio_t := Rio {
  rio_fd : Z;
  rio_cnt : Z;
  rio_bufptr : Z;
  rio_buf : bytes }.

Definition rio_readinitb (rp : rio_t) (fd : Z) : rio_t := Rio fd 0 0 (rio_buf rp).

(** A fresh object. *)
Definition new_rio : rio_t := Rio 0 0 0 (replicate RIO_BUFSIZE NUL).

Definition set_cnt (n : Z) (rp : rio_t) : rio_t := Rio (rio_fd rp) n (rio_bufptr rp) (rio_buf rp).

(** The filling loop of [rio_read]; [inl] is what [rio_read] then returns. *)
Fixpoint refill (s : list item) (rp : rio_t) : res (Z * rio_t * list item + rio_t * list item) :=
  if decide (rio_cnt rp <= 0) then
    match s with
    | [] => Ok (inl (0, set_cnt 0 rp, []))
    | Intr :: s => refill s (set_cnt (-1) rp)
    | Fail :: s => Ok (inl (-1, set_cnt (-1) rp, s))
    | Chunk d :: _ =>
        match sys_read RIO_BUFSIZE s with
        | (RData d, s) =>
            if decide (d = []) then Ok (inl (0, set_cnt 0 rp, s))
            else
              buf ← awrite (rio_buf rp) 0 d;
              Ok (inr (Rio (rio_fd rp) (Z.of_nat (length d)) 0 buf, s))
        | _ => Err OutOfFuel   (** [sys_read] of a [Chunk] gives data *)
        end
    end
  else Ok (inr (rp, s)).

(** [rio_read(rp, usrbuf + off, n)]: its result, and the bytes copied. *)
Definition rio_read (rp : rio_t) (n : nat) (s : list item)
    : res (Z * bytes * rio_t * list item) :=
  r ← refill s rp;
  match r with
  | inl (ret, rp, s) => Ok (ret, [], rp, s)
  | inr (rp, s) =>
      let cnt := if decide (rio_cnt rp < Z.of_nat n) then rio_cnt rp else Z.of_nat n in
      if decide (0 <= rio_bufptr rp /\ rio_bufptr rp + cnt <= Z.of_nat (length (rio_buf rp))) then
        Ok (cnt, take (Z.to_nat cnt) (drop (Z.to_nat (rio_bufptr rp)) (rio_buf rp)),
            Rio (rio_fd rp) (rio_cnt rp - cnt) (rio_bufptr rp + cnt) (rio_buf rp), s)
      else Err OutOfBounds
  end.

(** The loop of [rio_readlineb]: [n] counts from 1, [bufp] is [n - 1] bytes into
    [usrbuf]; then the final NUL.  The [int] of the code is a natural number here: they
    differ for lines of 2^31 bytes and more. *)
Fixpoint readline_loop (k : nat) (n maxlen : nat) (usrbuf : bytes) (rp : rio_t) (s : list item)
    : res (Z * bytes * rio_t * list item) :=
  let finish n at_ rp s :=
    usrbuf ← aset usrbuf at_ NUL; Ok (Z.of_nat n - 1, usrbuf, rp, s) in
  if decide (n < maxlen)%nat then
    match k with
    | O => Err OutOfFuel
    | S k =>
        '(rc, d, rp, s) ← rio_read rp 1 s;
        if decide (rc = 1) then
          c ← from_opt Uninit (head d);
          usrbuf ← aset usrbuf (Z.of_nat n - 1) c;
          if decide (c = LF) then
            usrbuf ← aset usrbuf (Z.of_nat n) NUL; Ok (Z.of_nat n, usrbuf, rp, s)
          else readline_loop k (S n) maxlen usrbuf rp s
        else if decide (rc = 0) then
          if decide (n = 1%nat) then Ok (0, usrbuf, rp, s) else finish n (Z.of_nat n - 1) rp s
        else Ok (-1, usrbuf, rp, s)
    end
  else finish n (Z.of_nat n - 1) rp s.

Definition rio_readlineb (rp : rio_t) (usrbuf : bytes) (maxlen : nat) (s : list item)
    : res (Z * bytes * rio_t * list item) :=
  readline_loop maxlen 1 maxlen usrbuf rp s.

(** The loop of [rio_readnb]. *)
Fixpoint readnb_loop (k : nat) (off nleft : nat) (usrbuf : bytes) (rp : rio_t) (s : list item)
    : res (Z * bytes * rio_t * list item) :=
  match nleft with
  | O => Ok (Z.of_nat off, usrbuf, rp, s)
  | S _ =>
      match k with
      | O => Err OutOfFuel
      | S k =>
          '(nread, d, rp, s) ← rio_read rp nleft s;
          if decide (nread < 0) then Ok (-1, usrbuf, rp, s)
          else if decide (nread = 0) then Ok (Z.of_nat off, usrbuf, rp, s)
          else
            usrbuf ← awrite usrbuf (Z.of_nat off) d;
            readnb_loop k (off + Z.to_nat nread) (nleft - Z.to_nat nread) usrbuf rp s
      end
  end.

Definition rio_readnb (rp : rio_t) (usrbuf : bytes) (n : nat) (s : list item)
    : res (Z * bytes * rio_t * list item) :=
  readnb_loop n 0 n usrbuf rp s.

(** ** Unbuffered: what is read and written *)

(** The number of steps the items allow. *)
Lemma bytes_of_drop n s r s' :
  clean s -> sys_read n s = (r, s') -> (0 < n)%nat ->
  clean s' /\
  match r with
  | RData d => d <> [] /\ (length d <= n)%nat /\ bytes_of s = d ++ bytes_of s' /\
               (length s' <= length s)%nat
  | REof => s = [] /\ s' = []
  | RIntr => bytes_of s' = bytes_of s /\ (length s' < length s)%nat
  | RFail => False
  end.
Proof.
  intros Hc H Hn. destruct Hc as [|[d| |] s Hd Hc]; cbn in H; [|
    |injection H as <- <-; cbn; split_and!; [done|done|lia]|done].
  { injection H as <- <-. split_and!; [constructor|done..]. }
  case_decide as Hle; injection H as <- <-.
  - split; [done|]. split_and!; [done|done|done|cbn; lia].
  - split.
    + constructor; [|done]. intros E. apply (f_equal length) in E. rewrite length_drop in E.
      cbn in E. lia.
    + split_and!; [|rewrite length_take; lia| |done].
      * intros E. apply (f_equal length) in E. rewrite length_take in E. cbn in E. lia.
      * cbn. by rewrite (assoc_L (++)), take_drop.
Qed.

(** Two adjacent writes are one. *)
Lemma write_twice {A} (u d t : list A) (off : nat) :
  (off + length d <= length u)%nat ->
  let u1 := take off u ++ d ++ drop (off + length d) u in
  take (off + length d) u1 ++ t ++ drop (off + length d + length t) u1 =
  take off u ++ (d ++ t) ++ drop (off + length (d ++ t)) u.
Proof.
  intros Hoff u1. unfold u1. rewrite (assoc_L (++) (take off u)).
  rewrite take_app_length' by (rewrite length_app, length_take; lia).
  rewrite drop_app_ge by (rewrite length_app, length_take; lia).
  rewrite <- !(assoc_L (++)), drop_drop. do 4 f_equal.
  rewrite !length_app, length_take. lia.
Qed.

Lemma readn_loop_spec k usrbuf off nleft s :
  clean s -> (nleft + length s <= k)%nat -> (off + nleft <= length usrbuf)%nat ->
  exists s', readn_loop k usrbuf off nleft s =
    Ok (Some (off + length (take nleft (bytes_of s)))%nat,
        take off usrbuf ++ take nleft (bytes_of s) ++
          drop (off + length (take nleft (bytes_of s))) usrbuf, s') /\
    clean s' /\ bytes_of s' = drop nleft (bytes_of s).
Proof.
  assert (Hbase : forall k usrbuf off s, clean s ->
    exists s', readn_loop k usrbuf off 0 s =
      Ok (Some (off + length (take 0 (bytes_of s)))%nat,
          take off usrbuf ++ take 0 (bytes_of s) ++
            drop (off + length (take 0 (bytes_of s))) usrbuf, s') /\
      clean s' /\ bytes_of s' = drop 0 (bytes_of s)).
  { clear. intros k usrbuf off s Hc. exists s. rewrite take_0, drop_0. cbn [length app].
    rewrite Nat.add_0_r, take_drop. by destruct k. }
  revert usrbuf off nleft s. induction k as [|k IH]; intros usrbuf off nleft s Hc Hk Hoff.
  - assert (nleft = 0%nat) as -> by lia. apply (Hbase 0%nat); done.
  - destruct nleft as [|m]; [by apply (Hbase (S k))|].
    cbn [readn_loop]. destruct (sys_read (S m) s) as [r s1] eqn:E.
    destruct (bytes_of_drop _ _ _ _ Hc E ltac:(lia)) as [Hc1 Hr].
    destruct r as [d| | |]; [|destruct Hr as [-> ->]|destruct Hr as [Hb Hl]|done].
    + destruct Hr as (Hd & Hle & Hb & Hl). rewrite decide_False by done.
      rewrite awrite_ok by lia. cbn [mbind res_bind].
      set (buf := _ ++ _ ++ _).
      assert (length d <> 0)%nat by (by destruct d).
      assert (Hbuf : length buf = length usrbuf).
      { unfold buf. rewrite !length_app, length_take, length_drop. lia. }
      destruct (IH buf (off + length d)%nat (S m - length d)%nat s1) as (s' & -> & Hc' & Hb');
        [done|lia|lia|].
      exists s'. rewrite Hb, Hb'. split; [|split; [done|]].
      * assert (Ht : take (S m) (d ++ bytes_of s1) = d ++ take (S m - length d) (bytes_of s1))
          by (rewrite take_app, (take_ge d) by lia; done).
        rewrite Ht. unfold buf. rewrite Nat2Z.id, write_twice by lia.
        do 3 f_equal. rewrite length_app. f_equal. lia.
      * rewrite drop_app, (drop_ge d) by lia. done.
    + exists []. cbn [bytes_of]. rewrite take_nil, drop_nil. cbn [length app].
      by rewrite Nat.add_0_r, take_drop.
    + destruct (IH usrbuf off (S m) s1) as (s' & -> & Hc' & Hb'); [done|lia|done|].
      exists s'. by rewrite Hb', <- Hb.
Qed.

(** rio_readn_exact: however the data arrives in pieces and is interrupted by
    signals, [rio_readn] fills the buffer with the next [n] bytes, or all up to
    the end of the file, in order, leaves the rest of the buffer alone, returns
    their number, and takes no more from the descriptor. *)
Theorem rio_readn_exact usrbuf n s :
  clean s -> (n <= length usrbuf)%nat ->
  exists s', rio_readn usrbuf n s =
    Ok (Some (length (take n (bytes_of s))),
        take n (bytes_of s) ++ drop (length (take n (bytes_of s))) usrbuf, s') /\
    clean s' /\ bytes_of s' = drop n (bytes_of s).
Proof. intros Hc Hn. by apply (readn_loop_spec (n + length s) usrbuf 0 n s). Qed.

Lemma rio_readn_exact_witness :
  let s := [Chunk (lit "ab"); Intr; Chunk (lit "cde")] in
  exists s', rio_readn (lit "......") 4 s = Ok (Some 4%nat, lit "abcd..", s') /\
    clean s' /\ bytes_of s' = lit "e".
Proof.
  apply (rio_readn_exact (lit "......") 4 [Chunk (lit "ab"); Intr; Chunk (lit "cde")]);
    [repeat constructor; discriminate|cbn; lia].
Defined.

(** [rio_writen] writes nothing but its bytes in order, and all of them when it
    reports success. *)
Theorem rio_writen_prefix usrbuf n rs ok w :
  rio_writen usrbuf n rs = Ok (ok, w) ->
  w `prefix_of` take n usrbuf /\ (ok = true -> w = take n usrbuf).
Proof.
  unfold rio_writen. case_decide; [|done]. generalize (take n usrbuf) as left. clear.
  revert ok w. induction rs as [|[k e] rs IH]; intros ok w left H.
  - destruct left; [|done]. by injection H as <- <-.
  - destruct left as [|c left]; [by injection H as <- <-|]. cbn [writen_loop] in H.
    case_decide.
    + destruct e; [by apply IH|]. injection H as <- <-. split; [apply prefix_nil|done].
    + apply bind_ok_inv in H as ([ok1 w1] & H1 & H). injection H as <- <-.
      destruct (IH _ _ _ H1) as [[t Ht] Hall]. split.
      * exists t. by rewrite <- (assoc_L (++)), <- Ht, take_drop.
      * intros ->. by rewrite Hall, take_drop.
Qed.

(** ** Buffered: the stream a [rio_t] stands for *)

(** The bytes in the buffer, then those still to come. *)
Definition rest (rp : rio_t) (s : list item) : bytes :=
  take (Z.to_nat (rio_cnt rp)) (drop (Z.to_nat (rio_bufptr rp)) (rio_buf rp)) ++ bytes_of s.

Record rio_wf (rp : rio_t) : Prop := {
  rw_len : length (rio_buf rp) = RIO_BUFSIZE;
  rw_ptr : 0 <= rio_bufptr rp;
  rw_cnt : 0 < rio_cnt rp -> rio_bufptr rp + rio_cnt rp <= Z.of_nat RIO_BUFSIZE }.

Lemma bufsize_pos : (0 < RIO_BUFSIZE)%nat.
Proof. apply Nat.ltb_lt. reflexivity. Qed.

Lemma rest_empty rp s : rio_cnt rp <= 0 -> rest rp s = bytes_of s.
Proof. intros H. unfold rest. by rewrite Z2Nat.nonpos by done. Qed.

Lemma rio_wf_cnt rp n : rio_wf rp -> n <= 0 -> rio_wf (set_cnt n rp).
Proof. intros [H1 H2 H3] Hn. split; cbn; [done..|lia]. Qed.

Lemma clean_nil s : clean s -> bytes_of s = [] -> Forall (fun i => i = Intr) s.
Proof.
  intros Hc. induction Hc as [|[d| |] s Hd Hc IH]; [constructor| |by constructor; auto|done].
  cbn. intros [-> _]%app_nil. done.
Qed.

Lemma rest_full rp s : rio_wf rp -> 0 < rio_cnt rp -> rest rp s <> [].
Proof.
  intros [H1 H2 H3] Hp [H _]%app_nil. apply (f_equal length) in H.
  rewrite length_take, length_drop, H1 in H. cbn [length] in H. specialize (H3 Hp). lia.
Qed.

Lemma refill_full rp s : 0 < rio_cnt rp -> refill s rp = Ok (inr (rp, s)).
Proof. intros H. destruct s; cbn [refill]; by rewrite decide_False by lia. Qed.

(** A piece [a] of what has arrived goes into the empty buffer. *)
Lemma fill rp a s :
  rio_wf rp -> a <> [] -> (length a <= RIO_BUFSIZE)%nat ->
  exists rp', awrite (rio_buf rp) 0 a = Ok (rio_buf rp') /\
    rp' = Rio (rio_fd rp) (Z.of_nat (length a)) 0 (rio_buf rp') /\
    rio_wf rp' /\ 0 < rio_cnt rp' /\ rest rp' s = a ++ bytes_of s.
Proof.
  intros Hwf Ha Hle. assert (length a <> 0)%nat by (by destruct a).
  eexists (Rio _ _ _ (a ++ drop (length a) (rio_buf rp))).
  rewrite awrite_ok by (rewrite ?(rw_len _ Hwf); lia).
  split; [reflexivity|]. split; [reflexivity|]. split_and!; [split|cbn; lia|].
  - cbn [rio_buf]. rewrite length_app, length_drop, (rw_len _ Hwf). lia.
  - done.
  - cbn [rio_cnt rio_bufptr]. lia.
  - unfold rest. cbn. by rewrite Nat2Z.id, drop_0, take_app_length.
Qed.

(** At the end of the file nothing is read and the caller's buffer stays. *)
Lemma readline_eof rp buf m :
  (1 < m)%nat -> rio_cnt rp <= 0 ->
  rio_readlineb rp buf m [] = Ok (0, buf, set_cnt 0 rp, []).
Proof.
  intros Hm Hz. unfold rio_readlineb. destruct m as [|m]; [lia|]. cbn [readline_loop].
  rewrite decide_True by done. unfold rio_read. cbn [refill]. by rewrite decide_True.
Qed.

Lemma refill_spec rp s :
  rio_wf rp -> clean s ->
  exists rp' s', rio_wf rp' /\ clean s' /\ rest rp' s' = rest rp s /\
    ((rest rp s = [] /\ refill s rp = Ok (inl (0, rp', s'))) \/
     (0 < rio_cnt rp' /\ refill s rp = Ok (inr (rp', s')))).
Proof.
  intros Hwf Hc. destruct (decide (rio_cnt rp <= 0)) as [H0|H0].
  2: { exists rp, s. split_and!; [done..|]. right. split; [lia|]. apply refill_full. lia. }
  revert rp Hwf H0. induction Hc as [|[d| |] s Hd Hc IH]; intros rp Hwf H0; [| | |done];
    cbn [refill]; rewrite decide_True by done.
  - exists (set_cnt 0 rp), []. rewrite (rest_empty rp), (rest_empty (set_cnt 0 rp)) by first [done | cbn; lia].
    split_and!; [by apply rio_wf_cnt|constructor|done|by left].
  - assert (Hc0 : clean (Chunk d :: s)) by (by constructor).
    destruct (sys_read RIO_BUFSIZE (Chunk d :: s)) as [r s1] eqn:E.
    destruct (bytes_of_drop _ _ _ _ Hc0 E bufsize_pos) as [Hc1 Hr].
    destruct r as [a| | |]; [|by destruct Hr| |done].
    + destruct Hr as (Ha & Hle & Hb & _). rewrite decide_False by done.
      destruct (fill rp a s1 Hwf Ha Hle) as (rp' & Ew & Erp & Hwf' & Hp & Hr).
      rewrite (bind_ok _ _ _ Ew), <- Erp. exists rp', s1.
      rewrite (rest_empty rp) by done. rewrite Hr, Hb. split_and!; [done..|]. by right.
    + exfalso. revert E. unfold sys_read. by destruct (decide _).
  - destruct (IH (set_cnt (-1) rp)) as (rp' & s' & Hwf' & Hc' & Hr & Hcase);
      [by apply rio_wf_cnt|cbn; lia|].
    rewrite (rest_empty (set_cnt (-1) rp)) in Hr, Hcase by (cbn; lia).
    exists rp', s'. rewrite (rest_empty rp) by done. by split_and!.
Qed.

Lemma rio_read_spec rp s n :
  rio_wf rp -> clean s -> (0 < n)%nat ->
  exists d rp' s', rio_read rp n s = Ok (Z.of_nat (length d), d, rp', s') /\
    rio_wf rp' /\ clean s' /\ rest rp s = d ++ rest rp' s' /\ (length d <= n)%nat /\
    (d = [] -> rest rp s = []).
Proof.
  intros Hwf Hc Hn. destruct (refill_spec rp s Hwf Hc)
    as (rp1 & s1 & Hwf1 & Hc1 & Hr & [[Hnil E]|[Hp E]]); unfold rio_read; rewrite (bind_ok _ _ _ E).
  - exists [], rp1, s1. split_and!; [done|done|done|by rewrite Hr|cbn; lia|done].
  - set (cnt := if decide (rio_cnt rp1 < Z.of_nat n) then rio_cnt rp1 else Z.of_nat n).
    assert (0 < cnt <= rio_cnt rp1 /\ cnt <= Z.of_nat n) as [Hcnt Hle]
      by (unfold cnt; case_decide; lia).
    destruct Hwf1 as [H1 H2 H3]. specialize (H3 Hp). rewrite decide_True by (rewrite H1; lia).
    set (b := drop (Z.to_nat (rio_bufptr rp1)) (rio_buf rp1)).
    assert (Hb : (Z.to_nat (rio_cnt rp1) <= length b)%nat)
      by (unfold b; rewrite length_drop, H1; lia).
    exists (take (Z.to_nat cnt) b). eexists _, s1. split_and!.
    + rewrite length_take. replace (Z.of_nat (Z.to_nat cnt `min` length b)) with cnt by lia.
      reflexivity.
    + split; cbn; [done|lia|lia].
    + done.
    + rewrite <- Hr. unfold rest. cbn. fold b. rewrite (assoc_L (++)). f_equal.
      rewrite Z2Nat.inj_add, Z2Nat.inj_sub, <- drop_drop by lia. fold b.
      rewrite <- (take_drop (Z.to_nat cnt) (take (Z.to_nat (rio_cnt rp1)) b)) at 1.
      rewrite take_take, Nat.min_l by lia. f_equal.
      rewrite take_drop_commute. do 2 f_equal. lia.
    + rewrite length_take. lia.
    + intros Hd. apply (f_equal length) in Hd. rewrite length_take in Hd. cbn [length] in Hd. lia.
Qed.

(** ** The specification: operations on a stream *)

(** The first line with its newline, at most [m] bytes of it. *)
Fixpoint line_prefix (m : nat) (l : bytes) : bytes :=
  match m, l with
  | S m, c :: l => if decide (c = LF) then [c] else c :: line_prefix m l
  | _, _ => []
  end.

Inductive op := ReadLine (maxlen : nat) | ReadN (n : nat).

(** What an operation takes off the stream. *)
Definition taken (o : op) (l : bytes) : bytes :=
  match o with
  | ReadLine m => line_prefix (m - 1) l
  | ReadN n => take n l
  end.

Fixpoint spec (ops : list op) (l : bytes) : list bytes * bytes :=
  match ops with
  | [] => ([], l)
  | o :: ops =>
      let '(out, l') := spec ops (drop (length (taken o l)) l) in
      (taken o l :: out, l')
  end.

(** The operation as the code does it, into a buffer of just the size it may
    use; the bytes reported by the result. *)
Definition perform (o : op) (rp : rio_t) (s : list item) : res (bytes * rio_t * list item) :=
  match o with
  | ReadLine m =>
      '(n, buf, rp, s) ← rio_readlineb rp (replicate m NUL) m s;
      Ok (take (Z.to_nat n) buf, rp, s)
  | ReadN n =>
      '(n, buf, rp, s) ← rio_readnb rp (replicate n NUL) n s;
      Ok (take (Z.to_nat n) buf, rp, s)
  end.

Fixpoint perform_all (ops : list op) (rp : rio_t) (s : list item)
    : res (list bytes * rio_t * list item) :=
  match ops with
  | [] => Ok ([], rp, s)
  | o :: ops =>
      '(d, rp, s) ← perform o rp s;
      '(out, rp, s) ← perform_all ops rp s;
      Ok (d :: out, rp, s)
  end.

(** ** Lemmas: reading lines and blocks *)

Lemma line_prefix_length m l : (length (line_prefix m l) <= m)%nat.
Proof.
  revert l. induction m as [|m IH]; intros [|c l]; cbn; try lia.
  case_decide; cbn; [lia|]. specialize (IH l). lia.
Qed.

(** The buffer after [d] and a NUL were written at [i]. *)
Definition written_at (i : nat) (d buf : bytes) : bytes :=
  take i buf ++ d ++ NUL :: drop (S (i + length d)) buf.

Lemma written_at_nil i buf :
  (i < length buf)%nat -> aset buf (Z.of_nat i) NUL = Ok (written_at i [] buf).
Proof.
  intros Hi. rewrite aset_ok by lia. rewrite Nat2Z.id, insert_take_drop by done.
  unfold written_at. by rewrite Nat.add_0_r.
Qed.

Lemma written_at_cons i c d buf :
  (i + S (length d) < length buf)%nat ->
  written_at (S i) d (<[i := c]> buf) = written_at i (c :: d) buf.
Proof.
  intros Hi. unfold written_at. rewrite (take_S_r _ _ c) by (apply list_lookup_insert_eq; lia).
  rewrite take_insert_ge, drop_insert_lt by lia. cbn [length].
  by rewrite <- (assoc_L (++)), Nat.add_succ_r.
Qed.

Lemma readline_loop_spec k n maxlen usrbuf rp s :
  rio_wf rp -> clean s -> (0 < n <= maxlen)%nat -> (maxlen <= n + k)%nat ->
  (maxlen <= length usrbuf)%nat ->
  let line := line_prefix (maxlen - n) (rest rp s) in
  exists buf rp' s', readline_loop k n maxlen usrbuf rp s =
    Ok (Z.of_nat (n - 1 + length line), buf, rp', s') /\
    (n <> 1%nat \/ line <> [] \/ maxlen = 1%nat -> buf = written_at (n - 1) line usrbuf) /\
    (n = 1%nat -> line = [] -> maxlen <> 1%nat -> buf = usrbuf) /\
    rio_wf rp' /\ clean s' /\ rest rp' s' = drop (length line) (rest rp s).
Proof.
  revert n usrbuf rp s. induction k as [|k IH]; intros n usrbuf rp s Hwf Hc Hn Hk Hbuf line.
  - assert (n = maxlen) as -> by lia. subst line. rewrite Nat.sub_diag. cbn [line_prefix length].
    cbn [readline_loop]. rewrite decide_False by lia.
    replace (Z.of_nat maxlen - 1) with (Z.of_nat (maxlen - 1)) by lia.
    rewrite written_at_nil by lia. cbn [mbind res_bind].
    eexists _, rp, s. rewrite Nat.add_0_r. split_and!; try done; lia.
  - cbn [readline_loop]. destruct (decide (n < maxlen)%nat) as [Hlt|Hge].
    2: { assert (n = maxlen) as -> by lia. subst line. rewrite Nat.sub_diag.
      cbn [line_prefix length]. replace (Z.of_nat maxlen - 1) with (Z.of_nat (maxlen - 1)) by lia.
      rewrite written_at_nil by lia. cbn [mbind res_bind].
      eexists _, rp, s. rewrite Nat.add_0_r. split_and!; try done; lia. }
    destruct (rio_read_spec rp s 1 Hwf Hc) as (d & rp1 & s1 & E & Hwf1 & Hc1 & Hr & Hd1 & Hd0); [lia|].
    rewrite (bind_ok _ _ _ E).
    replace (Z.of_nat n - 1) with (Z.of_nat (n - 1)) by lia.
    subst line. replace (maxlen - n)%nat with (S (maxlen - S n)) by lia.
    destruct d as [|c [|]]; [|clear Hd0|cbn in Hd1; lia].
    + rewrite decide_False by (cbn; lia). rewrite decide_True by done.
      rewrite (Hd0 eq_refl) in Hr |- *. cbn [line_prefix length].
      rewrite Nat.add_0_r. symmetry in Hr. cbn [app] in Hr. case_decide as H1.
      * eexists usrbuf, rp1, s1. rewrite H1. split_and!; try done. intros [?|[?|?]]; [done|done|lia].
      * rewrite written_at_nil by lia. cbn [mbind res_bind].
        eexists _, rp1, s1. split_and!; try done; lia.
    + rewrite decide_True by done. cbn [head from_opt mbind res_bind].
      rewrite Hr. cbn [app line_prefix]. rewrite aset_ok by lia. cbn [mbind res_bind].
      rewrite Nat2Z.id. destruct (decide (c = LF)) as [HLF|HLF].
      * rewrite written_at_nil by (rewrite length_insert; lia). cbn [mbind res_bind length].
        eexists _, rp1, s1. split_and!; [do 4 f_equal; lia| |done..].
        intros _. rewrite <- (written_at_cons (n - 1) c [] usrbuf) by (cbn; lia).
        f_equal. lia.
      * destruct (IH (S n) (<[(n - 1)%nat := c]> usrbuf) rp1 s1) as (buf & rp' & s' & -> & Hb & Hrest);
          [done|done|lia|lia|by rewrite length_insert|].
        cbn [length]. exists buf, rp', s'. split; [do 4 f_equal; lia|]. split; [|split; [done|apply Hrest]].
        intros _. rewrite Hb by (left; lia). pose proof (line_prefix_length (maxlen - S n) (rest rp1 s1)).
        rewrite <- (written_at_cons (n - 1)) by lia. f_equal. lia.
Qed.

Lemma readnb_loop_spec k off nleft usrbuf rp s :
  rio_wf rp -> clean s -> (nleft <= k)%nat -> (off + nleft <= length usrbuf)%nat ->
  let t := take nleft (rest rp s) in
  exists rp' s', readnb_loop k off nleft usrbuf rp s =
    Ok (Z.of_nat (off + length t), take off usrbuf ++ t ++ drop (off + length t) usrbuf, rp', s') /\
    rio_wf rp' /\ clean s' /\ rest rp' s' = drop nleft (rest rp s).
Proof.
  revert off nleft usrbuf rp s.
  assert (Hbase : forall k off usrbuf rp s, rio_wf rp -> clean s ->
    exists rp' s', readnb_loop k off 0 usrbuf rp s =
      Ok (Z.of_nat (off + length (take 0 (rest rp s))),
          take off usrbuf ++ take 0 (rest rp s) ++ drop (off + length (take 0 (rest rp s))) usrbuf,
          rp', s') /\
      rio_wf rp' /\ clean s' /\ rest rp' s' = drop 0 (rest rp s)).
  { clear. intros k off usrbuf rp s Hwf Hc. exists rp, s. rewrite take_0, drop_0.
    cbn [length app]. rewrite Nat.add_0_r, take_drop. by destruct k. }
  induction k as [|k IH]; intros off nleft usrbuf rp s Hwf Hc Hk Hbuf.
  { assert (nleft = 0%nat) as -> by lia. by apply (Hbase 0%nat). }
  destruct nleft as [|m]; [by apply (Hbase (S k))|]. cbn [readnb_loop].
  destruct (rio_read_spec rp s (S m) Hwf Hc)
    as (d & rp1 & s1 & E & Hwf1 & Hc1 & Hr & Hd & Hd0); [lia|].
  rewrite (bind_ok _ _ _ E), decide_False by lia. cbv zeta. case_decide as Hz.
  - assert (d = []) as -> by (destruct d; [done|cbn in Hz; lia]).
    pose proof (Hd0 eq_refl) as Hn. rewrite Hn in Hr |- *. cbn [app] in Hr.
    rewrite take_nil, drop_nil. cbn [length app].
    exists rp1, s1. by rewrite Nat.add_0_r, take_drop.
  - assert (length d <> 0)%nat by lia.
    rewrite awrite_ok by lia. cbn [mbind res_bind]. rewrite !Nat2Z.id.
    set (buf := _ ++ _ ++ _).
    assert (Hlen : length buf = length usrbuf).
    { unfold buf. rewrite !length_app, length_take, length_drop. lia. }
    destruct (IH (off + length d)%nat (S m - length d)%nat buf rp1 s1)
      as (rp' & s' & -> & Hwf' & Hc' & Hr'); [done|done|lia|lia|].
    exists rp', s'. rewrite Hr, Hr'. split_and!; [|done|done|].
    + assert (Ht : take (S m) (d ++ rest rp1 s1) = d ++ take (S m - length d) (rest rp1 s1))
        by (rewrite take_app, (take_ge d) by lia; done).
      rewrite Ht. unfold buf. rewrite write_twice, length_app, Nat.add_assoc by lia. done.
    + rewrite drop_app, (drop_ge d) by lia. done.
Qed.

Lemma take_written d (u : bytes) : take (0 + length d) (take 0 u ++ d ++ drop (0 + length d) u) = d.
Proof. rewrite take_0, app_nil_l, Nat.add_0_l. apply take_app_length. Qed.

Definition op_ok (o : op) : Prop := match o with ReadLine m => (0 < m)%nat | ReadN _ => True end.

Lemma perform_spec o rp s :
  rio_wf rp -> clean s -> op_ok o ->
  exists rp' s', perform o rp s = Ok (taken o (rest rp s), rp', s') /\
    rio_wf rp' /\ clean s' /\ rest rp' s' = drop (length (taken o (rest rp s))) (rest rp s).
Proof.
  intros Hwf Hc Ho. destruct o as [m|n]; unfold perform, taken; cbn in Ho.
  - destruct (readline_loop_spec m 1 m (replicate m NUL) rp s Hwf Hc)
      as (buf & rp' & s' & E & Hb & _ & Hwf' & Hc' & Hr); [lia|lia|by rewrite length_replicate|].
    set (line := line_prefix (m - 1) (rest rp s)) in *.
    exists rp', s'. unfold rio_readlineb. rewrite (bind_ok _ _ _ E). split_and!; [|done..].
    do 3 f_equal. rewrite Nat2Z.id. cbn [Nat.sub Nat.add].
    destruct line as [|c l] eqn:El; [done|]. rewrite Hb by (right; left; done).
    unfold written_at. by rewrite Nat.sub_diag, take_0, app_nil_l, take_app_length.
  - destruct (readnb_loop_spec n 0 n (replicate n NUL) rp s Hwf Hc)
      as (rp' & s' & E & Hwf' & Hc' & Hr); [lia|by rewrite length_replicate|].
    exists rp', s'. unfold rio_readnb. rewrite (bind_ok _ _ _ E). split_and!; [|done|done|].
    + by rewrite Nat2Z.id, take_written.
    + rewrite Hr, length_take. destruct (decide (n <= length (rest rp s))%nat).
      * by rewrite Nat.min_l.
      * by rewrite Nat.min_r, !drop_ge by lia.
Qed.

(** [C31] rio_refines: the buffered operations implement a byte stream.  Any
    sequence of [rio_readlineb]s and [rio_readnb]s, freely mixed, after
    [rio_readinitb], returns what taking lines (with their newline, at most
    [maxlen - 1] bytes) and blocks off the stream of all bytes gives, however the
    data arrives and is interrupted; nothing is lost, repeated or reordered, and
    what is left in the buffer and to come is the rest of the stream. *)
Theorem rio_refines ops fd rp s :
  length (rio_buf rp) = RIO_BUFSIZE -> clean s -> Forall op_ok ops ->
  exists rp' s', perform_all ops (rio_readinitb rp fd) s = Ok ((spec ops (bytes_of s)).1, rp', s') /\
    rest rp' s' = (spec ops (bytes_of s)).2.
Proof.
  intros Hlen Hc Hops.
  assert (Hwf : rio_wf (rio_readinitb rp fd)) by (split; cbn; [done|lia|lia]).
  rewrite <- (rest_empty (rio_readinitb rp fd) s) by (cbn; lia).
  revert Hwf. generalize (rio_readinitb rp fd) as r. intros r. clear Hlen. revert r s Hc.
  induction Hops as [|o ops Ho _ IH]; intros r s Hc Hwf; [by exists r, s|].
  destruct (perform_spec o r s Hwf Hc Ho) as (r1 & s1 & E & Hwf1 & Hc1 & Hr1).
  destruct (IH r1 s1 Hc1 Hwf1) as (r2 & s2 & E2 & Hr2).
  exists r2, s2. cbn [perform_all spec]. rewrite (bind_ok _ _ _ E), (bind_ok _ _ _ E2).
  rewrite Hr1 in *. destruct (spec ops _) as [out l']. done.
Qed.

Lemma rio_refines_witness :
  let s := [Chunk (lit "GET / HT"); Intr; Chunk (lit "TP/1.0" ++ [LF] ++ lit "bo"); Chunk (lit "dy")] in
  exists rp' s', perform_all [ReadLine 64; ReadN 3; ReadLine 64] (rio_readinitb new_rio 5) s =
    Ok ([lit "GET / HTTP/1.0" ++ [LF]; lit "bod"; lit "y"], rp', s') /\ rest rp' s' = [].
Proof.
  apply (rio_refines [ReadLine 64; ReadN 3; ReadLine 64] 5 new_rio
    [Chunk (lit "GET / HT"); Intr; Chunk (lit "TP/1.0" ++ [LF] ++ lit "bo"); Chunk (lit "dy")]).
  - apply length_replicate.
  - repeat constructor; discriminate.
  - repeat constructor; cbn; lia.
Defined.
