(* ===== verification/TinyWeb.v ===== *)
(** * The Tiny web server (socket/csapp/tiny_web.c)

    One HTTP transaction, [doit], with all it calls, over the buffered input of
    Rio.v.  What the server writes to the client and the programs it starts are a
    list of actions; the file system, [mmap] and [fork] are arguments.  The stack
    arrays are their contents, with the capacity checked where the code copies
    into them; [sprintf(b, "%s...", b)] appends. *)

From S2P Require Import Prelude CString Rio.

Definition MAXLINE : nat := 1024.
#[global] Arguments MAXLINE : simpl never.
Definition MAXBUF : nat := RIO_BUFSIZE.

Inductive action :=
  | Out (fd : Z) (data : bytes)                   (** [rio_writen] *)
  | Wait                                          (** [wait(NULL)] *)
  | Run (fd : Z) (filename cgiargs : bytes).      (** the child's [execve], its output on [fd] *)

Record tfs := Tfs {
  t_stat : bytes -> option (Z * Z);      (** mode and size *)
  t_mmap : bytes -> Z -> option bytes;   (** [open] and [mmap]; [None] is [MAP_FAILED] *)
  t_fork : Z }.                          (** what [fork] gives in the server *)

(** [strcpy], [sprintf], [strcat]: the string [s] in an array of [cap] bytes. *)
Definition into (cap : nat) (s : bytes) : res bytes :=
  if decide (length s < cap)%nat then Ok s else Err OutOfBounds.

(** The words that ["%s %s %s"] reads. *)
Fixpoint words_from (w : bytes) (s : bytes) : list bytes :=
  match s with
  | [] => if decide (w = []) then [] else [w]
  | c :: s =>
      if isspace c then (if decide (w = []) then words_from [] s else w :: words_from [] s)
      else words_from (w ++ [c]) s
  end.
Definition words (s : bytes) : list bytes := words_from [] s.

(** ** Responses *)

Definition clienterror (fd : Z) (cause errnum shortmsg longmsg : bytes) : res (list action) :=
  body ← into MAXBUF (lit "<html><title>Tiny Error</title>");
  body ← into MAXBUF (body ++ lit "<body bgcolor=ffffff>" ++ CRLF);
  body ← into MAXBUF (body ++ errnum ++ lit ": " ++ shortmsg ++ CRLF);
  body ← into MAXBUF (body ++ lit "<p>" ++ longmsg ++ lit ": " ++ cause ++ CRLF);
  body ← into MAXBUF (body ++ lit "<hr><em>The Tiny Web server</em>" ++ CRLF);
  buf ← into MAXLINE (lit "HTTP/1.0 " ++ errnum ++ lit " " ++ shortmsg ++ CRLF);
  buf2 ← into MAXLINE (lit "Content-type: text/html" ++ CRLF);
  buf3 ← into MAXLINE (lit "Content-length: " ++ dec (Z.of_nat (length body)) ++ CRLF ++ CRLF);
  Ok [Out fd buf; Out fd buf2; Out fd buf3; Out fd body].

(** [get_filetype]: the last test looks into the array that it is to fill. *)
Definition get_filetype (filename : bytes) : res bytes :=
  if strstr filename (lit ".html") then Ok (lit "text/html")
  else if strstr filename (lit ".gif") then Ok (lit "image/gif")
  else if strstr filename (lit ".png") then Ok (lit "image/png")
  else Err Uninit.

Definition serve_static (fs : tfs) (fd : Z) (filename : bytes) (filesize : Z) : res (list action) :=
  filetype ← get_filetype filename;
  buf ← into MAXBUF (lit "HTTP/1.0 200 OK" ++ CRLF);
  buf ← into MAXBUF (buf ++ lit "Server: Tiny Web Server" ++ CRLF);
  buf ← into MAXBUF (buf ++ lit "Connection: close" ++ CRLF);
  buf ← into MAXBUF (buf ++ lit "Content-length: " ++ dec filesize ++ CRLF);
  buf ← into MAXBUF (buf ++ lit "Content-type: " ++ filetype ++ CRLF ++ CRLF);
  match t_mmap fs filename filesize with
  | Some content => Ok [Out fd buf; Out fd (take (Z.to_nat filesize) content)]
  | None => Ok [Out fd buf]
  end.

(** The server's side; the child that [fork] makes runs the program. *)
Definition serve_dynamic (fs : tfs) (fd : Z) (filename cgiargs : bytes) : list action :=
  [Out fd (lit "HTTP/1.0 200 OK" ++ CRLF); Out fd (lit "Server: Tiny Web Server" ++ CRLF)] ++
  (if decide (t_fork fs > 0) then [Run fd filename cgiargs] else []) ++ [Wait].

(** ** The request *)

(** [parse_uri]: is it static, the file name, the CGI arguments. *)
Definition parse_uri (uri : bytes) : res (bool * bytes * bytes) :=
  if negb (strstr uri (lit "cgi-bin")) then
    filename ← into MAXLINE (lit "." ++ uri);
    c ← from_opt OutOfBounds (last uri);
    filename ← (if decide (c = "/"%char) then into MAXLINE (filename ++ lit "home.html")
                else Ok filename);
    Ok (true, filename, [])
  else
    match strchr uri "?" with
    | Some k =>
        cgiargs ← into MAXLINE (drop (S k) uri);
        filename ← into MAXLINE (lit "." ++ take k uri);
        Ok (false, filename, cgiargs)
    | None =>
        filename ← into MAXLINE (lit "." ++ uri);
        Ok (false, filename, [])
    end.

(** The loop of [read_requesthdrs]; it ends at an empty line only, so its rounds
    are bounded by [k]. *)
Fixpoint hdrs_loop (k : nat) (buf : bytes) (rp : rio_t) (s : list item)
    : res (rio_t * list item) :=
  line ← cstr buf 0;
  if decide (line = CRLF) then Ok (rp, s)
  else
    match k with
    | O => Err OutOfFuel
    | S k => '(_, buf, rp, s) ← rio_readlineb rp buf MAXLINE s; hdrs_loop k buf rp s
    end.

(** [g] is what the array [buf] holds before it is written to. *)
Definition read_requesthdrs (k : nat) (g : bytes) (rp : rio_t) (s : list item)
    : res (rio_t * list item) :=
  '(_, buf, rp, s) ← rio_readlineb rp g MAXLINE s;
  hdrs_loop k buf rp s.

Definition S_IRUSR : Z := 256.
Definition S_IXUSR : Z := 64.
Definition S_ISREG (mode : Z) : bool := Z.land mode 61440 =? 32768.

(** [doit] from line 75 on. *)
Definition answer (fs : tfs) (fd : Z) (uri : bytes) : res (list action) :=
  '(is_static, filename, cgiargs) ← parse_uri uri;
  match t_stat fs filename with
  | None => clienterror fd filename (lit "404") (lit "Not found") (lit "Tiny couldn't find this file")
  | Some (mode, size) =>
      if (is_static : bool) then
        if negb (S_ISREG mode) || (Z.land S_IRUSR mode =? 0) then
          clienterror fd filename (lit "403") (lit "Forbidden") (lit "Tiny couldn't read the file")
        else
          out ← serve_static fs fd filename (to_int size);
          Ok (out ++ serve_dynamic fs fd filename cgiargs)
      else
        if negb (S_ISREG mode) || (Z.land S_IXUSR mode =? 0) then
          clienterror fd filename (lit "403") (lit "Forbidden")
            (lit "Tiny couldn't run the CGI program")
        else Ok (serve_dynamic fs fd filename cgiargs)
  end.

(** [doit]; [g] and [g'] are the contents of the two [buf] arrays on entry. *)
Definition doit (k : nat) (fs : tfs) (g g' : bytes) (rp : rio_t) (fd : Z) (s : list item)
    : res (list action) :=
  let rio := rio_readinitb rp fd in
  '(_, buf, rio, s) ← rio_readlineb rio g MAXLINE s;
  line ← cstr buf 0;
  method ← from_opt Uninit (words line !! 0%nat);
  if negb (strcaseeq method (lit "GET")) then
    clienterror fd method (lit "501") (lit "Not implemented")
      (lit "Tiny does not implement this method")
  else
    '(_, _) ← read_requesthdrs k g' rio s;
    uri ← from_opt Uninit (words line !! 1%nat);
    answer fs fd uri.

(** ** The listening socket (socket/csapp/socket_package.c)

    The addresses [getaddrinfo] gives, each with the results of [socket] and
    [bind]. *)
Fixpoint first_bound (addrs : list (Z * Z)) : option Z * list Z :=
  match addrs with
  | [] => (None, [])
  | (sock, bnd) :: addrs =>
      if decide (sock < 0) then first_bound addrs
      else if decide (bnd = 0) then (Some sock, [])
      else let '(r, closed) := first_bound addrs in (r, sock :: closed)
  end.

(** [open_listenfd]: the descriptor or -1, and the descriptors closed. *)
Definition open_listenfd (addrs : option (list (Z * Z))) (lst : Z) : Z * list Z :=
  match addrs with
  | None => (-1, [])
  | Some addrs =>
      match first_bound addrs with
      | (None, closed) => (-1, closed)
      | (Some fd, closed) => if decide (lst < 0) then (-1, closed ++ [fd]) else (fd, closed)
      end
  end.

(** [open_clientfd]: the results of [socket] and [connect]. *)
Fixpoint first_connected (addrs : list (Z * Z)) : option Z * list Z :=
  match addrs with
  | [] => (None, [])
  | (sock, con) :: addrs =>
      if decide (sock < 0) then first_connected addrs
      else if decide (con <> -1) then (Some sock, [])
      else let '(r, closed) := first_connected addrs in (r, sock :: closed)
  end.
Definition open_clientfd (addrs : option (list (Z * Z))) : Z * list Z :=
  match addrs with
  | None => (-1, [])
  | Some addrs => let '(r, closed) := first_connected addrs in (default (-1) r, closed)
  end.

(** ** main: transactions one after the other

    Each connection is the descriptor [accept] gave and its input. *)
Fixpoint serve_all (k : nat) (fs : tfs) (g g' : bytes) (rp : rio_t) (conns : list (Z * list item))
    : res (list (list action * Z)) :=
  match conns with
  | [] => Ok []
  | (fd, s) :: conns =>
      out ← doit k fs g g' rp fd s;
      rest ← serve_all k fs g g' rp conns;
      Ok ((out, fd) :: rest)   (** [close(connfd)] *)
  end.

(** ** The CGI adder (socket/csapp/cgi_adder.c)

    The page for the value of QUERY_STRING; a missing one is printed through a
    null pointer, one without '&' written through one. *)
Definition adder (query : option bytes) : res bytes :=
  match query with
  | None => Err NullDeref
  | Some buf =>
      match strchr buf "&" with
      | None => Err NullDeref
      | Some k =>
          arg1 ← into MAXLINE (take k buf);
          arg2 ← into MAXLINE (drop (S k) buf);
          let n1 := atoi arg1 in
          let n2 := atoi arg2 in
          _ ← into MAXLINE (lit "QUERY_STRING=" ++ take k buf);
          content ← into MAXLINE (lit "Welcome to add.com: ");
          content ← into MAXLINE (content ++ lit "The Internet addition portal." ++ CRLF ++ lit "<p>");
          sum ← int_op (n1 + n2);
          content ← into MAXLINE (content ++ lit "The answer is: " ++ dec n1 ++ lit " + " ++ dec n2
                       ++ lit " = " ++ dec sum ++ CRLF ++ lit "<p>");
          content ← into MAXLINE (content ++ lit "Thanks for visiting!" ++ CRLF);
          Ok (lit "Connection: close" ++ CRLF ++
              lit "Content-length: " ++ dec (Z.of_nat (length content)) ++ CRLF ++
              lit "Content-type: text/html" ++ CRLF ++ CRLF ++ content)
      end
  end.

(** ** Lemmas: reading lines *)

(** A line as a client sends it, no longer than the server's buffer takes. *)
Record full_line (l : bytes) : Prop := {
  fl_body : exists body, l = body ++ [LF] /\ LF ∉ body;
  fl_nul : NUL ∉ l;
  fl_fits : (length l < MAXLINE)%nat }.

Lemma into_ok n s : (length s < n)%nat -> into n s = Ok s.
Proof. intros H. unfold into. by rewrite decide_True. Qed.

Lemma line_prefix_full m body t :
  LF ∉ body -> (S (length body) <= m)%nat -> line_prefix m ((body ++ [LF]) ++ t) = body ++ [LF].
Proof.
  revert m. induction body as [|c body IH]; intros [|m] Hn Hm; cbn in *; try lia; [done|].
  rewrite decide_False by set_solver. f_equal. apply IH; [set_solver|lia].
Qed.

Lemma upto_nul_found l t : NUL ∉ l -> upto_nul (l ++ NUL :: t) = Some l.
Proof.
  induction l as [|c l IH]; intros Hn; [done|]. cbn. rewrite decide_False by set_solver.
  rewrite IH by set_solver. done.
Qed.

Lemma read_full_line rp g s l t :
  rio_wf rp -> clean s -> length g = MAXLINE -> full_line l -> rest rp s = l ++ t ->
  exists n buf rp' s', rio_readlineb rp g MAXLINE s = Ok (n, buf, rp', s') /\
    cstr buf 0 = Ok l /\ length buf = MAXLINE /\ rio_wf rp' /\ clean s' /\ rest rp' s' = t.
Proof.
  intros Hwf Hc Hg [(body & Hl & Hb) Hnul Hfit] Hr.
  assert (Hm : (1 <= MAXLINE)%nat) by lia.
  destruct (readline_loop_spec MAXLINE 1 MAXLINE g rp s Hwf Hc)
    as (buf & rp' & s' & E & Hbuf & _ & Hwf' & Hc' & Hr'); [lia|lia|lia|].
  assert (Hline : line_prefix (MAXLINE - 1) (rest rp s) = l).
  { rewrite Hr, Hl. apply line_prefix_full; [done|]. rewrite Hl, length_app in Hfit. cbn in Hfit. lia. }
  rewrite Hline in *. assert (Hne : l <> []) by (rewrite Hl; by destruct body).
  rewrite Hbuf in * by (by right; left). eexists _, _, rp', s'. split; [exact E|].
  unfold written_at. rewrite Nat.sub_diag, take_0, app_nil_l. split_and!; [|..|done|done|].
  - unfold cstr. rewrite decide_True by lia. rewrite drop_0, upto_nul_found by done. done.
  - rewrite length_app. cbn. rewrite length_drop. lia.
  - by rewrite Hr', Hr, drop_app_length.
Qed.

Lemma crlf_line : full_line CRLF.
Proof.
  split; [exists [CR]; split; [done|set_solver]|set_solver|].
  apply Nat.ltb_lt. reflexivity.
Qed.

Lemma hdrs_loop_spec hdrs k buf rp s t l :
  Forall (fun h => full_line h /\ h <> CRLF) hdrs -> (length hdrs < k)%nat ->
  rio_wf rp -> clean s -> length buf = MAXLINE ->
  cstr buf 0 = Ok l -> l <> CRLF -> rest rp s = mjoin hdrs ++ CRLF ++ t ->
  exists rp' s', hdrs_loop k buf rp s = Ok (rp', s') /\ rest rp' s' = t.
Proof.
  intros Hh. revert k buf rp s l.
  induction Hh as [|h hdrs [Hf Hne] _ IH]; intros k buf rp s l Hk Hwf Hc Hb Hs Hl Hr;
    (destruct k as [|k]; [cbn in Hk; lia|]); cbn [hdrs_loop]; rewrite (bind_ok _ _ _ Hs);
    rewrite decide_False by done.
  - destruct (read_full_line rp buf s CRLF t Hwf Hc Hb crlf_line Hr)
      as (n & buf' & rp' & s' & E & Hs' & _ & _ & _ & Hr').
    rewrite (bind_ok _ _ _ E). exists rp', s'. split; [|done].
    destruct k; cbn [hdrs_loop]; rewrite (bind_ok _ _ _ Hs'); by rewrite decide_True.
  - cbn [mjoin list_join] in Hr. rewrite <- (assoc_L (++)) in Hr.
    destruct (read_full_line rp buf s h _ Hwf Hc Hb Hf Hr)
      as (n & buf' & rp' & s' & E & Hs' & Hb' & Hwf' & Hc' & Hr').
    rewrite (bind_ok _ _ _ E). apply (IH k buf' rp' s' h); try done. cbn in Hk. lia.
Qed.

(** ** A transaction *)

(** [C32] tiny_request: a GET request is understood however it arrives: if the
    client sends a request line, header lines and an empty line (none longer than
    the buffer), in whatever pieces and with whatever interruptions, then what
    [doit] does is the answer to the second word of the request line, and the
    headers play no part. *)
Theorem tiny_request k fs g g' rp fd s reqline hdrs t m uri more :
  length (rio_buf rp) = RIO_BUFSIZE -> length g = MAXLINE -> length g' = MAXLINE ->
  clean s -> bytes_of s = reqline ++ mjoin hdrs ++ CRLF ++ t ->
  full_line reqline -> Forall (fun h => full_line h /\ h <> CRLF) hdrs ->
  (length hdrs <= k)%nat ->
  words reqline = m :: uri :: more -> strcaseeq m (lit "GET") = true ->
  doit k fs g g' rp fd s = answer fs fd uri.
Proof.
  intros Hlen Hg Hg' Hc Hs Hreq Hh Hk Hw Hm. unfold doit.
  assert (Hwf : rio_wf (rio_readinitb rp fd)) by (split; cbn; [done|lia|lia]).
  rewrite <- (rest_empty (rio_readinitb rp fd) s) in Hs by (cbn; lia).
  destruct (read_full_line _ g s reqline _ Hwf Hc Hg Hreq Hs)
    as (n & buf & rp1 & s1 & E & Hl & _ & Hwf1 & Hc1 & Hr1).
  cbv zeta. rewrite (bind_ok _ _ _ E), (bind_ok _ _ _ Hl), Hw. cbn [lookup list_lookup from_opt mbind res_bind].
  rewrite Hm. cbn [negb].
  assert (Hhd : exists rp2 s2, read_requesthdrs k g' rp1 s1 = Ok (rp2, s2)).
  { unfold read_requesthdrs. destruct Hh as [|h hdrs [Hf Hne] Hh].
    - cbn [mjoin list_join app] in Hr1.
      destruct (read_full_line rp1 g' s1 CRLF t Hwf1 Hc1 Hg' crlf_line Hr1)
        as (n' & b & rp2 & s2 & E2 & Hl2 & _).
      rewrite (bind_ok _ _ _ E2). exists rp2, s2.
      destruct k; cbn [hdrs_loop]; rewrite (bind_ok _ _ _ Hl2); by rewrite decide_True.
    - cbn [mjoin list_join] in Hr1. rewrite <- (assoc_L (++)) in Hr1.
      destruct (read_full_line rp1 g' s1 h _ Hwf1 Hc1 Hg' Hf Hr1)
        as (n' & b & rp2 & s2 & E2 & Hl2 & Hb & Hwf2 & Hc2 & Hr2).
      rewrite (bind_ok _ _ _ E2).
      destruct (hdrs_loop_spec hdrs k b rp2 s2 t h) as (rp3 & s3 & E3 & _); try done.
      eauto. }
  destruct Hhd as (rp2 & s2 & E2). rewrite (bind_ok _ _ _ E2). done.
Qed.

(** static_served_and_run: a request for a static page is answered with the
    page, header and contents, and then, because [doit] does not return there,
    with a second status line, and the server tries to run the page as a CGI
    program with its output going to the client. *)
Theorem static_served_and_run fs fd uri c mode size content :
  strstr uri (lit "cgi-bin") = false -> last uri = Some c -> c <> "/"%char ->
  (S (length uri) < MAXLINE)%nat ->
  strstr (lit "." ++ uri) (lit ".html") = true ->
  t_stat fs (lit "." ++ uri) = Some (mode, size) -> int_range size ->
  S_ISREG mode = true -> Z.land S_IRUSR mode <> 0 ->
  t_mmap fs (lit "." ++ uri) size = Some content -> t_fork fs > 0 ->
  answer fs fd uri = Ok
    [Out fd (lit "HTTP/1.0 200 OK" ++ CRLF ++ lit "Server: Tiny Web Server" ++ CRLF ++
       lit "Connection: close" ++ CRLF ++ lit "Content-length: " ++ dec size ++ CRLF ++
       lit "Content-type: text/html" ++ CRLF ++ CRLF);
     Out fd (take (Z.to_nat size) content);
     Out fd (lit "HTTP/1.0 200 OK" ++ CRLF); Out fd (lit "Server: Tiny Web Server" ++ CRLF);
     Run fd (lit "." ++ uri) []; Wait].
Proof.
  intros Hcgi Hlast Hc Hlen Hhtml Hstat Hsize Hreg Hread Hmap Hfork.
  unfold answer, parse_uri. rewrite Hcgi. cbn [negb].
  rewrite (bind_ok _ _ _ (into_ok MAXLINE (lit "." ++ uri) Hlen)), Hlast.
  cbn [from_opt mbind res_bind]. rewrite decide_False by done. cbn [mbind res_bind].
  rewrite Hstat, Hreg. cbn [negb orb]. replace (Z.land S_IRUSR mode =? 0) with false by lia.
  rewrite to_int_id by done. unfold serve_static, get_filetype. rewrite Hhtml.
  cbn [mbind res_bind]. pose proof (dec_length size Hsize) as Hd.
  assert (Hb : (400 < MAXBUF)%nat) by (apply Nat.ltb_lt; reflexivity).
  do 5 (rewrite into_ok by (rewrite !length_app; cbn -[dec MAXBUF]; lia);
        cbn [mbind res_bind]).
  rewrite Hmap. cbn [mbind res_bind]. unfold serve_dynamic.
  rewrite decide_True by done. by rewrite <- !(assoc_L (++)).
Qed.

(** A client that closes its end before the empty line: [rio_readlineb] gives 0
    and leaves the buffer as it was, so [read_requesthdrs] never ends. *)
Lemma hdrs_stuck k buf rp s l :
  rio_wf rp -> clean s -> rest rp s = [] -> length buf = MAXLINE ->
  cstr buf 0 = Ok l -> l <> CRLF -> hdrs_loop k buf rp s = Err OutOfFuel.
Proof.
  intros Hwf Hc Hr Hb Hs Hl. assert (Hm : (1 < MAXLINE)%nat) by (apply Nat.ltb_lt; reflexivity).
  revert rp s Hwf Hc Hr.
  induction k as [|k IH]; intros rp s Hwf Hc Hr; cbn [hdrs_loop]; rewrite (bind_ok _ _ _ Hs);
    rewrite decide_False by done; [done|].
  destruct (readline_loop_spec MAXLINE 1 MAXLINE buf rp s Hwf Hc)
    as (buf' & rp' & s' & E & _ & Hsame & Hwf' & Hc' & Hr'); [lia|lia|lia|].
  assert (Hline : line_prefix (MAXLINE - 1) (rest rp s) = []) by (rewrite Hr; by destruct (MAXLINE - 1)%nat).
  rewrite Hline in *. rewrite Hsame in E by (done || lia).
  unfold rio_readlineb. rewrite (bind_ok _ _ _ E). apply IH; [done..|]. by rewrite Hr', Hr.
Qed.

Lemma hdrs_truncated hdrs k buf rp s l :
  Forall (fun h => full_line h /\ h <> CRLF) hdrs ->
  rio_wf rp -> clean s -> length buf = MAXLINE ->
  cstr buf 0 = Ok l -> l <> CRLF -> rest rp s = mjoin hdrs ->
  hdrs_loop k buf rp s = Err OutOfFuel.
Proof.
  intros Hh. revert k buf rp s l.
  induction Hh as [|h hdrs [Hf Hne] _ IH]; intros k buf rp s l Hwf Hc Hb Hs Hl Hr;
    [by eapply hdrs_stuck|].
  destruct k as [|k]; cbn [hdrs_loop]; rewrite (bind_ok _ _ _ Hs), decide_False by done; [done|].
  cbn [mjoin list_join] in Hr.
  destruct (read_full_line rp buf s h _ Hwf Hc Hb Hf Hr)
    as (n & buf' & rp' & s' & E & Hs' & Hb' & Hwf' & Hc' & Hr').
  rewrite (bind_ok _ _ _ E). by apply (IH k buf' rp' s' h).
Qed.

(** truncated_request_hangs: when a client sends a request line and some
    complete header lines, and closes its end without the empty line, [doit] never
    returns: no number of rounds is enough, and the server, which handles one
    connection after the other, serves nobody any more. *)
Theorem truncated_request_hangs k fs g g' rp fd s reqline hdrs m more :
  length (rio_buf rp) = RIO_BUFSIZE -> length g = MAXLINE -> length g' = MAXLINE ->
  clean s -> bytes_of s = reqline ++ mjoin hdrs -> hdrs <> [] ->
  full_line reqline -> Forall (fun h => full_line h /\ h <> CRLF) hdrs ->
  words reqline = m :: more -> strcaseeq m (lit "GET") = true ->
  doit k fs g g' rp fd s = Err OutOfFuel.
Proof.
  intros Hlen Hg Hg' Hc Hs Hne Hreq Hh Hw Hm. unfold doit.
  assert (Hwf : rio_wf (rio_readinitb rp fd)) by (split; cbn; [done|lia|lia]).
  rewrite <- (rest_empty (rio_readinitb rp fd) s) in Hs by (cbn; lia).
  destruct (read_full_line _ g s reqline _ Hwf Hc Hg Hreq Hs)
    as (n & buf & rp1 & s1 & E & Hl & _ & Hwf1 & Hc1 & Hr1).
  cbv zeta. rewrite (bind_ok _ _ _ E), (bind_ok _ _ _ Hl), Hw.
  cbn [lookup list_lookup from_opt mbind res_bind]. rewrite Hm. cbn [negb].
  destruct Hh as [|h hdrs [Hf Hnc] Hh]; [done|]. cbn [mjoin list_join] in Hr1.
  destruct (read_full_line rp1 g' s1 h _ Hwf1 Hc1 Hg' Hf Hr1)
    as (n' & b & rp2 & s2 & E2 & Hl2 & Hb & Hwf2 & Hc2 & Hr2).
  unfold read_requesthdrs. rewrite (bind_ok _ _ _ E2).
  by rewrite (hdrs_truncated hdrs k b rp2 s2 h).
Qed.

(** ** Examples *)

Definition page0 : bytes := lit "<p>hi</p>".
Definition fs0 : tfs :=
  Tfs (fun f => if decide (f = lit "./a.html") then Some (33188, 9) else None)
    (fun _ _ => Some page0) 77.
Definition buf0 : bytes := replicate MAXLINE NUL.
Definition req0 : bytes := lit "GET /a.html HTTP/1.0" ++ CRLF.
Definition hdr0 : bytes := lit "Host: x" ++ CRLF.
Definition input0 : list item := [Chunk (lit "GET /a.h"); Intr; Chunk (lit "tml HTTP/1.0" ++ CRLF ++ hdr0 ++ [CR]); Chunk [LF]].

Ltac a_line body :=
  split; [exists body; split; [reflexivity|decided]|decided|apply Nat.ltb_lt; reflexivity].

Lemma req0_line : full_line req0.
Proof. a_line (lit "GET /a.html HTTP/1.0" ++ [CR]). Qed.

Lemma hdr0_line : full_line hdr0 /\ hdr0 <> CRLF.
Proof. split; [a_line (lit "Host: x" ++ [CR])|done]. Qed.

Lemma tiny_request_witness : doit 1 fs0 buf0 buf0 new_rio 5 input0 = answer fs0 5 (lit "/a.html").
Proof.
  apply (tiny_request 1 fs0 buf0 buf0 new_rio 5 input0 req0 [hdr0] [] (lit "GET") (lit "/a.html")
    [lit "HTTP/1.0"]); try reflexivity.
  - repeat constructor; discriminate.
  - exact req0_line.
  - repeat constructor; apply hdr0_line.
Defined.

Lemma static_served_and_run_witness :
  answer fs0 5 (lit "/a.html") = Ok
    [Out 5 (lit "HTTP/1.0 200 OK" ++ CRLF ++ lit "Server: Tiny Web Server" ++ CRLF ++
       lit "Connection: close" ++ CRLF ++ lit "Content-length: " ++ dec 9 ++ CRLF ++
       lit "Content-type: text/html" ++ CRLF ++ CRLF);
     Out 5 (take (Z.to_nat 9) page0);
     Out 5 (lit "HTTP/1.0 200 OK" ++ CRLF); Out 5 (lit "Server: Tiny Web Server" ++ CRLF);
     Run 5 (lit "./a.html") []; Wait].
Proof.
  apply (static_served_and_run fs0 5 (lit "/a.html") "l" 33188 9 page0);
    try reflexivity; try discriminate.
  - apply Nat.ltb_lt. reflexivity.
  - split; discriminate.
Defined.

Lemma truncated_request_hangs_witness :
  doit 1000 fs0 buf0 buf0 new_rio 5 [Chunk (req0 ++ hdr0)] = Err OutOfFuel.
Proof.
  apply (truncated_request_hangs 1000 fs0 buf0 buf0 new_rio 5 [Chunk (req0 ++ hdr0)] req0 [hdr0]
    (lit "GET") [lit "/a.html"; lit "HTTP/1.0"]); try reflexivity; try discriminate.
  - repeat constructor; discriminate.
  - exact req0_line.
  - repeat constructor; apply hdr0_line.
Defined.
