(* ===== verification/EchoServers.v ===== *)
(** * Echo servers over robust I/O (socket/csapp)

    The echo loop that echoserver.c, echoserver_process.c, echoserver_select.c and
    echoserver_thread.c share, and the server of echoserver_select_event.c, which
    keeps a pool of clients and calls [rio_readlineb] for each that [select]
    reports. *)

From S2P Require Import Prelude CString Rio TinyWeb.

(** [wr data]: what the calls of [write] return when [data] is to be written. *)
Abbreviation writes := (bytes -> list write_result).

(** The descriptor takes everything in the end. *)
Definition takes_all (wr : writes) : Prop :=
  forall b, (length b <= MAXLINE)%nat -> exists w, rio_writen b (length b) (wr b) = Ok (true, w).

(** [rio_writen(connfd, buf, n)]; -1 becomes a [size_t] larger than any buffer. *)
Definition write_back (wr : writes) (buf : bytes) (n : Z) : res bytes :=
  if decide (n < 0) then Err OutOfBounds
  else '(_, w) ← rio_writen buf (Z.to_nat n) (wr (take (Z.to_nat n) buf)); Ok w.

(** ** echo *)

(** The loop; the result is what was written. *)
Fixpoint echo_loop (k : nat) (wr : writes) (buf : bytes) (rio : rio_t) (s : list item)
    : res (bytes * list item) :=
  match k with
  | O => Err OutOfFuel
  | S k =>
      '(n, buf, rio, s) ← rio_readlineb rio buf MAXLINE s;
      if decide (n = 0) then Ok ([], s)
      else
        w ← write_back wr buf n;
        '(ws, s) ← echo_loop k wr buf rio s;
        Ok (w ++ ws, s)
  end.

(** [buf] and [rio] are uninitialised local objects; every turn but the last takes
    at least a byte off the stream. *)
Definition echo (wr : writes) (buf : bytes) (rio : rio_t) (connfd : Z) (s : list item)
    : res (bytes * list item) :=
  echo_loop (S (length (bytes_of s))) wr buf (rio_readinitb rio connfd) s.

(** ** The pool *)

Definition FD_SETSIZE : nat := 1024.
#[global] Arguments FD_SETSIZE : simpl never.

Record pool := Pool {
  maxfd : Z;
  read_set : gset Z;
  ready_set : gset Z;
  nready : Z;
  maxi : Z;
  clientfd : list Z;
  clientrio : list rio_t }.

(** The pool, the descriptors' streams, and what was done. *)
Record world := World {
  wpool : pool;
  byte_cnt : Z;
  streams : gmap Z (list item);
  sent : list (Z * bytes);
  closed : list Z }.

Definition init_pool (listenfd : Z) (rios : list rio_t) : pool :=
  Pool listenfd {[listenfd]} ∅ 0 (-1) (replicate FD_SETSIZE (-1)) rios.

(** [FD_SET] outside the set is out of bounds. *)
Definition FD_SET (fd : Z) (s : gset Z) : res (gset Z) :=
  if decide (0 <= fd < Z.of_nat FD_SETSIZE) then Ok ({[fd]} ∪ s) else Err OutOfBounds.

(** The search for a free slot. *)
Fixpoint add_loop (n : nat) (i connfd : Z) (p : pool) : res pool :=
  match n with
  | O => Ok p    (** "Too many clients" *)
  | S n =>
      c ← aget (clientfd p) i;
      if decide (c < 0) then
        cfd ← aset (clientfd p) i connfd;
        r ← aget (clientrio p) i;
        crio ← aset (clientrio p) i (rio_readinitb r connfd);
        rs ← FD_SET connfd (read_set p);
        Ok (Pool (if decide (connfd > maxfd p) then connfd else maxfd p) rs (ready_set p) (nready p)
              (if decide (i > maxi p) then i else maxi p) cfd crio)
      else add_loop n (i + 1) connfd p
  end.

Definition set_nready (n : Z) (p : pool) : pool :=
  Pool (maxfd p) (read_set p) (ready_set p) n (maxi p) (clientfd p) (clientrio p).

Definition add_client (connfd : Z) (p : pool) : res pool :=
  add_loop FD_SETSIZE 0 connfd (set_nready (nready p - 1) p).

(** One client that is ready: [rio] is a copy of the pool's object. *)
Definition check_one (wr : writes) (i connfd : Z) (rio : rio_t) (buf : bytes) (w : world)
    : res (bytes * world) :=
  let p := set_nready (nready (wpool w) - 1) (wpool w) in
  '(n, buf, _, s) ← rio_readlineb rio buf MAXLINE (default [] (streams w !! connfd));
  let streams := <[connfd := s]> (streams w) in
  if decide (n <> 0) then
    cnt ← int_op (byte_cnt w + n);
    out ← write_back wr buf n;
    Ok (buf, World p cnt streams (sent w ++ [(connfd, out)]) (closed w))
  else
    cfd ← aset (clientfd p) i (-1);
    Ok (buf, World (Pool (maxfd p) (read_set p ∖ {[connfd]}) (ready_set p) (nready p) (maxi p) cfd (clientrio p))
               (byte_cnt w) streams (sent w) (closed w ++ [connfd])).

Fixpoint check_loop (n : nat) (wr : writes) (i : Z) (buf : bytes) (w : world) : res world :=
  if decide (i <= maxi (wpool w) /\ nready (wpool w) > 0) then
    match n with
    | O => Err OutOfFuel
    | S n =>
        connfd ← aget (clientfd (wpool w)) i;
        rio ← aget (clientrio (wpool w)) i;
        if decide (connfd > 0 /\ connfd ∈ ready_set (wpool w)) then
          '(buf, w) ← check_one wr i connfd rio buf w; check_loop n wr (i + 1) buf w
        else check_loop n wr (i + 1) buf w
    end
  else Ok w.

Definition check_clients (wr : writes) (buf : bytes) (w : world) : res world :=
  check_loop FD_SETSIZE wr 0 buf w.

(** What [select] leaves in [ready_set], and what [accept] returns. *)
Record answer := Answer { ready : gset Z; accepted : Z }.

Definition set_pool (p : pool) (w : world) : world :=
  World p (byte_cnt w) (streams w) (sent w) (closed w).

(** One turn of the loop of [main]. *)
Definition turn (listenfd : Z) (wr : writes) (buf : bytes) (a : answer) (w : world) : res world :=
  let p := wpool w in
  let p := Pool (maxfd p) (read_set p) (ready a) (Z.of_nat (size (ready a))) (maxi p) (clientfd p) (clientrio p) in
  p ← (if decide (listenfd ∈ ready_set p) then add_client (accepted a) p else Ok p);
  check_clients wr buf (set_pool p w).

Fixpoint main_loop (listenfd : Z) (wr : writes) (buf : bytes) (answers : list answer) (w : world) : res world :=
  match answers with
  | [] => Ok w
  | a :: answers => w ← turn listenfd wr buf a w; main_loop listenfd wr buf answers w
  end.

(** ** echo sends everything back *)

Lemma write_all wr b n :
  takes_all wr -> 0 <= n <= Z.of_nat MAXLINE -> (Z.to_nat n <= length b)%nat ->
  write_back wr b n = Ok (take (Z.to_nat n) b).
Proof.
  intros Hw Hn Hb. unfold write_back. rewrite decide_False by lia. set (m := Z.to_nat n) in *.
  destruct (Hw (take m b)) as [w E]; [rewrite length_take; lia|].
  assert (Hlen : length (take m b) = m) by (rewrite length_take; lia). rewrite Hlen in E.
  unfold rio_writen in E. rewrite decide_True in E by lia. rewrite take_take, Nat.min_id in E.
  assert (E' : rio_writen b m (wr (take m b)) = Ok (true, w)).
  { unfold rio_writen. by rewrite decide_True. }
  rewrite E'. cbn [mbind res_bind]. f_equal.
  by destruct (rio_writen_prefix b m (wr (take m b)) true w E') as [_ ->].
Qed.

Lemma maxline_gt : (1 < MAXLINE)%nat.
Proof. apply Nat.ltb_lt. reflexivity. Qed.

(** One line into a buffer of [MAXLINE] bytes. *)
Lemma read_line rp s buf :
  rio_wf rp -> clean s -> length buf = MAXLINE ->
  let line := line_prefix (MAXLINE - 1) (rest rp s) in
  exists buf' rp' s', rio_readlineb rp buf MAXLINE s = Ok (Z.of_nat (length line), buf', rp', s') /\
    length buf' = MAXLINE /\ take (length line) buf' = line /\
    rio_wf rp' /\ clean s' /\ rest rp' s' = drop (length line) (rest rp s).
Proof.
  intros Hwf Hc Hb line. pose proof maxline_gt as Hm.
  destruct (readline_loop_spec MAXLINE 1 MAXLINE buf rp s Hwf Hc)
    as (buf' & rp' & s' & E & Hb1 & Hb2 & Hwf' & Hc' & Hr); [lia|lia|lia|].
  fold line in E, Hb1, Hb2, Hr. exists buf', rp', s'. unfold rio_readlineb.
  pose proof (line_prefix_length (MAXLINE - 1) (rest rp s)) as Hl. fold line in Hl.
  assert (Hbuf : length buf' = MAXLINE /\ take (length line) buf' = line).
  { destruct (decide (line = [])) as [El|El].
    - rewrite Hb2 by (done || lia). rewrite El. by rewrite Hb, take_0.
    - rewrite Hb1 by auto. unfold written_at. rewrite Nat.sub_diag, take_0, app_nil_l.
      rewrite take_app_length. split; [|done].
      rewrite length_app. cbn [length]. rewrite length_drop. lia. }
  destruct Hbuf as [Hbl Hbt]. split_and!; [exact E|done..].
Qed.

Lemma line_prefix_prefix m l : line_prefix m l `prefix_of` l.
Proof.
  revert l. induction m as [|m IH]; intros [|c l]; cbn; try apply prefix_nil.
  case_decide; [|by apply prefix_cons]. exists l. done.
Qed.

Lemma line_prefix_nil m l : line_prefix (S m) l = [] -> l = [].
Proof. destruct l; cbn; [done|]. by case_decide. Qed.

Lemma echo_loop_all wr k : forall buf rp s,
  takes_all wr -> rio_wf rp -> clean s -> length buf = MAXLINE -> (length (rest rp s) < k)%nat ->
  exists s', echo_loop k wr buf rp s = Ok (rest rp s, s').
Proof.
  induction k as [|k IH]; intros buf rp s Hw Hwf Hc Hb Hk; [lia|]. cbn [echo_loop].
  pose proof maxline_gt as Hm.
  destruct (read_line rp s buf Hwf Hc Hb) as (buf' & rp' & s' & E & Hb' & Ht & Hwf' & Hc' & Hr).
  rewrite (bind_ok _ _ _ E). set (line := line_prefix (MAXLINE - 1) (rest rp s)) in *.
  pose proof (line_prefix_length (MAXLINE - 1) (rest rp s)) as Hl. fold line in Hl.
  destruct (line_prefix_prefix (MAXLINE - 1) (rest rp s)) as [t Hpre]. fold line in Hpre.
  case_decide as Hz.
  - assert (line = []) as El by (destruct line; [done|cbn in Hz; lia]).
    exists s'. unfold line in El. replace (MAXLINE - 1)%nat with (S (MAXLINE - 2)) in El by lia.
    by rewrite (line_prefix_nil _ _ El).
  - rewrite (bind_ok _ _ line).
    2: { rewrite write_all by (rewrite ?Nat2Z.id; done || lia). by rewrite Nat2Z.id, Ht. }
    destruct (IH buf' rp' s' Hw Hwf' Hc' Hb') as [s2 E2].
    { rewrite Hr, length_drop. apply (f_equal length) in Hpre. rewrite length_app in Hpre. lia. }
    rewrite (bind_ok _ _ _ E2). exists s2. rewrite Hr, Hpre at 1.
    by rewrite drop_app_length, <- Hpre.
Qed.

Lemma echo_returns wr buf rio connfd s :
  takes_all wr -> clean s -> length buf = MAXLINE -> length (rio_buf rio) = RIO_BUFSIZE ->
  exists s', echo wr buf rio connfd s = Ok (bytes_of s, s').
Proof.
  intros Hw Hc Hb Hr. unfold echo.
  assert (Hwf : rio_wf (rio_readinitb rio connfd)) by (split; cbn; [done|lia|lia]).
  rewrite <- (rest_empty (rio_readinitb rio connfd) s) by (cbn; lia).
  apply echo_loop_all; [done..|lia].
Qed.

(** echo_all: however the data arrives, cut into pieces and interrupted by
    signals, [echo] terminates at the end of the file, having sent back exactly the
    bytes it was sent, lines longer than the buffer included. *)
Theorem echo_all wr buf rio connfd s :
  takes_all wr -> clean s -> length buf = MAXLINE -> length (rio_buf rio) = RIO_BUFSIZE ->
  exists s', echo wr buf rio connfd s = Ok (bytes_of s, s').
Proof. apply echo_returns. Qed.

(** ** The pool *)

Record pool_ok (p : pool) : Prop := {
  po_fds : length (clientfd p) = FD_SETSIZE;
  po_len : length (clientrio p) = FD_SETSIZE;
  po_maxi : maxi p < Z.of_nat FD_SETSIZE;
  (** no object of the pool ever holds data: it is only read from as a copy *)
  po_rio : Forall (fun r => rio_wf r /\ rio_cnt r = 0) (clientrio p) }.

Lemma init_pool_ok l rios :
  length rios = FD_SETSIZE -> Forall (fun r => rio_wf r /\ rio_cnt r = 0) rios ->
  pool_ok (init_pool l rios).
Proof. intros H1 H2. split; cbn; [apply length_replicate|done|lia|done]. Qed.

(** The first free slot, from [i] on. *)
Lemma add_loop_spec n : forall i c p,
  pool_ok p -> (n + i = FD_SETSIZE)%nat -> 0 <= c < Z.of_nat FD_SETSIZE ->
  (exists j, (i <= j < FD_SETSIZE)%nat /\ (forall k x, (i <= k < j)%nat -> clientfd p !! k = Some x -> 0 <= x) /\
     (exists x, clientfd p !! j = Some x /\ x < 0) /\
     exists p', add_loop n (Z.of_nat i) c p = Ok p' /\ pool_ok p' /\ clientfd p' = <[j := c]> (clientfd p) /\
       read_set p' = {[c]} ∪ read_set p /\ maxi p' = Z.max (maxi p) (Z.of_nat j) /\
       maxfd p' = Z.max (maxfd p) c /\ nready p' = nready p /\ ready_set p' = ready_set p) \/
  ((forall k x, (i <= k)%nat -> clientfd p !! k = Some x -> 0 <= x) /\ add_loop n (Z.of_nat i) c p = Ok p).
Proof.
  induction n as [|n IH]; intros i c p H Hn Hc; cbn [add_loop].
  { right. split; [|done]. intros k x Hk Hx. apply lookup_lt_Some in Hx. rewrite (po_fds _ H) in Hx. lia. }
  destruct (lookup_lt_is_Some_2 (clientfd p) i) as [x Hx]; [rewrite (po_fds _ H); lia|].
  rewrite (bind_ok _ _ x) by (apply aget_ok; [lia|by rewrite Nat2Z.id]).
  destruct (decide (x < 0)) as [Hneg|Hpos].
  - left. exists i. split_and!; [lia|lia|lia|by exists x|].
    destruct (lookup_lt_is_Some_2 (clientrio p) i) as [r Hr]; [rewrite (po_len _ H); lia|].
    rewrite aset_ok by (rewrite (po_fds _ H); lia). cbn [mbind res_bind].
    rewrite (bind_ok _ _ r) by (apply aget_ok; [lia|by rewrite Nat2Z.id]).
    rewrite aset_ok by (rewrite (po_len _ H); lia). cbn [mbind res_bind].
    rewrite (bind_ok _ _ ({[c]} ∪ read_set p)) by (unfold FD_SET; by rewrite decide_True by lia).
    eexists. split; [reflexivity|].
    rewrite !Nat2Z.id. cbn [clientfd read_set maxi maxfd nready ready_set].
    pose proof (po_maxi _ H) as Hm. split_and!; [|done|done|case_decide; lia|case_decide; lia|done|done].
    split; cbn [clientfd clientrio maxi].
    + by rewrite length_insert, (po_fds _ H).
    + by rewrite length_insert, (po_len _ H).
    + case_decide; lia.
    + apply Forall_insert; [apply H|]. pose proof (po_rio _ H) as Hf. rewrite Forall_lookup in Hf.
      destruct (Hf i r Hr) as [[Hl _ _] _]. split; [split; cbn; [done|lia|lia]|done].
  - replace (Z.of_nat i + 1) with (Z.of_nat (S i)) by lia.
    destruct (IH (S i) c p H ltac:(lia) Hc) as [(j & Hj & Hbefore & Hfree & Hp')|[Hall E]].
    + left. exists j. split_and!; [lia|lia| |done|done]. intros k y Hk Hy.
      destruct (decide (k = i)) as [->|]; [|by apply (Hbefore k y); [lia|]].
      assert (y = x) as -> by congruence. lia.
    + right. split; [|done]. intros k y Hk Hy. destruct (decide (k = i)) as [->|]; [|by apply (Hall k y); [lia|]].
      assert (y = x) as -> by congruence. lia.
Qed.

(** add_client_first: a new client gets the first free slot and its descriptor
    joins the set that [select] watches; if all slots are taken the pool stays as it
    is, and the descriptor, which is neither kept nor closed, is lost. *)
Theorem add_client_first c p :
  pool_ok p -> 0 <= c < Z.of_nat FD_SETSIZE ->
  (exists j p', add_client c p = Ok p' /\ pool_ok p' /\
     (forall k x, (k < j)%nat -> clientfd p !! k = Some x -> 0 <= x) /\
     (exists x, clientfd p !! j = Some x /\ x < 0) /\
     clientfd p' = <[j := c]> (clientfd p) /\ read_set p' = {[c]} ∪ read_set p /\
     maxi p' = Z.max (maxi p) (Z.of_nat j)) \/
  (Forall (fun x => 0 <= x) (clientfd p) /\ add_client c p = Ok (set_nready (nready p - 1) p)).
Proof.
  intros H Hc. unfold add_client.
  assert (H' : pool_ok (set_nready (nready p - 1) p)) by by destruct H.
  destruct (add_loop_spec FD_SETSIZE 0 c _ H' ltac:(lia) Hc)
    as [(j & _ & Hb & Hf & p' & E & Hok & H1 & H2 & H3 & _)|[Hall E]].
  - left. exists j, p'. split_and!; try done. intros k x Hk. apply Hb. lia.
  - right. split; [|done]. apply Forall_lookup. intros k x Hx. by apply (Hall k x); [lia|].
Qed.

(** ** What a turn loses *)

(** Bytes already in the buffer. *)
Definition buffered (rp : rio_t) : bytes :=
  take (Z.to_nat (rio_cnt rp)) (drop (Z.to_nat (rio_bufptr rp)) (rio_buf rp)).

Lemma rio_read_buffered rp c l s :
  rio_wf rp -> buffered rp = c :: l ->
  exists rp', rio_read rp 1 s = Ok (1, [c], rp', s) /\ rio_wf rp' /\ buffered rp' = l.
Proof.
  intros Hwf Hb. pose proof Hwf as [Hl Hp Hc]. assert (Hpos : 0 < rio_cnt rp).
  { destruct (decide (0 < rio_cnt rp)); [done|]. unfold buffered in Hb.
    rewrite (Z2Nat.nonpos (rio_cnt rp)) in Hb by lia. done. }
  specialize (Hc Hpos). unfold rio_read. rewrite refill_full by done. cbn [mbind res_bind].
  rewrite !(decide_False (P := rio_cnt rp < Z.of_nat 1)) by lia.
  rewrite decide_True by (rewrite Hl; lia). unfold buffered in Hb. destruct (drop (Z.to_nat (rio_bufptr rp)) (rio_buf rp)) as [|c' t] eqn:Ed.
  { by rewrite take_nil in Hb. }
  destruct (Z.to_nat (rio_cnt rp)) as [|m] eqn:Em; [lia|]. cbn [take] in Hb. injection Hb as -> Ht.
  eexists. split; [reflexivity|]. split.
  - split; cbn; [done|lia|lia].
  - unfold buffered. cbn [rio_cnt rio_bufptr rio_buf].
    replace (Z.to_nat (rio_cnt rp - Z.of_nat 1)) with m by lia.
    replace (Z.to_nat (rio_bufptr rp + Z.of_nat 1)) with (Z.to_nat (rio_bufptr rp) + 1)%nat by lia.
    rewrite <- drop_drop, Ed. done.
Qed.

(** A line that is all in the buffer is read without the kernel. *)
Lemma readline_buffered maxlen l more : forall k n usrbuf rp s,
  rio_wf rp -> buffered rp = l ++ LF :: more -> LF ∉ l -> (n + length l < maxlen)%nat ->
  (length l < k)%nat -> (0 < n)%nat -> (maxlen <= length usrbuf)%nat ->
  exists r buf' rp', readline_loop k n maxlen usrbuf rp s = Ok (r, buf', rp', s).
Proof.
  induction l as [|c l IH]; intros k n usrbuf rp s Hwf Hb Hlf Hn Hk Hpos Hu; cbn [app length] in *;
    (destruct k as [|k]; [lia|]); cbn [readline_loop]; rewrite decide_True by lia;
    destruct (rio_read_buffered rp _ _ s Hwf Hb) as (rp' & E & Hwf' & Hb'); rewrite (bind_ok _ _ _ E);
    cbv beta iota; rewrite decide_True by done; cbn [head from_opt mbind res_bind];
    rewrite aset_ok by lia; cbn [mbind res_bind].
  - rewrite decide_True by done. rewrite aset_ok by (rewrite length_insert; lia). by eexists _, _, _.
  - rewrite not_elem_of_cons in Hlf. rewrite decide_False by naive_solver.
    apply IH; [done|done|naive_solver|lia|lia|lia|by rewrite length_insert].
Qed.

(** The first line of what has arrived. *)
Lemma readline_first rp d s buf l more :
  rio_wf rp -> rio_cnt rp = 0 -> d = l ++ LF :: more -> LF ∉ l -> (S (length l) < MAXLINE)%nat ->
  (length d <= RIO_BUFSIZE)%nat -> length buf = MAXLINE ->
  exists r buf' rp', rio_readlineb rp buf MAXLINE (Chunk d :: s) = Ok (r, buf', rp', s).
Proof.
  intros Hwf Hz Hd Hlf Hl Hle Hb. assert (Hdn : d <> []) by (rewrite Hd; by destruct l).
  destruct (fill rp d s Hwf Hdn Hle) as (rp1 & Ew & Erp & Hwf1 & Hpos1 & _).
  assert (Hbuf : buffered rp1 = d).
  { rewrite awrite_ok in Ew by (rewrite ?(rw_len _ Hwf); lia). injection Ew as Ew.
    rewrite Erp. unfold buffered. cbn [rio_cnt rio_bufptr rio_buf]. rewrite Nat2Z.id.
    rewrite <- Ew.
    change (Z.to_nat 0) with 0%nat. rewrite drop_0. apply take_app_length. }
  assert (Hread : rio_read rp 1 (Chunk d :: s) = rio_read rp1 1 s).
  { unfold rio_read. cbn [refill]. rewrite decide_True by lia. cbn [sys_read].
    rewrite decide_True by done. rewrite decide_False by done. rewrite Ew. cbn [mbind res_bind].
    rewrite refill_full by done. cbn [mbind res_bind]. rewrite <- Erp. done. }
  assert (Hsame : rio_readlineb rp buf MAXLINE (Chunk d :: s) = rio_readlineb rp1 buf MAXLINE s).
  { unfold rio_readlineb. pose proof maxline_gt. destruct MAXLINE as [|m]; [lia|].
    cbn [readline_loop]. do 2 rewrite (decide_True (P := (1 < S m)%nat)) by lia.
    by rewrite Hread. }
  rewrite Hsame. unfold rio_readlineb.
  apply (readline_buffered MAXLINE l more MAXLINE 1 buf rp1 s Hwf1); [by rewrite Hbuf|done|lia|lia|lia|lia].
Qed.

(** Slots before the one that is ready are passed over. *)
Lemma check_skip wr c n : forall i buf w,
  pool_ok (wpool w) -> 0 < nready (wpool w) -> (forall x, x ∈ ready_set (wpool w) -> x = c) ->
  (forall k, (k < n)%nat -> clientfd (wpool w) !! (i + k)%nat <> Some c) ->
  Z.of_nat (i + n) <= maxi (wpool w) -> forall m, (n <= m)%nat ->
  check_loop m wr (Z.of_nat i) buf w = check_loop (m - n) wr (Z.of_nat (i + n)) buf w.
Proof.
  induction n as [|n IH]; intros i buf w H Hr Hc Hne Hm m Hle.
  { by rewrite Nat.sub_0_r, Nat.add_0_r. }
  destruct m as [|m]; [lia|]. cbn [check_loop]. rewrite decide_True by lia.
  pose proof (po_maxi _ H) as Hmx.
  destruct (lookup_lt_is_Some_2 (clientfd (wpool w)) i) as [x Hx]; [rewrite (po_fds _ H); lia|].
  destruct (lookup_lt_is_Some_2 (clientrio (wpool w)) i) as [r Hri]; [rewrite (po_len _ H); lia|].
  rewrite (bind_ok _ _ x) by (apply aget_ok; [lia|by rewrite Nat2Z.id]).
  rewrite (bind_ok _ _ r) by (apply aget_ok; [lia|by rewrite Nat2Z.id]).
  assert (Hxc : x <> c). { intros ->. apply (Hne 0%nat); [lia|]. by rewrite Nat.add_0_r. }
  rewrite decide_False by (intros [_ Hin]; by apply Hxc, Hc).
  replace (Z.of_nat i + 1) with (Z.of_nat (S i)) by lia.
  rewrite (IH (S i) buf w H Hr Hc) by
    first [lia | intros k Hk; replace (S i + k)%nat with (i + S k)%nat by lia; apply Hne; lia].
  by replace (S i + n)%nat with (i + S n)%nat by lia.
Qed.

(** pool_loses_lines: when one client is ready and what arrived from it in one
    piece is a line and more, the pool server sends the line back and forgets the rest:
    it reads through a copy of the pool's [rio_t] and drops the copy with the
    bytes in its buffer.  No later turn will send them. *)
Theorem pool_loses_lines listenfd wr buf c i l more s w :
  pool_ok (wpool w) -> takes_all wr -> length buf = MAXLINE -> 0 < c -> c <> listenfd ->
  clientfd (wpool w) !! i = Some c -> Z.of_nat i <= maxi (wpool w) ->
  (forall k, clientfd (wpool w) !! k = Some c -> k = i) ->
  streams w !! c = Some (Chunk (l ++ LF :: more) :: s) -> clean s -> LF ∉ l ->
  (S (length l) < MAXLINE)%nat -> (length (l ++ LF :: more) <= RIO_BUFSIZE)%nat ->
  int_range (byte_cnt w + Z.of_nat (S (length l))) ->
  exists w', turn listenfd wr buf (Answer {[c]} (-1)) w = Ok w' /\
    sent w' = sent w ++ [(c, l ++ [LF])] /\ streams w' !! c = Some s /\ pool_ok (wpool w').
Proof.
  intros H Hw Hb Hc Hcl Hi Hmi Huniq Hs Hcs Hlf Hl Hle Hint. set (d := l ++ LF :: more) in *.
  unfold turn. cbn [ready accepted ready_set]. rewrite decide_False by set_solver. cbn [mbind res_bind].
  rewrite size_singleton. set (p := Pool _ _ _ _ _ _ _).
  assert (Hp : pool_ok p) by by destruct H.
  unfold check_clients. pose proof (po_maxi _ H) as Hmx. pose proof (po_fds _ H) as Hfl.
  assert (Hlt : (i < FD_SETSIZE)%nat) by lia.
  change 0 with (Z.of_nat 0).
  rewrite (check_skip wr c i 0 buf (set_pool p w)); [|done|done| | |cbn; lia|lia].
  2: { intros x Hx. cbn in Hx. by apply elem_of_singleton in Hx. }
  2: { intros k Hk E. cbn in E. apply Huniq in E. lia. }
  cbn [Nat.add]. destruct (FD_SETSIZE - i)%nat as [|m] eqn:Em; [lia|].
  cbn [check_loop set_pool wpool p maxi nready]. rewrite decide_True by lia.
  rewrite (bind_ok _ _ c) by (apply aget_ok; [lia|by rewrite Nat2Z.id]).
  destruct (lookup_lt_is_Some_2 (clientrio (wpool w)) i) as [r Hr]; [rewrite (po_len _ H); lia|].
  cbn [clientrio]. rewrite (bind_ok _ _ r) by (apply aget_ok; [lia|by rewrite Nat2Z.id]).
  cbn [ready_set]. rewrite decide_True by (split; [lia|set_solver]).
  pose proof (po_rio _ H) as Hf. rewrite Forall_lookup in Hf. destruct (Hf i r Hr) as [Hwf Hz].
  assert (Hdn : d <> []) by (unfold d; by destruct l).
  destruct (read_line r (Chunk d :: s) buf Hwf) as (buf' & rp' & s' & E & Hb' & Ht & _); [by constructor|done|].
  destruct (readline_first r d s buf l more Hwf Hz eq_refl Hlf Hl Hle Hb) as (r0 & b0 & rp0 & E0).
  assert (s' = s) as -> by congruence. clear E0.
  assert (Hline : line_prefix (MAXLINE - 1) (rest r (Chunk d :: s)) = l ++ [LF]).
  { rewrite rest_empty by lia. cbn [bytes_of]. unfold d. rewrite <- app_assoc. cbn [app].
    assert (Hm : (S (length l) <= MAXLINE - 1)%nat) by lia. revert Hm. generalize (MAXLINE - 1)%nat as q.
    generalize (more ++ bytes_of s) as t. clear -Hlf. induction l as [|x l IH]; intros t [|q] Hm; cbn in Hm; try lia.
    - cbn. by rewrite decide_True.
    - rewrite not_elem_of_cons in Hlf. cbn. rewrite decide_False by naive_solver. f_equal. apply IH; [naive_solver|lia]. }
  rewrite Hline in E, Ht. unfold check_one. cbn [streams set_pool]. rewrite Hs. cbn [default from_option id].
  rewrite (bind_ok _ _ _ E). cbv beta iota zeta.
  assert (Hlen : length (l ++ [LF]) = S (length l)) by (rewrite length_app; cbn; lia). rewrite Hlen in *.
  rewrite decide_True by lia. cbn [byte_cnt]. rewrite int_op_ok by done. cbn [mbind res_bind].
  rewrite (bind_ok _ _ (l ++ [LF])).
  2: { rewrite write_all by (rewrite ?Nat2Z.id; done || lia). by rewrite Nat2Z.id, Ht. }
  assert (Hend : forall q z b u, nready (wpool u) = 0 -> check_loop q wr z b u = Ok u).
  { intros q z b u Hu. destruct q; cbn [check_loop]; by rewrite decide_False by lia. }
  cbn [mbind res_bind]. rewrite Hend by done. eexists. split; [reflexivity|]. cbn [sent streams wpool].
  split_and!; [done|by rewrite lookup_insert_eq|]. by destruct H.
Qed.

(** ** Examples *)

Definition wr0 : writes := fun b => [(Z.of_nat (length b), false)].

Lemma wr0_takes_all : takes_all wr0.
Proof.
  intros b _. unfold rio_writen. rewrite decide_True by done. rewrite take_ge by done.
  destruct b as [|x b]; [by exists []|]. unfold wr0. cbn [writen_loop].
  rewrite decide_False by (cbn [length]; lia). rewrite Nat2Z.id, drop_ge by done. cbn. eauto.
Qed.

Lemma echo_all_witness :
  exists s', echo wr0 (replicate MAXLINE NUL) new_rio 5 [Chunk (lit "he"); Intr; Chunk (lit "llo" ++ [LF] ++ lit "x")] =
    Ok (lit "hello" ++ [LF] ++ lit "x", s').
Proof.
  apply (echo_all wr0 (replicate MAXLINE NUL) new_rio 5 [Chunk (lit "he"); Intr; Chunk (lit "llo" ++ [LF] ++ lit "x")]);
    [exact wr0_takes_all|repeat constructor; discriminate|apply length_replicate|apply length_replicate].
Defined.

Definition pool0 : pool := init_pool 3 (replicate FD_SETSIZE new_rio).

Lemma pool0_ok : pool_ok pool0.
Proof.
  apply init_pool_ok; [apply length_replicate|]. apply Forall_replicate.
  split; [split; [apply length_replicate|done|cbn; lia]|done].
Qed.

Lemma add_client_first_witness :
  pool_ok pool0 /\
  ((exists j p', add_client 5 pool0 = Ok p' /\ pool_ok p' /\
     (forall k x, (k < j)%nat -> clientfd pool0 !! k = Some x -> 0 <= x) /\
     (exists x, clientfd pool0 !! j = Some x /\ x < 0) /\
     clientfd p' = <[j := 5]> (clientfd pool0) /\ read_set p' = {[5]} ∪ read_set pool0 /\
     maxi p' = Z.max (maxi pool0) (Z.of_nat j)) \/
  (Forall (fun x => 0 <= x) (clientfd pool0) /\ add_client 5 pool0 = Ok (set_nready (nready pool0 - 1) pool0))).
Proof. split; [exact pool0_ok|]. apply (add_client_first 5 pool0 pool0_ok). vm_compute. split; [discriminate|reflexivity]. Defined.

(** Client 5 in the first slot. *)
Definition pool1 : pool :=
  Pool 5 {[3; 5]} ∅ 0 0 (5 :: replicate (FD_SETSIZE - 1) (-1)) (replicate FD_SETSIZE new_rio).

Lemma pool1_ok : pool_ok pool1.
Proof.
  destruct pool0_ok as [H1 H2 H3 H4]. split; cbn [pool1 clientfd clientrio maxi]; [|exact H2| |exact H4].
  - cbn [length]. rewrite length_replicate. vm_compute. reflexivity.
  - vm_compute. reflexivity.
Qed.

Definition world1 : world :=
  World pool1 0 {[5 := [Chunk (lit "one" ++ LF :: lit "two"); Chunk [LF]]]} [] [].

Lemma pool_loses_lines_witness :
  exists w', turn 3 wr0 (replicate MAXLINE NUL) (Answer {[5]} (-1)) world1 = Ok w' /\
    sent w' = [(5, lit "one" ++ [LF])] /\ streams w' !! 5 = Some [Chunk [LF]] /\ pool_ok (wpool w').
Proof.
  apply (pool_loses_lines 3 wr0 (replicate MAXLINE NUL) 5 0 (lit "one") (lit "two") [Chunk [LF]] world1);
    [exact pool1_ok|exact wr0_takes_all|apply length_replicate|lia|lia|reflexivity|cbn; lia| |reflexivity| | | | |].
  - intros [|k] Hk; [done|]. cbn in Hk. apply lookup_replicate in Hk as [[=] _].
  - repeat constructor; discriminate.
  - decided.
  - apply Nat.ltb_lt. reflexivity.
  - apply Nat.leb_le. reflexivity.
  - unfold int_range, INT_MIN, INT_MAX. cbn. lia.
Defined.
