(* ===== verification/ProcessPool.v ===== *)
(** * The process pool (socket/pool/processpool.h)

    The constructor that forks the children, the parent's event loop (new
    connections handed to the children in turn, signals) and the children's loop
    (accepting, signals, client data), generic in the class [T] that handles a
    connection, as the C++ template is.  What the processes ask of the kernel is
    a list of calls; the results of calls are arguments. *)

From S2P Require Import Prelude CString.

Inductive call :=
  | EpollCreate
  | Addfd (epollfd fd : Z)        (** [addfd]: registered, non-blocking *)
  | EpollRemove (epollfd fd : Z)
  | CloseFd (fd : Z)
  | Nonblocking (fd : Z)
  | OnSignal (sig : Z)            (** [sig_handler] installed *)
  | SendInt (fd : Z) (n : Z)      (** an [int] sent over a socket pair *)
  | RecvInt (fd : Z)              (** an [int] read from it, if there is one *)
  | AcceptConn                    (** [accept] on the pool's listening socket *)
  | Kill (pid sig : Z)
  | Dup (fd : Z)
  | Execl (path : bytes)
  | Exit (code : Z).

#[export] Instance call_eqdec : EqDecision call.
Proof. solve_decision. Defined.

Definition SIGINT : Z := 2.
Definition SIGPIPE : Z := 13.
Definition SIGTERM : Z := 15.
Definition SIGCHLD : Z := 17.
Definition POLL_IN : Z := 1.   (** [EPOLLIN] *)

Definition removefd (epollfd fd : Z) : list call := [EpollRemove epollfd fd; CloseFd fd].

(** ** Data *)

Record process := Process { m_pid : Z; m_pipefd : Z * Z }.

Definition new_process : process := Process (-1) (0, 0).

Record processpool := ProcessPool {
  m_process_number : Z;
  m_idx : Z;
  m_epollfd : Z;
  m_listenfd : Z;
  m_stop : bool;
  m_sub_process : list process }.

Definition MAX_PROCESS_NUMBER : Z := 16.
Definition USER_PER_PROCESS : Z := 65536.

Definition set_stop (b : bool) (p : processpool) : processpool :=
  ProcessPool (m_process_number p) (m_idx p) (m_epollfd p) (m_listenfd p) b (m_sub_process p).
Definition set_sub (sub : list process) (p : processpool) : processpool :=
  ProcessPool (m_process_number p) (m_idx p) (m_epollfd p) (m_listenfd p) (m_stop p) sub.
Definition set_epollfd (fd : Z) (p : processpool) : processpool :=
  ProcessPool (m_process_number p) (m_idx p) fd (m_listenfd p) (m_stop p) (m_sub_process p).

(** ** Construction *)

(** The forking loop, from iteration [i] on, with for each iteration the result
    of [socketpair], the pair, and the result of [fork]; the results are the
    index ([m_idx]) the process that continues has, the children, the calls. *)
Fixpoint fork_children (i : nat) (n : nat) (rets : list (Z * (Z * Z) * Z)) (sub : list process)
    : res (Z * list process * list call) :=
  match n with
  | O => Ok (-1, sub, [])
  | S n =>
      match rets with
      | [] => Err OutOfFuel
      | (ret, (fd0, fd1), pid) :: rets =>
          if decide (ret <> 0) then Err AssertFail
          else if decide (pid < 0) then Err AssertFail
          else
            sub ← aset sub (Z.of_nat i) (Process pid (fd0, fd1));
            if decide (pid > 0) then
              '(idx, sub, calls) ← fork_children (S i) n rets sub;
              Ok (idx, sub, CloseFd fd1 :: calls)
            else Ok (Z.of_nat i, sub, [CloseFd fd0])
      end
  end.

Definition new_processpool (listenfd process_number : Z) (rets : list (Z * (Z * Z) * Z))
    : res (processpool * list call) :=
  if decide (0 < process_number <= MAX_PROCESS_NUMBER) then
    let n := Z.to_nat process_number in
    '(idx, sub, calls) ← fork_children 0 n rets (replicate n new_process);
    Ok (ProcessPool process_number idx 0 listenfd false sub, calls)
  else Err AssertFail.

(** [create]: one instance only. *)
Definition create (instance : option processpool) (listenfd process_number : Z)
    (rets : list (Z * (Z * Z) * Z)) : res (processpool * list call) :=
  match instance with
  | Some p => Ok (p, [])
  | None => new_processpool listenfd process_number rets
  end.

(** [setup_sig_pipe], with the results of [epoll_create], [socketpair] (and the
    pair) and the four [sigaction]s. *)
Definition setup_sig_pipe (epollfd ret : Z) (sig_pipefd : Z * Z) (acts : Z) (p : processpool)
    : res (processpool * list call) :=
  if decide (epollfd = -1) then Err AssertFail
  else if decide (ret = -1) then Err AssertFail
  else if decide (acts = -1) then Err AssertFail
  else Ok (set_epollfd epollfd p,
           [EpollCreate; Nonblocking sig_pipefd.2; Addfd epollfd sig_pipefd.1;
            OnSignal SIGCHLD; OnSignal SIGTERM; OnSignal SIGINT; OnSignal SIGPIPE]).

(** ** The parent *)

(** The [do ... while] loop that looks for a child that is alive; [n] bounds it. *)
Fixpoint find_child (n : nat) (p : processpool) (start i : Z) : res Z :=
  match n with
  | O => Err OutOfFuel
  | S n =>
      c ← aget (m_sub_process p) i;
      if decide (m_pid c <> -1) then Ok i
      else
        let i := Z.rem (i + 1) (m_process_number p) in
        if decide (i <> start) then find_child n p start i else Ok i
  end.

(** A new connection: [None] for the index says that no child is left. *)
Definition dispatch (counter : Z) (p : processpool)
    : res (processpool * Z * list call * option Z) :=
  i ← find_child (Z.to_nat (m_process_number p)) p counter counter;
  c ← aget (m_sub_process p) i;
  if decide (m_pid c = -1) then Ok (set_stop true p, counter, [], None)
  else Ok (p, Z.rem (i + 1) (m_process_number p), [SendInt (m_pipefd c).1 1], Some i).

(** One child that [waitpid] reports: the loop over the table. *)
Fixpoint mark_dead (pid : Z) (sub : list process) : list process * list call :=
  match sub with
  | [] => ([], [])
  | c :: sub =>
      let '(sub, calls) := mark_dead pid sub in
      if decide (m_pid c = pid) then
        (Process (-1) (m_pipefd c) :: sub, CloseFd (m_pipefd c).1 :: calls)
      else (c :: sub, calls)
  end.

(** The [waitpid] loop: the pids it returns until it returns none. *)
Fixpoint reap (pids : list Z) (sub : list process) : list process * list call :=
  match pids with
  | [] => (sub, [])
  | pid :: pids =>
      let '(sub, calls) := mark_dead pid sub in
      let '(sub, calls') := reap pids sub in
      (sub, calls ++ calls')
  end.

Definition on_sigchld (pids : list Z) (p : processpool) : processpool * list call :=
  let '(sub, calls) := reap pids (m_sub_process p) in
  (set_stop (forallb (fun c => m_pid c =? -1) sub) (set_sub sub p), calls).

Definition kill_all (p : processpool) : list call :=
  omap (fun c => if decide (m_pid c <> -1) then Some (Kill (m_pid c) SIGTERM) else None)
    (m_sub_process p).

(** The signals read from the pipe, with what [waitpid] reports for each. *)
Fixpoint parent_signals (sigs : list (Z * list Z)) (p : processpool) : processpool * list call :=
  match sigs with
  | [] => (p, [])
  | (sig, pids) :: sigs =>
      let '(p, calls) :=
        if decide (sig = SIGCHLD) then on_sigchld pids p
        else if decide (sig = SIGTERM \/ sig = SIGINT) then (p, kill_all p)
        else (p, []) in
      let '(p, calls') := parent_signals sigs p in
      (p, calls ++ calls')
  end.

(** An event of the parent, with the signals that a [recv] on the signal pipe
    gives ([[]] when it fails). *)
Record pevent := PEvent { pe_fd : Z; pe_events : Z; pe_sigs : list (Z * list Z) }.

(** The handling of the events of one [epoll_wait]; when no child is left it
    breaks off. *)
Fixpoint parent_events (sigfd : Z) (evs : list pevent) (counter : Z) (p : processpool)
    : res (processpool * Z * list call) :=
  match evs with
  | [] => Ok (p, counter, [])
  | ev :: evs =>
      if decide (pe_fd ev = m_listenfd p) then
        '(p, counter, calls, target) ← dispatch counter p;
        match target with
        | None => Ok (p, counter, calls)
        | Some _ =>
            '(p, counter, calls') ← parent_events sigfd evs counter p;
            Ok (p, counter, calls ++ calls')
        end
      else if decide (pe_fd ev = sigfd /\ Z.land (pe_events ev) POLL_IN <> 0) then
        let '(p, calls) := parent_signals (pe_sigs ev) p in
        '(p, counter, calls') ← parent_events sigfd evs counter p;
        Ok (p, counter, calls ++ calls')
      else parent_events sigfd evs counter p
  end.

(** The loop: each element of [waits] is an [epoll_wait] ([None]: it failed). *)
Fixpoint parent_loop (sigfd : Z) (waits : list (option (list pevent))) (counter : Z)
    (p : processpool) : res (processpool * list call) :=
  if m_stop p then Ok (p, [])
  else
    match waits with
    | [] => Err OutOfFuel
    | None :: _ => Ok (p, [])
    | Some evs :: waits =>
        '(p, counter, calls) ← parent_events sigfd evs counter p;
        '(p, calls') ← parent_loop sigfd waits counter p;
        Ok (p, calls ++ calls')
    end.

Definition run_parent (epollfd ret : Z) (sig_pipefd : Z * Z) (acts : Z)
    (waits : list (option (list pevent))) (p : processpool) : res (processpool * list call) :=
  '(p, calls) ← setup_sig_pipe epollfd ret sig_pipefd acts p;
  '(p, calls') ← parent_loop sig_pipefd.1 waits 0 p;
  Ok (p, calls ++ [Addfd epollfd (m_listenfd p)] ++ calls' ++ [CloseFd epollfd]).

(** ** The children *)

(** What the template argument [T] must offer.  [task_process] runs on the
    results of the system calls it makes; its last component says that it has
    ended the process it runs in. *)
Class Task (T : Type) := {
  task_new : T;
  task_init : Z -> Z -> Z -> T -> T;
  task_input : Type;
  task_process : task_input -> T -> res (T * list call * bool) }.

Section Child.
Context {T : Type} `{Task T}.

(** An event of a child, with the results of the calls its handling may make:
  [recv] on the pipe (did it read an [int], or report "no data now"?),
  [accept] (a descriptor and an address), the signals, and those of
  [process]. *)
Record cevent := CEvent {
  ce_fd : Z; ce_events : Z;
  ce_recv : bool;
  ce_accept : Z * Z;
  ce_sigs : list Z;
  ce_input : task_input }.

Record child := Child {
  c_epollfd : Z; c_pipefd : Z; c_sigfd : Z; c_stop : bool;
  c_users : gmap Z T }.

Definition set_users (u : gmap Z T) (c : child) : child :=
  Child (c_epollfd c) (c_pipefd c) (c_sigfd c) (c_stop c) u.
Definition stop_if (b : bool) (c : child) : child :=
  Child (c_epollfd c) (c_pipefd c) (c_sigfd c) (c_stop c || b) (c_users c).

Definition task_at (c : child) (fd : Z) : res T :=
  if decide (0 <= fd < USER_PER_PROCESS) then Ok (default task_new (c_users c !! fd))
  else Err OutOfBounds.

(** A notification from the parent. *)
Definition on_pipe (ev : cevent) (c : child) : res (child * list call) :=
  if negb (ce_recv ev) then Ok (c, [RecvInt (ce_fd ev)])
  else
    let '(connfd, addr) := ce_accept ev in
    if decide (connfd < 0) then Ok (c, [RecvInt (ce_fd ev); AcceptConn])
    else
      t ← task_at c connfd;
      Ok (set_users (<[connfd := task_init (c_epollfd c) connfd addr t]> (c_users c)) c,
          [RecvInt (ce_fd ev); AcceptConn; Addfd (c_epollfd c) connfd]).

(** Signals: the [waitpid] loop of [SIGCHLD] keeps no record. *)
Definition child_signals (sigs : list Z) (c : child) : child :=
  stop_if (existsb (fun s => (s =? SIGTERM) || (s =? SIGINT)) sigs) c.

Definition child_event (ev : cevent) (c : child) : res (child * list call * bool) :=
  if decide (ce_fd ev = c_pipefd c /\ Z.land (ce_events ev) POLL_IN <> 0) then
    '(c, calls) ← on_pipe ev c; Ok (c, calls, false)
  else if decide (ce_fd ev = c_sigfd c /\ Z.land (ce_events ev) POLL_IN <> 0) then
    Ok (child_signals (ce_sigs ev) c, [], false)
  else if decide (Z.land (ce_events ev) POLL_IN <> 0) then
    t ← task_at c (ce_fd ev);
    '(t, calls, ended) ← task_process (ce_input ev) t;
    Ok (set_users (<[ce_fd ev := t]> (c_users c)) c, calls, ended)
  else Ok (c, [], false).

(** The events of one [epoll_wait]; the flag says that the process has ended. *)
Fixpoint child_events (evs : list cevent) (c : child) : res (child * list call * bool) :=
  match evs with
  | [] => Ok (c, [], false)
  | ev :: evs =>
      '(c, calls, ended) ← child_event ev c;
      if (ended : bool) then Ok (c, calls, true)
      else
        '(c, calls', ended) ← child_events evs c;
        Ok (c, calls ++ calls', ended)
  end.

Fixpoint child_loop (waits : list (option (list cevent))) (c : child)
    : res (child * list call * bool) :=
  if c_stop c then Ok (c, [], false)
  else
    match waits with
    | [] => Err OutOfFuel
    | None :: _ => Ok (c, [], false)
    | Some evs :: waits =>
        '(c, calls, ended) ← child_events evs c;
        if (ended : bool) then Ok (c, calls, true)
        else
          '(c, calls', ended) ← child_loop waits c;
          Ok (c, calls ++ calls', ended)
    end.

Definition run_child (epollfd ret : Z) (sig_pipefd : Z * Z) (acts : Z)
    (waits : list (option (list cevent))) (p : processpool) : res (child * list call * bool) :=
  '(p, calls) ← setup_sig_pipe epollfd ret sig_pipefd acts p;
  me ← aget (m_sub_process p) (m_idx p);
  let pipefd := (m_pipefd me).2 in
  '(c, calls', ended) ← child_loop waits (Child epollfd pipefd sig_pipefd.1 (m_stop p) ∅);
  let closing := if (ended : bool) then [] else [CloseFd pipefd; CloseFd epollfd] in
  Ok (c, calls ++ [Addfd epollfd pipefd] ++ calls' ++ closing, ended).
(** [run]: the index tells which loop a process runs. *)
Definition run (epollfd ret : Z) (sig_pipefd : Z * Z) (acts : Z)
    (child_waits : list (option (list cevent))) (parent_waits : list (option (list pevent)))
    (p : processpool) : res (list call) :=
  if decide (m_idx p <> -1) then
    '(_, calls, _) ← run_child epollfd ret sig_pipefd acts child_waits p; Ok calls
  else '(_, calls) ← run_parent epollfd ret sig_pipefd acts parent_waits p; Ok calls.
End Child.

(** ** Round robin *)

Definition alive (p : processpool) (i : nat) : Prop :=
  from_option (fun c => m_pid c <> -1) False (m_sub_process p !! i).

#[export] Instance alive_dec p i : Decision (alive p i).
Proof. unfold alive. destruct (_ !! i); apply _. Defined.

(** All indices below [n] in cyclic order from [c]. *)
Definition cyc (n c : nat) : list nat := (fun k => (c + k) mod n)%nat <$> seq 0 n.

Record pool_wf (p : processpool) : Prop := {
  pw_number : m_process_number p = Z.of_nat (length (m_sub_process p));
  pw_some : (0 < length (m_sub_process p))%nat }.

Section RoundRobin.
Context (p : processpool) (Hwf : pool_wf p).
#[local] Abbreviation n := (length (m_sub_process p)).

Lemma rem_next i : (i < n)%nat ->
  Z.rem (Z.of_nat i + 1) (m_process_number p) = Z.of_nat ((i + 1) mod n).
Proof.
  intros Hi. rewrite (pw_number _ Hwf), Z.rem_mod_nonneg by lia.
  rewrite Nat2Z.inj_mod. f_equal. lia.
Qed.

Lemma child_at i : (i < n)%nat ->
  exists c, aget (m_sub_process p) (Z.of_nat i) = Ok c /\ (alive p i <-> m_pid c <> -1).
Proof.
  intros Hi. destruct (aget_lt (m_sub_process p) (Z.of_nat i)) as (c & E & Hc); [lia|].
  exists c. split; [done|]. rewrite Nat2Z.id in Hc. unfold alive. by rewrite Hc.
Qed.

Lemma cyc_length c : length (cyc n c) = n.
Proof. unfold cyc. by rewrite length_fmap, length_seq. Qed.

Lemma cyc_lookup c j : (j < n)%nat -> cyc n c !! j = Some ((c + j) mod n)%nat.
Proof. intros Hj. unfold cyc. by rewrite list_lookup_fmap, lookup_seq_lt. Qed.

Lemma cyc_cons c k : (k < n)%nat ->
  drop k (cyc n c) = ((c + k) mod n)%nat :: drop (S k) (cyc n c).
Proof.
  intros Hk. by apply drop_S, cyc_lookup.
Qed.

Lemma find_child_from m c k :
  (c < n)%nat -> (m + k = n)%nat -> (0 < m)%nat ->
  find_child m p (Z.of_nat c) (Z.of_nat ((c + k) mod n)) =
  Ok (Z.of_nat (default c (head (filter (alive p) (drop k (cyc n c)))))).
Proof.
  revert k. induction m as [|m IH]; intros k Hc Hk Hm; [lia|].
  assert (Hn : (n <> 0)%nat) by lia.
  pose proof (Nat.mod_upper_bound (c + k) n Hn) as Hi.
  destruct (child_at ((c + k) mod n)) as (x & E & Hx); [done|].
  rewrite (cyc_cons c k), filter_cons by lia. cbn [find_child]. rewrite (bind_ok _ _ _ E).
  destruct (decide (m_pid x <> -1)) as [Hl|Hl].
  { by rewrite decide_True by (by apply Hx). }
  rewrite (decide_False (P := alive p _)) by (by rewrite Hx).
  cbv zeta. rewrite rem_next by done. rewrite Nat.Div0.add_mod_idemp_l.
  replace (c + k + 1)%nat with (c + S k)%nat by lia.
  destruct (decide (m = 0%nat)) as [->|Hm0].
  - replace (c + S k)%nat with (c + 1 * n)%nat by lia.
    rewrite Nat.Div0.mod_add, Nat.mod_small by done.
    rewrite decide_False by tauto.
    rewrite drop_ge by (rewrite cyc_length; lia). done.
  - rewrite decide_True; [apply IH; lia|]. intros Heq%Nat2Z.inj.
    destruct (decide (c + S k < n)%nat) as [Hs|Hs].
    + rewrite Nat.mod_small in Heq by done. lia.
    + replace (c + S k)%nat with ((c + S k - n) + 1 * n)%nat in Heq by lia.
      rewrite Nat.Div0.mod_add, Nat.mod_small in Heq by lia. lia.
Qed.

Lemma cyc_next c k : (c < n)%nat -> (k < n)%nat ->
  cyc n ((c + k + 1) mod n) = drop (S k) (cyc n c) ++ take (S k) (cyc n c).
Proof.
  intros Hc Hk. apply list_eq. intros j. destruct (decide (j < n)%nat) as [Hj|Hj].
  2: { rewrite !lookup_ge_None_2; [done|..];
       rewrite ?length_app, ?length_drop, ?length_take, cyc_length; lia. }
  rewrite cyc_lookup by done. destruct (decide (j < n - S k)%nat) as [Hlt|Hge].
  - rewrite lookup_app_l by (rewrite length_drop, cyc_length; lia).
    rewrite lookup_drop, cyc_lookup, Nat.Div0.add_mod_idemp_l by lia. do 2 f_equal. lia.
  - rewrite lookup_app_r by (rewrite length_drop, cyc_length; lia).
    rewrite length_drop, cyc_length, lookup_take_lt, cyc_lookup by lia.
    rewrite Nat.Div0.add_mod_idemp_l.
    replace (c + k + 1 + j)%nat with (c + (j - (n - S k)) + 1 * n)%nat by lia.
    by rewrite Nat.Div0.mod_add.
Qed.

Lemma cyc_perm c : (c < n)%nat -> cyc n c ≡ₚ seq 0 n.
Proof.
  induction c as [|c IH]; intros Hc.
  - unfold cyc. rewrite (list_fmap_ext _ id); [by rewrite list_fmap_id|].
    intros i x [-> Hx]%lookup_seq. cbn. by apply Nat.mod_small.
  - rewrite <- IH by lia. pose proof (cyc_next c 0 ltac:(lia) ltac:(lia)) as E.
    rewrite Nat.add_0_r, Nat.mod_small in E by lia.
    replace (S c) with (c + 1)%nat by lia. rewrite E, (Permutation_app_comm), take_drop. done.
Qed.

(** The notification of child [i]. *)
Definition notify (i : nat) : call :=
  SendInt (from_option (fun c => (m_pipefd c).1) 0 (m_sub_process p !! i)) 1.

(** Handing out one connection takes the first of the children alive in cyclic
    order and moves it to the end of that order. *)
Lemma dispatch_next c i l :
  (c < n)%nat -> filter (alive p) (cyc n c) = i :: l ->
  exists c', (c' < n)%nat /\
    dispatch (Z.of_nat c) p = Ok (p, Z.of_nat c', [notify i], Some (Z.of_nat i)) /\
    filter (alive p) (cyc n c') = l ++ [i].
Proof.
  intros Hc Hl. pose proof (pw_some _ Hwf) as Hn.
  destruct (filter_cons_split (alive p) (cyc n c) i l Hl) as (k & Hk & Hai & Hpre & Hpost).
  assert (Hkn : (k < n)%nat) by (apply lookup_lt_Some in Hk; by rewrite cyc_length in Hk).
  rewrite cyc_lookup in Hk by done. injection Hk as Hk.
  assert (Hi : (i < n)%nat) by (subst i; apply Nat.mod_upper_bound; lia).
  exists ((i + 1) mod n)%nat. split; [apply Nat.mod_upper_bound; lia|]. split.
  - unfold dispatch. pose proof (find_child_from n c 0 Hc ltac:(lia) Hn) as E.
    rewrite Nat.add_0_r, Nat.mod_small, drop_0, Hl in E by done. cbn [head default] in E.
    rewrite (pw_number _ Hwf) at 1. rewrite Nat2Z.id, (bind_ok _ _ _ E).
    destruct (child_at i Hi) as (x & Ex & Hx). rewrite (bind_ok _ _ _ Ex).
    rewrite decide_False by (by apply Hx in Hai). rewrite rem_next by done.
    apply aget_ok_inv in Ex as [_ Ex]. rewrite Nat2Z.id in Ex. unfold notify. by rewrite Ex.
  - subst i. rewrite Nat.Div0.add_mod_idemp_l, cyc_next, filter_app, Hpost by done. f_equal.
    rewrite (take_S_r _ _ ((c + k) mod n)%nat) by (by apply cyc_lookup).
    rewrite filter_app, Hpre, filter_cons, decide_True by done. done.
Qed.

(** When no child is left, the parent stops. *)
Lemma dispatch_none c :
  (c < n)%nat -> filter (alive p) (cyc n c) = [] ->
  dispatch (Z.of_nat c) p = Ok (set_stop true p, Z.of_nat c, [], None).
Proof.
  intros Hc Hl. unfold dispatch.
  pose proof (find_child_from n c 0 Hc ltac:(lia) (pw_some _ Hwf)) as E.
  rewrite Nat.add_0_r, Nat.mod_small, drop_0, Hl in E by done. cbn [head default] in E.
  rewrite (pw_number _ Hwf) at 1. rewrite Nat2Z.id, (bind_ok _ _ _ E).
  destruct (child_at c Hc) as (x & Ex & Hx). rewrite (bind_ok _ _ _ Ex).
  rewrite decide_True; [done|]. apply dec_stable. intros Hne%Hx.
  assert (Hin : c ∈ filter (alive p) (cyc n c)).
  { apply list_elem_of_filter. split; [done|]. rewrite (cyc_perm c Hc).
    apply elem_of_seq. lia. }
  rewrite Hl in Hin. set_solver.
Qed.

(** A batch of [k] new connections. *)
Lemma dispatch_batch sigfd ev l1 l2 c :
  pe_fd ev = m_listenfd p -> (c < n)%nat -> filter (alive p) (cyc n c) = l1 ++ l2 ->
  exists c', (c' < n)%nat /\
    parent_events sigfd (replicate (length l1) ev) (Z.of_nat c) p =
      Ok (p, Z.of_nat c', notify <$> l1) /\
    filter (alive p) (cyc n c') = l2 ++ l1.
Proof.
  intros Hev. revert c l2. induction l1 as [|i l1 IH]; intros c l2 Hc Hl.
  - exists c. rewrite app_nil_r. by split_ands.
  - destruct (dispatch_next c i (l1 ++ l2) Hc Hl) as (c1 & Hc1 & E1 & Hl1).
    rewrite <- app_assoc in Hl1. destruct (IH c1 _ Hc1 Hl1) as (c2 & Hc2 & E2 & Hl2).
    exists c2. split; [done|]. cbn [replicate length parent_events].
    rewrite decide_True by done. rewrite (bind_ok _ _ _ E1), (bind_ok _ _ _ E2).
    split; [done|]. by rewrite Hl2, <- app_assoc.
Qed.
End RoundRobin.

(** [C26] round_robin: the parent shares connections evenly.  From any position of
    its counter, as many new connections as there are children alive are handed
    out one to each of them, in cyclic order of the table, dead children being
    skipped; and the order in which the next ones are handed out is the same
    again.  With no child left, it stops instead. *)
Theorem round_robin p sigfd ev c :
  pool_wf p -> pe_fd ev = m_listenfd p -> (c < length (m_sub_process p))%nat ->
  let order := filter (alive p) (cyc (length (m_sub_process p)) c) in
  order ≡ₚ filter (alive p) (seq 0 (length (m_sub_process p))) /\
  (exists c', (c' < length (m_sub_process p))%nat /\
     parent_events sigfd (replicate (length order) ev) (Z.of_nat c) p =
       Ok (p, Z.of_nat c', notify p <$> order) /\
     filter (alive p) (cyc (length (m_sub_process p)) c') = order) /\
  (order = [] -> parent_events sigfd [ev] (Z.of_nat c) p = Ok (set_stop true p, Z.of_nat c, [])).
Proof.
  intros Hwf Hev Hc order. split_ands.
  - unfold order. by rewrite (cyc_perm p c Hc).
  - apply (dispatch_batch p Hwf sigfd ev order [] c Hev Hc). by rewrite app_nil_r.
  - intros Ho. cbn [parent_events]. rewrite decide_True by done.
    by rewrite (bind_ok _ _ _ (dispatch_none p Hwf c Hc Ho)).
Qed.

Definition pool0 : processpool :=
  ProcessPool 3 (-1) 9 4 false [Process 101 (10, 11); Process (-1) (12, 13); Process 103 (14, 15)].

Lemma round_robin_witness :
  let order := filter (alive pool0) (cyc 3 1) in
  order = [2%nat; 0%nat] /\
  order ≡ₚ filter (alive pool0) (seq 0 3) /\
  (exists c', (c' < 3)%nat /\
     parent_events 7 (replicate (length order) (PEvent 4 1 [])) (Z.of_nat 1) pool0 =
       Ok (pool0, Z.of_nat c', notify pool0 <$> order) /\
     filter (alive pool0) (cyc 3 c') = order) /\
  (order = [] -> parent_events 7 [PEvent 4 1 []] (Z.of_nat 1) pool0 =
     Ok (set_stop true pool0, Z.of_nat 1, [])).
Proof.
  split; [reflexivity|].
  apply (round_robin pool0 7 (PEvent 4 1 []) 1); [split; cbn; lia|reflexivity|cbn; lia].
Defined.

(** ** Children that end *)

(** The table entry of a child after the pids [pids] were reaped. *)
Definition after_reap (pids : list Z) (c : process) : process :=
  if decide (m_pid c ∈ pids) then Process (-1) (m_pipefd c) else c.

(** The pipe closed for it. *)
Definition closed_pipe (pids : list Z) (c : process) : option call :=
  if decide (m_pid c ∈ pids) then Some (CloseFd (m_pipefd c).1) else None.

Lemma mark_dead_spec pid sub :
  mark_dead pid sub = (after_reap [pid] <$> sub, omap (closed_pipe [pid]) sub).
Proof.
  induction sub as [|c sub IH]; [done|]. cbn [mark_dead]. rewrite IH. cbn.
  unfold after_reap, closed_pipe.
  destruct (decide (m_pid c = pid)) as [E|E].
  - by rewrite !decide_True by set_solver.
  - by rewrite !decide_False by set_solver.
Qed.

Lemma after_reap_cons pid pids c :
  0 < pid -> Forall (Z.lt 0) pids ->
  after_reap pids (after_reap [pid] c) = after_reap (pid :: pids) c /\
  option_list (closed_pipe (pid :: pids) c) =
    option_list (closed_pipe [pid] c) ++ option_list (closed_pipe pids (after_reap [pid] c)).
Proof.
  intros Hp Hps. rewrite Forall_forall in Hps.
  assert (Hneg : -1 ∉ pids) by (intros Hin%Hps; lia).
  clear Hps. unfold after_reap, closed_pipe.
  destruct (decide (m_pid c ∈ [pid])) as [E|E], (decide (m_pid c ∈ pid :: pids)) as [E'|E'];
    [|set_solver| |].
  - cbn. by destruct (decide (-1 ∈ pids)).
  - by destruct (decide (m_pid c ∈ pids)); [|set_solver].
  - by destruct (decide (m_pid c ∈ pids)); [set_solver|].
Qed.

Lemma omap_as_bind {A B} (f : A -> option B) (l : list A) :
  omap f l = l ≫= (fun x => option_list (f x)).
Proof. induction l as [|x l IH]; [done|]. cbn. rewrite <- IH. by destruct (f x). Qed.

Lemma reap_spec pids sub :
  Forall (Z.lt 0) pids ->
  exists calls, reap pids sub = (after_reap pids <$> sub, calls) /\
    calls ≡ₚ omap (closed_pipe pids) sub.
Proof.
  intros Hp. revert sub. induction Hp as [|pid pids Hpid Hps IH]; intros sub.
  - exists []. split.
    + cbn. f_equal. symmetry. rewrite <- (list_fmap_id sub) at 2. apply list_fmap_ext.
      intros i c _. unfold after_reap. by rewrite decide_False by set_solver.
    + induction sub as [|c sub IHs]; [done|]. cbn. unfold closed_pipe at 1.
      by rewrite decide_False by set_solver.
  - cbn [reap]. rewrite mark_dead_spec. destruct (IH (after_reap [pid] <$> sub)) as (calls & -> & Hc).
    eexists. split.
    + f_equal. rewrite <- list_fmap_compose. apply list_fmap_ext. intros i c _.
      by apply after_reap_cons.
    + rewrite Hc. clear Hc IH. rewrite !omap_as_bind.
      induction sub as [|c sub IHs]; [done|]. rewrite fmap_cons, !bind_cons, <- IHs.
      destruct (after_reap_cons pid pids c Hpid Hps) as [_ ->].
      rewrite !(assoc_L (++)). f_equiv. rewrite <- !(assoc_L (++)). f_equiv.
      apply Permutation_app_comm.
Qed.

(** sigchld_exact: on a child's death the parent reaps all the children that
    ended: exactly their table entries are marked, the pipe to each of them is
    closed exactly once and no other descriptor is, and the parent will stop
    exactly if no child is left alive. *)
Theorem sigchld_exact pids p :
  Forall (Z.lt 0) pids ->
  exists p' calls, on_sigchld pids p = (p', calls) /\
    m_sub_process p' = after_reap pids <$> m_sub_process p /\
    calls ≡ₚ omap (closed_pipe pids) (m_sub_process p) /\
    (m_stop p' = true <-> forall i, ~ alive p' i).
Proof.
  intros Hp. destruct (reap_spec pids (m_sub_process p) Hp) as (calls & E & Hc).
  eexists _, calls. unfold on_sigchld. rewrite E. split_ands; [done..|].
  cbn. rewrite forallb_forall. unfold alive. cbn. split.
  - intros Hall i. destruct (_ !! i) as [c|] eqn:Ei; cbn; [|by intros []].
    apply list_elem_of_lookup_2, list_elem_of_In, Hall, Z.eqb_eq in Ei. intros Hne; by apply Hne.
  - intros Hall c Hin%list_elem_of_In. apply list_elem_of_lookup in Hin as [i Hi].
    specialize (Hall i). rewrite Hi in Hall. cbn in Hall. apply Z.eqb_eq. by apply dec_stable.
Qed.

Lemma sigchld_exact_witness :
  exists p' calls, on_sigchld [103; 55] pool0 = (p', calls) /\
    m_sub_process p' = after_reap [103; 55] <$> m_sub_process pool0 /\
    calls ≡ₚ omap (closed_pipe [103; 55]) (m_sub_process pool0) /\
    (m_stop p' = true <-> forall i, ~ alive p' i).
Proof. apply (sigchld_exact [103; 55] pool0). repeat constructor; lia. Defined.
