(* ===== verification/PoolLife.v ===== *)
(** * The life of the process pool

    The parent's loop (socket/pool/processpool.h, [run_parent]) from any number
    of children alive to its end: whatever the order in which connections and
    signals come, it talks to a child only as long as that child has not been
    reported dead, and it ends when all of them have been. *)

From S2P Require Import Prelude CString ProcessPool.

(** ** The children and their deaths *)

Section Life.
Context (sub : list process).
Context (Hpos : Forall (fun ch => 0 < m_pid ch) sub)
  (Hpipes : NoDup ((fun ch => (m_pipefd ch).1) <$> sub)).

Abbreviation pipe ch := (m_pipefd ch).1.

(** The pids that [waitpid] reports while the events [evs] are handled. *)
Definition deaths_of (sigs : list (Z * list Z)) : list Z :=
  sigs ≫= (fun s => if decide (s.1 = SIGCHLD) then s.2 else []).
Definition deaths (lfd sigfd : Z) (evs : list pevent) : list Z :=
  evs ≫= (fun ev => if decide (pe_fd ev <> lfd /\ pe_fd ev = sigfd /\ Z.land (pe_events ev) POLL_IN <> 0)
                    then deaths_of (pe_sigs ev) else []).

(** A call that concerns the child [ch]. *)
Definition about_child (ch : process) (e : call) : Prop :=
  e = CloseFd (pipe ch) \/ e = Kill (m_pid ch) SIGTERM \/ e = SendInt (pipe ch) 1.

(** [orderly R calls]: when the deaths [R] have been reported, the calls [calls]
    may follow: each is about a child that is not dead, and whose end of the pipe
    has not been closed by one of the calls before. *)
Definition orderly (R : list Z) (calls : list call) : Prop :=
  forall a e b, calls = a ++ e :: b ->
    exists ch, ch ∈ sub /\ m_pid ch ∉ R /\ about_child ch e /\ CloseFd (pipe ch) ∉ a.

(** They close the pipes of the children that die between [R] and [R']. *)
Definition closes (R R' : list Z) (calls : list call) : Prop :=
  forall ch, ch ∈ sub -> CloseFd (pipe ch) ∈ calls <-> m_pid ch ∈ R' /\ m_pid ch ∉ R.

Lemma orderly_nil R : orderly R [].
Proof. intros [|] e b; discriminate. Qed.

Lemma closes_refl R calls :
  (forall ch, ch ∈ sub -> CloseFd (pipe ch) ∉ calls) -> closes R R calls.
Proof. intros H ch Hch. split; [|tauto]. intros Hin. by destruct (H ch Hch). Qed.

Lemma closes_nil R : closes R R [].
Proof. apply closes_refl. set_solver. Qed.

Lemma calls_app R R1 R2 c1 c2 :
  R ⊆ R1 -> R1 ⊆ R2 -> orderly R c1 -> closes R R1 c1 -> orderly R1 c2 -> closes R1 R2 c2 ->
  orderly R (c1 ++ c2) /\ closes R R2 (c1 ++ c2).
Proof.
  intros Hs1 Hs2 Ho1 Hc1 Ho2 Hc2. split.
  - intros a e b E. apply app_eq_app in E as (l & [[-> E]|[-> E]]).
    + destruct l as [|x l]; cbn in E.
      * destruct (Ho2 [] e b) as (ch & Hch & Hn & Hab & _); [done|].
        exists ch. rewrite app_nil_r in Hc1. split_ands; [done|set_solver|done|].
        intros Hin. by apply (Hc1 ch Hch) in Hin as [Hin _].
      * injection E as <- ->. destruct (Ho1 a e l eq_refl) as (ch & ? & ? & ? & ?). by exists ch.
    + destruct (Ho2 l e b E) as (ch & Hch & Hn & Hab & Hl).
      exists ch. split_ands; [done|set_solver|done|].
      rewrite elem_of_app. intros [Hin|Hin]; [|done]. by apply (Hc1 ch Hch) in Hin as [Hin _].
  - intros ch Hch. rewrite elem_of_app, (Hc1 ch Hch), (Hc2 ch Hch).
    destruct (decide (m_pid ch ∈ R1)); set_solver.
Qed.

(** ** The table *)

Definition all_dead (R : list Z) : Prop := Forall (fun ch => m_pid ch ∈ R) sub.

#[local] Instance all_dead_dec R : Decision (all_dead R).
Proof. unfold all_dead. apply _. Defined.

(** The parent after the deaths [R] were reported. *)
Record after (R : list Z) (lfd : Z) (p : processpool) : Prop := {
  af_pos : Forall (Z.lt 0) R;
  af_sub : m_sub_process p = after_reap R <$> sub;
  af_num : m_process_number p = Z.of_nat (length sub);
  af_listen : m_listenfd p = lfd;
  af_stop : m_stop p = bool_decide (all_dead R) }.

(** The table as it is when all children live. *)
Lemma after_start p :
  pool_wf p -> m_sub_process p = sub -> m_stop p = false -> after [] (m_listenfd p) p.
Proof.
  clear Hpos Hpipes. intros Hwf Hsub Hstop. pose proof (pw_some _ Hwf) as Hn. rewrite Hsub in Hn. split.
  - constructor.
  - rewrite Hsub. transitivity (id <$> sub); [by rewrite list_fmap_id|]. apply list_fmap_ext. intros i ch _.
    unfold after_reap. by rewrite decide_False by set_solver.
  - by rewrite (pw_number _ Hwf), Hsub.
  - done.
  - rewrite Hstop. symmetry. apply bool_decide_eq_false. unfold all_dead. intros Hf.
    destruct sub as [|ch l]; [cbn in Hn; lia|]. apply Forall_cons in Hf as [Hf _]. set_solver.
Qed.

Lemma after_wf R lfd p : (0 < length sub)%nat -> after R lfd p -> pool_wf p.
Proof. intros Hn H. split; rewrite (af_sub _ _ _ H), length_fmap; [apply H|done]. Qed.

Lemma pipe_inj ch ch' : ch ∈ sub -> ch' ∈ sub -> pipe ch = pipe ch' -> ch = ch'.
Proof.
  intros (i & Hi)%list_elem_of_lookup (j & Hj)%list_elem_of_lookup E.
  assert (i = j) as ->; [|congruence].
  apply (NoDup_lookup _ i j (pipe ch) Hpipes); rewrite list_lookup_fmap; [by rewrite Hi|by rewrite Hj, E].
Qed.

Lemma after_reap_app R R' ch :
  Forall (Z.lt 0) R' -> after_reap R' (after_reap R ch) = after_reap (R ++ R') ch.
Proof.
  intros HR. unfold after_reap at 2 3.
  destruct (decide (m_pid ch ∈ R)) as [Hin|Hout].
  - rewrite decide_True by set_solver. unfold after_reap. cbn [m_pid m_pipefd].
    rewrite decide_False; [done|]. rewrite Forall_forall in HR. intros H%HR. lia.
  - unfold after_reap. destruct (decide (m_pid ch ∈ R')).
    + by rewrite decide_True by set_solver.
    + by rewrite decide_False by set_solver.
Qed.

Lemma omap_sublist {A B} (f : A -> option B) (g : A -> B) l :
  (forall x y, f x = Some y -> y = g x) -> omap f l `sublist_of` g <$> l.
Proof.
  intros H. induction l as [|x l IH]; [done|]. cbn. destruct (f x) as [y|] eqn:E.
  - rewrite (H x y E). by constructor.
  - by apply sublist_cons.
Qed.

(** The alive entries of the table are the children not reported. *)
Lemma pid_after R ch : 0 < m_pid ch -> (m_pid (after_reap R ch) <> -1 <-> m_pid ch ∉ R).
Proof.
  intros H. unfold after_reap. case_decide; cbn; [|split; [done|lia]]. split; [done|]. by intros [].
Qed.

(** ** One event *)

Lemma reap_orderly R lfd pids p :
  Forall (Z.lt 0) pids -> after R lfd p ->
  exists p' calls, on_sigchld pids p = (p', calls) /\ after (R ++ pids) lfd p' /\
    orderly R calls /\ closes R (R ++ pids) calls.
Proof.
  intros Hp H. destruct (reap_spec pids (m_sub_process p) Hp) as (calls & E & Hc).
  unfold on_sigchld. rewrite E. eexists _, calls. split; [reflexivity|].
  rewrite (af_sub _ _ _ H) in Hc |- *. rewrite <- list_fmap_compose.
  assert (Hfm : after_reap pids ∘ after_reap R <$> sub = after_reap (R ++ pids) <$> sub).
  { apply list_fmap_ext. intros i ch _. by apply after_reap_app. }
  rewrite Hfm.
  assert (Hcl : forall e, e ∈ calls <-> exists ch, ch ∈ sub /\ m_pid ch ∈ pids /\ m_pid ch ∉ R /\ e = CloseFd (pipe ch)).
  { intros e. rewrite Hc, list_elem_of_omap. split.
    - intros (x & (ch & -> & Hch)%list_elem_of_fmap & Hx).
      unfold closed_pipe, after_reap in Hx. exists ch.
      destruct (decide (m_pid ch ∈ R)); cbn [m_pid m_pipefd] in Hx.
      + case_decide as H1; [|done]. rewrite Forall_forall in Hp. apply Hp in H1. lia.
      + case_decide; [|done]. injection Hx as <-. by split_ands.
    - intros (ch & Hch & Hin & Hout & ->). exists (after_reap R ch).
      split; [by apply list_elem_of_fmap_2|]. unfold closed_pipe, after_reap.
      rewrite (decide_False (P := m_pid ch ∈ R)) by done. by rewrite decide_True. }
  split; [|split].
  - split; cbn [m_sub_process set_stop set_sub m_process_number m_listenfd m_stop]; try apply H; [|done|].
    + apply Forall_app. split; [apply H|done].
    + apply eq_bool_prop_intro. rewrite bool_decide_spec, Is_true_true, forallb_forall. unfold all_dead.
      rewrite Forall_forall. split.
      * intros Hall ch Hch. rewrite Forall_forall in Hpos.
        specialize (Hall (after_reap (R ++ pids) ch)). rewrite <- list_elem_of_In, Z.eqb_eq in Hall.
        apply dec_stable. intros Hn%pid_after; [|by apply Hpos]. apply Hn, Hall.
        by apply list_elem_of_fmap_2.
      * intros Hall x (ch & -> & Hch)%list_elem_of_In%list_elem_of_fmap. apply Z.eqb_eq.
        unfold after_reap. by rewrite decide_True by by apply Hall.
  - intros a e b Eq. assert (He : e ∈ calls) by (rewrite Eq; set_solver).
    apply Hcl in He as (ch & Hch & _ & Hout & ->). exists ch. split_ands; [done|done|by left|].
    assert (Hnd : NoDup calls).
    { rewrite Hc. apply (sublist_NoDup _ ((fun ch => CloseFd (pipe ch)) <$> (after_reap R <$> sub))).
      - rewrite <- list_fmap_compose. rewrite (list_fmap_ext _ (CloseFd ∘ (fun ch => pipe ch)) sub).
        + rewrite list_fmap_compose. apply NoDup_fmap_2; [by intros ?? [=]|done].
        + intros k x _. unfold after_reap. cbn. by case_decide.
      - apply omap_sublist. intros x y. unfold closed_pipe. by case_decide; [intros [= <-]|]. }
    rewrite Eq in Hnd. apply NoDup_app in Hnd as (_ & Hnd & _). intros Hin. apply (Hnd _ Hin). left.
  - intros ch Hch. rewrite Hcl. split.
    + intros (ch' & Hch' & Hin & Hout & [= E']). apply (pipe_inj ch ch' Hch Hch') in E' as ->. set_solver.
    + intros [Hin Hout]. exists ch. split_ands; try done. set_solver.
Qed.

Lemma kill_orderly R lfd p : after R lfd p -> orderly R (kill_all p) /\ closes R R (kill_all p).
Proof.
  intros H.
  assert (Hk : forall e, e ∈ kill_all p -> exists ch, ch ∈ sub /\ m_pid ch ∉ R /\ e = Kill (m_pid ch) SIGTERM).
  { intros e (x & Hx & He)%list_elem_of_omap. rewrite (af_sub _ _ _ H) in Hx.
    apply list_elem_of_fmap in Hx as (ch & -> & Hch). case_decide as Hp; [|done]. injection He as <-.
    exists ch. rewrite Forall_forall in Hpos. apply pid_after in Hp; [|by apply Hpos].
    split_ands; [done|done|]. unfold after_reap. by rewrite decide_False. }
  split.
  - intros a e b E. destruct (Hk e) as (ch & Hch & Hn & ->); [rewrite E; set_solver|].
    exists ch. split_ands; [done|done|by right; left|]. intros Hin.
    destruct (Hk (CloseFd (pipe ch))) as (? & _ & _ & [=]). rewrite E. set_solver.
  - apply closes_refl. intros ch _ Hin. by destruct (Hk _ Hin) as (? & _ & _ & [=]).
Qed.

Lemma signals_orderly lfd sigs R p :
  Forall (Z.lt 0) (deaths_of sigs) -> after R lfd p ->
  exists p' calls, parent_signals sigs p = (p', calls) /\ after (R ++ deaths_of sigs) lfd p' /\
    orderly R calls /\ closes R (R ++ deaths_of sigs) calls.
Proof.
  revert R p. induction sigs as [|[sig pids] sigs IH]; intros R p Hd H.
  - exists p, []. rewrite app_nil_r. split_ands; [done|done|apply orderly_nil|]. apply closes_nil.
  - unfold deaths_of in Hd |- *. rewrite bind_cons in Hd |- *. fold (deaths_of sigs) in *.
    apply Forall_app in Hd as [Hd1 Hd2]. cbn [parent_signals fst snd] in *.
    assert (Hfirst : exists p1 c1, (if decide (sig = SIGCHLD) then on_sigchld pids p
        else if decide (sig = SIGTERM \/ sig = SIGINT) then (p, kill_all p) else (p, [])) = (p1, c1) /\
      let R1 := R ++ (if decide (sig = SIGCHLD) then pids else []) in
      after R1 lfd p1 /\ orderly R c1 /\ closes R R1 c1).
    { case_decide as Hs; [|case_decide].
      - destruct (reap_orderly R lfd pids p Hd1 H) as (p1 & c1 & E & H1 & H2 & H3).
        by exists p1, c1.
      - destruct (kill_orderly R lfd p H). exists p, (kill_all p). cbv zeta. by rewrite app_nil_r.
      - exists p, []. cbv zeta. rewrite app_nil_r. split; [done|]. split; [done|].
        split; [apply orderly_nil|]. apply closes_nil. }
    destruct Hfirst as (p1 & c1 & -> & H1 & Ho1 & Hc1).
    destruct (IH _ p1 Hd2 H1) as (p2 & c2 & -> & H2 & Ho2 & Hc2).
    exists p2, (c1 ++ c2). split; [done|]. split; [by rewrite (assoc_L (++))|].
    eapply calls_app; [| |exact Ho1|exact Hc1|exact Ho2|]; [set_solver..|].
    by rewrite <- (assoc_L (++)) in Hc2.
Qed.

Context (Hsome : (0 < length sub)%nat).

Lemma dispatch_orderly R lfd p c :
  after R lfd p -> (c < length sub)%nat ->
  (all_dead R /\ dispatch (Z.of_nat c) p = Ok (set_stop true p, Z.of_nat c, [], None)) \/
  exists c' i calls, (c' < length sub)%nat /\
    dispatch (Z.of_nat c) p = Ok (p, Z.of_nat c', calls, Some i) /\
    orderly R calls /\ closes R R calls.
Proof.
  intros H Hc. pose proof (after_wf _ _ _ Hsome H) as Hwf.
  assert (Hn : length (m_sub_process p) = length sub) by by rewrite (af_sub _ _ _ H), length_fmap.
  rewrite <- Hn in Hc |- *.
  destruct (filter (alive p) (cyc (length (m_sub_process p)) c)) as [|i l] eqn:E.
  - left. split; [|by apply dispatch_none].
    unfold all_dead. rewrite Forall_forall. intros ch Hch. apply dec_stable. intros Hout.
    pose proof Hch as Hlk. apply list_elem_of_lookup in Hlk as [j Hj].
    assert (Hal : alive p j).
    { unfold alive. rewrite (af_sub _ _ _ H), list_lookup_fmap, Hj. cbn. rewrite Forall_forall in Hpos.
      by apply pid_after; [apply Hpos|]. }
    assert (Hin : j ∈ filter (alive p) (cyc (length (m_sub_process p)) c)).
    { apply list_elem_of_filter. split; [done|]. rewrite (cyc_perm p c Hc). apply elem_of_seq.
      apply lookup_lt_Some in Hj. lia. }
    rewrite E in Hin. set_solver.
  - right. destruct (dispatch_next p Hwf c i l Hc E) as (c' & Hc' & E' & _).
    exists c', (Z.of_nat i), [notify p i]. split; [done|]. split; [done|].
    assert (Hal : alive p i).
    { assert (Hin : i ∈ filter (alive p) (cyc (length (m_sub_process p)) c)) by (rewrite E; left).
      by apply list_elem_of_filter in Hin as [? _]. }
    unfold alive in Hal. rewrite (af_sub _ _ _ H), list_lookup_fmap in Hal.
    destruct (sub !! i) as [ch|] eqn:Ei; [|done]. cbn in Hal.
    pose proof (list_elem_of_lookup_2 _ _ _ Ei) as Hch. rewrite Forall_forall in Hpos.
    apply pid_after in Hal; [|by apply Hpos].
    assert (Hnot : notify p i = SendInt (pipe ch) 1).
    { unfold notify. rewrite (af_sub _ _ _ H), list_lookup_fmap, Ei. cbn. unfold after_reap. by case_decide. }
    rewrite Hnot. split.
    + intros a e b Ea. destruct a as [|x a]; [|by destruct a]. injection Ea as <- <-.
      exists ch. split_ands; [done|done|by right; right|set_solver].
    + apply closes_refl. intros ch' _ [=]%list_elem_of_singleton.
Qed.

(** ** The loop *)

Lemma events_orderly sigfd lfd evs R p c :
  Forall (Z.lt 0) (deaths lfd sigfd evs) -> after R lfd p -> (c < length sub)%nat ->
  exists p' c' calls R', parent_events sigfd evs (Z.of_nat c) p = Ok (p', Z.of_nat c', calls) /\
    (c' < length sub)%nat /\ R ⊆ R' /\ after R' lfd p' /\ orderly R calls /\ closes R R' calls /\
    (R' = R ++ deaths lfd sigfd evs \/ m_stop p' = true).
Proof.
  revert R p c. induction evs as [|ev evs IH]; intros R p c Hd H Hc.
  - exists p, c, [], R. split_ands; try done; [apply orderly_nil|apply closes_refl; set_solver|].
    left. by rewrite app_nil_r.
  - unfold deaths in Hd |- *. rewrite bind_cons in Hd |- *. fold (deaths lfd sigfd evs) in *.
    apply Forall_app in Hd as [Hd1 Hd2]. cbn [parent_events]. rewrite (af_listen _ _ _ H).
    destruct (decide (pe_fd ev = lfd)) as [Hl|Hl].
    + rewrite decide_False by (intros [? _]; done). rewrite app_nil_l.
      destruct (dispatch_orderly R lfd p c H Hc) as [[Hall E]|(c1 & i & c1s & Hc1 & E & Ho & Hcl)].
      * rewrite (bind_ok _ _ _ E). exists (set_stop true p), c, [], R. destruct H as [H1 H2 H3 H4 H5].
        split; [done|]. split; [done|]. split; [done|]. split.
        { split; try done. cbn. by rewrite bool_decide_true. }
        split; [apply orderly_nil|]. split; [apply closes_nil|by right].
      * rewrite (bind_ok _ _ _ E). destruct (IH R p c1 Hd2 H Hc1) as
          (p2 & c2 & c2s & R2 & E2 & Hc2 & Hs & H2 & Ho2 & Hcl2 & Hend).
        rewrite (bind_ok _ _ _ E2). exists p2, c2, (c1s ++ c2s), R2.
        destruct (calls_app R R R2 c1s c2s) as [Hoo Hcc]; done.
    + destruct (decide (pe_fd ev = sigfd /\ Z.land (pe_events ev) POLL_IN <> 0)) as [Hs|Hs].
      * rewrite decide_True in Hd1 |- * by (destruct Hs; by split_ands).
        destruct (signals_orderly lfd (pe_sigs ev) R p Hd1 H) as (p1 & c1s & -> & H1 & Ho1 & Hcl1).
        destruct (IH _ p1 c Hd2 H1 Hc) as (p2 & c2 & c2s & R2 & E2 & Hc2 & Hss & H2 & Ho2 & Hcl2 & Hend).
        rewrite (bind_ok _ _ _ E2). exists p2, c2, (c1s ++ c2s), R2.
        destruct (calls_app R (R ++ deaths_of (pe_sigs ev)) R2 c1s c2s) as [Hoo Hcc]; [set_solver|done..|].
        split; [done|]. split; [done|]. split; [set_solver|]. split; [done|]. split; [done|].
        split; [done|]. destruct Hend as [->|Hend]; [left|by right].
        by rewrite (assoc_L (++)).
      * rewrite decide_False by tauto. rewrite app_nil_l. by apply IH.
Qed.

Lemma loop_orderly sigfd lfd evss R p c :
  Forall (Z.lt 0) (deaths lfd sigfd (mjoin evss)) -> all_dead (R ++ deaths lfd sigfd (mjoin evss)) ->
  after R lfd p -> (c < length sub)%nat ->
  exists p' calls R', parent_loop sigfd (Some <$> evss) (Z.of_nat c) p = Ok (p', calls) /\
    all_dead R' /\ R ⊆ R' /\ after R' lfd p' /\ orderly R calls /\ closes R R' calls.
Proof.
  revert R p c. induction evss as [|evs evss IH]; intros R p c Hd Hall H Hc.
  - cbn [mjoin list_join deaths mbind list_bind] in Hall. rewrite app_nil_r in Hall.
    cbn [fmap list_fmap parent_loop]. rewrite (af_stop _ _ _ H), bool_decide_true by done.
    exists p, [], R. split_ands; first [done|apply orderly_nil|apply closes_nil].
  - change (mjoin (evs :: evss)) with (evs ++ mjoin evss) in *.
    unfold deaths in Hd, Hall. rewrite bind_app in Hd, Hall.
    fold (deaths lfd sigfd evs) in *. fold (deaths lfd sigfd (mjoin evss)) in *.
    apply Forall_app in Hd as [Hd1 Hd2]. cbn [fmap list_fmap parent_loop].
    destruct (m_stop p) eqn:Es.
    { rewrite (af_stop _ _ _ H) in Es. apply bool_decide_eq_true in Es.
      exists p, [], R. split_ands; first [done|apply orderly_nil|apply closes_nil]. }
    destruct (events_orderly sigfd lfd evs R p c Hd1 H Hc) as
      (p1 & c1 & c1s & R1 & E1 & Hc1 & Hs1 & H1 & Ho1 & Hcl1 & Hend).
    rewrite (bind_ok _ _ _ E1).
    assert (Hrest : exists p' calls R', parent_loop sigfd (Some <$> evss) (Z.of_nat c1) p1 = Ok (p', calls) /\
      all_dead R' /\ R1 ⊆ R' /\ after R' lfd p' /\ orderly R1 calls /\ closes R1 R' calls).
    { destruct Hend as [->|Hstop].
      - apply IH; try done. by rewrite <- (assoc_L (++)).
      - assert (Hl : parent_loop sigfd (Some <$> evss) (Z.of_nat c1) p1 = Ok (p1, []))
          by (destruct evss; cbn; by rewrite Hstop).
        rewrite (af_stop _ _ _ H1) in Hstop. apply bool_decide_eq_true in Hstop.
        exists p1, [], R1. split_ands; first [done|apply orderly_nil|apply closes_nil]. }
    destruct Hrest as (p2 & c2s & R2 & E2 & Hall2 & Hs2 & H2 & Ho2 & Hcl2).
    fold (fmap (M:=list) (@Some (list pevent)) evss). rewrite (bind_ok _ _ _ E2).
    exists p2, (c1s ++ c2s), R2.
    destruct (calls_app R R1 R2 c1s c2s) as [Hoo Hcc]; try done.
    split_ands; first [done|set_solver].
Qed.
End Life.

(** [C25] pool_ends: the parent of the pool stops, and in order.  Started with
    children that all live, whatever connections and signals come in whatever
    order, as soon as all children have been reported to it as dead its loop
    ends, with no child alive in its table; between the calls that set it up and
    the closing of its [epoll] descriptor, it closes the pipe of every child
    exactly once, and before that only, sends the child a connection or a signal:
    no call is about a descriptor or a process that it has already given up. *)
Theorem pool_ends p epollfd sfd0 sfd1 evss :
  let sub := m_sub_process p in
  let D := deaths (m_listenfd p) sfd0 (mjoin evss) in
  pool_wf p -> m_stop p = false -> epollfd <> -1 ->
  Forall (fun ch => 0 < m_pid ch) sub -> NoDup ((fun ch => (m_pipefd ch).1) <$> sub) ->
  Forall (Z.lt 0) D -> Forall (fun ch => m_pid ch ∈ D) sub ->
  exists p' calls, run_parent epollfd 0 (sfd0, sfd1) 0 (Some <$> evss) p =
      Ok (p', [EpollCreate; Nonblocking sfd1; Addfd epollfd sfd0;
               OnSignal SIGCHLD; OnSignal SIGTERM; OnSignal SIGINT; OnSignal SIGPIPE] ++
              [Addfd epollfd (m_listenfd p)] ++ calls ++ [CloseFd epollfd]) /\
    m_stop p' = true /\ (forall i, ~ alive p' i) /\
    (forall ch, ch ∈ sub -> CloseFd (m_pipefd ch).1 ∈ calls) /\
    (forall a e b, calls = a ++ e :: b ->
       exists ch, ch ∈ sub /\ about_child ch e /\ CloseFd (m_pipefd ch).1 ∉ a).
Proof.
  intros sub D Hwf Hstop He Hpos Hpipes Hd Hall.
  set (p1 := set_epollfd epollfd p).
  assert (H1 : after sub [] (m_listenfd p) p1) by (by apply (after_start sub p1); [split; apply Hwf|..]).
  destruct (loop_orderly sub Hpos Hpipes (pw_some _ Hwf) sfd0 (m_listenfd p) evss [] p1 0%nat) as
    (p2 & calls & R & E & Hdead & _ & H2 & Ho & Hc); try done; [apply Hwf|].
  exists p2, calls. unfold run_parent, setup_sig_pipe. rewrite !decide_False by done.
  cbn [mbind res_bind fst snd]. fold p1.
  rewrite (bind_ok _ _ _ E), (af_listen _ _ _ _ H2). split; [done|]. split.
  { rewrite (af_stop _ _ _ _ H2). by apply bool_decide_eq_true. }
  split.
  { intros i. unfold alive. rewrite (af_sub _ _ _ _ H2), list_lookup_fmap.
    destruct (sub !! i) as [ch|] eqn:Ei; [|by intros []]. apply list_elem_of_lookup_2 in Ei.
    unfold all_dead in Hdead. rewrite Forall_forall in Hdead. cbn. unfold after_reap.
    rewrite decide_True by by apply Hdead. cbn. lia. }
  split.
  - intros ch Hch. apply (Hc ch Hch). split; [|set_solver].
    unfold all_dead in Hdead. rewrite Forall_forall in Hdead. by apply Hdead.
  - intros a e b Eab. destruct (Ho a e b Eab) as (ch & ? & _ & ? & ?). by exists ch.
Qed.

Definition pool1 : processpool :=
  ProcessPool 2 (-1) 0 4 false [Process 101 (10, 11); Process 103 (14, 15)].

(** A connection, the death of a child, another connection, [SIGTERM], and the
    death of the other. *)
Definition history : list (list pevent) :=
  [[PEvent 4 1 []]; [PEvent 7 1 [(SIGCHLD, [101])]; PEvent 4 1 []];
   [PEvent 7 1 [(SIGTERM, []); (SIGCHLD, [103])]]].

Lemma pool_ends_witness :
  exists p' calls, run_parent 9 0 (7, 8) 0 (Some <$> history) pool1 =
      Ok (p', [EpollCreate; Nonblocking 8; Addfd 9 7;
               OnSignal SIGCHLD; OnSignal SIGTERM; OnSignal SIGINT; OnSignal SIGPIPE] ++
              [Addfd 9 4] ++ calls ++ [CloseFd 9]) /\
    m_stop p' = true /\ (forall i, ~ alive p' i) /\
    (forall ch, ch ∈ m_sub_process pool1 -> CloseFd (m_pipefd ch).1 ∈ calls) /\
    (forall a e b, calls = a ++ e :: b ->
       exists ch, ch ∈ m_sub_process pool1 /\ about_child ch e /\ CloseFd (m_pipefd ch).1 ∉ a).
Proof.
  apply (pool_ends pool1 9 7 8 history); [split; cbn; lia|done|lia|..].
  - repeat constructor.
  - cbn. apply NoDup_cons. split; [set_solver|]. apply NoDup_singleton.
  - vm_compute. repeat constructor.
  - apply (bool_decide_unpack (Forall (fun ch => m_pid ch ∈ _) _)). vm_compute. exact I.
Defined.

Example history_calls :
  (parent_loop 7 (Some <$> history) 0 pool1 ≫= (fun r => Ok r.2)) =
  Ok [SendInt 10 1; CloseFd 10; SendInt 14 1; Kill 103 SIGTERM; CloseFd 14].
Proof. vm_compute. reflexivity. Qed.
