(* ===== verification/CgiConn.v ===== *)
(** * The CGI server (socket/pool/cgi_server.cpp)

    The class [cgi_conn], the template argument of the process pool: it receives
    the name of a program, up to the first "\r\n", and runs it with its output
    going to the client.  [access] and [fork] are arguments. *)

From S2P Require Import Prelude CString ProcessPool.

Definition BUFFER_SIZE : Z := 1024.

Record cgi_conn := CgiConn {
  m_sockfd : Z;
  m_address : Z;
  m_buf : bytes;
  m_read_idx : Z;
  g_epollfd : Z }.   (** the static member [m_epollfd] as [init] last set it *)

Definition new_cgi_conn : cgi_conn := CgiConn 0 0 (replicate 1024 NUL) 0 (-1).

Definition init (epollfd sockfd addr : Z) (_ : cgi_conn) : cgi_conn :=
  CgiConn sockfd addr (replicate (Z.to_nat BUFFER_SIZE) NUL) 0 epollfd.

Definition set_buf (b : bytes) (c : cgi_conn) : cgi_conn :=
  CgiConn (m_sockfd c) (m_address c) b (m_read_idx c) (g_epollfd c).
Definition set_read_idx (n : Z) (c : cgi_conn) : cgi_conn :=
  CgiConn (m_sockfd c) (m_address c) (m_buf c) n (g_epollfd c).

(** The loop that looks for "\r\n" from [idx] on. *)
Fixpoint scan (n : nat) (buf : bytes) (idx read_idx : Z) : res Z :=
  if decide (idx < read_idx) then
    match n with
    | O => Err OutOfFuel
    | S n =>
        if decide (idx >= 1) then
          a ← aget buf (idx - 1);
          b ← aget buf idx;
          if decide (a = CR /\ b = LF) then Ok idx else scan n buf (idx + 1) read_idx
        else scan n buf (idx + 1) read_idx
    end
  else Ok idx.

(** What the system answers to [process]: the [recv]s in turn, whether a file
    exists, and the result of [fork]. *)
Record cgi_input := CgiInput {
  in_recv : list recv_t;
  in_access : bytes -> bool;
  in_fork : Z }.

(** After a line was found that ends at [idx]; in the child that [fork] makes the
    process ends. *)
Definition run_program (inp : cgi_input) (idx : Z) (c : cgi_conn)
    : res (cgi_conn * list call * bool) :=
  buf ← aset (m_buf c) (idx - 1) NUL;
  let c := set_buf buf c in
  file_name ← cstr buf 0;
  if negb (in_access inp file_name) then Ok (c, removefd (g_epollfd c) (m_sockfd c), false)
  else if decide (in_fork inp = -1 \/ in_fork inp > 0) then
    Ok (c, removefd (g_epollfd c) (m_sockfd c), false)
  else Ok (c, [CloseFd 1; Dup (m_sockfd c); Execl file_name; Exit 0], true).

(** [process]: the loop over the [recv]s. *)
Fixpoint process_loop (rs : list recv_t) (inp : cgi_input) (c : cgi_conn)
    : res (cgi_conn * list call * bool) :=
  match rs with
  | [] => Err OutOfFuel
  | Again :: _ => Ok (c, [], false)
  | RecvError :: _ => Ok (c, removefd (g_epollfd c) (m_sockfd c), false)
  | Received data :: rs =>
      let idx := m_read_idx c in
      let data := take (Z.to_nat (BUFFER_SIZE - 1 - idx)) data in
      if decide (data = []) then Ok (c, removefd (g_epollfd c) (m_sockfd c), false)
      else
        buf ← awrite (m_buf c) idx data;
        let c := set_read_idx (idx + Z.of_nat (length data)) (set_buf buf c) in
        _ ← cstr (m_buf c) 0;   (** [printf("%s", m_buf)] *)
        idx ← scan (length data) (m_buf c) idx (m_read_idx c);
        if decide (idx = m_read_idx c) then process_loop rs inp c
        else run_program inp idx c
  end.

Definition process (inp : cgi_input) (c : cgi_conn) : res (cgi_conn * list call * bool) :=
  process_loop (in_recv inp) inp c.

#[export] Instance cgi_task : Task cgi_conn := {
  task_new := new_cgi_conn;
  task_init := init;
  task_input := cgi_input;
  task_process := process }.

(** ** main

    The results of [socket], [bind], [listen]; then those the pool needs.  The
    calls of the process that returns from [run]. *)
Definition main (argc sock bnd lst : Z) (rets : list (Z * (Z * Z) * Z))
    (epollfd ret : Z) (sig_pipefd : Z * Z) (acts : Z)
    (child_waits : list (option (list (cevent (T := cgi_conn)))))
    (parent_waits : list (option (list pevent))) : res (Z * list call) :=
  if decide (argc <= 2) then Ok (1, [])
  else if decide (sock < 0) then Err AssertFail
  else if decide (bnd = -1) then Err AssertFail
  else if decide (lst = -1) then Err AssertFail
  else
    '(pool, calls) ← create None sock 8 rets;
    calls' ← run (T := cgi_conn) epollfd ret sig_pipefd acts child_waits parent_waits pool;
    Ok (0, calls ++ calls' ++ [CloseFd sock]).

(** ** The specification: the line in what was received *)

(** The length of the line: the position of the first "\r\n". *)
Fixpoint line_end (l : bytes) : option nat :=
  match l with
  | [] => None
  | a :: l =>
      match l with
      | b :: _ => if decide (a = CR /\ b = LF) then Some 0%nat else S <$> line_end l
      | [] => None
      end
  end.

(** The state of a connection that has received [data] and no complete line. *)
Record holds_data (data : bytes) (c : cgi_conn) : Prop := {
  hd_buf : m_buf c = data ++ replicate (1024 - length data) NUL;
  hd_idx : m_read_idx c = Z.of_nat (length data);
  hd_fits : (length data <= 1023)%nat;
  hd_open : line_end data = None }.

(** ** Lemmas: where a line ends *)

Definition crlf_at (l : bytes) (q : nat) : Prop := l !! q = Some CR /\ l !! S q = Some LF.

Lemma line_end_none l : line_end l = None <-> forall q, ~ crlf_at l q.
Proof.
  induction l as [|a [|b l] IH].
  - split; [by intros _ q [? _]|done].
  - split; [|done]. intros _ [|q] [H1 H2]; cbn in *; done.
  - change (line_end (a :: b :: l)) with
      (if decide (a = CR /\ b = LF) then Some 0%nat else S <$> line_end (b :: l)).
    destruct (decide (a = CR /\ b = LF)) as [[-> ->]|Hne].
    + split; [done|]. intros H. by destruct (H 0%nat).
    + rewrite fmap_None, IH. split; intros H q.
      * destruct q as [|q]; [|apply H]. intros [[= ->] [= ->]]. by destruct Hne.
      * apply (H (S q)).
Qed.

Lemma line_end_some l p :
  line_end l = Some p <-> crlf_at l p /\ forall q, (q < p)%nat -> ~ crlf_at l q.
Proof.
  revert p. induction l as [|a [|b l] IH]; intros p.
  - split; [done|]. by intros [[? _] _].
  - split; [done|]. by intros [[_ H] _].
  - change (line_end (a :: b :: l)) with
      (if decide (a = CR /\ b = LF) then Some 0%nat else S <$> line_end (b :: l)).
    destruct (decide (a = CR /\ b = LF)) as [[-> ->]|Hne].
    + split; [intros [= <-]; split; [done|lia]|]. intros [_ H].
      destruct p as [|p]; [done|]. destruct (H 0%nat); [lia|done].
    + destruct p as [|p].
      * split; [by intros (? & [=] & ?)%fmap_Some|]. intros [[[= ->] [= ->]] _]. by destruct Hne.
      * transitivity (line_end (b :: l) = Some p).
        { destruct (line_end (b :: l)); cbn; split; congruence. }
        rewrite IH. split; intros [H1 H2]; (split; [exact H1|]).
        -- intros [|q] Hq; [intros [[= ->] [= ->]]; by destruct Hne|apply H2; lia].
        -- intros q Hq. apply (H2 (S q)). lia.
Qed.

Lemma crlf_take l i q : crlf_at (take i l) q <-> crlf_at l q /\ (S q < i)%nat.
Proof.
  unfold crlf_at. destruct (decide (S q < i)%nat).
  - rewrite !lookup_take_lt by lia. tauto.
  - rewrite (lookup_take_ge l i (S q)) by lia. split; [by intros []|lia].
Qed.

Lemma aget_app {A} (l t : list A) k x : l !! k = Some x -> aget (l ++ t) (Z.of_nat k) = Ok x.
Proof.
  intros H. apply aget_ok; [lia|]. rewrite Nat2Z.id. by apply lookup_app_l_Some.
Qed.

(** The scan from [idx] on finds the end of the line, if no line ends before. *)
Lemma scan_spec l tail n idx :
  (idx + n = length l)%nat -> line_end (take idx l) = None ->
  scan n (l ++ tail) (Z.of_nat idx) (Z.of_nat (length l)) =
  Ok (match line_end l with Some p => Z.of_nat (S p) | None => Z.of_nat (length l) end).
Proof.
  revert idx. induction n as [|n IH]; intros idx Hn Hnone; cbn [scan].
  - rewrite decide_False by lia. rewrite take_ge in Hnone by lia. rewrite Hnone. f_equal. lia.
  - rewrite decide_True by lia. rewrite line_end_none in Hnone.
    assert (Hnext : ~ (exists q, idx = S q /\ crlf_at l q) ->
              scan n (l ++ tail) (Z.of_nat idx + 1) (Z.of_nat (length l)) =
              Ok (match line_end l with Some p => Z.of_nat (S p) | None => Z.of_nat (length l) end)).
    { intros Hno. replace (Z.of_nat idx + 1) with (Z.of_nat (S idx)) by lia. apply IH; [lia|].
      apply line_end_none. intros q [Hq Hlt]%crlf_take.
      destruct (decide (S q = idx)) as [<-|Hne]; [by apply Hno; exists q|].
      apply (Hnone q), crlf_take. split; [done|lia]. }
    case_decide as H1; [|apply Hnext; intros (q & -> & _); lia].
    destruct idx as [|q]; [lia|]. replace (Z.of_nat (S q) - 1) with (Z.of_nat q) by lia.
    destruct (lookup_lt_is_Some_2 l q) as [a Ha]; [lia|].
    destruct (lookup_lt_is_Some_2 l (S q)) as [b Hb]; [lia|].
    rewrite (bind_ok _ _ _ (aget_app _ tail _ _ Ha)), (bind_ok _ _ _ (aget_app _ tail _ _ Hb)).
    cbv beta. case_decide as Hab.
    + assert (line_end l = Some q) as ->; [|done].
      apply line_end_some. split; [split; destruct Hab; congruence|].
      intros q' Hq' Hc. apply (Hnone q'), crlf_take. split; [done|lia].
    + apply Hnext. intros (q' & [= <-] & [Hc1 Hc2]). apply Hab. split; congruence.
Qed.

(** ** Lemmas: receiving a piece *)

Lemma holds_data_init epollfd sockfd addr c : holds_data [] (init epollfd sockfd addr c).
Proof. split; [reflexivity|reflexivity|cbn; lia|reflexivity]. Qed.

(** The connection after [d] was received. *)
Definition grown (d : bytes) (c : cgi_conn) : cgi_conn :=
  set_read_idx (m_read_idx c + Z.of_nat (length d))
    (set_buf (take (Z.to_nat (m_read_idx c)) (m_buf c) ++ d ++
              drop (Z.to_nat (m_read_idx c) + length d) (m_buf c)) c).

Lemma grown_buf data d c :
  holds_data data c -> (length (data ++ d) <= 1023)%nat ->
  m_buf (grown d c) = (data ++ d) ++ replicate (1024 - length (data ++ d)) NUL /\
  m_read_idx (grown d c) = Z.of_nat (length (data ++ d)).
Proof.
  intros [Hb Hi _ _]. rewrite length_app. intros Hlen. unfold grown. cbn. rewrite Hi, Hb, Nat2Z.id.
  split; [|lia]. rewrite take_app_length, <- app_assoc. f_equal. f_equal.
  rewrite drop_app_ge by lia. rewrite drop_replicate. f_equal. lia.
Qed.

Lemma cstr_nul (l : bytes) k : (0 < k)%nat -> exists s, cstr (l ++ replicate k NUL) 0 = Ok s.
Proof.
  intros Hk. unfold cstr. cbn [decide decide_rel]. rewrite decide_True by lia. rewrite drop_0.
  induction l as [|a l IH].
  - destruct k; [lia|]. by exists [].
  - cbn [app upto_nul]. case_decide; [by exists []|]. destruct IH as [s Hs].
    destruct (upto_nul (l ++ replicate k NUL)) as [t|]; [|done]. by eexists.
Qed.

Lemma receive_piece data d rs inp c :
  holds_data data c -> d <> [] -> (length (data ++ d) <= 1023)%nat ->
  process_loop (Received d :: rs) inp c =
  match line_end (data ++ d) with
  | None => process_loop rs inp (grown d c)
  | Some p => run_program inp (Z.of_nat (S p)) (grown d c)
  end.
Proof.
  intros H Hd Hlen. destruct (grown_buf _ _ _ H Hlen) as [Hb Hi]. destruct H as [Hb0 Hi0 _ Hopen].
  rewrite length_app in Hlen.
  cbn [process_loop]. rewrite take_ge by (rewrite Hi0; change BUFFER_SIZE with 1024; lia).
  rewrite decide_False by done.
  rewrite awrite_ok; [|lia|rewrite Hb0, Hi0, length_app, length_replicate; lia].
  cbn [mbind res_bind]. fold (grown d c). rewrite Hi, Hb, Hi0.
  destruct (cstr_nul (data ++ d) (1024 - length (data ++ d))) as [s Hs];
    [rewrite length_app; lia|].
  rewrite (bind_ok _ _ _ Hs), scan_spec;
    [|rewrite length_app; lia|by rewrite take_app_length].
  cbn [mbind res_bind]. destruct (line_end (data ++ d)) as [p|] eqn:E.
  - rewrite decide_False; [done|]. apply line_end_some in E as [[_ E] _].
    apply lookup_lt_Some in E. lia.
  - by rewrite decide_True.
Qed.

Lemma grown_holds data d c :
  holds_data data c -> (length (data ++ d) <= 1023)%nat -> line_end (data ++ d) = None ->
  holds_data (data ++ d) (grown d c).
Proof. intros H Hlen Ho. destruct (grown_buf _ _ _ H Hlen). by split. Qed.

Lemma line_end_app_none l d : line_end (l ++ d) = None -> line_end l = None.
Proof.
  rewrite !line_end_none. intros H q [H1 H2]. apply (H q).
  split; by apply lookup_app_l_Some.
Qed.

(** The program that a line names: the C string that is left when the "\r" is
    overwritten. *)
Definition c_string (l : bytes) : bytes := default [] (upto_nul (l ++ [NUL])).

Lemma upto_nul_cut l t : upto_nul (l ++ NUL :: t) = Some (c_string l).
Proof.
  unfold c_string. induction l as [|a l IH]; [done|]. cbn. case_decide; [done|].
  rewrite IH. destruct (upto_nul (l ++ [NUL])) eqn:E; [done|]. exfalso. clear IH.
  revert E. induction l as [|b l IH]; [done|]. cbn. case_decide; [done|].
  destruct (upto_nul (l ++ [NUL])); [done|]. intros _. by apply IH.
Qed.

(** What the server does with the request for program [prog]. *)
Definition serve_request (inp : cgi_input) (prog : bytes) (c : cgi_conn) : list call * bool :=
  if in_access inp prog && negb (bool_decide (in_fork inp = -1 \/ in_fork inp > 0))
  then ([CloseFd 1; Dup (m_sockfd c); Execl prog; Exit 0], true)
  else (removefd (g_epollfd c) (m_sockfd c), false).

Lemma run_program_spec inp l t p c :
  m_buf c = l ++ t -> line_end l = Some p ->
  exists c', run_program inp (Z.of_nat (S p)) c =
    Ok (c', (serve_request inp (c_string (take p l)) c).1, (serve_request inp (c_string (take p l)) c).2).
Proof.
  intros Hb [[Hcr _] _]%line_end_some. pose proof (lookup_lt_Some _ _ _ Hcr) as Hlt.
  rewrite <- (take_drop_middle l p CR Hcr) in Hb. unfold run_program. rewrite Hb.
  rewrite <- app_assoc. cbn [app].
  erewrite bind_ok by (apply aset_at; rewrite length_take; lia).
  erewrite bind_ok by (unfold cstr; rewrite decide_True, drop_0, upto_nul_cut by lia; reflexivity).
  unfold serve_request. cbn [m_sockfd g_epollfd set_buf].
  destruct (in_access _ _); cbn [negb andb]; [|by eexists].
  case_decide as Hf; [rewrite bool_decide_true by done|rewrite bool_decide_false by done];
    by eexists.
Qed.

Lemma receive_pieces ds rs inp data c :
  holds_data data c -> Forall (fun d => d <> []) ds ->
  (length (data ++ mjoin ds) <= 1023)%nat -> line_end (data ++ mjoin ds) = None ->
  exists c', process_loop ((Received <$> ds) ++ rs) inp c = process_loop rs inp c' /\
    holds_data (data ++ mjoin ds) c' /\ m_sockfd c' = m_sockfd c /\ g_epollfd c' = g_epollfd c.
Proof.
  intros H Hds. revert data c H. induction Hds as [|d ds Hd _ IH]; intros data c H Hlen Ho.
  - exists c. rewrite app_nil_r. by split_ands.
  - cbn [mjoin list_join] in *. rewrite (assoc_L (++)) in *.
    assert (Ho' : line_end (data ++ d) = None) by (by eapply line_end_app_none).
    assert (Hlen' : (length (data ++ d) <= 1023)%nat) by (rewrite length_app in Hlen; lia).
    cbn [fmap list_fmap app]. rewrite (receive_piece data) by done. rewrite Ho'.
    destruct (IH _ _ (grown_holds _ _ _ H Hlen' Ho') Hlen Ho) as (c' & E & Hc & Hs & He).
    by exists c'.
Qed.

(** cgi_request: the request is cut out of the stream whatever its division
    into pieces: when the pieces received so far hold no complete line and the
    next one completes it, the program run (or looked for) is the text before the
    first "\r\n" of all that was received, up to a NUL; the client gets its output
    if the file exists and [fork] makes a child, and is disconnected by this
    process otherwise. *)
Theorem cgi_request inp data ds d rest c p :
  holds_data data c -> Forall (fun d => d <> []) ds ->
  let all := data ++ mjoin ds ++ d in
  (length all <= 1023)%nat ->
  line_end (data ++ mjoin ds) = None -> line_end all = Some p ->
  in_recv inp = (Received <$> ds) ++ Received d :: rest ->
  exists c', process inp c =
    Ok (c', (serve_request inp (c_string (take p all)) c).1, (serve_request inp (c_string (take p all)) c).2).
Proof.
  intros H Hds all Hlen Ho Hp Hin. unfold process. rewrite Hin.
  assert (Hd : d <> []) by (intros ->; unfold all in Hp; rewrite app_nil_r in Hp; congruence).
  assert (Hlen' : (length (data ++ mjoin ds) <= 1023)%nat).
  { unfold all in Hlen. rewrite (assoc_L (++)), length_app in Hlen. lia. }
  destruct (receive_pieces ds (Received d :: rest) inp data c H Hds Hlen' Ho)
    as (c1 & -> & H1 & Hs & He).
  unfold all in *. rewrite (assoc_L (++)) in *.
  rewrite (receive_piece _ _ _ _ _ H1) by done. rewrite Hp.
  destruct (grown_buf _ _ _ H1 Hlen) as [Hb _].
  destruct (run_program_spec inp _ _ p _ Hb Hp) as (c' & E). exists c'. rewrite E.
  unfold serve_request. cbn [m_sockfd g_epollfd grown set_read_idx set_buf]. by rewrite Hs, He.
Qed.

Lemma removal_or_run inp prog c :
  serve_request inp prog c = (removefd (g_epollfd c) (m_sockfd c), false) \/
  serve_request inp prog c = ([CloseFd 1; Dup (m_sockfd c); Execl prog; Exit 0], true).
Proof. unfold serve_request. destruct (_ && _); auto. Qed.

(** cgi_safe: whatever the client sends, [process] accesses its buffer only
    inside its bounds, and when it returns it has either asked for nothing and
    holds all that was received, ready for more; or closed the connection; or it
    is in the child, which runs a program and exits.  A line that is not complete
    after 1023 bytes ends the connection. *)
Theorem cgi_safe inp data c :
  holds_data data c ->
  match process inp c with
  | Ok (c', calls, ended) =>
      (calls = [] /\ ended = false /\ exists more, holds_data (data ++ more) c') \/
      (calls = removefd (g_epollfd c) (m_sockfd c) /\ ended = false) \/
      (exists prog, calls = [CloseFd 1; Dup (m_sockfd c); Execl prog; Exit 0] /\ ended = true)
  | Err f => f = OutOfFuel
  end.
Proof.
  unfold process. generalize (in_recv inp) as rs. intros rs. revert data c.
  induction rs as [|[d| |] rs IH]; intros data c H; [done| |..].
  - cbn [process_loop]. pose proof H as [Hb Hi Hlen Ho].
    set (d' := take _ d). destruct (decide (d' = [])) as [|Hd]; [by right; left|].
    assert (Hfit : (length (data ++ d') <= 1023)%nat).
    { rewrite length_app. unfold d'. rewrite length_take, Hi. change BUFFER_SIZE with 1024. lia. }
    pose proof (receive_piece data d' rs inp c H Hd Hfit) as E. cbn [process_loop] in E.
    rewrite (take_ge d') in E by (rewrite Hi; rewrite length_app in Hfit; change BUFFER_SIZE with 1024; lia).
    rewrite decide_False in E by done. rewrite E.
    destruct (line_end (data ++ d')) as [p|] eqn:Ep.
    + destruct (grown_buf _ _ _ H Hfit) as [Hg _].
      destruct (run_program_spec inp _ _ p _ Hg Ep) as (c' & ->).
      destruct (removal_or_run inp (c_string (take p (data ++ d'))) (grown d' c)) as [-> | ->]; cbn;
        [by right; left|right; right; eauto].
    + specialize (IH _ _ (grown_holds _ _ _ H Hfit Ep)).
      destruct (process_loop rs inp (grown d' c)) as [[[c' calls] ended]|f]; [|done].
      destruct IH as [(? & ? & more & Hm)|IH]; [|by right].
      left. split_ands; [done..|]. exists (d' ++ more). by rewrite (assoc_L (++)).
  - left. split_ands; [done..|]. exists []. by rewrite app_nil_r.
  - by right; left.
Qed.

(** ** Examples *)

Definition input0 : cgi_input :=
  CgiInput [Received (lit "./cgi"); Received (lit "_adder" ++ [CR]); Received (LF :: lit "x")]
    (fun _ => true) 0.

Lemma cgi_request_witness :
  exists c', process input0 (init 4 5 0 new_cgi_conn) =
    Ok (c', [CloseFd 1; Dup 5; Execl (lit "./cgi_adder"); Exit 0], true).
Proof.
  destruct (cgi_request input0 [] [lit "./cgi"; lit "_adder" ++ [CR]] (LF :: lit "x") []
    (init 4 5 0 new_cgi_conn) 11 (holds_data_init 4 5 0 new_cgi_conn)) as [c' E].
  - repeat constructor; discriminate.
  - cbn. lia.
  - reflexivity.
  - reflexivity.
  - reflexivity.
  - exists c'. exact E.
Defined.

Lemma cgi_safe_witness :
  match process input0 (init 4 5 0 new_cgi_conn) with
  | Ok (c', calls, ended) =>
      (calls = [] /\ ended = false /\ exists more, holds_data ([] ++ more) c') \/
      (calls = removefd 4 5 /\ ended = false) \/
      (exists prog, calls = [CloseFd 1; Dup 5; Execl prog; Exit 0] /\ ended = true)
  | Err f => f = OutOfFuel
  end.
Proof. exact (cgi_safe input0 [] _ (holds_data_init 4 5 0 new_cgi_conn)). Defined.
