(* ===== verification/CgiServer.v ===== *)
(** * The children of the CGI server at work

    The pool's loop in a child (socket/pool/processpool.h, [run_child]) with the
    class of cgi_server.cpp: together they implement a table that holds, for each
    open connection, what was received of its line so far. *)

From S2P Require Import Prelude CString ProcessPool CgiConn.

(** ** The specification *)

(** What the answers to [recv] make of a connection that has sent [data]. *)
Inductive outcome := Waits (data : bytes) | Leaves | Line (line : bytes) | Starved.

Fixpoint feed (data : bytes) (rs : list recv_t) : outcome :=
  match rs with
  | [] => Starved
  | Again :: _ => Waits data
  | RecvError :: _ => Leaves
  | Received d :: rs =>
      let d := take (1023 - length data) d in
      if decide (d = []) then Leaves
      else
        match line_end (data ++ d) with
        | None => feed (data ++ d) rs
        | Some p => Line (take p (data ++ d))
        end
  end.

(** Whether the process that goes on after [fork] is the one that runs [prog]. *)
Definition runs (inp : cgi_input) (prog : bytes) : bool :=
  in_access inp prog && negb (bool_decide (in_fork inp = -1 \/ in_fork inp > 0)).

(** What is done about the request for [prog] on [fd]. *)
Definition served (epollfd : Z) (inp : cgi_input) (prog : bytes) (fd : Z) : list call * bool :=
  if runs inp prog then ([CloseFd 1; Dup fd; Execl prog; Exit 0], true)
  else (removefd epollfd fd, false).

Abbreviation table := (gmap Z bytes).

Section Child.
Context (epollfd pipefd sigfd : Z).

(** What an event does to the table, the calls, whether the process ends. *)
Definition spec_event (ev : cevent (T := cgi_conn)) (tbl : table) : table * list call * bool :=
  let fd := ce_fd ev in
  if decide (Z.land (ce_events ev) POLL_IN = 0) then (tbl, [], false)
  else if decide (fd = pipefd) then
    let connfd := (ce_accept ev).1 in
    if ce_recv ev then
      if decide (0 <= connfd)
      then (<[connfd := []]> tbl, [RecvInt pipefd; AcceptConn; Addfd epollfd connfd], false)
      else (tbl, [RecvInt pipefd; AcceptConn], false)
    else (tbl, [RecvInt pipefd], false)
  else if decide (fd = sigfd) then (tbl, [], false)
  else
    match feed (default [] (tbl !! fd)) (in_recv (ce_input ev)) with
    | Waits data => (<[fd := data]> tbl, [], false)
    | Line line =>
        let '(calls, ended) := served epollfd (ce_input ev) (c_string line) fd in
        (delete fd tbl, calls, ended)
    | Leaves => (delete fd tbl, removefd epollfd fd, false)
    | Starved => (tbl, [], false)
    end.

Fixpoint spec_events (evs : list (cevent (T := cgi_conn))) (tbl : table) : table * list call * bool :=
  match evs with
  | [] => (tbl, [], false)
  | ev :: evs =>
      let '(tbl, calls, ended) := spec_event ev tbl in
      if (ended : bool) then (tbl, calls, true)
      else let '(tbl, calls', ended) := spec_events evs tbl in (tbl, calls ++ calls', ended)
  end.

(** What the kernel may report: data only on open connections, new descriptors
    that are not in use and fit the array, and answers to [recv] up to one that
    ends the loop. *)
Definition may_event (ev : cevent (T := cgi_conn)) (tbl : table) : Prop :=
  Z.land (ce_events ev) POLL_IN <> 0 ->
  if decide (ce_fd ev = pipefd) then
    let connfd := (ce_accept ev).1 in
    0 <= connfd -> tbl !! connfd = None /\ connfd <> pipefd /\ connfd <> sigfd /\ connfd < USER_PER_PROCESS
  else
    ce_fd ev <> sigfd ->
    exists data, tbl !! ce_fd ev = Some data /\ feed data (in_recv (ce_input ev)) <> Starved.

Fixpoint may_events (evs : list (cevent (T := cgi_conn))) (tbl : table) : Prop :=
  match evs with
  | [] => True
  | ev :: evs => may_event ev tbl /\ may_events evs (spec_event ev tbl).1.1
  end.

(** An event that tells the child to stop. *)
Definition stops (ev : cevent (T := cgi_conn)) : bool :=
  bool_decide (Z.land (ce_events ev) POLL_IN <> 0) && bool_decide (ce_fd ev <> pipefd) &&
  bool_decide (ce_fd ev = sigfd) && existsb (fun s => (s =? SIGTERM) || (s =? SIGINT)) (ce_sigs ev).

(** ** The refinement *)

(** The object of a connection that has sent [data]. *)
Record holds (fd : Z) (data : bytes) (t : cgi_conn) : Prop := {
  ho_data : holds_data data t;
  ho_sock : m_sockfd t = fd;
  ho_epoll : g_epollfd t = epollfd }.

Record shows (c : child (T := cgi_conn)) (tbl : table) : Prop := {
  sh_epoll : c_epollfd c = epollfd;
  sh_pipe : c_pipefd c = pipefd;
  sh_sig : c_sigfd c = sigfd;
  sh_users : forall fd data, tbl !! fd = Some data ->
    0 <= fd < USER_PER_PROCESS /\ fd <> pipefd /\ fd <> sigfd /\
    exists t, c_users c !! fd = Some t /\ holds fd data t }.

(** [process] does what [feed] says. *)
Lemma process_feeds inp data c fd :
  holds fd data c ->
  match feed data (in_recv inp) with
  | Waits data' => exists c', process inp c = Ok (c', [], false) /\ holds fd data' c'
  | Leaves => exists c', process inp c = Ok (c', removefd epollfd fd, false)
  | Line l =>
      exists c', process inp c =
        Ok (c', (served epollfd inp (c_string l) fd).1, (served epollfd inp (c_string l) fd).2)
  | Starved => process inp c = Err OutOfFuel
  end.
Proof.
  unfold process. generalize (in_recv inp) as rs. intros rs. revert data c.
  induction rs as [|[d| |] rs IH]; intros data c [H Hs He]; cbn [feed]; [done| | |].
  - pose proof H as [Hb Hi Hlen Ho]. set (d' := take _ d).
    assert (Htake : take (Z.to_nat (BUFFER_SIZE - 1 - m_read_idx c)) d = d').
    { unfold d'. f_equal. rewrite Hi. change BUFFER_SIZE with 1024. lia. }
    case_decide as Hd.
    { exists c. cbn [process_loop]. rewrite Htake, decide_True by done. by rewrite He, Hs. }
    assert (Hfit : (length (data ++ d') <= 1023)%nat)
      by (rewrite length_app; unfold d'; rewrite length_take; lia).
    pose proof (receive_piece data d' rs inp c H Hd Hfit) as E. cbn [process_loop] in E |- *.
    rewrite (take_ge d') in E by (rewrite Hi; rewrite length_app in Hfit; change BUFFER_SIZE with 1024; lia).
    rewrite Htake, E. destruct (line_end (data ++ d')) as [p|] eqn:Ep.
    + destruct (grown_buf _ _ _ H Hfit) as [Hg _]. destruct (run_program_spec inp _ _ p _ Hg Ep) as [c' E'].
      exists c'. rewrite E'. unfold serve_request, served, runs.
      cbn [m_sockfd g_epollfd grown set_read_idx set_buf]. by rewrite Hs, He.
    + apply IH. split; [by apply grown_holds|done|done].
  - by exists c.
  - exists c. cbn. by rewrite He, Hs.
Qed.

Lemma shows_insert c tbl fd data t :
  shows c tbl -> 0 <= fd < USER_PER_PROCESS -> fd <> pipefd -> fd <> sigfd -> holds fd data t ->
  shows (set_users (<[fd := t]> (c_users c)) c) (<[fd := data]> tbl).
Proof.
  intros [H1 H2 H3 H4] Hr Hp Hg Ht. split; cbn; try done.
  intros fd' data'. destruct (decide (fd' = fd)) as [->|Hne].
  - rewrite !lookup_insert_eq. intros [= <-]. do 3 (split; [done|]). by exists t.
  - rewrite !lookup_insert_ne by done. apply H4.
Qed.

Lemma shows_delete c tbl fd t :
  shows c tbl -> shows (set_users (<[fd := t]> (c_users c)) c) (delete fd tbl).
Proof.
  intros [H1 H2 H3 H4]. split; cbn; try done.
  intros fd' data' [Hne Hl]%lookup_delete_Some. rewrite lookup_insert_ne by done. by apply H4.
Qed.

(** One event. *)
Lemma child_event_refines ev c tbl :
  shows c tbl -> may_event ev tbl ->
  let '(tbl', calls, ended) := spec_event ev tbl in
  exists c', child_event ev c = Ok (c', calls, ended) /\
    (ended = false -> shows c' tbl' /\ c_stop c' = c_stop c || stops ev).
Proof.
  intros H Hmay. pose proof H as [He Hp Hg Hu]. unfold spec_event, child_event, stops, may_event in *.
  rewrite Hp, Hg. destruct (decide (Z.land (ce_events ev) POLL_IN = 0)) as [Hin|Hin].
  - rewrite !decide_False by tauto. exists c. rewrite bool_decide_false by tauto. cbn [andb].
    rewrite orb_false_r. by split.
  - specialize (Hmay Hin). rewrite (bool_decide_true (Z.land _ _ <> 0)) by done. cbn [andb].
    destruct (decide (ce_fd ev = pipefd)) as [Hfd|Hfd].
    + rewrite (decide_True (P := ce_fd ev = pipefd /\ _)) by done.
      rewrite (bool_decide_false (ce_fd ev <> pipefd)) by tauto. cbn [andb].
      unfold on_pipe. rewrite Hfd. destruct (ce_recv ev); cbn [negb].
      2: { exists c. rewrite orb_false_r. by split. }
      destruct (ce_accept ev) as [connfd addr]. cbn [fst] in *.
      destruct (decide (connfd < 0)) as [Hneg|Hpos].
      { rewrite decide_False by lia. exists c. rewrite orb_false_r. by split. }
      rewrite (decide_True (P := 0 <= connfd)) by lia.
      destruct Hmay as (Hnew & Hnp & Hng & Hlt); [lia|].
      unfold task_at. rewrite decide_True by lia. cbn [mbind res_bind]. rewrite He.
      eexists. split; [reflexivity|]. intros _. rewrite orb_false_r. split; [|done].
      apply shows_insert; [done|lia|done|done|]. split; [apply holds_data_init|done|done].
    + rewrite (decide_False (P := ce_fd ev = pipefd /\ _)) by tauto.
      rewrite (bool_decide_true (ce_fd ev <> pipefd)) by done. cbn [andb].
      destruct (decide (ce_fd ev = sigfd)) as [Hsg|Hsg].
      * rewrite (decide_True (P := ce_fd ev = sigfd /\ _)) by done.
        rewrite bool_decide_true by done. cbn [andb]. eexists. split; [reflexivity|].
        intros _. split; [|done]. by split.
      * rewrite (decide_False (P := ce_fd ev = sigfd /\ _)) by tauto.
        rewrite (decide_True (P := Z.land _ _ <> 0)) by done.
        rewrite (bool_decide_false (ce_fd ev = sigfd)) by done. cbn [andb]. rewrite orb_false_r.
        destruct (Hmay Hsg) as (data & Hd & Hst). rewrite Hd. cbn [default id].
        destruct (Hu _ _ Hd) as (Hr & _ & _ & t & Ht & Hh).
        unfold task_at. rewrite decide_True, Ht by lia. cbn [default id mbind res_bind task_process cgi_task].
        pose proof (process_feeds (ce_input ev) data t _ Hh) as E.
        destruct (feed data (in_recv (ce_input ev))) as [data'| |line|]; [| | |done];
          cbv beta iota.
        -- destruct E as (t' & E & Hh'). rewrite (bind_ok _ _ _ E). eexists. split; [reflexivity|].
           intros _. split; [|done]. by apply shows_insert.
        -- destruct E as (t' & E). rewrite (bind_ok _ _ _ E). eexists. split; [reflexivity|].
           intros _. split; [|done]. by apply shows_delete.
        -- destruct E as (t' & E). rewrite (bind_ok _ _ _ E).
           destruct (served _ _ _ _) as [calls ended]. cbv beta iota. eexists. split; [reflexivity|]. intros _. split; [|done]. by apply shows_delete.
Qed.

Lemma child_events_refine evs c tbl :
  shows c tbl -> may_events evs tbl ->
  let '(tbl', calls, ended) := spec_events evs tbl in
  exists c', child_events evs c = Ok (c', calls, ended) /\
    (ended = false -> shows c' tbl' /\ c_stop c' = c_stop c || existsb stops evs).
Proof.
  revert c tbl. induction evs as [|ev evs IH]; intros c tbl H Hm.
  - exists c. cbn. rewrite orb_false_r. by split.
  - cbn [may_events] in Hm. destruct Hm as [Hm1 Hm2]. cbn [spec_events child_events existsb].
    pose proof (child_event_refines ev c tbl H Hm1) as E.
    destruct (spec_event ev tbl) as [[tbl1 calls1] ended1]. destruct E as (c1 & E1 & H1).
    rewrite (bind_ok _ _ _ E1). destruct ended1; [by exists c1|]. destruct (H1 eq_refl) as [Hs1 Hst1].
    specialize (IH c1 tbl1 Hs1 Hm2). destruct (spec_events evs tbl1) as [[tbl2 calls2] ended2].
    destruct IH as (c2 & E2 & H2). rewrite (bind_ok _ _ _ E2). exists c2. split; [done|].
    intros He. destruct (H2 He) as [? ->]. by rewrite Hst1, orb_assoc.
Qed.

Lemma spec_events_app evs1 evs2 tbl :
  spec_events (evs1 ++ evs2) tbl =
  let '(tbl1, calls1, ended) := spec_events evs1 tbl in
  if (ended : bool) then (tbl1, calls1, true)
  else let '(tbl2, calls2, ended) := spec_events evs2 tbl1 in (tbl2, calls1 ++ calls2, ended).
Proof.
  revert tbl. induction evs1 as [|ev evs1 IH]; intros tbl.
  - cbn. by destruct (spec_events evs2 tbl) as [[??]?].
  - cbn [app spec_events]. destruct (spec_event ev tbl) as [[tbl1 calls1] [|]]; [done|].
    rewrite IH. destruct (spec_events evs1 tbl1) as [[tbl2 calls2] [|]]; [done|].
    destruct (spec_events evs2 tbl2) as [[??]?]. by rewrite (assoc_L (++)).
Qed.

(** As long as the process goes on, the events of two waits are one sequence. *)
Lemma may_events_app evs1 evs2 tbl :
  may_events (evs1 ++ evs2) tbl -> (spec_events evs1 tbl).2 = false ->
  may_events evs1 tbl /\ may_events evs2 (spec_events evs1 tbl).1.1.
Proof.
  revert tbl. induction evs1 as [|ev evs1 IH]; intros tbl; [done|].
  cbn [app may_events spec_events]. intros [H1 H2] He.
  destruct (spec_event ev tbl) as [[tbl1 calls1] [|]]; [done|]. cbn [fst snd] in *.
  specialize (IH tbl1 H2). destruct (spec_events evs1 tbl1) as [[tbl2 calls2] e2].
  cbn [fst snd] in *. destruct (IH He). by split.
Qed.

Lemma may_events_prefix evs1 evs2 tbl : may_events (evs1 ++ evs2) tbl -> may_events evs1 tbl.
Proof.
  revert tbl. induction evs1 as [|ev evs1 IH]; intros tbl; [done|]. cbn. intros [H1 H2]. split; [done|].
  by apply IH.
Qed.

(** The loop runs through its waits until the one with the signal to stop. *)
Lemma child_loop_refines evss last c tbl :
  shows c tbl -> c_stop c = false -> may_events (mjoin evss ++ last) tbl ->
  existsb stops (mjoin evss) = false -> existsb stops last = true ->
  let '(tbl', calls, ended) := spec_events (mjoin evss ++ last) tbl in
  exists c', child_loop (Some <$> (evss ++ [last])) c = Ok (c', calls, ended).
Proof.
  revert c tbl. induction evss as [|evs evss IH]; intros c tbl H Hs Hm Hno Hst.
  - cbn [mjoin list_join app] in *.
    pose proof (child_events_refine last c tbl H Hm) as E.
    destruct (spec_events last tbl) as [[tbl' calls] ended]. destruct E as (c' & E & Hc).
    cbn [fmap list_fmap child_loop]. rewrite Hs, (bind_ok _ _ _ E). exists c'.
    destruct ended; [done|]. destruct (Hc eq_refl) as [_ Hc']. rewrite Hs, Hst in Hc'.
    cbn [orb] in Hc'. rewrite Hc'. cbn [mbind res_bind]. by rewrite app_nil_r.
  - change (mjoin (evs :: evss)) with (evs ++ mjoin evss) in *. rewrite <- app_assoc in *.
    rewrite existsb_app, orb_false_iff in Hno. destruct Hno as [Hno1 Hno2].
    pose proof (child_events_refine evs c tbl H (may_events_prefix _ _ _ Hm)) as E.
    pose proof (may_events_app _ _ _ Hm) as Hm2.
    rewrite spec_events_app. cbn [app fmap list_fmap child_loop]. rewrite Hs.
    destruct (spec_events evs tbl) as [[tbl1 calls1] ended1]. destruct E as (c1 & E & Hc).
    rewrite (bind_ok _ _ _ E). destruct ended1; [by exists c1|].
    destruct (Hc eq_refl) as [H1 Hs1]. rewrite Hs, Hno1 in Hs1.
    destruct (Hm2 eq_refl) as [_ Hm']. cbn [fst snd] in Hm'.
    specialize (IH c1 tbl1 H1 Hs1 Hm' Hno2 Hst).
    destruct (spec_events (mjoin evss ++ last) tbl1) as [[tbl2 calls2] ended2].
    destruct IH as (c2 & E2). exists c2.
    fold (fmap (M:=list) (@Some (list (cevent (T:=cgi_conn)))) (evss ++ [last])).
    by rewrite (bind_ok _ _ _ E2).
Qed.

(** ** One client *)

(** Once it is to stop, a child stays so. *)
Lemma child_event_stop ev c c' calls ended :
  child_event ev c = Ok (c', calls, ended) -> c_stop c = true -> c_stop c' = true.
Proof.
  unfold child_event. case_decide; [|case_decide; [|case_decide]].
  - intros ([c1 calls1] & E & [= <- _ _])%bind_ok_inv. revert E. unfold on_pipe.
    destruct (negb _); [by intros [= <- _]|]. destruct (ce_accept ev). case_decide; [by intros [= <- _]|].
    by intros (t & _ & [= <- _])%bind_ok_inv.
  - intros [= <- _ _] Hs. unfold child_signals, stop_if. cbn [c_stop]. by rewrite Hs.
  - by intros (t & _ & ([[t' k] e] & _ & [= <- _ _])%bind_ok_inv)%bind_ok_inv.
  - by intros [= <- _ _].
Qed.

Lemma child_events_stop evs : forall c c' calls ended,
  child_events evs c = Ok (c', calls, ended) -> c_stop c = true -> c_stop c' = true.
Proof.
  induction evs as [|ev evs IH]; intros c c' calls ended; cbn [child_events]; [by intros [= <- _ _]|].
  intros ([[c1 k1] e1] & E1 & E2)%bind_ok_inv Hs. eapply child_event_stop in E1; [|done].
  destruct e1; [by injection E2 as <- _ _|].
  apply bind_ok_inv in E2 as ([[c2 k2] e2] & E2 & [= <- _ _]). by eapply IH.
Qed.

Lemma child_events_app evs1 evs2 c :
  child_events (evs1 ++ evs2) c =
  ('(c1, k1, e1) ← child_events evs1 c;
   if (e1 : bool) then Ok (c1, k1, true)
   else '(c2, k2, e2) ← child_events evs2 c1; Ok (c2, k1 ++ k2, e2)).
Proof.
  revert c. induction evs1 as [|ev evs1 IH]; intros c; cbn [app child_events].
  - cbn [mbind res_bind]. by destruct (child_events evs2 c) as [[[??]?]|].
  - destruct (child_event ev c) as [[[c1 k1] [|]]|]; cbn [mbind res_bind]; try done. rewrite IH.
    destruct (child_events evs1 c1) as [[[c2 k2] [|]]|]; cbn [mbind res_bind]; try done.
    destruct (child_events evs2 c2) as [[[c3 k3] e3]|]; cbn [mbind res_bind]; [|done].
    by rewrite (assoc_L (++)).
Qed.

(** Waits whose events do not stop or end the child are one sequence of events. *)
Lemma child_loop_batches evss b rest ws : forall c c' calls,
  c_stop c = false -> child_events (mjoin evss ++ b) c = Ok (c', calls, false) -> c_stop c' = false ->
  child_loop ((Some <$> evss) ++ Some (b ++ rest) :: ws) c =
  ('(c2, calls2, ended) ← child_loop (Some rest :: ws) c'; Ok (c2, calls ++ calls2, ended)).
Proof.
  induction evss as [|evs evss IH]; intros c c' calls Hs E Hs'.
  - cbn [mjoin list_join fmap list_fmap app child_loop] in *. rewrite Hs, Hs', child_events_app, E.
    cbn [mbind res_bind]. destruct (child_events rest c') as [[[c2 k2] [|]]|]; cbn [mbind res_bind]; try done.
    destruct (child_loop ws c2) as [[[c3 k3] e3]|]; cbn [mbind res_bind]; [|done]. by rewrite <- app_assoc.
  - change (mjoin (evs :: evss)) with (evs ++ mjoin evss) in E.
    rewrite <- app_assoc, child_events_app in E. apply bind_ok_inv in E as ([[c1 k1] e1] & E1 & E2).
    destruct e1; [done|]. apply bind_ok_inv in E2 as ([[c2 k2] e2] & E2 & [= -> <- ->]).
    assert (Hs1 : c_stop c1 = false).
    { destruct (c_stop c1) eqn:Hc; [|done]. apply child_events_stop in E2; [congruence|done]. }
    specialize (IH c1 c' k2 Hs1 E2 Hs'). set (R := child_loop (Some rest :: ws) c') in *.
    cbn [fmap list_fmap app child_loop]. rewrite Hs, E1. cbn [mbind res_bind].
    change (list_fmap ?A ?B ?f) with (fmap (M := list) (A := A) (B := B) f).
    rewrite IH. destruct R as [[[c3 k3] e3]|]; cbn [mbind res_bind]; [|done].
    by rewrite <- app_assoc.
Qed.

Lemma child_loop_event ev rest ws c c' calls ended :
  c_stop c = false -> child_event ev c = Ok (c', calls, ended) -> (ended = false -> c_stop c' = false) ->
  child_loop (Some (ev :: rest) :: ws) c =
  (if (ended : bool) then Ok (c', calls, true)
   else '(c2, calls2, ended) ← child_loop (Some rest :: ws) c'; Ok (c2, calls ++ calls2, ended)).
Proof.
  intros Hs E Hc. cbn [child_loop child_events]. rewrite Hs, E. cbn [mbind res_bind].
  destruct ended; [done|]. rewrite Hc by done.
  destruct (child_events rest c') as [[[c2 k2] [|]]|]; cbn [mbind res_bind]; try done.
  destruct (child_loop ws c2) as [[[c3 k3] e3]|]; cbn [mbind res_bind]; [|done]. by rewrite <- app_assoc.
Qed.

(** The bytes that [recv] gives for [fd] in the events. *)
Definition received_in (rs : list recv_t) : bytes :=
  rs ≫= (fun r => match r with Received d => d | _ => [] end).
Definition sent_by (fd : Z) (evs : list (cevent (T := cgi_conn))) : bytes :=
  evs ≫= (fun ev => if decide (ce_fd ev = fd) then received_in (in_recv (ce_input ev)) else []).

(** The process that is followed is the parent in the [fork]s of the event. *)
Definition stays_parent (ev : cevent (T := cgi_conn)) : Prop :=
  in_fork (ce_input ev) = -1 \/ in_fork (ce_input ev) > 0.

(** An event of another connection, or data on [fd]: some pieces, then no more. *)
Definition other_or_data (fd : Z) (ev : cevent (T := cgi_conn)) : Prop :=
  stays_parent ev /\
  (ce_fd ev = fd -> Z.land (ce_events ev) POLL_IN <> 0 /\
     exists ds, in_recv (ce_input ev) = (Received <$> ds) ++ [Again] /\ Forall (fun d => d <> []) ds).

Definition concerns (fd : Z) (e : call) : Prop :=
  match e with
  | Addfd _ f | EpollRemove _ f | CloseFd f | Dup f => f = fd
  | _ => False
  end.

Lemma received_pieces ds rs : received_in ((Received <$> ds) ++ rs) = mjoin ds ++ received_in rs.
Proof.
  unfold received_in. rewrite bind_app. f_equal. induction ds as [|d ds IH]; [done|].
  cbn [fmap list_fmap]. by rewrite bind_cons, IH.
Qed.

Lemma feed_pieces ds rs data :
  Forall (fun d => d <> []) ds -> (length (data ++ mjoin ds) <= 1023)%nat ->
  line_end (data ++ mjoin ds) = None ->
  feed data ((Received <$> ds) ++ rs) = feed (data ++ mjoin ds) rs.
Proof.
  intros Hds. revert data. induction Hds as [|d ds Hd _ IH]; intros data Hlen Ho.
  - by rewrite app_nil_r.
  - cbn [mjoin list_join] in *. rewrite (assoc_L (++)) in *. cbn [fmap list_fmap app feed].
    assert (Hfit : (length d <= 1023 - length data)%nat) by (rewrite !length_app in Hlen; lia).
    rewrite take_ge, decide_False by done.
    rewrite (line_end_app_none _ _ Ho). by apply IH.
Qed.

Lemma served_parent ev prog fd :
  stays_parent ev -> served epollfd (ce_input ev) prog fd = (removefd epollfd fd, false).
Proof. intros H. unfold served, runs. by rewrite bool_decide_true, andb_false_r. Qed.

Ltac unconcerned :=
  repeat (apply List.Forall_cons; [cbn [concerns]; (done || congruence)|]); apply List.Forall_nil.

(** An event that is not about [fd] changes nothing there. *)
Lemma other_event fd data ev tbl :
  tbl !! fd = Some data -> fd <> pipefd -> fd <> sigfd -> may_event ev tbl -> stays_parent ev ->
  (Z.land (ce_events ev) POLL_IN = 0 \/ ce_fd ev <> fd) ->
  exists tbl' calls, spec_event ev tbl = (tbl', calls, false) /\ tbl' !! fd = Some data /\
    Forall (fun e => ~ concerns fd e) calls.
Proof.
  intros Hd Hp Hg Hm Hpar Hother. unfold spec_event, may_event in *.
  destruct (decide (Z.land (ce_events ev) POLL_IN = 0)) as [|Hin]; [by exists tbl, []|].
  destruct Hother as [|Hne]; [done|]. specialize (Hm Hin).
  destruct (decide (ce_fd ev = pipefd)).
  - cbn zeta in Hm. destruct (ce_recv ev); [|eexists _, _; split; [reflexivity|]; split; [done|]; unconcerned].
    case_decide as Hacc; [|eexists _, _; split; [reflexivity|]; split; [done|]; unconcerned].
    destruct Hm as (Hnew & _); [lia|]. assert ((ce_accept ev).1 <> fd) by congruence.
    eexists _, _. split; [reflexivity|]. rewrite lookup_insert_ne by done. split; [done|]. unconcerned.
  - destruct (decide (ce_fd ev = sigfd)); [by exists tbl, []|].
    assert (Hrem : Forall (fun e => ~ concerns fd e) (removefd epollfd (ce_fd ev)))
      by unconcerned.
    destruct (feed _ _) as [data'| |line|].
    + eexists _, _. split; [reflexivity|]. by rewrite lookup_insert_ne.
    + eexists _, _. split; [reflexivity|]. by rewrite lookup_delete_ne.
    + rewrite served_parent by done. eexists _, _. split; [reflexivity|]. by rewrite lookup_delete_ne.
    + by exists tbl, [].
Qed.

(** The events between the acceptance of [fd] and the end of its line. *)
Lemma waiting_events fd data evs tbl :
  tbl !! fd = Some data -> fd <> pipefd -> fd <> sigfd ->
  may_events evs tbl -> Forall (other_or_data fd) evs ->
  (length (data ++ sent_by fd evs) <= 1023)%nat -> line_end (data ++ sent_by fd evs) = None ->
  exists tbl' calls, spec_events evs tbl = (tbl', calls, false) /\
    tbl' !! fd = Some (data ++ sent_by fd evs) /\ Forall (fun e => ~ concerns fd e) calls.
Proof.
  intros Hd Hp Hg Hm Hall. revert data tbl Hd Hm.
  induction Hall as [|ev evs [Hpar Hown] _ IH]; intros data tbl Hd Hm Hlen Ho.
  - exists tbl, []. by rewrite app_nil_r.
  - cbn [may_events] in Hm. destruct Hm as [Hm1 Hm2]. unfold sent_by in *. rewrite bind_cons in *.
    fold (sent_by fd evs) in *. cbn [spec_events].
    assert (Hev : exists tbl' calls, spec_event ev tbl = (tbl', calls, false) /\
      tbl' !! fd = Some (data ++ (if decide (ce_fd ev = fd) then received_in (in_recv (ce_input ev)) else [])) /\
      Forall (fun e => ~ concerns fd e) calls).
    { destruct (decide (ce_fd ev = fd)) as [Heq|Hne].
      - destruct (Hown Heq) as (Hin & ds & Hds & Hpos). rewrite Hds, received_pieces, app_nil_r in *.
        unfold spec_event. rewrite Heq, !decide_False, Hd, Hds by done. cbn [default id].
        rewrite (assoc_L (++)) in Hlen, Ho.
        rewrite feed_pieces; [|done|rewrite length_app in Hlen; lia|by eapply line_end_app_none].
        cbn [feed]. eexists _, []. split; [reflexivity|]. by rewrite lookup_insert_eq.
      - rewrite app_nil_r. apply other_event; try done. by right. }
    destruct Hev as (tbl1 & calls1 & E1 & Hd1 & Hc1). rewrite E1 in Hm2 |- *.
    rewrite (assoc_L (++)) in *.
    destruct (IH _ tbl1 Hd1 Hm2 Hlen Ho) as (tbl2 & calls2 & E2 & Hd2 & Hc2). rewrite E2.
    exists tbl2, (calls1 ++ calls2). split; [done|]. split; [done|]. apply Forall_app. by split.
Qed.
End Child.

(** ** The whole child *)

(** [C27] child_refines: a child of the pool implements the table.  Run with any
    events the kernel may report, in any number of waits of which the last brings
    the signal to stop, [run_child] makes no access outside its arrays, ends, and
    between its set-up and the closing of its descriptors makes exactly the calls
    of the table, which holds for each open connection the bytes of its line that
    came so far; or, in the process that [fork] makes, the calls up to running the
    program. *)
Theorem child_refines p me epollfd sfd0 sfd1 evss last :
  m_stop p = false -> 0 <= m_idx p -> m_sub_process p !! Z.to_nat (m_idx p) = Some me ->
  epollfd <> -1 ->
  let pipefd := (m_pipefd me).2 in
  may_events epollfd pipefd sfd0 (mjoin evss ++ last) ∅ ->
  existsb (stops pipefd sfd0) (mjoin evss) = false -> existsb (stops pipefd sfd0) last = true ->
  let '(_, calls, ended) := spec_events epollfd pipefd sfd0 (mjoin evss ++ last) ∅ in
  exists c', run_child epollfd 0 (sfd0, sfd1) 0 (Some <$> (evss ++ [last])) p =
    Ok (c', [EpollCreate; Nonblocking sfd1; Addfd epollfd sfd0;
             OnSignal SIGCHLD; OnSignal SIGTERM; OnSignal SIGINT; OnSignal SIGPIPE] ++
            [Addfd epollfd pipefd] ++ calls ++
            (if (ended : bool) then [] else [CloseFd pipefd; CloseFd epollfd]), ended).
Proof.
  intros Hs Hi Hme He pipefd Hm Hno Hst.
  assert (H0 : shows epollfd pipefd sfd0 (Child epollfd pipefd sfd0 (m_stop p) ∅) ∅) by by split.
  pose proof (child_loop_refines epollfd pipefd sfd0 evss last _ ∅ H0 Hs Hm Hno Hst) as E.
  destruct (spec_events _ _ _ _ _) as [[tbl calls] ended]. destruct E as (c' & E). exists c'.
  unfold run_child, setup_sig_pipe. rewrite !decide_False by done. cbn [mbind res_bind fst snd].
  assert (Hget : aget (m_sub_process (set_epollfd epollfd p)) (m_idx (set_epollfd epollfd p)) = Ok me)
    by by apply aget_ok.
  rewrite (bind_ok _ _ _ Hget). cbv zeta. cbn [m_stop set_epollfd]. fold pipefd.
  by rewrite (bind_ok _ _ _ E).
Qed.

(** The parent's notification and a connection to accept. *)
Definition accepts (pipefd fd : Z) (ev : cevent (T := cgi_conn)) : Prop :=
  ce_fd ev = pipefd /\ Z.land (ce_events ev) POLL_IN <> 0 /\ ce_recv ev = true /\
  (ce_accept ev).1 = fd /\ 0 <= fd.

(** Data of [fd]: the pieces [ds], then [d]. *)
Definition brings (fd : Z) (ds : list bytes) (d : bytes) (ev : cevent (T := cgi_conn)) : Prop :=
  ce_fd ev = fd /\ Z.land (ce_events ev) POLL_IN <> 0 /\ Forall (fun d => d <> []) ds /\
  exists rest, in_recv (ce_input ev) = (Received <$> ds) ++ Received d :: rest.

(** The events of a child before the one that completes the line of [fd], and that one. *)
Lemma session_spec epollfd pipefd sigfd tbl fd acc mid fin ds d p :
  may_events epollfd pipefd sigfd (acc :: mid ++ [fin]) tbl ->
  accepts pipefd fd acc -> Forall (other_or_data fd) mid -> brings fd ds d fin ->
  let before := sent_by fd mid ++ mjoin ds in
  (length (before ++ d) <= 1023)%nat -> line_end before = None -> line_end (before ++ d) = Some p ->
  exists tbl1 calls, fd <> sigfd /\
    spec_events epollfd pipefd sigfd (acc :: mid) tbl =
      (tbl1, [RecvInt pipefd; AcceptConn; Addfd epollfd fd] ++ calls, false) /\
    Forall (fun e => ~ concerns fd e) calls /\
    spec_event epollfd pipefd sigfd fin tbl1 =
      (delete fd tbl1, (served epollfd (ce_input fin) (c_string (take p (before ++ d))) fd).1,
       (served epollfd (ce_input fin) (c_string (take p (before ++ d))) fd).2).
Proof.
  intros Hm (Hacc & Hain & Harecv & Hafd & Hpos) Hmid (Hffd & Hfin & Hds & rest & Hrs) before Hlen Ho Hp.
  cbn [may_events spec_events] in *. destruct Hm as [Hm1 Hm2].
  assert (Ea : spec_event epollfd pipefd sigfd acc tbl =
    (<[fd := []]> tbl, [RecvInt pipefd; AcceptConn; Addfd epollfd fd], false)).
  { unfold spec_event. by rewrite decide_False, decide_True, Harecv, Hafd, decide_True by done. }
  specialize (Hm1 Hain). rewrite decide_True, Hafd in Hm1 by done.
  destruct (Hm1 Hpos) as (_ & Hnp & Hng & _). rewrite Ea in Hm2 |- *. cbn [fst] in Hm2.
  unfold before in *. rewrite <- app_assoc in Hlen, Hp |- *.
  destruct (waiting_events epollfd pipefd sigfd fd [] mid (<[fd := []]> tbl)) as (tbl1 & calls & E1 & Hd1 & Hc1);
    [by rewrite lookup_insert_eq|done|done|by eapply may_events_prefix|done| | |].
  { rewrite length_app in Hlen. cbn [app]. lia. }
  { by apply line_end_app_none in Ho. }
  exists tbl1, calls. rewrite E1. split_and!; [done..|]. cbn [app] in Hd1.
  assert (Hd : d <> []) by (intros ->; rewrite app_nil_r in Hp; congruence).
  unfold spec_event. rewrite Hffd, !decide_False, Hd1 by done. cbn [default id].
  assert (feed (sent_by fd mid) (in_recv (ce_input fin)) = Line (take p (sent_by fd mid ++ mjoin ds ++ d))) as ->.
  { rewrite (assoc_L (++)) in Hlen, Hp |- *.
    rewrite Hrs, feed_pieces; [|done|rewrite length_app in Hlen; lia|done].
    cbn [feed]. rewrite take_ge by (rewrite length_app in Hlen; lia). by rewrite decide_False, Hp. }
  by destruct (served _ _ _ _).
Qed.

(** [C28] cgi_session: a client of the CGI server is served from its own bytes, in
    a child that serves others at the same time.  From any state of a running child: a
    connection is accepted; its bytes come in any pieces over any number of events and
    of waits, between those of other connections, notifications and signals other than
    those to stop; when a piece completes the first line, within 1023 bytes, the text
    before its "\r\n" is looked for and run with the connection as its output (in the
    process that [fork] makes) or the connection is dropped, and the loop goes on with
    the rest of the events.  Until then no call is about this connection but its
    registration.  [may_events]: the kernel gives descriptors that are not in use and
    fit the array, and reports data on open connections. *)
Theorem cgi_session epollfd pipefd sigfd c tbl fd evss b acc mid fin post ws ds d p :
  shows epollfd pipefd sigfd c tbl -> c_stop c = false ->
  mjoin evss ++ b = acc :: mid -> existsb (stops pipefd sigfd) (acc :: mid) = false ->
  may_events epollfd pipefd sigfd (acc :: mid ++ [fin]) tbl ->
  accepts pipefd fd acc -> Forall (other_or_data fd) mid -> brings fd ds d fin ->
  let before := sent_by fd mid ++ mjoin ds in
  (length (before ++ d) <= 1023)%nat -> line_end before = None -> line_end (before ++ d) = Some p ->
  exists c' calls, Forall (fun e => ~ concerns fd e) calls /\
    let so_far := [RecvInt pipefd; AcceptConn; Addfd epollfd fd] ++ calls in
    child_loop ((Some <$> evss) ++ Some (b ++ fin :: post) :: ws) c =
    (let '(answer, ended) := served epollfd (ce_input fin) (c_string (take p (before ++ d))) fd in
     if (ended : bool) then Ok (c', so_far ++ answer, true)
     else
       '(c2, calls2, ended) ← child_loop (Some post :: ws) c';
       Ok (c2, (so_far ++ answer) ++ calls2, ended)).
Proof.
  intros H Hs Hb Hstop Hm Hacc Hmid Hfin before Hlen Ho Hp.
  destruct (session_spec _ _ _ _ _ _ _ _ _ _ _ Hm Hacc Hmid Hfin Hlen Ho Hp) as (tbl1 & calls & Hng & E1 & Hc & E2).
  pose proof (may_events_app _ _ _ (acc :: mid) [fin] tbl Hm) as Hm2. rewrite E1 in Hm2.
  destruct (Hm2 eq_refl) as [Hm3 [Hm4 _]]. cbn [fst] in Hm4.
  pose proof (child_events_refine _ _ _ (acc :: mid) c tbl H Hm3) as E. rewrite E1 in E.
  destruct E as (cm & Em & Hcm). destruct (Hcm eq_refl) as [Hsm Hst]. rewrite Hs, Hstop in Hst.
  pose proof (child_event_refines _ _ _ fin cm tbl1 Hsm Hm4) as E. rewrite E2 in E.
  destruct E as (c' & Ef & Hc'). exists c', calls. split; [done|]. cbv zeta.
  rewrite (child_loop_batches evss b (fin :: post) ws c cm _ Hs) by (by rewrite Hb || done).
  fold before. rewrite (child_loop_event fin post ws cm c' _ _ Hst Ef).
  - destruct (served _ _ _ _) as [answer [|]]; cbn [fst snd mbind res_bind]; [done|].
    destruct (child_loop (Some post :: ws) c') as [[[c2 calls2] e]|]; [|done]. cbn [mbind res_bind].
    by rewrite <- !app_assoc.
  - intros He. destruct (Hc' He) as [_ ->]. rewrite Hst. unfold stops.
    destruct Hfin as (-> & _). rewrite (bool_decide_false (fd = sigfd)) by done. by rewrite andb_false_r.
Qed.

(** ** Examples *)

Definition child0 : child (T := cgi_conn) := Child 9 4 6 false ∅.
Definition event (fd : Z) (rs : list recv_t) (fork : Z) : cevent (T := cgi_conn) :=
  CEvent fd 1 true (-1, 0) [] (CgiInput rs (fun _ => true) fork).

(** Client 5 is accepted, then 7; the bytes of both come in turns. *)
Definition accept5 : cevent (T := cgi_conn) := CEvent 4 1 true (5, 0) [] (CgiInput [] (fun _ => true) (-1)).
Definition between : list (cevent (T := cgi_conn)) :=
  [CEvent 4 1 true (7, 0) [] (CgiInput [] (fun _ => true) (-1));
   event 5 [Received (lit "./cgi"); Again] (-1);
   event 7 [Received (lit "./other" ++ [CR; LF])] 300;
   CEvent 6 1 false (-1, 0) [SIGCHLD] (CgiInput [] (fun _ => true) (-1));
   event 5 [Received (lit "_adder" ++ [CR]); Again] (-1)].
Definition last5 (fork : Z) : cevent (T := cgi_conn) := event 5 [Received (LF :: lit "x")] fork.
Definition stop_event : cevent (T := cgi_conn) := CEvent 6 1 false (-1, 0) [SIGTERM] (CgiInput [] (fun _ => true) (-1)).

Lemma child0_shows : shows 9 4 6 child0 ∅.
Proof. by split. Qed.

(** Events whose descriptors are new, and whose data end, are possible. *)
Definition may_eventb (pipefd sigfd : Z) (ev : cevent (T := cgi_conn)) (tbl : table) : bool :=
  bool_decide (Z.land (ce_events ev) POLL_IN = 0) ||
  if decide (ce_fd ev = pipefd) then
    let connfd := (ce_accept ev).1 in
    bool_decide (connfd < 0) ||
    bool_decide (tbl !! connfd = None) && bool_decide (connfd <> pipefd) &&
    bool_decide (connfd <> sigfd) && bool_decide (connfd < USER_PER_PROCESS)
  else
    bool_decide (ce_fd ev = sigfd) ||
    match tbl !! ce_fd ev with
    | Some data => match feed data (in_recv (ce_input ev)) with Starved => false | _ => true end
    | None => false
    end.

Fixpoint may_eventsb (epollfd pipefd sigfd : Z) (evs : list (cevent (T := cgi_conn))) (tbl : table) : bool :=
  match evs with
  | [] => true
  | ev :: evs =>
      may_eventb pipefd sigfd ev tbl &&
      may_eventsb epollfd pipefd sigfd evs (spec_event epollfd pipefd sigfd ev tbl).1.1
  end.

Lemma may_eventb_sound pipefd sigfd ev tbl : may_eventb pipefd sigfd ev tbl = true -> may_event pipefd sigfd ev tbl.
Proof.
  unfold may_eventb, may_event. intros H Hin.
  rewrite bool_decide_false in H by done. cbn [orb] in H. case_decide.
  - cbv zeta in *. intros Hpos. rewrite bool_decide_false in H by lia. cbn [orb] in H.
    rewrite !andb_true_iff, !bool_decide_eq_true in H. tauto.
  - intros Hsg. rewrite bool_decide_false in H by done. cbn [orb] in H.
    destruct (tbl !! ce_fd ev) as [data|]; [|done]. exists data. split; [done|].
    by intros E; rewrite E in H.
Qed.

Lemma may_eventsb_sound epollfd pipefd sigfd evs tbl :
  may_eventsb epollfd pipefd sigfd evs tbl = true -> may_events epollfd pipefd sigfd evs tbl.
Proof.
  revert tbl. induction evs as [|ev evs IH]; intros tbl; [done|]. cbn.
  intros [H1 H2]%andb_true_iff. split; [by apply may_eventb_sound|by apply IH].
Qed.

Lemma cgi_session_witness :
  exists c' calls, Forall (fun e => ~ concerns 5 e) calls /\
    child_loop [Some (accept5 :: take 2 between); Some (drop 2 between ++ [last5 0; stop_event]); None] child0 =
      Ok (c', ([RecvInt 4; AcceptConn; Addfd 9 5] ++ calls) ++
              [CloseFd 1; Dup 5; Execl (lit "./cgi_adder"); Exit 0], true).
Proof.
  apply (cgi_session 9 4 6 child0 ∅ 5 [accept5 :: take 2 between] (drop 2 between) accept5 between (last5 0)
           [stop_event] [None] [] (LF :: lit "x") 11);
    [apply child0_shows|reflexivity|reflexivity|reflexivity|apply may_eventsb_sound; vm_compute; reflexivity| | |
    |apply Nat.leb_le; reflexivity|reflexivity|reflexivity].
  - repeat (split; [done|]). lia.
  - assert (Hown : forall d, d <> [] -> other_or_data 5 (event 5 [Received d; Again] (-1))).
    { intros d Hd. split; [by left|]. intros _. split; [done|]. exists [d]. by repeat constructor. }
    repeat (apply Forall_cons; split).
    + split; [by left|intros [=]].
    + by apply (Hown (lit "./cgi")).
    + split; [by right|intros [=]].
    + split; [by left|intros [=]].
    + by apply (Hown (lit "_adder" ++ [CR])).
    + constructor.
  - split; [done|]. split; [done|]. split; [constructor|]. by exists [].
Defined.

Definition pool_child : processpool :=
  ProcessPool 2 1 0 3 false [Process 101 (10, 11); Process 0 (12, 4)].

Lemma child_refines_witness :
  exists c', run_child 9 0 (6, 8) 0 (Some <$> ([[accept5]; between; [last5 300]] ++ [[stop_event]])) pool_child =
    Ok (c', [EpollCreate; Nonblocking 8; Addfd 9 6; OnSignal SIGCHLD; OnSignal SIGTERM; OnSignal SIGINT;
             OnSignal SIGPIPE] ++ [Addfd 9 4] ++
            [RecvInt 4; AcceptConn; Addfd 9 5; RecvInt 4; AcceptConn; Addfd 9 7; EpollRemove 9 7; CloseFd 7; EpollRemove 9 5; CloseFd 5] ++
            [CloseFd 4; CloseFd 9], false).
Proof.
  apply (child_refines pool_child (Process 0 (12, 4)) 9 6 8 [[accept5]; between; [last5 300]] [stop_event]);
    [done|cbn; lia|done|lia|apply may_eventsb_sound; vm_compute; reflexivity|reflexivity|reflexivity].
Defined.
