(* ===== verification/PoolAccept.v ===== *)
(** * New connections in the process pool

    How a connection comes to a child (socket/pool/processpool.h): it waits in the
    queue of the listening socket, the parent is told and notifies a child, the
    child accepts.  Both sockets are registered edge-triggered.  What a step does to
    the sockets follows from the calls that the handler of the event makes. *)

From S2P Require Import Prelude CString ProcessPool CgiConn.

Section Accept.
Context {T : Type} `{Task T}.

(** The listening socket's queue and whether an event for the parent is pending;
    the parent; for each child the notifications in its socket, whether an event
    for it is pending, and its state; who connected and who took whom. *)
Record pool_state := PoolState {
  ps_backlog : list Z;
  ps_edge : bool;
  ps_pool : processpool;
  ps_counter : Z;
  ps_unread : list nat;
  ps_woken : list bool;
  ps_kids : list (child (T := T));
  ps_seen : list Z;
  ps_taken : list (nat * Z) }.

(** ** What the calls do to the sockets *)

Definition times (e : call) (calls : list call) : nat := length (filter (fun x => x = e) calls).

(** The notifications that [calls] send to child [c]; each comes as an event. *)
Definition sent_to (calls : list call) (c : ProcessPool.process) : nat := times (SendInt (m_pipefd c).1 1) calls.
Definition deliver (calls : list call) (cs : list ProcessPool.process) (unread : list nat) : list nat :=
  zip_with (fun c n => sent_to calls c + n)%nat cs unread.
Definition wake (calls : list call) (cs : list ProcessPool.process) (woken : list bool) : list bool :=
  zip_with (fun c w => (0 <? sent_to calls c)%nat || w) cs woken.

(** The event of the listening socket for the parent. *)
Definition listen_event (p : processpool) : pevent := PEvent (m_listenfd p) POLL_IN [].

(** The event of the pipe for a child: [recv] gives an [int] or says that there is none
    now; [accept] gives the first connection of the queue, with descriptor [connfd]. *)
Definition pipe_event (kid : child (T := T)) (connfd : Z) (backlog : list Z) (inp : task_input) : cevent (T := T) :=
  CEvent (c_pipefd kid) POLL_IN true
    (match backlog with client :: _ => (connfd, client) | [] => (-1, 0) end) [] inp.

(** The connection was registered, and its object initialised. *)
Definition serves_client (kid kid' : child (T := T)) (calls : list call) (connfd client : Z) : Prop :=
  Addfd (c_epollfd kid) connfd ∈ calls /\
  c_users kid' !! connfd =
    Some (task_init (c_epollfd kid) connfd client (default task_new (c_users kid !! connfd))).

(** Of the connections that the calls accepted, the one the child serves now. *)
Definition takes_up (i : nat) (kid kid' : child (T := T)) (calls : list call) (connfd : Z)
    (accepted : list Z) (new : list (nat * Z)) : Prop :=
  (new = [] /\ forall client, client ∈ accepted -> ~ serves_client kid kid' calls connfd client) \/
  exists client, client ∈ accepted /\ serves_client kid kid' calls connfd client /\ new = [(i, client)].

(** Steps: a client connects, the parent handles the listening socket's event, a
    child its pipe's.  With [prompt] set, no event comes for a socket whose last
    event is still pending. *)
Inductive pstep (prompt : bool) (s : pool_state) : pool_state -> Prop :=
  | pstep_connect client :
      (prompt = true -> ps_edge s = false) ->
      pstep prompt s (PoolState (ps_backlog s ++ [client]) true (ps_pool s) (ps_counter s)
        (ps_unread s) (ps_woken s) (ps_kids s) (ps_seen s ++ [client]) (ps_taken s))
  | pstep_notify sigfd p' counter calls :
      let cs := m_sub_process (ps_pool s) in
      ps_edge s = true ->
      parent_events sigfd [listen_event (ps_pool s)] (ps_counter s) (ps_pool s) = Ok (p', counter, calls) ->
      (prompt = true -> forall i c, cs !! i = Some c -> (0 < sent_to calls c)%nat -> ps_woken s !! i = Some false) ->
      pstep prompt s (PoolState (ps_backlog s) false p' counter
        (deliver calls cs (ps_unread s)) (wake calls cs (ps_woken s)) (ps_kids s) (ps_seen s) (ps_taken s))
  | pstep_accept i n kid kid' calls connfd inp new :
      ps_woken s !! i = Some true -> ps_unread s !! i = Some n -> ps_kids s !! i = Some kid ->
      0 <= connfd < USER_PER_PROCESS ->
      child_event (pipe_event kid connfd (ps_backlog s) inp) kid = Ok (kid', calls, false) ->
      let accepted := times AcceptConn calls in
      takes_up i kid kid' calls connfd (take accepted (ps_backlog s)) new ->
      pstep prompt s (PoolState (drop accepted (ps_backlog s)) (ps_edge s) (ps_pool s) (ps_counter s)
        (<[i := n - times (RecvInt (c_pipefd kid)) calls]> (ps_unread s))%nat (<[i := false]> (ps_woken s))
        (<[i := kid']> (ps_kids s)) (ps_seen s) (ps_taken s ++ new)).

(** No event is pending. *)
Definition at_rest (s : pool_state) : Prop :=
  ps_edge s = false /\ Forall (fun w => w = false) (ps_woken s).

(** The state after the children were started. *)
Record pool_started (s : pool_state) : Prop := {
  st_wf : pool_wf (ps_pool s);
  st_backlog : ps_backlog s = [];
  st_seen : ps_seen s = [] /\ ps_taken s = [];
  st_edge : ps_edge s = false;
  st_counter : exists c, ps_counter s = Z.of_nat c /\ (c < length (m_sub_process (ps_pool s)))%nat;
  st_unread : ps_unread s = replicate (length (m_sub_process (ps_pool s))) 0%nat;
  st_woken : ps_woken s = replicate (length (m_sub_process (ps_pool s))) false;
  st_kids : length (ps_kids s) = length (m_sub_process (ps_pool s));
  st_alive : exists i, alive (ps_pool s) i;
  st_pipes : NoDup ((fun c => (m_pipefd c).1) <$> m_sub_process (ps_pool s)) }.

(** ** The invariant *)

Record pinv (s : pool_state) : Prop := {
  pi_wf : pool_wf (ps_pool s);
  pi_alive : exists i, alive (ps_pool s) i;
  pi_counter : exists c, ps_counter s = Z.of_nat c /\ (c < length (m_sub_process (ps_pool s)))%nat;
  pi_unread : length (ps_unread s) = length (m_sub_process (ps_pool s));
  pi_woken : length (ps_woken s) = length (m_sub_process (ps_pool s));
  pi_kids : length (ps_kids s) = length (m_sub_process (ps_pool s));
  pi_pipes : NoDup ((fun c => (m_pipefd c).1) <$> m_sub_process (ps_pool s));
  pi_fifo : (ps_taken s).*2 ++ ps_backlog s = ps_seen s }.

(** With prompt handling each waiting connection has its pending event. *)
Record pexact (s : pool_state) : Prop := {
  px_unread : ps_unread s = Nat.b2n <$> ps_woken s;
  px_count : length (ps_backlog s) = (Nat.b2n (ps_edge s) + sum_list (ps_unread s))%nat }.

(** The parent notifies one child, and the table stays as it is. *)
Lemma parent_notifies sigfd p c :
  pool_wf p -> (exists i, alive p i) -> (c < length (m_sub_process p))%nat ->
  exists c' i ch, (c' < length (m_sub_process p))%nat /\ m_sub_process p !! i = Some ch /\
    parent_events sigfd [listen_event p] (Z.of_nat c) p = Ok (p, Z.of_nat c', [SendInt (m_pipefd ch).1 1]).
Proof.
  intros Hwf [j Hj] Hc.
  assert (Hin : j ∈ filter (alive p) (cyc (length (m_sub_process p)) c)).
  { apply list_elem_of_filter. split; [done|]. rewrite (cyc_perm p c Hc). apply elem_of_seq.
    unfold alive in Hj. destruct (m_sub_process p !! j) eqn:E; [|done]. apply lookup_lt_Some in E. lia. }
  destruct (filter (alive p) (cyc (length (m_sub_process p)) c)) as [|i l] eqn:E; [set_solver|].
  destruct (dispatch_next p Hwf c i l Hc E) as (c' & Hc' & E' & _).
  assert (Hi : i ∈ filter (alive p) (cyc (length (m_sub_process p)) c)) by (rewrite E; left).
  apply list_elem_of_filter in Hi as [Hi _]. unfold alive in Hi.
  destruct (m_sub_process p !! i) as [ch|] eqn:Ei; [|done].
  exists c', i, ch. split_and!; [done..|]. cbn [parent_events listen_event pe_fd].
  rewrite decide_True by done. rewrite (bind_ok _ _ _ E'). cbn [mbind res_bind app].
  unfold notify. by rewrite Ei.
Qed.

(** A notification of one child is one more in its socket only. *)
Lemma sent_one cs i j ch c :
  NoDup ((fun c => (m_pipefd c).1) <$> cs) -> cs !! i = Some ch -> cs !! j = Some c ->
  sent_to [SendInt (m_pipefd ch).1 1] c = if decide (j = i) then 1%nat else 0%nat.
Proof.
  intros Hn Hi Hj. unfold sent_to, times. rewrite filter_cons, filter_nil.
  destruct (decide (j = i)) as [->|Hne].
  - rewrite decide_True; [done|]. congruence.
  - rewrite decide_False; [done|]. intros [= E]. apply Hne. symmetry.
    eapply (NoDup_lookup _ i j _ Hn); rewrite list_lookup_fmap, ?Hi, ?Hj; cbn; by rewrite ?E.
Qed.

Lemma deliver_one cs i ch (unread : list nat) n :
  NoDup ((fun c => (m_pipefd c).1) <$> cs) -> cs !! i = Some ch -> unread !! i = Some n ->
  length unread = length cs -> deliver [SendInt (m_pipefd ch).1 1] cs unread = <[i := S n]> unread.
Proof.
  intros Hn Hi Hu Hl. apply list_eq. intros j. unfold deliver. rewrite lookup_zip_with.
  destruct (cs !! j) as [c|] eqn:Hj; cbn [mbind option_bind].
  - destruct (lookup_lt_is_Some_2 unread j) as [m Hm]; [rewrite Hl; by eapply lookup_lt_Some|].
    rewrite (sent_one cs i j ch c Hn Hi Hj), Hm. cbn. case_decide as E.
    + subst. rewrite list_lookup_insert_eq by (by eapply lookup_lt_Some). by simplify_eq.
    + by rewrite list_lookup_insert_ne.
  - symmetry. apply lookup_ge_None_2. apply lookup_ge_None_1 in Hj. rewrite length_insert. lia.
Qed.

Lemma wake_one cs i ch (woken : list bool) :
  NoDup ((fun c => (m_pipefd c).1) <$> cs) -> cs !! i = Some ch -> length woken = length cs ->
  wake [SendInt (m_pipefd ch).1 1] cs woken = <[i := true]> woken.
Proof.
  intros Hn Hi Hl. apply list_eq. intros j. unfold wake. rewrite lookup_zip_with.
  destruct (cs !! j) as [c|] eqn:Hj; cbn [mbind option_bind].
  - destruct (lookup_lt_is_Some_2 woken j) as [m Hm]; [rewrite Hl; by eapply lookup_lt_Some|].
    rewrite (sent_one cs i j ch c Hn Hi Hj), Hm. cbn. case_decide as E.
    + subst. by rewrite list_lookup_insert_eq by (by eapply lookup_lt_Some).
    + by rewrite list_lookup_insert_ne.
  - symmetry. apply lookup_ge_None_2. apply lookup_ge_None_1 in Hj. rewrite length_insert. lia.
Qed.

(** A child reads one notification, makes one [accept], and registers and initialises
    the connection it gets. *)
Lemma pipe_accepts kid connfd backlog inp :
  0 <= connfd < USER_PER_PROCESS ->
  exists kid' calls, child_event (pipe_event kid connfd backlog inp) kid = Ok (kid', calls, false) /\
    times (RecvInt (c_pipefd kid)) calls = 1%nat /\ times AcceptConn calls = 1%nat /\
    forall client, client ∈ take 1 backlog -> serves_client kid kid' calls connfd client.
Proof.
  intros Hr. unfold child_event, pipe_event. cbn [ce_fd ce_events]. rewrite decide_True by done.
  unfold on_pipe. cbn [ce_recv ce_accept ce_fd negb].
  assert (Ht : forall l, times (RecvInt (c_pipefd kid)) (RecvInt (c_pipefd kid) :: l) =
                 S (times (RecvInt (c_pipefd kid)) l)).
  { intros l. unfold times. by rewrite filter_cons, decide_True. }
  destruct backlog as [|client l].
  - rewrite decide_True by lia. eexists _, _. split; [reflexivity|]. rewrite Ht. split_and!; [done..|].
    intros client. by rewrite elem_of_nil.
  - rewrite decide_False by lia. unfold task_at. rewrite decide_True by lia. cbn [mbind res_bind].
    eexists _, _. split; [reflexivity|]. rewrite Ht. split_and!; [done..|].
    intros client' ->%list_elem_of_singleton. split; [set_solver|]. cbn. by rewrite lookup_insert_eq.
Qed.

Lemma takes_up_one i kid kid' calls connfd backlog new :
  (forall client, client ∈ take 1 backlog -> serves_client kid kid' calls connfd client) ->
  takes_up i kid kid' calls connfd (take 1 backlog) new -> new.*2 ++ drop 1 backlog = backlog.
Proof.
  intros Hall. destruct backlog as [|client l]; cbn [take drop] in *.
  - by intros [[-> _]|(c & Hc%elem_of_nil & _)].
  - intros [[_ Hn]|(c & ->%list_elem_of_singleton & _ & ->)]; [|done].
    destruct (Hn client); [|apply Hall]; by apply list_elem_of_singleton.
Qed.

Lemma pinv_started s : pool_started s -> pinv s /\ pexact s.
Proof.
  intros [H1 H2 [H3 H4] H5 H6 H7 H8 H9 H10 H11]. split; split; try done.
  - by rewrite H7, length_replicate.
  - by rewrite H8, length_replicate.
  - by rewrite H2, H3, H4.
  - by rewrite H7, H8, fmap_replicate.
  - rewrite H2, H5, H7. cbn [length Nat.b2n]. clear.
    induction (length (m_sub_process _)) as [|n IH]; [done|exact IH].
Qed.

Lemma zip_with_length_of {A B C} (f : A -> B -> C) l k :
  length k = length l -> length (zip_with f l k) = length l.
Proof. intros E. rewrite length_zip_with. lia. Qed.

Lemma pinv_step prompt s s' : pinv s -> pstep prompt s s' -> pinv s'.
Proof.
  intros Hinv Hs. destruct Hinv as [Hwf Hal (c & Hc & Hlt) Hu Hw Hk Hp Hf].
  destruct Hs as [client _|sigfd p' counter calls cs _ Hd _
                 |i n kid kid' calls connfd inp new Hwi Hn Hki Hr Hce accepted Hnew].
  - split; cbn; try done; [by exists c|]. by rewrite (assoc_L (++)), Hf.
  - destruct (parent_notifies sigfd _ _ Hwf Hal Hlt) as (c' & i' & ch & Hc' & _ & E).
    rewrite Hc, E in Hd. injection Hd as <- <- <-.
    split; cbn; unfold deliver, wake; rewrite ?zip_with_length_of; try done. by exists c'.
  - destruct (pipe_accepts kid connfd (ps_backlog s) inp Hr) as (kid1 & calls1 & E & _ & Ha & Hall).
    rewrite E in Hce. injection Hce as -> ->. unfold accepted in *. rewrite Ha in *.
    split; cbn; rewrite ?length_insert; try done; [by exists c|].
    rewrite <- Hf, fmap_app, <- (assoc_L (++)). f_equal. by eapply takes_up_one.
Qed.

Lemma pexact_step s s' : pinv s -> pexact s -> pstep true s s' -> pexact s'.
Proof.
  intros Hinv [Hu Hc] Hs. destruct Hinv as [Hwf Hal (c & Hcc & Hlt) Hlu Hlw Hk Hp Hf].
  destruct Hs as [client Hq|sigfd p' counter calls cs He Hd Hq
                 |i n kid kid' calls connfd inp new Hwi Hn Hki Hr Hce accepted Hnew];
    split; cbn [ps_unread ps_woken ps_backlog ps_edge].
  - done.
  - rewrite length_app, Hc, (Hq eq_refl). cbn. lia.
  - destruct (parent_notifies sigfd _ _ Hwf Hal Hlt) as (c' & i & ch & Hc' & Hi & E).
    rewrite Hcc, E in Hd. injection Hd as <- <- <-.
    assert (Hwi : ps_woken s !! i = Some false).
    { apply (Hq eq_refl i ch Hi). rewrite (sent_one cs i i ch ch Hp Hi Hi), decide_True by done. lia. }
    unfold cs. rewrite (deliver_one _ i ch _ 0%nat), (wake_one _ i ch), Hu, list_fmap_insert; try done.
    by rewrite Hu, list_lookup_fmap, Hwi.
  - destruct (parent_notifies sigfd _ _ Hwf Hal Hlt) as (c' & i & ch & Hc' & Hi & E).
    rewrite Hcc, E in Hd. injection Hd as <- <- <-.
    assert (Hwi : ps_woken s !! i = Some false).
    { apply (Hq eq_refl i ch Hi). rewrite (sent_one cs i i ch ch Hp Hi Hi), decide_True by done. lia. }
    assert (Hui : ps_unread s !! i = Some 0%nat) by by rewrite Hu, list_lookup_fmap, Hwi.
    unfold cs. rewrite (deliver_one _ i ch _ 0%nat) by done. rewrite Hc, He.
    pose proof (sum_list_insert _ i 0 1 Hui). cbn in *. lia.
  - destruct (pipe_accepts kid connfd (ps_backlog s) inp Hr) as (kid1 & calls1 & E & Hrc & _ & _).
    rewrite E in Hce. injection Hce as -> ->. rewrite Hrc.
    pose proof Hn as Hn'. rewrite Hu, list_lookup_fmap, Hwi in Hn'. injection Hn' as <-.
    by rewrite Hu, list_fmap_insert.
  - destruct (pipe_accepts kid connfd (ps_backlog s) inp Hr) as (kid1 & calls1 & E & Hrc & Ha & _).
    rewrite E in Hce. injection Hce as -> ->. unfold accepted. rewrite Hrc, Ha.
    pose proof Hn as Hn'. rewrite Hu, list_lookup_fmap, Hwi in Hn'. injection Hn' as <-.
    pose proof (sum_list_insert _ i 1 0 Hn). rewrite length_drop. cbn [Nat.b2n Nat.sub] in *. lia.
Qed.

(** Until there is rest, the parent or a child can go on. *)
Lemma pool_progress prompt s (inp : task_input) :
  pinv s -> at_rest s \/ exists s', pstep prompt s s' /\ ps_seen s' = ps_seen s.
Proof.
  intros [Hwf Hal (c & Hc & Hlt) Hu Hw Hk Hp Hf].
  destruct (decide (Forall (fun w => w = false) (ps_woken s))) as [Hall|Hsome].
  - destruct (ps_edge s) eqn:Ee; [|by left]. right.
    destruct (parent_notifies 0 _ _ Hwf Hal Hlt) as (c' & i & ch & Hc' & Hi & E). rewrite <- Hc in E.
    eexists. split; [eapply (pstep_notify prompt s 0); [done|exact E|]|done].
    intros _ j c1 Hj _. destruct (lookup_lt_is_Some_2 (ps_woken s) j) as [w Hwj];
      [rewrite Hw; by eapply lookup_lt_Some|]. rewrite Forall_lookup in Hall. by rewrite <- (Hall j w Hwj).
  - right. apply not_Forall_Exists in Hsome; [|apply _]. apply Exists_exists in Hsome as (w & Hin & Hne).
    destruct w; [|by destruct Hne]. apply list_elem_of_lookup in Hin as [i Hi].
    destruct (lookup_lt_is_Some_2 (ps_unread s) i) as [n Hn]; [apply lookup_lt_Some in Hi; lia|].
    destruct (lookup_lt_is_Some_2 (ps_kids s) i) as [kid Hkid]; [apply lookup_lt_Some in Hi; lia|].
    assert (Hr : 0 <= 0 < USER_PER_PROCESS) by (unfold USER_PER_PROCESS; lia).
    destruct (pipe_accepts kid 0 (ps_backlog s) inp Hr) as (kid' & calls & E & _ & Ha & Hall).
    assert (exists new, takes_up i kid kid' calls 0 (take (times AcceptConn calls) (ps_backlog s)) new) as [new Hnew].
    { rewrite Ha. destruct (ps_backlog s) as [|client l].
      - exists []. left. split; [done|]. intros client. by rewrite elem_of_nil.
      - exists [(i, client)]. right. exists client. split; [apply list_elem_of_singleton; done|].
        split; [apply Hall; by apply list_elem_of_singleton|done]. }
    eexists. split; [eapply (pstep_accept prompt s i n kid kid' calls 0 inp new); done|done].
Qed.

(** ** Termination *)

(** Steps of the server: all but a client's arrival. *)
Definition server_step (prompt : bool) (s s' : pool_state) : Prop :=
  pstep prompt s s' /\ ps_seen s' = ps_seen s.

(** Events that are still to be handled, those for the parent counted twice. *)
Definition events_left (s : pool_state) : nat :=
  (2 * Nat.b2n (ps_edge s) + sum_list (Nat.b2n <$> ps_woken s))%nat.

Lemma server_step_left prompt s s' :
  pinv s -> server_step prompt s s' -> (events_left s' < events_left s)%nat.
Proof.
  intros Hinv [Hs Hseen]. unfold events_left.
  destruct Hinv as [Hwf Hal (c & Hc & Hlt) Hu Hw Hk Hp Hf].
  destruct Hs as [client _|sigfd p' counter calls cs He Hd _|i n kid kid' calls connfd inp new Hwi _ _ _ _ accepted _];
    cbn [ps_edge ps_woken ps_seen] in *.
  - apply (f_equal length) in Hseen. rewrite length_app in Hseen. cbn in Hseen. lia.
  - destruct (parent_notifies sigfd _ _ Hwf Hal Hlt) as (c' & i & ch & _ & Hch & E).
    rewrite Hc, E in Hd. injection Hd as <- <- <-.
    destruct (lookup_lt_is_Some_2 (ps_woken s) i) as [w Hwi]; [rewrite Hw; by eapply lookup_lt_Some|].
    unfold cs. rewrite He, (wake_one _ i ch), list_fmap_insert by done.
    pose proof (sum_list_insert (Nat.b2n <$> ps_woken s) i (Nat.b2n w) 1) as Hi.
    rewrite list_lookup_fmap, Hwi in Hi. specialize (Hi eq_refl). cbn in *. lia.
  - rewrite list_fmap_insert.
    pose proof (sum_list_insert (Nat.b2n <$> ps_woken s) i 1 0) as Hi.
    rewrite list_lookup_fmap, Hwi in Hi. specialize (Hi eq_refl). cbn in *. lia.
Qed.

Lemma server_steps_left prompt n s s' :
  pinv s -> nsteps (server_step prompt) n s s' -> (n + events_left s' <= events_left s)%nat.
Proof.
  intros Hinv. induction 1 as [|n s s1 s2 Hs _ IH]; [lia|]. pose proof (server_step_left _ _ _ Hinv Hs).
  destruct Hs as [Hs _]. specialize (IH (pinv_step _ _ _ Hinv Hs)). lia.
Qed.

Lemma pinv_reach prompt s0 s : pool_started s0 -> rtc (pstep prompt) s0 s -> pinv s.
Proof.
  intros H0 Hr. apply pinv_started in H0 as [H0 _]. induction Hr; [done|]. eauto using pinv_step.
Qed.

Lemma pexact_reach s0 s : pool_started s0 -> rtc (pstep true) s0 s -> pexact s.
Proof.
  intros H0 Hr. apply pinv_started in H0 as [Hi H0]. revert Hi. induction Hr; [done|]. intros Hi.
  eauto using pexact_step, pinv_step.
Qed.

Lemma comes_to_rest prompt s (inp : task_input) :
  pinv s -> exists s', rtc (server_step prompt) s s' /\ at_rest s'.
Proof.
  remember (events_left s) as k eqn:E. revert s E. induction k as [k IH] using lt_wf_ind. intros s -> Hinv.
  destruct (pool_progress prompt s inp Hinv) as [Hr|(s1 & Hs1 & Hseen)]; [by exists s|].
  destruct (IH (events_left s1) (server_step_left _ _ _ Hinv (conj Hs1 Hseen)) s1 eq_refl) as (s2 & Hr2 & Hrest);
    [by eapply pinv_step|].
  exists s2. split; [|done]. eapply rtc_l; [|exact Hr2]. by split.
Qed.

Lemma pool_rest_empty s : pexact s -> at_rest s -> ps_backlog s = [].
Proof.
  intros [Hu Hc] [He Hw]. apply length_zero_iff_nil. rewrite Hc, He, Hu. cbn [Nat.b2n]. clear -Hw.
  induction Hw as [|w l -> _ IH]; [done|exact IH].
Qed.
End Accept.

(** [C29] clients_accepted: how the pool takes its connections.  In every
    interleaving of arrivals with the parent's and the children's handling of their
    events, every client that was accepted was registered and initialised by the one
    child that accepted it, in the order in which they came, and the others wait in the
    queue (the new descriptors fit the children's arrays); from any state on, what is
    pending is handled in a bounded number of steps, and the server can always go
    on until nothing is.  If no event comes for a socket whose last one was not yet
    handled, nobody is left waiting then. *)
Theorem clients_accepted {T} `{Task T} prompt (s0 s : pool_state (T := T)) (inp : task_input) :
  pool_started s0 -> rtc (pstep prompt) s0 s ->
  (ps_taken s).*2 ++ ps_backlog s = ps_seen s /\
  (forall n s', nsteps (server_step prompt) n s s' -> (n <= 2 + length (ps_kids s))%nat) /\
  (exists s', rtc (server_step prompt) s s' /\ at_rest s') /\
  (prompt = true -> forall s', rtc (server_step true) s s' -> at_rest s' -> (ps_taken s').*2 = ps_seen s).
Proof.
  intros H0 Hr. pose proof (pinv_reach _ _ _ H0 Hr) as Hinv. split; [apply Hinv|].
  split; [|split; [by apply comes_to_rest|]].
  - intros n s' Hn%server_steps_left; [|done].
    assert (Hb : forall l, (sum_list (Nat.b2n <$> l) <= length l)%nat).
    { clear. induction l as [|w l IH]; [done|]. cbn in *. destruct w; cbn; lia. }
    specialize (Hb (ps_woken s)). unfold events_left in Hn at 2.
    pose proof (pi_woken _ Hinv). pose proof (pi_kids _ Hinv). destruct (ps_edge s); cbn in *; lia.
  - intros -> s' Hr' Hrest.
    assert (Hr2 : rtc (pstep true) s s' /\ ps_seen s' = ps_seen s).
    { clear -Hr'. induction Hr' as [|x y z [Hs Hseen] _ [IH1 IH2]]; [done|].
      split; [by eapply rtc_l|congruence]. }
    destruct Hr2 as [Hr2 <-]. assert (Hr3 : rtc (pstep true) s0 s') by by etrans.
    pose proof (pi_fifo _ (pinv_reach _ _ _ H0 Hr3)) as Hf.
    by rewrite (pool_rest_empty _ (pexact_reach _ _ H0 Hr3) Hrest), app_nil_r in Hf.
Qed.

(** ** Examples *)

Definition no_input : cgi_input := CgiInput [] (fun _ => false) (-1).
Definition new_kid (pipefd : Z) : child (T := cgi_conn) := Child 9 pipefd 6 false ∅.
Definition start_state : pool_state (T := cgi_conn) :=
  PoolState [] false (ProcessPool 2 (-1) 8 3 false [Process 101 (10, 11); Process 102 (12, 13)]) 0
    [0%nat; 0%nat] [false; false] [new_kid 11; new_kid 13] [] [].

Lemma start_started : pool_started start_state.
Proof.
  split; try done; [split; [done|cbn; lia]|exists 0%nat; split; [done|cbn; lia]|by exists 0%nat|].
  cbn. apply NoDup_cons_2; [set_solver|apply NoDup_singleton].
Qed.

Lemma clients_accepted_witness :
  let s := PoolState [101] true (ps_pool start_state) 0 [0%nat; 0%nat] [false; false] (ps_kids start_state) [101] [] in
  rtc (pstep true) start_state s /\
  forall s', rtc (server_step true) s s' -> at_rest s' -> (ps_taken s').*2 = [101].
Proof.
  assert (Hr : rtc (pstep true) start_state (PoolState [101] true (ps_pool start_state) 0 [0%nat; 0%nat]
    [false; false] (ps_kids start_state) [101] [])).
  { apply rtc_once. by apply (pstep_connect true start_state 101). }
  split; [exact Hr|].
  exact (proj2 (proj2 (proj2 (@clients_accepted cgi_conn cgi_task true _ _ no_input start_started Hr))) eq_refl).
Defined.

(** clients_stranded: two clients that come before the parent's [epoll_wait]
    returns are one event and one notification: one is accepted, the other waits
    although nothing is left to do. *)
Theorem clients_stranded :
  exists s, rtc (pstep false) start_state s /\ at_rest s /\ ps_seen s = [101; 102] /\
    ps_backlog s = [102] /\ ps_taken s = [(0%nat, 101)].
Proof.
  eexists. split.
  - eapply rtc_l; [by apply (pstep_connect _ _ 101)|]. eapply rtc_l; [by apply (pstep_connect _ _ 102)|].
    eapply rtc_l; [eapply (@pstep_notify cgi_conn cgi_task false _ 6); [done|vm_compute; reflexivity|done]|].
    eapply rtc_l; [|apply rtc_refl].
    eapply (@pstep_accept cgi_conn cgi_task _ _ 0 1 (new_kid 11) _ _ 7 no_input [(0%nat, 101)]);
      [done..|vm_compute; by split|vm_compute; reflexivity|].
    right. exists 101. split; [apply list_elem_of_here|]. by split; [split; [set_solver|vm_compute]|].
  - by repeat constructor.
Qed.
