(* ===== verification/PoolShutdown.v ===== *)
(** * Shutting the process pool down

    SIGTERM for the pool's parent (socket/pool/processpool.h): it passes the signal
    on, the children end their loops, the parent collects them and ends its own.
    The parent's and the children's loops run against each other here, with the
    signals between them. *)

From S2P Require Import Prelude CString ProcessPool PoolLife CgiConn.

(** What became of a child: it runs, with the signals in its pipe; it has exited and
    not been waited for; it has been waited for. *)
Inductive kid {T : Type} := Working (sigs : list Z) (c : child (T := T)) | Zombie | Gone.
Arguments kid T : clear implicits.

Section Shutdown.
Context {T : Type} `{Task T}.
(** The children as they were forked, the parent's listening socket and signal pipe. *)
Context (sub : list ProcessPool.process) (lfd sigfd : Z).
Context (Hpos : Forall (fun ch => 0 < m_pid ch) sub)
  (Hpipes : NoDup ((fun ch => (m_pipefd ch).1) <$> sub)) (Hpids : NoDup (m_pid <$> sub))
  (Hsome : (0 < length sub)%nat) (Hfd : sigfd <> lfd).

(** The parent, the signals in its pipe, the children in the order of the table. *)
Record family := Family { fa_pool : processpool; fa_sigs : list Z; fa_kids : list (kid T) }.

(** [waitpid] gives at the first SIGCHLD all that have exited. *)
Fixpoint share (sigs zs : list Z) : list (Z * list Z) :=
  match sigs with
  | [] => []
  | sig :: sigs => if decide (sig = SIGCHLD) then (sig, zs) :: share sigs [] else (sig, []) :: share sigs zs
  end.

(** The children that wait to be collected. *)
Definition zombies (kids : list (kid T)) : list Z :=
  mjoin (zip_with (fun ch k => match k with Zombie => [m_pid ch] | _ => [] end) sub kids).

(** The signals that the calls send to [pid]. *)
Definition sent_to (pid : Z) (calls : list call) : list Z :=
  omap (fun e => match e with Kill q sig => if decide (q = pid) then Some sig else None | _ => None end) calls.

(** A child after the parent handled its signals. *)
Definition update (calls : list call) (reaped : list Z) (ch : ProcessPool.process) (k : kid T) : kid T :=
  match k with
  | Working sigs c => Working (sigs ++ sent_to (m_pid ch) calls) c
  | Zombie => if decide (m_pid ch ∈ reaped) then Gone else Zombie
  | Gone => Gone
  end.

(** An event of a child's signal pipe. *)
Definition sig_event (c : child (T := T)) (sigs : list Z) (inp : task_input) : cevent (T := T) :=
  CEvent (c_sigfd c) POLL_IN false (-1, 0) sigs inp.

(** Steps: the parent reads its signals; a child reads its own; a child whose loop has
    stopped exits, or any child dies. *)
Inductive fstep (s : family) : family -> Prop :=
  | fstep_parent zs counter p' counter' calls :
      m_stop (fa_pool s) = false -> fa_sigs s <> [] -> zs ≡ₚ zombies (fa_kids s) ->
      parent_events sigfd [PEvent sigfd POLL_IN (share (fa_sigs s) zs)] counter (fa_pool s) =
        Ok (p', counter', calls) ->
      fstep s (Family p' [] (zip_with (update calls (deaths_of (share (fa_sigs s) zs))) sub (fa_kids s)))
  | fstep_signal i sigs c c' calls inp :
      fa_kids s !! i = Some (Working sigs c) -> sigs <> [] ->
      child_event (sig_event c sigs inp) c = Ok (c', calls, false) ->
      fstep s (Family (fa_pool s) (fa_sigs s) (<[i := Working [] c']> (fa_kids s)))
  | fstep_exit i sigs c :
      fa_kids s !! i = Some (Working sigs c) -> c_stop c = true ->
      fstep s (Family (fa_pool s) (fa_sigs s ++ [SIGCHLD]) (<[i := Zombie]> (fa_kids s))).

Inductive crash (s : family) : family -> Prop :=
  | crash_kid i sigs c :
      fa_kids s !! i = Some (Working sigs c) ->
      crash s (Family (fa_pool s) (fa_sigs s ++ [SIGCHLD]) (<[i := Zombie]> (fa_kids s))).

Definition either_step (s s' : family) : Prop := fstep s s' \/ crash s s'.

(** ** What is left to do *)

Definition running (k : kid T) : nat := match k with Working _ _ => 1 | _ => 0 end.
Definition signalled (k : kid T) : nat := match k with Working (_ :: _) _ => 1 | _ => 0 end.
Definition terms (sigs : list Z) : nat := length (filter (fun g => g = SIGTERM) sigs).

Definition work_left (s : family) : nat :=
  (S (length sub) * terms (fa_sigs s) + 2 * sum_list (running <$> fa_kids s) +
   length (fa_sigs s) + sum_list (signalled <$> fa_kids s))%nat.

(** ** The invariant *)

Record finv (R : list Z) (s : family) : Prop := {
  fi_after : after sub R lfd (fa_pool s);
  fi_len : length (fa_kids s) = length sub;
  fi_known : Forall (fun g => g = SIGTERM \/ g = SIGCHLD) (fa_sigs s);
  fi_gone : forall i ch k, sub !! i = Some ch -> fa_kids s !! i = Some k -> (m_pid ch ∈ R <-> k = Gone);
  fi_zombie : Zombie ∈ fa_kids s -> SIGCHLD ∈ fa_sigs s;
  fi_fds : forall sigs c, Working sigs c ∈ fa_kids s -> c_pipefd c <> c_sigfd c;
  fi_term : SIGTERM ∈ fa_sigs s \/
    forall sigs c, Working sigs c ∈ fa_kids s -> SIGTERM ∈ sigs \/ c_stop c = true }.

(** ** Lemmas: the parent's calls *)

Lemma deaths_share sigs zs :
  deaths_of (share sigs zs) = if decide (SIGCHLD ∈ sigs) then zs else [].
Proof.
  revert zs. induction sigs as [|sig sigs IH]; intros zs; [done|]. unfold deaths_of in *. cbn [share].
  destruct (decide (sig = SIGCHLD)) as [->|Hne]; rewrite bind_cons, IH; cbn [fst snd].
  - rewrite decide_True by done. rewrite (decide_True (P := SIGCHLD ∈ SIGCHLD :: sigs)) by left.
    case_decide; by rewrite app_nil_r.
  - rewrite decide_False by done. cbn [app]. apply decide_ext. set_solver.
Qed.

Lemma zombies_spec kids pid :
  pid ∈ zombies kids <-> exists i ch, sub !! i = Some ch /\ kids !! i = Some Zombie /\ m_pid ch = pid.
Proof.
  unfold zombies. generalize sub as l. induction kids as [|k kids IH]; intros l.
  - split; [destruct l; cbn; set_solver|]. intros (i & ch & _ & [=] & _).
  - destruct l as [|ch l].
    + split; [set_solver|]. intros (i & ch & [=] & _).
    + cbn [zip_with mjoin list_join]. rewrite elem_of_app, IH. split.
      * intros [Hin|(i & ch' & ? & ? & ?)]; [|by exists (S i), ch'].
        exists 0%nat, ch. destruct k; set_solver.
      * intros ([|i] & ch' & H1 & H2 & H3); [left|right; by exists i, ch'].
        injection H1 as ->. injection H2 as ->. set_solver.
Qed.

(** Signals in the parent's pipe are passed on to all children that are left. *)
Lemma signals_kill sigs : forall R p p' calls,
  Forall (Z.lt 0) (deaths_of sigs) -> after sub R lfd p -> parent_signals sigs p = (p', calls) ->
  SIGTERM ∈ sigs.*1 -> forall ch, ch ∈ sub -> m_pid ch ∉ R ++ deaths_of sigs -> Kill (m_pid ch) SIGTERM ∈ calls.
Proof.
  induction sigs as [|[sig pids] sigs IH]; intros R p p' calls Hd Haft E Hin ch Hch Hout; [cbn in Hin; set_solver|].
  unfold deaths_of in Hd, Hout. rewrite bind_cons in Hd, Hout. fold (deaths_of sigs) in Hd, Hout. cbn [fst snd] in Hd, Hout.
  apply Forall_app in Hd as [Hd1 Hd2]. cbn [parent_signals] in E. destruct (decide (sig = SIGCHLD)) as [->|Hne].
  - destruct (reap_orderly sub Hpos Hpipes R lfd pids p Hd1 Haft) as (p1 & c1 & E1 & H1 & _). rewrite E1 in E.
    destruct (parent_signals sigs p1) as [p2 c2] eqn:E2. injection E as <- <-.
    apply elem_of_app. right. eapply (IH (R ++ pids) p1); [done|done|exact E2| |done|by rewrite <- (assoc_L (++))].
    cbn in Hin. set_solver.
  - rewrite app_nil_l in Hout. destruct (decide (sig = SIGTERM \/ sig = SIGINT)) as [Ht|Hnt].
    + destruct (parent_signals sigs p) as [p2 c2]. injection E as <- <-. apply elem_of_app. left.
      unfold kill_all. apply list_elem_of_omap. exists ch. rewrite (af_sub _ _ _ _ Haft). split.
      * apply list_elem_of_fmap. exists ch. split; [|done]. unfold after_reap. rewrite decide_False by set_solver. done.
      * rewrite Forall_forall in Hpos. rewrite decide_True; [done|]. specialize (Hpos ch Hch). lia.
    + destruct (parent_signals sigs p) as [p2 c2] eqn:E2. injection E as <- <-.
      apply (IH R p p2 c2 Hd2 Haft E2); [|done|done]. cbn in Hin. apply elem_of_cons in Hin as [Heq|?]; [|done].
      destruct Hnt. by left.
Qed.

Lemma mark_dead_calls pid : forall l e, e ∈ (mark_dead pid l).2 -> exists fd, e = CloseFd fd.
Proof.
  induction l as [|ch l IH]; intros e; [cbn; set_solver|]. cbn [mark_dead].
  destruct (mark_dead pid l) as [l' calls]. cbn [snd] in IH.
  case_decide; cbn [snd]; [|apply IH]. intros [->|Hin]%elem_of_cons; [by eexists|by apply IH].
Qed.

Lemma reap_calls pids : forall l e, e ∈ (reap pids l).2 -> exists fd, e = CloseFd fd.
Proof.
  induction pids as [|pid pids IH]; intros l e; [cbn; set_solver|]. cbn [reap].
  pose proof (mark_dead_calls pid l) as Hm. destruct (mark_dead pid l) as [l1 c1]. cbn [snd] in Hm.
  pose proof (IH l1) as Hi. destruct (reap pids l1) as [l2 c2]. cbn [snd] in *. rewrite elem_of_app. naive_solver.
Qed.

(** Without SIGTERM nobody is sent a signal. *)
Lemma signals_no_kill sigs : forall p,
  Forall (fun g => g = SIGCHLD) sigs.*1 -> forall e, e ∈ (parent_signals sigs p).2 -> exists fd, e = CloseFd fd.
Proof.
  induction sigs as [|[sig pids] sigs IH]; intros p Hall e; [cbn; set_solver|].
  cbn in Hall. apply Forall_cons in Hall as [-> Hall]. cbn [parent_signals]. rewrite decide_True by done.
  pose proof (reap_calls pids (m_sub_process p)) as Hr. unfold on_sigchld.
  destruct (reap pids (m_sub_process p)) as [l c1]. cbn [snd] in Hr.
  set (p1 := set_stop _ _). pose proof (IH p1 Hall) as Hi. destruct (parent_signals sigs p1) as [p2 c2].
  cbn [snd] in *. rewrite elem_of_app. naive_solver.
Qed.

Lemma sent_to_spec pid calls sig : sig ∈ sent_to pid calls <-> Kill pid sig ∈ calls.
Proof.
  unfold sent_to. rewrite list_elem_of_omap. split.
  - intros ([] & Hin & E); try done. case_decide; [|done]. by simplify_eq.
  - intros Hin. exists (Kill pid sig). split; [done|]. by rewrite decide_True.
Qed.

Lemma share_fst sigs zs : (share sigs zs).*1 = sigs.
Proof.
  revert zs. induction sigs as [|sig sigs IH]; intros zs; [done|]. cbn [share].
  case_decide; cbn; by rewrite IH.
Qed.

(** ** The parent's step *)

Lemma zombies_pos kids zs : zs ≡ₚ zombies kids -> Forall (Z.lt 0) zs.
Proof.
  intros Hz. rewrite Forall_forall. intros pid Hin. rewrite Hz in Hin.
  apply zombies_spec in Hin as (i & ch & Hi & _ & <-). rewrite Forall_forall in Hpos.
  apply Hpos. by eapply list_elem_of_lookup_2.
Qed.

Lemma sub_inj i j ch ch' : sub !! i = Some ch -> sub !! j = Some ch' -> m_pid ch = m_pid ch' -> i = j.
Proof.
  intros Hi Hj E. apply (NoDup_lookup _ i j (m_pid ch) Hpids); rewrite list_lookup_fmap; [by rewrite Hi|].
  by rewrite Hj, E.
Qed.

(** The event of the signal pipe is the handling of its signals. *)
Lemma sig_event_runs sigs counter R p :
  after sub R lfd p ->
  parent_events sigfd [PEvent sigfd POLL_IN sigs] counter p =
    let '(p', calls) := parent_signals sigs p in Ok (p', counter, calls).
Proof.
  intros Haft. cbn [parent_events pe_fd pe_events pe_sigs]. rewrite (af_listen _ _ _ _ Haft).
  rewrite decide_False by done. rewrite decide_True by done.
  destruct (parent_signals sigs p) as [p' calls]. cbn [mbind res_bind]. by rewrite app_nil_r.
Qed.

Lemma kid_updated {A} (f : ProcessPool.process -> kid T -> A) (kids : list (kid T)) i k' :
  zip_with f sub kids !! i = Some k' -> exists ch k, sub !! i = Some ch /\ kids !! i = Some k /\ k' = f ch k.
Proof. rewrite lookup_zip_with_Some. naive_solver. Qed.

(** Who is collected: those that were waiting, if there was a SIGCHLD. *)
Lemma collected R s zs pid :
  finv R s -> zs ≡ₚ zombies (fa_kids s) ->
  pid ∈ deaths_of (share (fa_sigs s) zs) <->
  exists i ch, sub !! i = Some ch /\ fa_kids s !! i = Some Zombie /\ m_pid ch = pid.
Proof.
  intros Hinv Hz. rewrite deaths_share. case_decide as Hin; [by rewrite Hz, zombies_spec|].
  split; [set_solver|]. intros (i & ch & _ & Hk & _). destruct Hin. apply (fi_zombie _ _ Hinv).
  by eapply list_elem_of_lookup_2.
Qed.

Lemma gone_updated R s zs calls i ch k :
  finv R s -> zs ≡ₚ zombies (fa_kids s) -> sub !! i = Some ch -> fa_kids s !! i = Some k ->
  let D := deaths_of (share (fa_sigs s) zs) in
  (m_pid ch ∈ R ++ D <-> update calls D ch k = Gone) /\ update calls D ch k <> Zombie.
Proof.
  intros Hinv Hz Hch Hk D. pose proof (fi_gone _ _ Hinv i ch k Hch Hk) as Hg.
  assert (HD : m_pid ch ∈ D <-> k = Zombie).
  { unfold D. rewrite (collected R s zs _ Hinv Hz). split.
    - intros (j & ch' & Hj & Hkj & E). assert (j = i) as -> by by eapply sub_inj. congruence.
    - intros ->. by exists i, ch. }
  rewrite elem_of_app, HD, Hg. destruct k as [sigs c| |]; cbn [update].
  - split; [|done]. split; [intros [|]; done|done].
  - rewrite decide_True by by apply HD. split; [|done]. split; [done|by right].
  - split; [|done]. split; [done|by left].
Qed.

Lemma finv_parent R s zs counter p' counter' calls :
  finv R s -> zs ≡ₚ zombies (fa_kids s) ->
  parent_events sigfd [PEvent sigfd POLL_IN (share (fa_sigs s) zs)] counter (fa_pool s) = Ok (p', counter', calls) ->
  finv (R ++ deaths_of (share (fa_sigs s) zs))
    (Family p' [] (zip_with (update calls (deaths_of (share (fa_sigs s) zs))) sub (fa_kids s))).
Proof.
  intros Hinv Hz E. set (D := deaths_of _).
  assert (Hd : Forall (Z.lt 0) D).
  { unfold D. rewrite deaths_share. case_decide; [by eapply zombies_pos|constructor]. }
  rewrite (sig_event_runs _ _ R) in E by apply Hinv.
  destruct (signals_orderly sub Hpos Hpipes lfd (share (fa_sigs s) zs) R (fa_pool s) Hd (fi_after _ _ Hinv))
    as (p1 & c1 & E1 & H1 & _). rewrite E1 in E. injection E as <- _ <-.
  split; cbn [fa_pool fa_sigs fa_kids].
  - exact H1.
  - rewrite length_zip_with, (fi_len _ _ Hinv). lia.
  - constructor.
  - intros i ch k' Hch (ch' & k & Hch' & Hk & ->)%kid_updated. assert (ch' = ch) as -> by congruence.
    by apply (gone_updated R s zs c1 i).
  - intros (i & Hi)%list_elem_of_lookup. apply kid_updated in Hi as (ch & k & Hch & Hk & E).
    by destruct (gone_updated R s zs c1 i ch k Hinv Hz Hch Hk) as [_ []].
  - intros sigs c (i & Hi)%list_elem_of_lookup. apply kid_updated in Hi as (ch & [sigs0 c0| |] & Hch & Hk & E);
      cbn [update] in E; [|by case_decide|done]. injection E as -> ->.
    eapply (fi_fds _ _ Hinv). by eapply list_elem_of_lookup_2.
  - right. intros sigs c (i & Hi)%list_elem_of_lookup.
    apply kid_updated in Hi as (ch & k & Hch & Hk & E).
    destruct k as [sigs0 c0| |]; cbn [update] in E; [|by case_decide|done]. injection E as -> ->.
    destruct (fi_term _ _ Hinv) as [Ht|Ht].
    + left. apply elem_of_app. right. apply sent_to_spec.
      eapply (signals_kill (share (fa_sigs s) zs) R (fa_pool s)); [done|apply Hinv|exact E1| | |].
      * by rewrite share_fst.
      * by eapply list_elem_of_lookup_2.
      * intros Hin. by apply (gone_updated R s zs c1 i ch _ Hinv Hz Hch Hk) in Hin.
    + destruct (Ht sigs0 c0) as [?|?]; [by eapply list_elem_of_lookup_2| |by right].
      left. apply elem_of_app. by left.
Qed.

(** ** The children's steps *)

Lemma finv_child R s i k k' :
  finv R s -> fa_kids s !! i = Some k -> k <> Gone -> k' <> Gone ->
  forall i' ch k0, sub !! i' = Some ch -> <[i := k']> (fa_kids s) !! i' = Some k0 -> (m_pid ch ∈ R <-> k0 = Gone).
Proof.
  intros Hinv Hk Hne Hne' i' ch k0 Hch Hk0. destruct (decide (i' = i)) as [->|Hi].
  - rewrite list_lookup_insert_eq in Hk0 by by eapply lookup_lt_Some. injection Hk0 as <-.
    rewrite (fi_gone _ _ Hinv i ch k Hch Hk). by split.
  - rewrite list_lookup_insert_ne in Hk0 by done. by apply (fi_gone _ _ Hinv i').
Qed.

Lemma insert_kid (kids : list (kid T)) i k x : x ∈ <[i := k]> kids -> x = k \/ x ∈ kids.
Proof.
  intros (j & Hj)%list_elem_of_lookup. destruct (decide (j = i)) as [->|Hne].
  - apply list_lookup_insert_Some in Hj as [(_ & -> & _)|[? _]]; [by left|done].
  - rewrite list_lookup_insert_ne in Hj by done. right. by eapply list_elem_of_lookup_2.
Qed.

Lemma finv_signal R s i sigs c c' calls inp :
  finv R s -> fa_kids s !! i = Some (Working sigs c) ->
  child_event (sig_event c sigs inp) c = Ok (c', calls, false) ->
  finv R (Family (fa_pool s) (fa_sigs s) (<[i := Working [] c']> (fa_kids s))).
Proof.
  intros Hinv Hk E. pose proof (list_elem_of_lookup_2 _ _ _ Hk) as Hin.
  pose proof (fi_fds _ _ Hinv sigs c Hin) as Hne.
  unfold child_event, sig_event in E. cbn [ce_fd ce_events ce_sigs] in E.
  rewrite decide_False in E by (intros [? _]; by apply Hne). rewrite decide_True in E by done.
  injection E as <- <-. split; cbn [fa_pool fa_sigs fa_kids]; try apply Hinv.
  - by rewrite length_insert, (fi_len _ _ Hinv).
  - by apply (finv_child R s i (Working sigs c)).
  - intros [?|?]%insert_kid; [done|]. by apply (fi_zombie _ _ Hinv).
  - intros sigs' c1 [[= -> ->]|?]%insert_kid; [done|]. by apply (fi_fds _ _ Hinv sigs').
  - destruct (fi_term _ _ Hinv) as [Ht|Ht]; [by left|right].
    intros sigs' c1 [[= -> ->]|?]%insert_kid; [|by apply Ht]. right. cbn. apply orb_true_iff.
    destruct (Ht sigs c Hin) as [Hs|Hs]; [|by left]. right.
    apply existsb_exists. exists SIGTERM. split; [by apply list_elem_of_In|done].
Qed.

Lemma finv_dies R s i sigs c :
  finv R s -> fa_kids s !! i = Some (Working sigs c) ->
  finv R (Family (fa_pool s) (fa_sigs s ++ [SIGCHLD]) (<[i := Zombie]> (fa_kids s))).
Proof.
  intros Hinv Hk. split; cbn [fa_pool fa_sigs fa_kids]; try apply Hinv.
  - by rewrite length_insert, (fi_len _ _ Hinv).
  - apply Forall_app. split; [apply Hinv|]. apply Forall_singleton. by right.
  - by apply (finv_child R s i (Working sigs c)).
  - intros _. set_solver.
  - intros sigs' c1 [?|?]%insert_kid; [done|]. by apply (fi_fds _ _ Hinv sigs').
  - destruct (fi_term _ _ Hinv) as [Ht|Ht]; [left; set_solver|right].
    intros sigs' c1 [?|?]%insert_kid; [done|by apply Ht].
Qed.

Lemma finv_step R s s' : finv R s -> either_step s s' -> exists R', finv R' s'.
Proof.
  intros Hinv [[zs counter p' counter' calls _ _ Hz E|i sigs c c' calls inp Hk _ E|i sigs c Hk _]|[i sigs c Hk]].
  - eexists. by eapply finv_parent.
  - exists R. by eapply finv_signal.
  - exists R. by eapply finv_dies.
  - exists R. by eapply finv_dies.
Qed.

(** ** Termination *)

Lemma sum_kids (g : kid T -> nat) (f : ProcessPool.process -> kid T -> kid T) l (m : list (kid T)) :
  (forall ch k, (g (f ch k) <= g k)%nat) -> (sum_list (g <$> zip_with f l m) <= sum_list (g <$> m))%nat.
Proof.
  intros Hg. revert m. induction l as [|ch l IH]; intros [|k m]; cbn; [lia..|].
  specialize (Hg ch k). specialize (IH m). cbn in IH. lia.
Qed.

Lemma sum_small (g : kid T -> nat) (l : list (kid T)) :
  (forall k, (g k <= 1)%nat) -> (sum_list (g <$> l) <= length l)%nat.
Proof. intros Hg. clear -Hg. induction l as [|k l IH]; cbn; [lia|]. specialize (Hg k). cbn in IH. lia. Qed.

Lemma running_update calls D ch k : (running (update calls D ch k) <= running k)%nat.
Proof. destruct k; cbn; [done|by case_decide|done]. Qed.

Lemma signalled_small k : (signalled k <= 1)%nat.
Proof. by destruct k as [[|]| |]; cbn; lia. Qed.

Lemma terms_none sigs :
  Forall (fun g => g = SIGTERM \/ g = SIGCHLD) sigs -> terms sigs = 0%nat -> Forall (fun g => g = SIGCHLD) sigs.
Proof.
  unfold terms. intros Hall H0%nil_length_inv. rewrite Forall_forall in Hall |- *. intros g Hg.
  destruct (Hall g Hg) as [->|]; [|done]. exfalso.
  assert (Hin : SIGTERM ∈ filter (fun g => g = SIGTERM) sigs) by by apply list_elem_of_filter.
  rewrite H0 in Hin. set_solver.
Qed.

Lemma parent_left R s zs counter p' counter' calls :
  finv R s -> fa_sigs s <> [] ->
  parent_events sigfd [PEvent sigfd POLL_IN (share (fa_sigs s) zs)] counter (fa_pool s) = Ok (p', counter', calls) ->
  (work_left (Family p' [] (zip_with (update calls (deaths_of (share (fa_sigs s) zs))) sub (fa_kids s))) < work_left s)%nat.
Proof.
  intros Hinv Hne E. set (D := deaths_of _). set (kids' := zip_with _ _ _). unfold work_left. cbn [fa_sigs fa_kids].
  pose proof (sum_kids running (update calls D) sub (fa_kids s) (running_update calls D)) as Hrun. fold kids' in Hrun.
  change (terms []) with 0%nat. cbn [length].
  assert (Hlen : (0 < length (fa_sigs s))%nat) by (destruct (fa_sigs s); [done|cbn; lia]).
  assert (Hk : length kids' = length sub) by (unfold kids'; rewrite length_zip_with, (fi_len _ _ Hinv); lia).
  destruct (decide (terms (fa_sigs s) = 0%nat)) as [H0|H0].
  - assert (Hsig : (sum_list (signalled <$> kids') <= sum_list (signalled <$> fa_kids s))%nat); [|lia].
    apply sum_kids. intros ch k. rewrite (sig_event_runs _ _ R) in E by apply Hinv.
    pose proof (signals_no_kill (share (fa_sigs s) zs) (fa_pool s)) as Hno. rewrite share_fst in Hno.
    specialize (Hno (terms_none _ (fi_known _ _ Hinv) H0)).
    destruct (parent_signals _ _) as [p1 c1]. cbn [snd] in Hno. injection E as _ _ <-.
    destruct k as [sigs c| |]; cbn [update]; [|by case_decide|done].
    assert (sent_to (m_pid ch) c1 = []) as ->; [|by rewrite app_nil_r].
    destruct (sent_to (m_pid ch) c1) as [|g l] eqn:Es; [done|].
    assert (Hin : Kill (m_pid ch) g ∈ c1) by (apply sent_to_spec; rewrite Es; left).
    by destruct (Hno _ Hin).
  - pose proof (sum_small signalled kids' signalled_small). nia.
Qed.

Lemma step_left R s s' : finv R s -> either_step s s' -> (work_left s' < work_left s)%nat.
Proof.
  intros Hinv Hs.
  assert (Hdies : forall i sigs c, fa_kids s !! i = Some (Working sigs c) ->
    (work_left (Family (fa_pool s) (fa_sigs s ++ [SIGCHLD]) (<[i := Zombie]> (fa_kids s))) < work_left s)%nat).
  { intros i sigs c Hk. unfold work_left. cbn [fa_sigs fa_kids]. rewrite !list_fmap_insert.
    pose proof (sum_list_insert (running <$> fa_kids s) i 1 0) as Hr.
    pose proof (sum_list_insert (signalled <$> fa_kids s) i (signalled (Working sigs c)) 0) as Hg.
    rewrite list_lookup_fmap, Hk in Hr, Hg. specialize (Hr eq_refl). specialize (Hg eq_refl).
    assert (terms (fa_sigs s ++ [SIGCHLD]) = terms (fa_sigs s)) as ->.
    { unfold terms. rewrite filter_app. cbn. by rewrite app_nil_r. }
    rewrite length_app. cbn [length] in *. change (running Zombie) with 0%nat. change (signalled Zombie) with 0%nat. lia. }
  destruct Hs as [[zs counter p' counter' calls _ Hne _ E|i sigs c c' calls inp Hk Hne _|i sigs c Hk _]|[i sigs c Hk]];
    [by eapply parent_left| |by eapply Hdies..].
  unfold work_left. cbn [fa_sigs fa_kids]. rewrite !list_fmap_insert.
  pose proof (sum_list_insert (running <$> fa_kids s) i 1 1) as Hr.
  pose proof (sum_list_insert (signalled <$> fa_kids s) i 1 0) as Hg.
  rewrite list_lookup_fmap, Hk in Hr, Hg. specialize (Hr eq_refl). destruct sigs; [done|]. specialize (Hg eq_refl).
  change (running (Working [] c')) with 1%nat. change (signalled (Working [] c')) with 0%nat. lia.
Qed.

(** ** Progress *)

Definition finished (s : family) : Prop := m_stop (fa_pool s) = true /\ Forall (fun k => k = Gone) (fa_kids s).

Lemma all_gone R s : finv R s -> (all_dead sub R <-> Forall (fun k => k = Gone) (fa_kids s)).
Proof.
  intros Hinv. unfold all_dead. rewrite !Forall_lookup. split.
  - intros Hall i k Hk. destruct (lookup_lt_is_Some_2 sub i) as [ch Hch].
    { rewrite <- (fi_len _ _ Hinv). by eapply lookup_lt_Some. }
    by apply (fi_gone _ _ Hinv i ch k Hch Hk), (Hall i).
  - intros Hall i ch Hch. destruct (lookup_lt_is_Some_2 (fa_kids s) i) as [k Hk].
    { rewrite (fi_len _ _ Hinv). by eapply lookup_lt_Some. }
    by apply (fi_gone _ _ Hinv i ch k Hch Hk), (Hall i).
Qed.

Lemma family_progress R s (inp : task_input) : finv R s -> finished s \/ exists s', fstep s s'.
Proof.
  intros Hinv. destruct (m_stop (fa_pool s)) eqn:Estop.
  { left. split; [done|]. apply (all_gone R s Hinv). rewrite (af_stop _ _ _ _ (fi_after _ _ Hinv)) in Estop.
    by apply bool_decide_eq_true in Estop. }
  right. destruct (decide (fa_sigs s = [])) as [Hnil|Hne].
  - destruct (decide (Exists (fun k => running k = 1%nat) (fa_kids s))) as [Hex|Hno].
    + apply Exists_exists in Hex as ([sigs c| |] & Hin & Hr); [|done..].
      pose proof Hin as (i & Hi)%list_elem_of_lookup.
      destruct (fi_term _ _ Hinv) as [Ht|Ht]; [rewrite Hnil in Ht; set_solver|].
      destruct (Ht sigs c Hin) as [Hs|Hs]; [|eexists; by eapply fstep_exit].
      assert (exists c' calls, child_event (sig_event c sigs inp) c = Ok (c', calls, false)) as (c' & calls & E).
      { unfold child_event, sig_event. cbn [ce_fd ce_events ce_sigs].
        rewrite decide_False by (intros [? _]; by apply (fi_fds _ _ Hinv sigs c Hin)).
        rewrite decide_True by done. by eexists _, _. }
      eexists. eapply fstep_signal; [exact Hi|intros ->; set_solver|exact E].
    + assert (Hall : Forall (fun k => k = Gone) (fa_kids s)).
      { rewrite Forall_forall. intros k Hk. destruct k as [sigs c| |]; [exfalso| |done].
        - apply Hno, Exists_exists. by exists (Working sigs c).
        - apply (fi_zombie _ _ Hinv) in Hk. rewrite Hnil in Hk. set_solver. }
      apply (all_gone R s Hinv) in Hall. exfalso.
      rewrite (af_stop _ _ _ _ (fi_after _ _ Hinv)), bool_decide_true in Estop by done. done.
  - pose proof (sig_event_runs (share (fa_sigs s) (zombies (fa_kids s))) 0 R (fa_pool s) (fi_after _ _ Hinv)) as E.
    destruct (parent_signals _ _) as [p' calls]. eexists. by eapply fstep_parent.
Qed.
End Shutdown.

(** The pool at work, when SIGTERM has come for the parent: all children live, and their
    loops run. *)
Record told_to_stop {T} (lfd : Z) (s : family (T := T)) : Prop := {
  tt_wf : pool_wf (fa_pool s);
  tt_stop : m_stop (fa_pool s) = false;
  tt_listen : m_listenfd (fa_pool s) = lfd;
  tt_sigs : fa_sigs s = [SIGTERM];
  tt_kids : length (fa_kids s) = length (m_sub_process (fa_pool s));
  tt_live : Forall (fun k => exists c, k = Working [] c /\ c_pipefd c <> c_sigfd c) (fa_kids s);
  tt_pids : Forall (fun ch => 0 < m_pid ch) (m_sub_process (fa_pool s));
  tt_distinct : NoDup (m_pid <$> m_sub_process (fa_pool s));
  tt_pipes : NoDup ((fun ch => (m_pipefd ch).1) <$> m_sub_process (fa_pool s)) }.

Lemma told_inv {T} lfd (s : family (T := T)) :
  told_to_stop lfd s -> finv (m_sub_process (fa_pool s)) lfd [] s.
Proof.
  intros [Hwf Hs Hl Hsig Hlen Hlive Hpos Hd Hp]. rewrite Forall_forall in Hlive. split.
  - rewrite <- Hl. by apply after_start.
  - done.
  - rewrite Hsig. apply Forall_singleton. by left.
  - intros i ch k _ Hk. apply list_elem_of_lookup_2, Hlive in Hk as (c & -> & _).
    split; [set_solver|done].
  - intros Hz. by apply Hlive in Hz as (c & ? & _).
  - intros sigs c Hin. by apply Hlive in Hin as (c' & [= -> ->] & ?).
  - left. rewrite Hsig. set_solver.
Qed.

(** [C30] pool_shuts_down: told to terminate, the pool does.  From a pool at work whose
    parent has got SIGTERM, every run of the parent's handling of its signals, the
    children's handling of theirs, their exits, and children that die at any moment,
    in any interleaving, has at most three steps per child and two more, and can always go
    on until the parent's loop is told to stop, every child has ended and every child has
    been waited for. *)
Theorem pool_shuts_down {T} `{Task T} lfd sigfd (s0 s : family (T := T)) n (inp : task_input) :
  told_to_stop lfd s0 -> sigfd <> lfd ->
  let sub := m_sub_process (fa_pool s0) in
  nsteps (either_step sub sigfd) n s0 s ->
  (n <= 3 * length sub + 2)%nat /\ (finished s \/ exists s', fstep sub sigfd s s').
Proof.
  intros H0 Hfd sub Hn. pose proof (told_inv lfd s0 H0) as Hinv. fold sub in Hinv.
  destruct H0 as [Hwf _ _ Hsig Hlen Hlive Hpos Hd Hp]. fold sub in Hlen, Hpos, Hd, Hp.
  assert (Hsome : (0 < length sub)%nat) by apply Hwf.
  assert (Hrun : exists R, finv sub lfd R s /\ (n + work_left sub s <= work_left sub s0)%nat).
  { clear Hsig Hlive Hlen Hwf. clearbody sub. revert Hinv. generalize (@nil Z) as R.
    induction Hn as [s|n s s1 s2 Hs _ IH]; intros R Hinv; [by exists R|].
    destruct (finv_step sub lfd sigfd Hpos Hp Hd Hsome Hfd R s s1 Hinv Hs) as [R1 H1].
    destruct (IH R1 H1) as (R2 & H2 & Hle). exists R2. split; [done|].
    assert ((work_left sub s1 < work_left sub s)%nat) by (eapply step_left; eassumption). lia. }
  destruct Hrun as (R & HR & Hle). split; [|eapply family_progress; eassumption].
  assert (Hw : (work_left sub s0 <= 3 * length sub + 2)%nat); [|lia].
  unfold work_left. rewrite Hsig. change (terms [SIGTERM]) with 1%nat. cbn [length].
  pose proof (sum_small running (fa_kids s0)) as Hr. rewrite Hlen in Hr. fold sub in Hr.
  assert (sum_list (signalled <$> fa_kids s0) = 0%nat) as ->.
  { clear -Hlive. induction Hlive as [|k l (c & -> & _) _ IH]; [done|exact IH]. }
  assert ((sum_list (running <$> fa_kids s0) <= length sub)%nat); [|lia].
  apply Hr. intros [| |]; cbn; lia.
Qed.

Definition family0 : family (T := cgi_conn) :=
  Family (ProcessPool 2 (-1) 9 4 false [Process 101 (10, 11); Process 103 (14, 15)]) [SIGTERM]
    [Working [] (Child 9 11 6 false ∅); Working [] (Child 9 15 6 false ∅)].

Lemma family0_told : told_to_stop 4 family0.
Proof.
  split; try done; [split; [done|cbn; lia]|..].
  - repeat constructor; eexists; split; done || reflexivity.
  - repeat constructor.
  - apply (bool_decide_unpack (NoDup [101; 103])). vm_compute. exact I.
  - apply (bool_decide_unpack (NoDup [10; 14])). vm_compute. exact I.
Qed.

Lemma pool_shuts_down_witness :
  (0 <= 3 * 2 + 2)%nat /\
  (finished family0 \/ exists s', fstep (m_sub_process (fa_pool family0)) 7 family0 s').
Proof.
  apply (@pool_shuts_down cgi_conn cgi_task 4 7 family0 family0 0 (CgiInput [] (fun _ => false) (-1)) family0_told);
    [lia|constructor].
Defined.
