(* ===== verification/ShmChat.v ===== *)
(** * The chat server with shared memory (socket/ipc/shm.c)

    One child process per client: it copies what its client sends into a segment
    of shared memory and tells the parent, which tells the other children, which
    send the segment to their clients.  Modelled are the parent's table of users
    with its index by process id, every branch of its event loop, and the child's
    event loop over the shared memory.  Results of system calls are arguments;
    what is asked of the kernel is a list of calls. *)

From S2P Require Import Prelude CString.

Definition USER_LIMIT : Z := 5.
Definition BUFFER_SIZE : nat := 1024.
Definition PROCESS_LIMIT : Z := 65536.

Inductive call :=
  | Send (fd : Z) (data : bytes)
  | SendInt (fd n : Z)           (** an [int] over a socket pair *)
  | Close (fd : Z)
  | EpAdd (fd : Z)
  | EpDel (fd : Z)
  | Kill (pid : Z).

Record client_data := Client {
  address : Z;
  connfd : Z;
  pid : Z;
  pipefd : Z * Z }.

(** ** The parent's state

    [users] has [USER_LIMIT + 1] elements, uninitialised ([None]) at first;
    [sub_process] is an array of [PROCESS_LIMIT] numbers, -1 where the map has no
    entry.  [kids] is not part of the program: the children that run, each with
    the index it was given ([run_child(idx, ...)]). *)
Record chat := Chat {
  users : list (option client_data);
  sub_process : gmap Z Z;
  user_count : Z;
  stop_server : bool;
  terminate : bool;
  kids : list (Z * Z) }.

Definition initial : chat := Chat (replicate 6 None) ∅ 0 false false [].

Definition sub_get (m : gmap Z Z) (p : Z) : res Z :=
  if decide (0 <= p < PROCESS_LIMIT) then Ok (default (-1) (m !! p)) else Err OutOfBounds.
Definition sub_set (m : gmap Z Z) (p i : Z) : res (gmap Z Z) :=
  if decide (0 <= p < PROCESS_LIMIT) then Ok (<[p := i]> m) else Err OutOfBounds.

(** [users[i]], a slot that was written to. *)
Definition user_at (s : chat) (i : Z) : res client_data :=
  o ← aget (users s) i; from_opt Uninit o.

(** ** New connections (lines 206-249) *)

Definition set_users (u : list (option client_data)) (s : chat) : chat :=
  Chat u (sub_process s) (user_count s) (stop_server s) (terminate s) (kids s).

(** [conn] and [addr] come from [accept], [pair] from [socketpair], whose result
    is [ret], and [p] from [fork], in the parent. *)
Definition on_listen (conn addr ret : Z) (pair : Z * Z) (p : Z) (s : chat)
    : res (chat * list call) :=
  if decide (conn < 0) then Ok (s, [])
  else if decide (user_count s >= USER_LIMIT) then
    Ok (s, [Send conn (lit "too many users" ++ [LF]); Close conn])
  else
    let old := match users s !! Z.to_nat (user_count s) with
               | Some (Some d) => pid d
               | _ => 0   (** whatever the memory holds *)
               end in
    u ← aset (users s) (user_count s) (Some (Client addr conn old pair));
    if decide (ret = -1) then Err AssertFail
    else if decide (p < 0) then Ok (set_users u s, [Close conn])
    else
      u ← aset u (user_count s) (Some (Client addr conn p pair));
      sub ← sub_set (sub_process s) p (user_count s);
      Ok (Chat u sub (user_count s + 1) (stop_server s) (terminate s)
            ((p, user_count s) :: kids s),
          [Close conn; Close pair.2; EpAdd pair.1]).

(** ** Signals (lines 250-296) *)

(** One child that [waitpid] reports. *)
Definition reap_one (p : Z) (s : chat) : res (chat * list call) :=
  del_user ← sub_get (sub_process s) p;
  sub ← sub_set (sub_process s) p (-1);
  let kids' := filter (fun k => k.1 <> p) (kids s) in
  if decide (del_user < 0 \/ del_user > USER_LIMIT) then
    Ok (Chat (users s) sub (user_count s) (stop_server s) (terminate s) kids', [])
  else
    d ← user_at s del_user;
    let count := user_count s - 1 in
    last ← user_at s count;
    u ← aset (users s) del_user (Some last);
    sub ← sub_set sub (pid last) del_user;
    Ok (Chat u sub count (stop_server s) (terminate s) kids',
        [EpDel (pipefd d).1; Close (pipefd d).1]).

Fixpoint reap (ps : list Z) (s : chat) : res (chat * list call) :=
  match ps with
  | [] => Ok (s, [])
  | p :: ps =>
      '(s, calls) ← reap_one p s;
      '(s, calls') ← reap ps s;
      Ok (s, calls ++ calls')
  end.

Definition on_sigchld (ps : list Z) (s : chat) : res (chat * list call) :=
  '(s, calls) ← reap ps s;
  let stop := terminate s && (user_count s =? 0) in
  Ok (Chat (users s) (sub_process s) (user_count s) (stop_server s || stop) (terminate s) (kids s),
      calls).

(** The killing loop, from index [i] on, for [n] users. *)
Fixpoint kill_loop (n : nat) (i : Z) (s : chat) : res (list call) :=
  match n with
  | O => Ok []
  | S n => d ← user_at s i; calls ← kill_loop n (i + 1) s; Ok (Kill (pid d) :: calls)
  end.

Definition on_sigterm (s : chat) : res (chat * list call) :=
  if decide (user_count s = 0) then
    Ok (Chat (users s) (sub_process s) (user_count s) true (terminate s) (kids s), [])
  else
    calls ← kill_loop (Z.to_nat (user_count s)) 0 s;
    Ok (Chat (users s) (sub_process s) (user_count s) (stop_server s) true (kids s), calls).

Definition SIGINT : Z := 2.
Definition SIGTERM : Z := 15.
Definition SIGCHLD : Z := 17.

(** The signals read from the pipe, with what [waitpid] reports for each. *)
Fixpoint on_signals (sigs : list (Z * list Z)) (s : chat) : res (chat * list call) :=
  match sigs with
  | [] => Ok (s, [])
  | (sig, ps) :: sigs =>
      '(s, calls) ← (if decide (sig = SIGCHLD) then on_sigchld ps s
                     else if decide (sig = SIGTERM \/ sig = SIGINT) then on_sigterm s
                     else Ok (s, []));
      '(s, calls') ← on_signals sigs s;
      Ok (s, calls ++ calls')
  end.

(** ** Messages (lines 297-313) *)

(** The number [child] was read from [sockfd]: the loop from user [j] on. *)
Fixpoint tell_loop (n : nat) (j : Z) (sockfd child : Z) (s : chat) : res (list call) :=
  match n with
  | O => Ok []
  | S n =>
      d ← user_at s j;
      calls ← tell_loop n (j + 1) sockfd child s;
      Ok (if decide ((pipefd d).1 <> sockfd) then SendInt (pipefd d).1 child :: calls else calls)
  end.

(** [msg]: what [recv] read, if anything. *)
Definition on_message (sockfd : Z) (msg : option Z) (s : chat) : res (list call) :=
  match msg with
  | None => Ok []
  | Some child => tell_loop (Z.to_nat (user_count s)) 0 sockfd child s
  end.

(** ** The loop *)

Record event := Event {
  ev_fd : Z; ev_in : bool;
  ev_accept : Z * Z; ev_pair : Z * (Z * Z); ev_fork : Z;
  ev_sigs : list (Z * list Z);
  ev_msg : option Z }.

Definition handle_event (listenfd sigfd : Z) (ev : event) (s : chat) : res (chat * list call) :=
  if decide (ev_fd ev = listenfd) then
    on_listen (ev_accept ev).1 (ev_accept ev).2 (ev_pair ev).1 (ev_pair ev).2 (ev_fork ev) s
  else if decide (ev_fd ev = sigfd /\ ev_in ev = true) then on_signals (ev_sigs ev) s
  else if ev_in ev then calls ← on_message (ev_fd ev) (ev_msg ev) s; Ok (s, calls)
  else Ok (s, []).

Fixpoint handle_events (listenfd sigfd : Z) (evs : list event) (s : chat)
    : res (chat * list call) :=
  match evs with
  | [] => Ok (s, [])
  | ev :: evs =>
      '(s, calls) ← handle_event listenfd sigfd ev s;
      '(s, calls') ← handle_events listenfd sigfd evs s;
      Ok (s, calls ++ calls')
  end.

(** [None]: [epoll_wait] failed. *)
Fixpoint main_loop (listenfd sigfd : Z) (waits : list (option (list event))) (s : chat)
    : res (chat * list call) :=
  if stop_server s then Ok (s, [])
  else match waits with
       | [] => Err OutOfFuel
       | None :: _ => Ok (s, [])
       | Some evs :: waits =>
           '(s, calls) ← handle_events listenfd sigfd evs s;
           '(s, calls') ← main_loop listenfd sigfd waits s;
           Ok (s, calls ++ calls')
       end.

(** ** The child (run_child) *)


(** Data of the child's own client: the result of [recv]; the state is the
    memory and [stop_child]. *)
Definition on_client (idx pipe : Z) (r : recv_t) (mem : bytes) : res (bytes * bool * list call) :=
  let at_ := idx * Z.of_nat BUFFER_SIZE in
  mem ← awrite mem at_ (replicate BUFFER_SIZE NUL);
  match r with
  | Again => Ok (mem, false, [])
  | RecvError => Ok (mem, true, [])
  | Received data =>
      let data := take (BUFFER_SIZE - 1) data in
      if decide (data = []) then Ok (mem, true, [])
      else mem ← awrite mem at_ data; Ok (mem, false, [SendInt pipe idx])
  end.

(** A notification: the number read from the pipe, "no data now", or the end. *)
Inductive note := Note (client : Z) | NoNote | PipeClosed.

Definition on_note (conn : Z) (n : note) (mem : bytes) : res (bool * list call) :=
  match n with
  | NoNote => Ok (false, [])
  | PipeClosed => Ok (true, [])
  | Note client =>
      let at_ := client * Z.of_nat BUFFER_SIZE in
      if decide (0 <= at_ /\ at_ + Z.of_nat BUFFER_SIZE <= Z.of_nat (length mem)) then
        Ok (false, [Send conn (take BUFFER_SIZE (drop (Z.to_nat at_) mem))])
      else Err OutOfBounds
  end.

Inductive cevent := OnClient (r : recv_t) | OnNote (n : note) | OtherEvent.

Fixpoint child_events (idx pipe conn : Z) (evs : list cevent) (mem : bytes) (stop : bool)
    : res (bytes * bool * list call) :=
  match evs with
  | [] => Ok (mem, stop, [])
  | ev :: evs =>
      '(mem, st, calls) ← (match ev with
                           | OnClient r => on_client idx pipe r mem
                           | OnNote n => '(st, calls) ← on_note conn n mem; Ok (mem, st, calls)
                           | OtherEvent => Ok (mem, false, [])
                           end);
      '(mem, stop, calls') ← child_events idx pipe conn evs mem (stop || st);
      Ok (mem, stop, calls ++ calls')
  end.

(** [run_child] between changes of the memory by others; at the end the three
    descriptors are closed. *)
Fixpoint run_child (idx pipe conn epfd : Z) (waits : list (option (list cevent))) (mem : bytes)
    (stop : bool) : res (bytes * list call) :=
  let closing := [Close conn; Close pipe; Close epfd] in
  if stop then Ok (mem, closing)
  else match waits with
       | [] => Err OutOfFuel
       | None :: _ => Ok (mem, closing)
       | Some evs :: waits =>
           '(mem, stop, calls) ← child_events idx pipe conn evs mem stop;
           '(mem, calls') ← run_child idx pipe conn epfd waits mem stop;
           Ok (mem, calls ++ calls')
       end.

(** ** The table is an index *)

(** [nth_user s i]: the user in slot [i]. *)
Definition nth_user (s : chat) (i : Z) : option client_data :=
  mjoin (users s !! Z.to_nat i).

Record table (s : chat) : Prop := {
  t_len : length (users s) = 6%nat;
  t_count : 0 <= user_count s <= USER_LIMIT;
  t_users : forall i, 0 <= i < user_count s ->
    exists d, nth_user s i = Some d /\ 0 < pid d < PROCESS_LIMIT /\
              sub_process s !! pid d = Some i;
  t_kids : forall p, p ∈ (kids s).*1 <->
    exists i d, 0 <= i < user_count s /\ nth_user s i = Some d /\ pid d = p;
  t_nodup : NoDup (kids s).*1 }.

Lemma user_at_ok s i d :
  0 <= i -> nth_user s i = Some d -> user_at s i = Ok d.
Proof.
  unfold nth_user, user_at. intros Hi H.
  destruct (users s !! Z.to_nat i) as [o|] eqn:E; [|done]. cbn in H. subst o.
  by rewrite (bind_ok _ _ _ (aget_ok _ _ _ Hi E)).
Qed.

Lemma table_user s i : table s -> 0 <= i < user_count s ->
  exists d, user_at s i = Ok d /\ nth_user s i = Some d.
Proof.
  intros H Hi. destruct (t_users _ H i Hi) as (d & Hd & _).
  exists d. split; [apply user_at_ok; [lia|done]|done].
Qed.

(** The index determines the user and the user the index. *)
Lemma table_inj s i j d e :
  table s -> 0 <= i < user_count s -> 0 <= j < user_count s ->
  nth_user s i = Some d -> nth_user s j = Some e -> pid d = pid e -> i = j.
Proof.
  intros H Hi Hj Hd He Hp. destruct (t_users _ H i Hi) as (d' & E1 & _ & Hs).
  destruct (t_users _ H j Hj) as (e' & E2 & _ & Ht). congruence.
Qed.

(** ** Joining *)

Lemma nth_user_insert s u i j d :
  0 <= i < Z.of_nat (length (users s)) -> 0 <= j -> u = <[Z.to_nat i := Some d]> (users s) ->
  mjoin (u !! Z.to_nat j) = if decide (j = i) then Some d else nth_user s j.
Proof.
  intros Hi Hj ->. case_decide as E; [subst j|].
  - by rewrite list_lookup_insert_eq by lia.
  - unfold nth_user. by rewrite list_lookup_insert_ne by lia.
Qed.

(** What the kernel may answer to [fork]: an error, or the id of no running child. *)
Definition fork_ok (s : chat) (p : Z) : Prop :=
  p < 0 \/ (0 < p /\ p ∉ (kids s).*1).

(** [accept] gave a connection for which there is room. *)
Definition opens (conn : Z) (s : chat) : Prop := 0 <= conn /\ user_count s < USER_LIMIT.

Lemma set_users_table s u d :
  table s -> user_count s < USER_LIMIT -> u = <[Z.to_nat (user_count s) := Some d]> (users s) ->
  table (set_users u s).
Proof.
  intros H Hlt Hu. pose proof (t_count _ H) as Hc. pose proof (t_len _ H) as Hlen.
  unfold USER_LIMIT in *.
  assert (Hn : forall j, 0 <= j < user_count s -> nth_user (set_users u s) j = nth_user s j).
  { intros j Hj. unfold nth_user at 1. cbn.
    rewrite (nth_user_insert s u (user_count s) j d) by (done || lia). by rewrite decide_False by lia. }
  destruct H as [_ _ Hus Hk Hd]. split; cbn [user_count sub_process kids users set_users].
  - rewrite Hu. by rewrite length_insert.
  - unfold USER_LIMIT. lia.
  - intros i Hi. rewrite Hn by done. by apply Hus.
  - intros p. rewrite Hk. split; intros (i & e & Hi & He & Hp); exists i, e;
      [rewrite Hn by done|rewrite Hn in He by done]; done.
  - done.
Qed.

Lemma join_table s u p d :
  table s -> user_count s < USER_LIMIT -> 0 < p < PROCESS_LIMIT -> p ∉ (kids s).*1 ->
  pid d = p -> u = <[Z.to_nat (user_count s) := Some d]> (users s) ->
  table (Chat u (<[p := user_count s]> (sub_process s)) (user_count s + 1) (stop_server s)
           (terminate s) ((p, user_count s) :: kids s)).
Proof.
  intros H Hlt Hp Hnew Hd Hu. pose proof (t_count _ H) as Hc. pose proof (t_len _ H) as Hlen.
  unfold USER_LIMIT in *.
  set (s' := Chat _ _ _ _ _ _).
  assert (Hn : forall j, 0 <= j -> nth_user s' j = if decide (j = user_count s) then Some d else nth_user s j).
  { intros j Hj. unfold nth_user at 1. cbn. apply nth_user_insert; [lia|done|done]. }
  split; cbn [user_count sub_process kids users s'].
  - rewrite Hu. by rewrite length_insert.
  - unfold USER_LIMIT. lia.
  - intros i Hi. rewrite Hn by lia. case_decide as E.
    + exists d. subst i. split_and!; [done|lia|lia|]. rewrite Hd. by rewrite lookup_insert_eq.
    + destruct (t_users _ H i) as (e & He & Hpe & Hs); [lia|]. exists e. split_and!; try done; try lia.
      rewrite lookup_insert_ne; [done|]. intros ->. apply Hnew. apply (t_kids _ H).
      exists i, e. split_and!; [lia|lia|done|done].
  - intros q. cbn. rewrite elem_of_cons, (t_kids _ H). split.
    + intros [->|(i & e & Hi & He & Hq)].
      * exists (user_count s), d. rewrite Hn by lia. by rewrite decide_True by lia; split_and!; try lia.
      * exists i, e. rewrite Hn, decide_False by lia. split_and!; [lia|lia|done|done].
    + intros (i & e & Hi & He & Hq). rewrite Hn in He by lia. case_decide as E.
      * left. injection He as ->. congruence.
      * right. exists i, e. split_and!; [lia|lia|done|done].
  - cbn. constructor; [done|apply H].
Qed.

Lemma on_listen_table conn addr ret pair p s :
  table s -> fork_ok s p ->
  if decide (opens conn s /\ ret = -1) then on_listen conn addr ret pair p s = Err AssertFail
  else if decide (opens conn s /\ PROCESS_LIMIT <= p) then on_listen conn addr ret pair p s = Err OutOfBounds
  else exists s' calls, on_listen conn addr ret pair p s = Ok (s', calls) /\ table s'.
Proof.
  unfold opens. intros H Hp. pose proof (t_len _ H) as Hlen. pose proof (t_count _ H) as Hc.
  unfold USER_LIMIT in *. unfold on_listen. destruct (decide (conn < 0)).
  { rewrite !decide_False by lia. by eauto. }
  unfold USER_LIMIT. destruct (decide (user_count s >= 5)) as [|Hlt].
  { rewrite !decide_False by lia. by eauto. }
  cbv zeta. rewrite aset_ok by (rewrite Hlen; lia). cbn [mbind res_bind].
  destruct (decide (ret = -1)) as [|Hret]; [by rewrite decide_True by lia|].
  rewrite (decide_False (P := _ /\ ret = -1)) by lia. destruct (decide (p < 0)) as [Hneg|Hneg].
  - rewrite decide_False by (unfold PROCESS_LIMIT; lia).
    eexists _, _. split; [reflexivity|]. eapply set_users_table; [done|unfold USER_LIMIT; lia|done].
  - destruct Hp as [|[Hp Hnew]]; [done|].
    rewrite aset_ok by (rewrite length_insert, Hlen; lia). cbn [mbind res_bind]. unfold sub_set.
    destruct (decide (PROCESS_LIMIT <= p)).
    { rewrite decide_True by lia. by rewrite decide_False by lia. }
    rewrite (decide_False (P := _ /\ _ <= p)), decide_True by lia. cbn [mbind res_bind].
    eexists _, _. split; [reflexivity|].
    eapply join_table; [done|unfold USER_LIMIT; lia|lia|done| |by rewrite list_insert_insert_eq]. done.
Qed.

(** ** Leaving *)

Lemma nodup_filter_fst {A B} (P : A * B -> Prop) `{!forall x, Decision (P x)} (l : list (A * B)) :
  NoDup l.*1 -> NoDup (filter P l).*1.
Proof. intros Hn. eapply sublist_NoDup; [exact Hn|]. apply fmap_sublist, sublist_filter. Qed.

(** The user [i], with the process [p], has gone: the last user takes its place. *)
Lemma table_reaped s i d e p :
  table s -> 0 <= i < user_count s -> nth_user s i = Some d -> pid d = p ->
  nth_user s (user_count s - 1) = Some e -> 0 < pid e < PROCESS_LIMIT ->
  table (Chat (<[Z.to_nat i := Some e]> (users s)) (<[pid e := i]> (<[p := -1]> (sub_process s)))
    (user_count s - 1) (stop_server s) (terminate s) (filter (fun k => k.1 <> p) (kids s))).
Proof.
  intros H Hi Hd Hpd Ee Her. pose proof (t_len _ H) as Hlen.
  pose proof (t_count _ H) as Hc. unfold USER_LIMIT in Hc. set (s' := Chat _ _ _ _ _ _).
  assert (Hn : forall j, 0 <= j -> nth_user s' j = if decide (j = i) then Some e else nth_user s j).
  { intros j Hj. unfold nth_user at 1. cbn. apply nth_user_insert; [lia|done|done]. }
  split; cbn [user_count sub_process kids users s'].
  - by rewrite length_insert.
  - unfold USER_LIMIT. lia.
  - intros j Hj. rewrite Hn by lia. case_decide as E.
    + subst j. exists e. split_and!; [done|lia|lia|by rewrite lookup_insert_eq].
    + destruct (t_users _ H j) as (x & Hx & Hxr & Hxs); [lia|]. exists x.
      split_and!; [done|lia|lia|]. rewrite !lookup_insert_ne; [done| |]; intros Heq.
      * apply E. symmetry. apply (table_inj s i j d x H); first [done|lia|congruence].
      * assert (user_count s - 1 = j); [|lia].
        apply (table_inj s _ j e x H); first [done|lia|congruence].
  - intros q. rewrite (list_elem_of_fmap fst). split.
    + intros ([q' k] & -> & [Hq Hin]%list_elem_of_filter). cbn in *.
      assert (Hq' : q' ∈ (kids s).*1) by (apply list_elem_of_fmap; by exists (q', k)).
      apply (t_kids _ H) in Hq' as (j & x & Hj & Hx & Hpx).
      destruct (decide (j = user_count s - 1)) as [->|Hj'].
      * exists i, e. rewrite Hn, decide_True by lia. assert (x = e) as -> by congruence.
        split_and!; [lia| |done|done].
        destruct (decide (i = user_count s - 1)) as [->|]; [|lia].
        assert (d = e) as -> by congruence. congruence.
      * exists j, x. rewrite Hn by lia. split_and!; [lia|lia| |done].
        rewrite decide_False; [done|]. intros ->. apply Hq. congruence.
    + intros (j & x & Hj & Hx & Hpx). rewrite Hn in Hx by lia.
      assert (q ∈ (kids s).*1 /\ q <> p) as [Hqk Hqp].
      { rewrite (t_kids _ H). case_decide as E.
        - injection Hx as <-. split; [exists (user_count s - 1), e; split_and!; [lia|lia|done|done]|].
          intros ->. assert (i = user_count s - 1); [|lia].
          apply (table_inj s _ _ d e H); first [done|lia|congruence].
        - split; [exists j, x; split_and!; [lia|lia|done|done]|].
          intros ->. apply E. symmetry. apply (table_inj s i j d x H); first [done|lia|congruence]. }
      apply list_elem_of_fmap in Hqk as ([q' k] & -> & Hin). exists (q', k).
      split; [done|]. apply list_elem_of_filter. done.
  - by apply nodup_filter_fst, H.
Qed.

Lemma reap_one_table p s :
  table s -> p ∈ (kids s).*1 ->
  exists s' calls, reap_one p s = Ok (s', calls) /\ table s' /\
    kids s' = filter (fun k => k.1 <> p) (kids s) /\ user_count s' = user_count s - 1 /\
    terminate s' = terminate s.
Proof.
  intros H Hp. pose proof (t_len _ H) as Hlen. pose proof (t_count _ H) as Hc. unfold USER_LIMIT in Hc.
  apply (t_kids _ H) in Hp as (i & d & Hi & Hd & Hpd).
  destruct (t_users _ H i Hi) as (d' & Ed & Hpr & Hsub). assert (d' = d) as -> by congruence.
  rewrite Hpd in *.
  destruct (table_user s (user_count s - 1) H) as (e & Eat & Ee); [lia|].
  destruct (t_users _ H (user_count s - 1)) as (e' & Ee' & Her & Hes); [lia|].
  assert (e' = e) as -> by congruence.
  assert (Hi' : 0 <= i) by lia. pose proof (user_at_ok s i d Hi' Hd) as Edat.
  unfold reap_one, sub_get, sub_set. rewrite !decide_True by lia. rewrite Hsub.
  cbn [default mbind res_bind from_option id].
  rewrite decide_False by (unfold USER_LIMIT; lia).
  rewrite (bind_ok _ _ _ Edat), (bind_ok _ _ _ Eat), aset_ok by (rewrite Hlen; lia).
  cbn [mbind res_bind]. rewrite decide_True by lia. cbn [mbind res_bind].
  eexists _, _. split; [reflexivity|]. split; [|done].
  eapply table_reaped; eassumption.
Qed.

Lemma reap_table ps s :
  table s -> NoDup ps -> Forall (fun p => p ∈ (kids s).*1) ps ->
  exists s' calls, reap ps s = Ok (s', calls) /\ table s' /\
    (forall q, q ∈ (kids s).*1 -> q ∉ ps -> q ∈ (kids s').*1).
Proof.
  intros H Hnd Hps. revert s H Hps. induction Hnd as [|p ps Hp Hnd IH]; intros s H Hps.
  - exists s, []. done.
  - apply Forall_cons in Hps as [Hk Hps]. cbn [reap].
    destruct (reap_one_table p s H Hk) as (s1 & c1 & E1 & H1 & Hk1 & _).
    assert (Hkeep : forall q, q ∈ (kids s).*1 -> q <> p -> q ∈ (kids s1).*1).
    { intros q ([a b] & -> & Hin)%list_elem_of_fmap Hq. rewrite Hk1. apply list_elem_of_fmap.
      exists (a, b). split; [done|]. by apply list_elem_of_filter. }
    destruct (IH s1 H1) as (s2 & c2 & E2 & H2 & Hk2).
    { rewrite Forall_forall in *. intros q Hq. apply Hkeep; [by apply Hps|]. by intros ->. }
    rewrite (bind_ok _ _ _ E1), (bind_ok _ _ _ E2). eexists _, _. split_and!; [done|done|].
    intros q Hq Hn. apply Hk2; [apply Hkeep; [done|]|]; set_solver.
Qed.

(** ** Every event is handled *)

(** The signals' reports: [waitpid] reports a running child, and each once. *)
Fixpoint sigs_ok (sigs : list (Z * list Z)) (live : list Z) : Prop :=
  match sigs with
  | [] => True
  | (sig, ps) :: sigs =>
      if decide (sig = SIGCHLD) then
        NoDup ps /\ Forall (fun p => p ∈ live) ps /\ sigs_ok sigs (filter (fun p => p ∉ ps) live)
      else sigs_ok sigs live
  end.

(** What the kernel may report in state [s]; every call may fail. *)
Definition event_ok (ev : event) (s : chat) : Prop :=
  fork_ok s (ev_fork ev) /\ sigs_ok (ev_sigs ev) (kids s).*1.

(** The event is a new connection for which there is room. *)
Definition joins (listenfd : Z) (ev : event) (s : chat) : Prop :=
  ev_fd ev = listenfd /\ opens (ev_accept ev).1 s.

Inductive step (listenfd sigfd : Z) : chat -> chat -> Prop :=
  | Step ev s s' calls :
      event_ok ev s -> handle_event listenfd sigfd ev s = Ok (s', calls) -> step listenfd sigfd s s'.

Lemma sigs_ok_mono sigs : forall l l', sigs_ok sigs l -> (forall p, p ∈ l -> p ∈ l') -> sigs_ok sigs l'.
Proof.
  induction sigs as [|[sig ps] sigs IH]; intros l l'; cbn [sigs_ok]; [done|].
  destruct (decide (sig = SIGCHLD)); [|by apply IH].
  intros (Hnd & Hps & Hok) Hl. split_and!; [done| |].
  - eapply Forall_impl; [exact Hps|]. auto.
  - eapply IH; [exact Hok|]. intros p. rewrite !list_elem_of_filter. naive_solver.
Qed.

(** Fields the index does not speak of. *)
Lemma table_flags s stop term :
  table s -> table (Chat (users s) (sub_process s) (user_count s) stop term (kids s)).
Proof. intros [H1 H2 H3 H4 H5]. by split. Qed.

Lemma kill_loop_ok s (H : table s) n : forall i,
  0 <= i -> i + Z.of_nat n <= user_count s -> exists calls, kill_loop n i s = Ok calls.
Proof.
  induction n as [|n IH]; intros i Hi Hn; cbn [kill_loop]; [by eauto|].
  destruct (table_user s i H) as (d & Ed & _); [lia|]. rewrite (bind_ok _ _ _ Ed).
  destruct (IH (i + 1)) as [calls Ec]; [lia..|]. rewrite (bind_ok _ _ _ Ec). by eauto.
Qed.

Lemma on_sigterm_table s :
  table s -> exists s' calls, on_sigterm s = Ok (s', calls) /\ table s' /\ kids s' = kids s.
Proof.
  intros H. pose proof (t_count _ H) as Hc. unfold on_sigterm. case_decide.
  - eexists _, _. split_and!; [done|by apply table_flags|done].
  - destruct (kill_loop_ok s H (Z.to_nat (user_count s)) 0) as [calls Ec]; [lia..|].
    rewrite (bind_ok _ _ _ Ec). eexists _, _. split_and!; [done|by apply table_flags|done].
Qed.

Lemma on_signals_table sigs : forall s,
  table s -> sigs_ok sigs (kids s).*1 ->
  exists s' calls, on_signals sigs s = Ok (s', calls) /\ table s'.
Proof.
  induction sigs as [|[sig ps] sigs IH]; intros s H; cbn [sigs_ok on_signals]; [by eauto|].
  destruct (decide (sig = SIGCHLD)).
  - intros (Hnd & Hps & Hok).
    destruct (reap_table ps s H Hnd Hps) as (s1 & c1 & E1 & H1 & Hk1).
    unfold on_sigchld. rewrite E1. cbn [mbind res_bind]. cbv beta iota zeta.
    set (s1' := Chat _ _ _ _ _ _). destruct (IH s1') as (s2 & c2 & E2 & H2).
    + by apply table_flags.
    + eapply sigs_ok_mono; [exact Hok|]. intros p [Hp Hin]%list_elem_of_filter. by apply Hk1.
    + rewrite E2. cbn. by eauto.
  - intros Hok. case_decide.
    + destruct (on_sigterm_table s H) as (s1 & c1 & E1 & H1 & Hk1). rewrite E1. cbn [mbind res_bind].
      cbv beta iota. destruct (IH s1 H1) as (s2 & c2 & E2 & H2); [by rewrite Hk1|].
      rewrite E2. cbn. by eauto.
    + cbn [mbind res_bind]. cbv beta iota. destruct (IH s H Hok) as (s2 & c2 & E2 & H2).
      rewrite E2. cbn. by eauto.
Qed.

(** ** Messages *)


Lemma tell_loop_ok s sockfd child (H : table s) n : forall j,
  (n + j = Z.to_nat (user_count s))%nat ->
  tell_loop n (Z.of_nat j) sockfd child s =
  Ok ((fun d => SendInt (pipefd d).1 child) <$>
      filter (fun d => (pipefd d).1 <> sockfd) (omap id (take n (drop j (users s))))).
Proof.
  pose proof (t_count _ H) as Hc.
  induction n as [|n IH]; intros j Hn; cbn [tell_loop]; [by rewrite take_0|].
  destruct (table_user s (Z.of_nat j) H) as (d & Ed & Hd); [lia|].
  unfold nth_user in Hd. rewrite Nat2Z.id in Hd.
  destruct (users s !! j) as [o|] eqn:Eo; [|done]. cbn in Hd. subst o.
  rewrite (bind_ok _ _ _ Ed). rewrite (drop_S _ (Some d) j Eo). rewrite firstn_cons.
  replace (Z.of_nat j + 1) with (Z.of_nat (S j)) by lia. rewrite IH by lia.
  cbn [mbind res_bind omap list_omap id]. rewrite filter_cons. by case_decide.
Qed.

Lemma on_message_ok s sockfd msg : table s -> exists calls, on_message sockfd msg s = Ok calls.
Proof.
  intros H. destruct msg as [child|]; cbn; [|by eauto].
  rewrite (tell_loop_ok s sockfd child H _ 0) by lia. by eauto.
Qed.

Lemma handle_event_table l g ev s :
  table s -> event_ok ev s ->
  if decide (joins l ev s /\ (ev_pair ev).1 = -1) then handle_event l g ev s = Err AssertFail
  else if decide (joins l ev s /\ PROCESS_LIMIT <= ev_fork ev) then handle_event l g ev s = Err OutOfBounds
  else exists s' calls, handle_event l g ev s = Ok (s', calls) /\ table s'.
Proof.
  intros H (Hfork & Hsigs). unfold joins, handle_event. destruct (decide (ev_fd ev = l)) as [Hl|Hl].
  - pose proof (on_listen_table (ev_accept ev).1 (ev_accept ev).2 (ev_pair ev).1 (ev_pair ev).2 (ev_fork ev) s H Hfork)
      as E. repeat case_decide; by tauto.
  - rewrite !decide_False by tauto. case_decide; [by apply on_signals_table|].
    destruct (ev_in ev); [|by eauto].
    destruct (on_message_ok s (ev_fd ev) (ev_msg ev) H) as [calls E].
    rewrite (bind_ok _ _ _ E). by eauto.
Qed.

Lemma step_table l g a b : table a -> step l g a b -> table b.
Proof.
  intros H Hs. revert H. destruct Hs as [ev s1 s2 calls Hok E]. intros H.
  pose proof (handle_event_table l g ev s1 H Hok) as Hh. repeat case_decide; [congruence..|].
  destruct Hh as (s3 & c3 & E3 & H3). congruence.
Qed.

Lemma table_initial : table initial.
Proof.
  split; cbn.
  - done.
  - unfold USER_LIMIT. lia.
  - lia.
  - intros p. rewrite elem_of_nil. split; [done|]. intros (i & d & Hi & _). lia.
  - constructor.
Qed.

(** [C23] chat_safe: in every state the parent of the chat server can reach from its
    start, the table is an index: the first [user_count] slots hold the users whose
    child runs, one each, and [sub_process] maps each child to its slot; and any event
    the kernel may report, with any results of the calls (running children are reported
    dead once, and [fork] gives no id of a running child), is handled without a fault
    and leaves such a table ([users] is never read where it was not written, nor indexed
    out of bounds), but for two: when a client joins and [socketpair] fails the
    assertion ends the server, and when its child's id is 65536 or more [sub_process] is
    written out of bounds. *)
Theorem chat_safe listenfd sigfd s ev :
  rtc (step listenfd sigfd) initial s -> event_ok ev s ->
  table s /\
  if decide (joins listenfd ev s /\ (ev_pair ev).1 = -1) then handle_event listenfd sigfd ev s = Err AssertFail
  else if decide (joins listenfd ev s /\ PROCESS_LIMIT <= ev_fork ev) then
    handle_event listenfd sigfd ev s = Err OutOfBounds
  else exists s' calls, handle_event listenfd sigfd ev s = Ok (s', calls) /\ table s'.
Proof.
  intros Hr Hev. assert (H : table s).
  { apply (rtc_invariant (step listenfd sigfd) table initial s); [|apply table_initial|done].
    intros a b. apply step_table. }
  split; [done|]. by apply handle_event_table.
Qed.

(** ** A message goes to everyone else *)



(** ** Two clients on one segment *)

(** segments_collide: the index that a child keeps for its segment is not
    unique.  When any user other than the newest leaves and another client joins,
    the newcomer's child is given the index the newest user's child already
    uses, so the two overwrite each other's messages. *)
Theorem segments_collide s p q p' conn addr ret pair s1 c1 s2 c2 :
  table s -> (p, user_count s - 1) ∈ kids s -> q ∈ (kids s).*1 -> q <> p ->
  reap_one q s = Ok (s1, c1) ->
  0 <= conn -> ret <> -1 -> 0 < p' < PROCESS_LIMIT -> p' ∉ (kids s1).*1 ->
  on_listen conn addr ret pair p' s1 = Ok (s2, c2) ->
  p <> p' /\ (p, user_count s - 1) ∈ kids s2 /\ (p', user_count s - 1) ∈ kids s2.
Proof.
  intros H Hp Hq Hqp E1 Hconn Hret Hp' Hnew E2.
  destruct (reap_one_table q s H Hq) as (s1' & c1' & E1' & H1 & Hk & Hc & _).
  rewrite E1 in E1'. injection E1' as <- <-.
  assert (Hin : (p, user_count s - 1) ∈ kids s1) by (rewrite Hk; apply list_elem_of_filter; done).
  split; [intros ->; apply Hnew, list_elem_of_fmap; by exists (p', user_count s - 1)|].
  pose proof (t_count _ H1) as Hc1. pose proof (t_count _ H) as Hc0. pose proof (t_len _ H1) as Hlen.
  unfold USER_LIMIT in *. unfold on_listen in E2.
  rewrite decide_False, decide_False in E2 by (unfold USER_LIMIT; lia). cbv zeta in E2.
  rewrite aset_ok in E2 by (rewrite Hlen; lia). cbn [mbind res_bind] in E2.
  rewrite !decide_False in E2 by lia.
  rewrite aset_ok in E2 by (rewrite length_insert, Hlen; lia). cbn [mbind res_bind] in E2.
  unfold sub_set in E2. rewrite decide_True in E2 by lia. cbn [mbind res_bind] in E2.
  injection E2 as <- <-. cbn [kids]. rewrite <- Hc in *. rewrite !elem_of_cons. auto.
Qed.

(** ** Examples *)

(** [after s r]: the state a handler left, or [s]. *)
Definition after (s : chat) (r : res (chat * list call)) : chat :=
  match r with Ok (s', _) => s' | Err _ => s end.

(** Two clients have joined: children 100 and 101. *)
Definition one_user : chat := after initial (on_listen 7 1 0 (8, 9) 100 initial).
Definition two_users : chat := after initial (on_listen 7 2 0 (10, 11) 101 one_user).

Lemma after_table conn addr ret pair p s s' :
  s' = after initial (on_listen conn addr ret pair p s) -> table s -> fork_ok s p ->
  table s'.
Proof.
  intros -> H Hf. pose proof (on_listen_table conn addr ret pair p s H Hf) as E. repeat case_decide.
  - rewrite E. apply table_initial.
  - rewrite E. apply table_initial.
  - by destruct E as (? & ? & -> & ?).
Qed.

Lemma one_user_table : table one_user.
Proof.
  apply (after_table 7 1 0 (8, 9) 100 initial); [done|apply table_initial|].
  right. split; [lia|]. decided.
Qed.

Lemma two_users_table : table two_users.
Proof.
  apply (after_table 7 2 0 (10, 11) 101 one_user); [done|apply one_user_table|].
  right. split; [lia|]. decided.
Qed.

Definition join_event : event := Event 3 true (7, 1) (0, (8, 9)) 100 [] None.
(** The child died, and then the server was told to stop. *)
Definition leave_event : event :=
  Event 4 true (-1, 0) (0, (0, 0)) (-1) [(SIGCHLD, [100]); (SIGTERM, [])] None.

(** A client joins, and its child's id is too large. *)
Definition large_event : event := Event 3 true (12, 2) (0, (10, 11)) 70000 [] None.

Lemma chat_safe_witness :
  rtc (step 3 4) initial one_user /\ event_ok leave_event one_user /\
  (exists s' calls, handle_event 3 4 leave_event one_user = Ok (s', calls) /\ table s') /\
  handle_event 3 4 large_event one_user = Err OutOfBounds.
Proof.
  assert (Hr : rtc (step 3 4) initial one_user).
  { eapply rtc_once, (Step _ _ join_event); [|reflexivity].
    split; [right; split; [cbn; lia|decided]|exact I]. }
  assert (Hok : event_ok leave_event one_user).
  { split; [left; cbn; lia|]. cbn [sigs_ok leave_event ev_sigs]. rewrite decide_True by done.
    split_and!; [decided|decided|]. by rewrite decide_False. }
  assert (Hlarge : event_ok large_event one_user) by (split; [right; split; [cbn; lia|decided]|exact I]).
  split_and!; [exact Hr|exact Hok| |].
  - exact (proj2 (chat_safe 3 4 one_user leave_event Hr Hok)).
  - exact (proj2 (chat_safe 3 4 one_user large_event Hr Hlarge)).
Defined.


Definition left_one : chat := after initial (reap_one 100 two_users).

(** The newest, 101, keeps segment 1; when 100 left, 102 is given segment 1 too. *)
Lemma segments_collide_witness :
  reap_one 100 two_users = Ok (left_one, [EpDel 8; Close 8]) /\
  101 <> 102 /\
  exists s2 c2, on_listen 7 5 0 (12, 13) 102 left_one = Ok (s2, c2) /\
    (101, 1) ∈ kids s2 /\ (102, 1) ∈ kids s2.
Proof.
  split; [vm_compute; reflexivity|]. split; [lia|].
  eexists _, _. split; [vm_compute; reflexivity|].
  refine (proj2 (segments_collide two_users 101 100 102 7 5 0 (12, 13) left_one _ _ _
            two_users_table _ _ _ _ _ _ _ _ _)); try (vm_compute; reflexivity); try lia; try decided.
Defined.
