(* ===== verification/ChatServer.v ===== *)
(** * The chat room over poll (socket/io_multiplexing/io_chatroom_server.c)

    The whole of the loop: the array handed to [poll], the data of the users by
    descriptor, and the pointers from a user's [write_buf] into another user's
    [buf].  What [poll], [accept] and [recv] answer are arguments. *)

From S2P Require Import Prelude CString.

Definition USER_LIMIT : Z := 5.
Definition BUFFER_SIZE : nat := 64.
Definition FD_LIMIT : Z := 65535.
#[global] Arguments BUFFER_SIZE : simpl never.

Definition POLLIN : Z := 1.
Definition POLLOUT : Z := 4.
Definition POLLERR : Z := 8.
Definition POLLRDHUP : Z := 8192.

(** [x & m], as a condition. *)
Definition has (x m : Z) : bool := negb (Z.land x m =? 0).

Record pollfd := Pollfd { fd : Z; events : Z; revents : Z }.

(** A [char *] that is not initialised, null, or the [buf] of the user of [g]. *)
Inductive wptr := WUninit | WNull | WBuf (g : Z).

(** [buf] is [None] as long as nothing was stored there. *)
Record client_data := Client { address : Z; write_buf : wptr; buf : option bytes }.

Definition blank : client_data := Client 0 WUninit None.

Inductive call :=
  | Send (fd : Z) (data : bytes)
  | Close (fd : Z)
  | Nonblock (fd : Z)
  | GetError (fd : Z).

Record room := Room { fds : list pollfd; users : gmap Z client_data; user_counter : Z }.

Definition initial (listenfd : Z) : room :=
  Room (Pollfd listenfd (Z.lor POLLIN POLLERR) 0 :: replicate 5 (Pollfd (-1) 0 0)) ∅ 0.

(** [users[k]], an element of an array of [FD_LIMIT] that [malloc] returned. *)
Definition slot (u : gmap Z client_data) (k : Z) : client_data := default blank (u !! k).
Definition user_get (u : gmap Z client_data) (k : Z) : res client_data :=
  if decide (0 <= k < FD_LIMIT) then Ok (slot u k) else Err OutOfBounds.
Definition user_set (u : gmap Z client_data) (k : Z) (d : client_data) : res (gmap Z client_data) :=
  if decide (0 <= k < FD_LIMIT) then Ok (<[k := d]> u) else Err OutOfBounds.

(** What the system calls of one pass answer: [accept] (and the address) and, for
    each descriptor, [recv]. *)
Record env := Env { accepted : Z * Z; received : Z -> recv_t }.

(** ** The branches *)

Definition on_listen (e : env) (s : room) : res (room * list call) :=
  let '(connfd, addr) := accepted e in
  if decide (connfd < 0) then Ok (s, [])
  else if decide (user_counter s >= USER_LIMIT) then
    Ok (s, [Send connfd (lit "too many user" ++ [LF])])
  else
    let n := user_counter s + 1 in
    d ← user_get (users s) connfd;
    u ← user_set (users s) connfd (Client addr (write_buf d) (buf d));
    f ← aset (fds s) n (Pollfd connfd (Z.lor (Z.lor POLLIN POLLRDHUP) POLLERR) 0);
    Ok (Room f u n, [Nonblock connfd]).

(** The user of entry [i] leaves: its data and its entry are those of the last. *)
Definition leave (i : Z) (p : pollfd) (s : room) : res room :=
  last ← aget (fds s) (user_counter s);
  d ← user_get (users s) (fd last);
  u ← user_set (users s) (fd p) d;
  f ← aset (fds s) i last;
  Ok (Room f u (user_counter s - 1)).

(** [|= ~POLLIN] and [|= POLLOUT]; both values fit the [short]. *)
Definition mark (p : pollfd) : pollfd :=
  Pollfd (fd p) (Z.lor (Z.lor (events p) (Z.lnot POLLIN)) POLLOUT) (revents p).

(** The loop over the entries from [j] on. *)
Fixpoint mark_loop (n : nat) (j connfd : Z) (s : room) : res room :=
  match n with
  | O => Ok s
  | S n =>
      p ← aget (fds s) j;
      if decide (fd p = connfd) then mark_loop n (j + 1) connfd s
      else
        f ← aset (fds s) j (mark p);
        d ← user_get (users s) (fd p);
        u ← user_set (users s) (fd p) (Client (address d) (WBuf connfd) (buf d));
        mark_loop n (j + 1) connfd (Room f u (user_counter s))
  end.

(** [buf] after the [memset] and a [recv] that stored [data]. *)
Definition filled (data : bytes) : bytes := data ++ replicate (BUFFER_SIZE - length data) NUL.

(** Data of entry [i]; the result says whether the user was removed. *)
Definition on_data (e : env) (i : Z) (p : pollfd) (s : room) : res (room * bool * list call) :=
  let connfd := fd p in
  d ← user_get (users s) connfd;
  let store data :=
    u ← user_set (users s) connfd (Client (address d) (write_buf d) (Some (filled data)));
    Ok (Room (fds s) u (user_counter s)) in
  match received e connfd with
  | Again => s ← store []; Ok (s, false, [])
  | RecvError => s ← store []; s ← leave i p s; Ok (s, true, [Close connfd])
  | Received data =>
      let data := take (BUFFER_SIZE - 1) data in
      s ← store data;
      if decide (data = []) then Ok (s, false, [])
      else s ← mark_loop (Z.to_nat (user_counter s)) 1 connfd s; Ok (s, false, [])
  end.

(** [send] up to the first NUL of what [write_buf] points to. *)
Definition on_writable (i : Z) (p : pollfd) (s : room) : res (room * list call) :=
  d ← user_get (users s) (fd p);
  match write_buf d with
  | WUninit => Err Uninit
  | WNull => Ok (s, [])
  | WBuf g =>
      o ← user_get (users s) g;
      b ← from_opt Uninit (buf o);
      text ← from_opt OutOfBounds (upto_nul b);
      u ← user_set (users s) (fd p) (Client (address d) WNull (buf d));
      f ← aset (fds s) i
            (Pollfd (fd p) (Z.lor (Z.lor (events p) (Z.lnot POLLOUT)) POLLIN) (revents p));
      Ok (Room f u (user_counter s), [Send (fd p) text])
  end.

(** ** The loop *)

(** One iteration; the index of the next. *)
Definition body (listenfd : Z) (e : env) (i : Z) (s : room) : res (room * Z * list call) :=
  p ← aget (fds s) i;
  if decide (fd p = listenfd /\ has (revents p) POLLIN) then
    '(s, calls) ← on_listen e s; Ok (s, i + 1, calls)
  else if has (revents p) POLLERR then Ok (s, i + 1, [GetError (fd p)])
  else if has (revents p) POLLRDHUP then
    s ← leave i p s; Ok (s, i, [Close (fd p)])
  else if has (revents p) POLLIN then
    '(s, left_, calls) ← on_data e i p s; Ok (s, (if left_ : bool then i else i + 1), calls)
  else if has (revents p) POLLOUT then
    '(s, calls) ← on_writable i p s; Ok (s, i + 1, calls)
  else Ok (s, i + 1, []).

Fixpoint pass (fuel : nat) (listenfd : Z) (e : env) (i : Z) (s : room) : res (room * list call) :=
  if decide (i < user_counter s + 1) then
    match fuel with
    | O => Err OutOfFuel
    | S fuel =>
        '(s, i, calls) ← body listenfd e i s;
        '(s, calls') ← pass fuel listenfd e i s;
        Ok (s, calls ++ calls')
    end
  else Ok (s, []).

(** What [poll] stores in the first [user_counter + 1] entries. *)
Definition set_revents (revs : list Z) (s : room) : room :=
  Room (zip_with (fun p r => Pollfd (fd p) (events p) r) (take (length revs) (fds s)) revs ++
        drop (length revs) (fds s)) (users s) (user_counter s).

(** [None]: [poll] failed. *)
Fixpoint serve (listenfd : Z) (polls : list (option (list Z * env))) (s : room)
    : res (room * list call) :=
  match polls with
  | [] => Err OutOfFuel
  | None :: _ => Ok (s, [Close listenfd])
  | Some (revs, e) :: polls =>
      '(s, calls) ← pass 8 listenfd e 0 (set_revents revs s);
      '(s, calls') ← serve listenfd polls s;
      Ok (s, calls ++ calls')
  end.

(** ** Bits and slots *)

Lemma has_lor x y m : has (Z.lor x y) m = has x m || has y m.
Proof.
  unfold has. rewrite (Z.land_comm (Z.lor x y)), Z.land_lor_distr_r, !(Z.land_comm m).
  apply eq_bool_prop_intro. rewrite orb_True, !negb_True, !Is_true_true, !Z.eqb_eq, Z.lor_eq_0_iff.
  destruct (decide (Z.land x m = 0)), (decide (Z.land y m = 0)); tauto.
Qed.

Lemma slot_insert u k d j : slot (<[k := d]> u) j = if decide (j = k) then d else slot u j.
Proof.
  unfold slot. case_decide as E; [subst; by rewrite lookup_insert_eq|by rewrite lookup_insert_ne].
Qed.

Lemma user_get_ok u k : 0 <= k < FD_LIMIT -> user_get u k = Ok (slot u k).
Proof. intros. unfold user_get. by rewrite decide_True. Qed.
Lemma user_set_ok u k d : 0 <= k < FD_LIMIT -> user_set u k d = Ok (<[k := d]> u).
Proof. intros. unfold user_set. by rewrite decide_True. Qed.

(** ** The state between iterations *)

(** [entry s i p]: entry [i] of the online users is [p]. *)
Definition entry (s : room) (i : Z) (p : pollfd) : Prop :=
  1 <= i <= user_counter s /\ fds s !! Z.to_nat i = Some p.

Record room_ok (l : Z) (s : room) : Prop := {
  ro_len : length (fds s) = 6%nat;
  ro_count : 0 <= user_counter s <= USER_LIMIT;
  ro_head : exists p, fds s !! 0%nat = Some p /\ fd p = l /\ events p = Z.lor POLLIN POLLERR /\
              has (revents p) POLLRDHUP = false /\ has (revents p) POLLOUT = false;
  ro_fd : forall i p, entry s i p -> 0 <= fd p < FD_LIMIT /\ fd p <> l;
  ro_inj : forall i j p q, entry s i p -> entry s j q -> fd p = fd q -> i = j;
  (** who is waited for writing has a pointer *)
  ro_out : forall i p, entry s i p ->
    has (events p) POLLOUT = true \/ has (revents p) POLLOUT = true ->
    write_buf (slot (users s) (fd p)) <> WUninit;
  ro_ptr : forall k g, write_buf (slot (users s) k) = WBuf g -> 0 <= g < FD_LIMIT;
  ro_buf : forall k b, buf (slot (users s) k) = Some b -> exists t, upto_nul b = Some t }.

(** Every pointer is to a string. *)
Definition bufs_ok (s : room) : Prop :=
  forall k g, write_buf (slot (users s) k) = WBuf g ->
  exists b t, buf (slot (users s) g) = Some b /\ upto_nul b = Some t.

Lemma entry_lookup l s i : room_ok l s -> 1 <= i <= user_counter s -> exists p, entry s i p.
Proof.
  intros H Hi. pose proof (ro_len _ _ H). pose proof (ro_count _ _ H). unfold USER_LIMIT in *.
  destruct (lookup_lt_is_Some_2 (fds s) (Z.to_nat i)) as [p Hp]; [lia|]. by exists p.
Qed.

Lemma entry_aget s i p : entry s i p -> aget (fds s) i = Ok p.
Proof. intros [Hi Hp]. apply aget_ok; [lia|done]. Qed.

(** [same_state]: what an update of entry [i] keeps of the others. *)
Lemma entry_insert s i p u j q :
  1 <= i <= user_counter s -> (Z.to_nat i < length (fds s))%nat ->
  entry (Room (<[Z.to_nat i := p]> (fds s)) u (user_counter s)) j q <->
  (j = i /\ q = p) \/ (j <> i /\ entry s j q).
Proof.
  intros Hi Hlen. unfold entry. cbn. destruct (decide (j = i)) as [->|Hne].
  - rewrite list_lookup_insert_eq by done. naive_solver.
  - destruct (decide (1 <= j)); [|naive_solver lia].
    rewrite list_lookup_insert_ne by lia. naive_solver.
Qed.

(** Replacing entry [i] by one of the same descriptor, and the data of one user. *)
Lemma touch_ok l s i p p' k d :
  room_ok l s -> entry s i p -> fd p' = fd p ->
  (forall g, write_buf d = WBuf g -> 0 <= g < FD_LIMIT) -> buf d = buf (slot (users s) k) ->
  (write_buf d = WUninit -> write_buf (slot (users s) k) = WUninit) ->
  (has (events p') POLLOUT = true \/ has (revents p') POLLOUT = true ->
   write_buf (if decide (fd p = k) then d else slot (users s) (fd p)) <> WUninit) ->
  room_ok l (Room (<[Z.to_nat i := p']> (fds s)) (<[k := d]> (users s)) (user_counter s)).
Proof.
  intros H Hp Hfd Hptr Hbuf Huninit Hout. pose proof Hp as [Hi Hpi].
  assert (Hlen : (Z.to_nat i < length (fds s))%nat) by (apply lookup_lt_Some in Hpi; done).
  destruct H as [H1 H2 H3 H4 H5 H6 H7 H8]. split; cbn [fds users user_counter].
  - by rewrite length_insert.
  - done.
  - destruct H3 as (q & Hq & H3). exists q. rewrite list_lookup_insert_ne by lia. done.
  - intros j q [[-> ->]|[_ Hq]]%entry_insert; [|by eapply H4|done|done]. rewrite Hfd. by eapply H4.
  - intros j1 j2 q1 q2 [[-> ->]|[Hn1 E1]]%entry_insert [[-> ->]|[Hn2 E2]]%entry_insert;
      try done; rewrite ?Hfd; intros Heq; by eapply H5.
  - intros j q [[-> ->]|[Hn E]]%entry_insert; try done.
    + rewrite Hfd, slot_insert. done.
    + intros Hb. rewrite slot_insert. destruct (decide (fd q = k)) as [Ek|]; [|by eapply H6].
      intros Hd%Huninit. rewrite <- Ek in Hd. by eapply H6.
  - intros j g. rewrite slot_insert. destruct (decide (j = k)); [apply Hptr|apply H7].
  - intros j b. rewrite slot_insert. destruct (decide (j = k)); [rewrite Hbuf|]; apply H8.
Qed.

(** Storing data of user [k] that keeps its pointer. *)
Lemma store_ok l s k d :
  room_ok l s -> write_buf d = write_buf (slot (users s) k) ->
  (forall b, buf d = Some b -> exists t, upto_nul b = Some t) ->
  room_ok l (Room (fds s) (<[k := d]> (users s)) (user_counter s)).
Proof.
  intros [H1 H2 H3 H4 H5 H6 H7 H8] Hd Hb. split; try done; cbn [fds users user_counter].
  - intros i p Hp Hb'. rewrite slot_insert. destruct (decide (fd p = k)) as [<-|].
    + rewrite Hd. by eapply H6.
    + by eapply H6.
  - intros j g. rewrite slot_insert. destruct (decide (j = k)); [rewrite Hd|]; apply H7.
  - intros j b. rewrite slot_insert. destruct (decide (j = k)); [apply Hb|apply H8].
Qed.

(** The entries after entry [i] was replaced by the last, [q]. *)
Lemma leave_entry l s i q u j x :
  room_ok l s -> 1 <= i <= user_counter s -> entry s (user_counter s) q ->
  entry (Room (<[Z.to_nat i := q]> (fds s)) u (user_counter s - 1)) j x ->
  exists j', entry s j' x /\ j' <> i /\ j < user_counter s /\
    (j' = j /\ j <> i \/ j' = user_counter s /\ j = i).
Proof.
  intros H Hi Hq [Hj Hx]. pose proof (ro_len _ _ H) as Hlen. pose proof (ro_count _ _ H) as Hc.
  unfold USER_LIMIT in Hc. cbn [user_counter fds] in Hj, Hx. destruct (decide (j = i)) as [->|Hne].
  - rewrite list_lookup_insert_eq in Hx by lia. injection Hx as <-. exists (user_counter s).
    split_and!; [done|lia|lia|by right].
  - rewrite list_lookup_insert_ne in Hx by lia. exists j.
    split_and!; [split; [lia|done]|done|lia|by left].
Qed.

Lemma leave_ok l s i p q :
  room_ok l s -> entry s i p -> entry s (user_counter s) q ->
  exists s', leave i p s = Ok s' /\ room_ok l s' /\ user_counter s' = user_counter s - 1 /\
    (forall k, slot (users s') k = slot (users s) (if decide (k = fd p) then fd q else k)) /\
    (forall j x, j <> i -> j < user_counter s -> entry s j x -> entry s' j x) /\
    (i < user_counter s -> entry s' i q).
Proof.
  intros H Hp Hq. pose proof Hp as [Hi Hpi]. pose proof (ro_len _ _ H) as Hlen.
  pose proof (ro_count _ _ H) as Hc. unfold USER_LIMIT in Hc.
  destruct (ro_fd _ _ H _ _ Hp) as [Hfp _], (ro_fd _ _ H _ _ Hq) as [Hfq _].
  unfold leave. rewrite (bind_ok _ _ _ (entry_aget _ _ _ Hq)), user_get_ok by done.
  cbn [mbind res_bind]. rewrite user_set_ok by done. cbn [mbind res_bind].
  rewrite aset_ok by lia. cbn [mbind res_bind]. eexists. split; [reflexivity|].
  pose proof (fun u j x => leave_entry l s i q u j x H Hi Hq) as Hent.
  cbn [users user_counter]. split_and!; [|done| | |].
  4: { intros Hlt. split; cbn [user_counter fds]; [lia|]. by rewrite list_lookup_insert_eq by lia. }
  2: { intros k. rewrite slot_insert. by destruct (decide (k = fd p)). }
  2: { intros j x Hne Hlt [Hj Hx]. split; cbn [user_counter fds]; [lia|].
       by rewrite list_lookup_insert_ne by lia. }
  split; cbn [fds users user_counter].
  - by rewrite length_insert.
  - unfold USER_LIMIT. lia.
  - destruct (ro_head _ _ H) as (x & Hx & Hx'). exists x. by rewrite list_lookup_insert_ne by lia.
  - intros j x (j' & E & _)%Hent. by eapply (ro_fd _ _ H).
  - intros j1 j2 x y (k1 & E1 & N1 & B1 & O1)%Hent (k2 & E2 & N2 & B2 & O2)%Hent Heq.
    pose proof (ro_inj _ _ H _ _ _ _ E1 E2 Heq) as Hk. lia.
  - intros j x (j' & E & Hne & _)%Hent Hb. rewrite slot_insert.
    destruct (decide (fd x = fd p)) as [Heq|]; [|by eapply (ro_out _ _ H)].
    exfalso. apply Hne. by apply (ro_inj _ _ H _ _ _ _ E Hp).
  - intros j g. rewrite slot_insert. case_decide; apply (ro_ptr _ _ H).
  - intros j b. rewrite slot_insert. case_decide; apply (ro_buf _ _ H).
Qed.

(** The entries before [n] that are not [connfd]'s are marked, and their users
    point to [connfd]'s buffer. *)
Lemma mark_loop_ok l connfd n : forall j s,
  room_ok l s -> 0 <= connfd < FD_LIMIT -> 1 <= j -> Z.of_nat n + j = user_counter s + 1 ->
  exists s', mark_loop n j connfd s = Ok s' /\ room_ok l s' /\ user_counter s' = user_counter s /\
    (forall i p, entry s i p ->
       entry s' i (if decide (j <= i /\ fd p <> connfd) then mark p else p) /\
       write_buf (slot (users s') (fd p)) =
         (if decide (j <= i /\ fd p <> connfd) then WBuf connfd
          else write_buf (slot (users s) (fd p)))) /\
    (forall k, buf (slot (users s') k) = buf (slot (users s) k)) /\
    (forall k, write_buf (slot (users s') k) = WBuf connfd \/
               write_buf (slot (users s') k) = write_buf (slot (users s) k)).
Proof.
  induction n as [|n IH]; intros j s H Hc Hj Hn; cbn [mark_loop].
  { exists s. split_and!; [done|done|done| |done|by right].
    intros i p Hp. pose proof Hp as [Hi _]. by rewrite !decide_False by lia. }
  destruct (entry_lookup l s j H) as (p & Hp); [lia|].
  pose proof Hp as [_ Hpj]. pose proof (ro_len _ _ H) as Hlen. pose proof (ro_count _ _ H) as Hcnt.
  unfold USER_LIMIT in Hcnt. destruct (ro_fd _ _ H _ _ Hp) as [Hfp _].
  rewrite (bind_ok _ _ _ (entry_aget _ _ _ Hp)). destruct (decide (fd p = connfd)) as [Heq|Hne].
  - destruct (IH (j + 1) s H Hc) as (s' & E & H' & Hu & Hent & Hb & Hw); [lia..|].
    exists s'. split_and!; try done. intros i q Hq. destruct (Hent i q Hq) as [E1 E2].
    destruct (decide (i = j)) as [->|Hij].
    + assert (q = p) as -> by (destruct Hq as [_ Hq]; congruence).
      rewrite !decide_False in * by tauto. done.
    + destruct (decide (j <= i /\ fd q <> connfd)) as [D|D];
        [rewrite !decide_True in * by lia|rewrite !decide_False in * by lia]; done.
  - rewrite aset_ok by lia. cbn [mbind res_bind]. rewrite user_get_ok by done. cbn [mbind res_bind].
    rewrite user_set_ok by done. cbn [mbind res_bind].
    set (d := Client _ _ _). set (s1 := Room _ _ _).
    assert (H1 : room_ok l s1).
    { apply (touch_ok l s j p); try done; cbn.
      - by intros g [= <-].
      - by rewrite decide_True. }
    destruct (IH (j + 1) s1 H1 Hc) as (s' & E & H' & Hu & Hent & Hb & Hw); [lia|cbn; lia|].
    assert (Hlen' : (Z.to_nat j < length (fds s))%nat) by lia.
    assert (Hjr : 1 <= j <= user_counter s) by lia.
    exists s'. split_and!; try done.
    + intros i q Hq. destruct (decide (i = j)) as [->|Hij].
      * assert (q = p) as -> by (destruct Hq as [_ Hq]; congruence).
        rewrite !decide_True by lia. destruct (Hent j (mark p)) as [E1 E2].
        { apply entry_insert; [done|done|]. by left. }
        rewrite !decide_False in * by lia. split; [done|]. cbn [mark fd users s1] in E2.
        rewrite E2, slot_insert. by rewrite decide_True.
      * destruct (Hent i q) as [E1 E2].
        { apply entry_insert; [done|done|]. right. done. }
        assert (Hs : slot (users s1) (fd q) = slot (users s) (fd q)).
        { cbn. rewrite slot_insert, decide_False; [done|]. intros Hf. apply Hij.
          by apply (ro_inj _ _ H _ _ _ _ Hq Hp). }
        rewrite Hs in E2. destruct (decide (j <= i /\ fd q <> connfd)) as [D|D];
          [rewrite !decide_True in * by lia|rewrite !decide_False in * by lia]; done.
    + intros k. rewrite Hb. cbn [users s1]. rewrite slot_insert. by case_decide; subst.
    + intros k. destruct (Hw k) as [?|Hk]; [by left|]. rewrite Hk. cbn [users s1].
      rewrite slot_insert. case_decide; [by left|by right].
Qed.

(** ** Every branch *)

Definition valid (o : option bytes) : Prop := exists b t, o = Some b /\ upto_nul b = Some t.

Lemma bufs_ok_step s s' :
  (forall k g, write_buf (slot (users s') k) = WBuf g ->
     (exists k', write_buf (slot (users s) k') = WBuf g) \/ valid (buf (slot (users s') g))) ->
  (forall k, buf (slot (users s') k) = buf (slot (users s) k) \/ valid (buf (slot (users s') k))) ->
  bufs_ok s -> bufs_ok s'.
Proof.
  intros Hw Hb H k g Hk. destruct (Hw k g Hk) as [[k' Hk']|Hv]; [|done].
  destruct (Hb g) as [->|Hv]; [by apply (H k' g)|done].
Qed.

Lemma filled_valid data : (length data < BUFFER_SIZE)%nat -> exists t, upto_nul (filled data) = Some t.
Proof.
  unfold filled. intros H. replace (BUFFER_SIZE - length data)%nat with (S (BUFFER_SIZE - length data - 1)) by lia.
  cbn [replicate]. generalize (replicate (BUFFER_SIZE - length data - 1) NUL) as r. intros r. clear H.
  induction data as [|c data [t IH]]; [by eauto|]. cbn. case_decide; [by eauto|]. rewrite IH. cbn. by eauto.
Qed.

Lemma filled_text data : (length data < BUFFER_SIZE)%nat -> NUL ∉ data -> upto_nul (filled data) = Some data.
Proof.
  unfold filled. intros H Hn. replace (BUFFER_SIZE - length data)%nat with (S (BUFFER_SIZE - length data - 1)) by lia.
  cbn [replicate]. by apply upto_nul_app.
Qed.

(** What [accept] may answer: an error, or a descriptor that is not in use. *)
Definition fresh (l : Z) (e : env) (s : room) : Prop :=
  (accepted e).1 < 0 \/
  (0 <= (accepted e).1 < FD_LIMIT /\ (accepted e).1 <> l /\
   forall j q, entry s j q -> fd q <> (accepted e).1).

(** No one hangs up in this pass and no [recv] fails. *)
Definition quiet (e : env) (s : room) : Prop :=
  forall i p, entry s i p -> has (revents p) POLLRDHUP = false /\
    (has (revents p) POLLIN = true -> received e (fd p) <> RecvError).

Lemma on_listen_ok l e s :
  room_ok l s -> fresh l e s ->
  exists s' calls, on_listen e s = Ok (s', calls) /\ room_ok l s' /\
    user_counter s <= user_counter s' <= user_counter s + 1 /\
    (quiet e s -> quiet e s') /\ (bufs_ok s -> bufs_ok s').
Proof.
  intros H Hf. unfold on_listen. destruct (accepted e) as [c addr] eqn:Ea.
  unfold fresh in Hf. rewrite Ea in Hf. cbn in Hf. case_decide; [by eexists _, _; split_and!; [done|done|lia|lia|tauto|tauto]|].
  case_decide as Hlim; [by eexists _, _; split_and!; [done|done|lia|lia|tauto|tauto]|]. unfold USER_LIMIT in Hlim.
  destruct Hf as [|(Hc & Hcl & Hfr)]; [lia|]. rewrite user_get_ok by done. cbn [mbind res_bind].
  rewrite user_set_ok by done. cbn [mbind res_bind].
  pose proof (ro_len _ _ H) as Hlen. pose proof (ro_count _ _ H) as Hcnt.
  rewrite aset_ok by lia. cbn [mbind res_bind]. eexists _, _. split; [reflexivity|].
  set (d := Client _ _ _). set (q := Pollfd _ _ _). set (s' := Room _ _ _).
  assert (Hent : forall j x, entry s' j x -> (j = user_counter s + 1 /\ x = q) \/ entry s j x).
  { intros j x [Hj Hx]. cbn in Hj, Hx. destruct (decide (j = user_counter s + 1)) as [->|Hne].
    - rewrite list_lookup_insert_eq in Hx by lia. left. by injection Hx as <-.
    - rewrite list_lookup_insert_ne in Hx by lia. right. split; [lia|done]. }
  assert (Hs : forall k, write_buf (slot (users s') k) = write_buf (slot (users s) k) /\
                         buf (slot (users s') k) = buf (slot (users s) k)).
  { intros k. cbn [users s']. rewrite slot_insert. destruct (decide (k = c)) as [->|]; done. }
  split_and!; [|cbn [user_counter s']; lia|cbn [user_counter s']; lia| |].
  - split; cbn [fds user_counter s'].
    + by rewrite length_insert.
    + unfold USER_LIMIT. lia.
    + destruct (ro_head _ _ H) as (x & Hx & Hx'). exists x. by rewrite list_lookup_insert_ne by lia.
    + intros j x [[-> ->]|Hx]%Hent; [done|by eapply (ro_fd _ _ H)].
    + intros j1 j2 x y [[-> ->]|E1]%Hent [[-> ->]|E2]%Hent Heq; try done.
      * by destruct (Hfr _ _ E2).
      * by destruct (Hfr _ _ E1).
      * by eapply (ro_inj _ _ H).
    + intros j x [[-> ->]|Hx]%Hent Hb; [by destruct Hb|].
      destruct (Hs (fd x)) as [-> _]. by eapply (ro_out _ _ H).
    + intros k g. destruct (Hs k) as [-> _]. apply (ro_ptr _ _ H).
    + intros k b. destruct (Hs k) as [_ ->]. apply (ro_buf _ _ H).
  - intros Hqu j x [[-> ->]|Hx]%Hent; [done|by eapply Hqu].
  - apply bufs_ok_step; [|intros k; left; apply Hs]. intros k g. destruct (Hs k) as [-> _]. eauto.
Qed.

Lemma on_writable_ok l s i p e :
  room_ok l s -> entry s i p -> has (revents p) POLLOUT = true ->
  (exists s' calls, on_writable i p s = Ok (s', calls) /\ room_ok l s' /\
     user_counter s' = user_counter s /\ (quiet e s -> quiet e s') /\ (bufs_ok s -> bufs_ok s')) \/
  (on_writable i p s = Err Uninit /\ ~ bufs_ok s).
Proof.
  intros H Hp Ho. destruct (ro_fd _ _ H _ _ Hp) as [Hfp _]. pose proof Hp as [Hi Hpi].
  pose proof (ro_len _ _ H) as Hlen. pose proof (ro_count _ _ H) as Hcnt. unfold USER_LIMIT in Hcnt.
  pose proof (ro_out _ _ H _ _ Hp (or_intror Ho)) as Hw.
  unfold on_writable. rewrite user_get_ok by done. cbn [mbind res_bind].
  destruct (write_buf (slot (users s) (fd p))) as [| |g] eqn:Ew; [done| |].
  { left. by eexists _, _. }
  pose proof (ro_ptr _ _ H _ _ Ew) as Hg. rewrite user_get_ok by done. cbn [mbind res_bind].
  destruct (buf (slot (users s) g)) as [b|] eqn:Eb; cbn [from_opt mbind res_bind].
  2: { right. split; [done|]. intros Hb. destruct (Hb _ _ Ew) as (? & ? & Hx & _). congruence. }
  destruct (ro_buf _ _ H _ _ Eb) as [t ->]. cbn [from_opt mbind res_bind].
  left. rewrite user_set_ok by done. cbn [mbind res_bind]. rewrite aset_ok by lia.
  cbn [mbind res_bind]. eexists _, _. split; [reflexivity|]. split_and!; [|done| |].
  - apply (touch_ok l s i p); try done. cbn. by rewrite decide_True.
  - intros Hq j x [[-> ->]|[_ Hx]]%entry_insert; [by apply (Hq i p)|by apply (Hq j x)|done|lia].
  - apply bufs_ok_step; cbn [users].
    + intros k g'. rewrite slot_insert. case_decide; [done|eauto].
    + intros k. left. rewrite slot_insert. by case_decide; subst.
Qed.

(** Received bytes stored in the slot of their sender. *)
Lemma store_data_ok l f s :
  room_ok l s -> 0 <= f < FD_LIMIT -> forall data, (length data < BUFFER_SIZE)%nat ->
  exists s1, (u ← user_set (users s) f (Client (address (slot (users s) f))
                (write_buf (slot (users s) f)) (Some (filled data)));
              Ok (Room (fds s) u (user_counter s))) = Ok s1 /\ room_ok l s1 /\ fds s1 = fds s /\
    user_counter s1 = user_counter s /\ (bufs_ok s -> bufs_ok s1).
Proof.
  intros H Hf data Hl. rewrite user_set_ok by done. cbn [mbind res_bind]. eexists. split; [reflexivity|].
  destruct (filled_valid data Hl) as [t Ht]. split_and!; [|done|done|].
  - apply store_ok; [done|done|]. cbn. intros b [= <-]. by exists t.
  - apply bufs_ok_step; cbn [users].
    + intros k g. rewrite slot_insert. case_decide; subst; cbn; eauto.
    + intros k. rewrite slot_insert. case_decide; [right|by left]. cbn. by exists (filled data), t.
Qed.

Lemma on_data_ok l e i p s :
  room_ok l s -> entry s i p -> has (revents p) POLLIN = true ->
  exists s' left_ calls, on_data e i p s = Ok (s', left_, calls) /\ room_ok l s' /\
    user_counter s' = user_counter s - (if left_ then 1 else 0) /\
    (quiet e s -> quiet e s' /\ (bufs_ok s -> bufs_ok s')).
Proof.
  intros H Hp Hin. destruct (ro_fd _ _ H _ _ Hp) as [Hfp _]. pose proof Hp as [Hi Hpi].
  pose proof (store_data_ok l (fd p) s H Hfp) as Hstore.
  assert (Hpos : (0 < BUFFER_SIZE)%nat) by (apply Nat.ltb_lt; reflexivity).
  unfold on_data. rewrite user_get_ok by done. cbn [mbind res_bind].
  destruct (received e (fd p)) as [data| |] eqn:Er.
  - destruct (Hstore (take (BUFFER_SIZE - 1) data)) as (s1 & E1 & H1 & Hf1 & Hu1 & Hb1).
    { rewrite length_take. lia. }
    cbv zeta. rewrite (bind_ok _ _ _ E1). assert (Hent1 : forall j q, entry s1 j q <-> entry s j q).
    { intros j q. unfold entry. by rewrite Hf1, Hu1. }
    case_decide.
    { eexists _, _, _. split_and!; [done|done|cbn; lia|]. intros Hq. split; [|done].
      intros j q Hj%Hent1. by apply (Hq j q). }
    pose proof (ro_count _ _ H1) as Hc1.
    destruct (mark_loop_ok l (fd p) (Z.to_nat (user_counter s1)) 1 s1 H1 Hfp) as (s' & E & H' & Hu & Hent & Hbf & Hw); [lia|lia|].
    rewrite (bind_ok _ _ _ E). eexists _, _, _. split_and!; [done|done|cbn; lia|]. intros Hq.
    split.
    + intros j q Hj. assert (Hjr : 1 <= j <= user_counter s1) by (destruct Hj; lia).
      destruct (entry_lookup l s1 j H1 Hjr) as (q0 & Hq0).
      destruct (Hent j q0 Hq0) as [[_ E1'] _]. destruct Hj as [_ Hj].
      apply Hent1, Hq in Hq0. rewrite E1' in Hj. injection Hj as <-. by case_decide.
    + intros Hb%Hb1. revert Hb. apply bufs_ok_step; [|intros k; left; apply Hbf].
      intros k g Hg. destruct (Hw k) as [Hk|Hk]; [|left; exists k; congruence]. right.
      assert (g = fd p) as -> by congruence. rewrite Hbf.
      rewrite user_set_ok in E1 by done. cbn [mbind res_bind] in E1. injection E1 as <-.
      cbn [users]. rewrite slot_insert, decide_True by done. cbn.
      destruct (filled_valid (take (BUFFER_SIZE - 1) data)) as [t Ht]; [rewrite length_take; lia|].
      by exists (filled (take (BUFFER_SIZE - 1) data)), t.
  - destruct (Hstore []) as (s1 & E1 & H1 & Hf1 & Hu1 & Hb1); [cbn; lia|].
    cbv zeta. rewrite (bind_ok _ _ _ E1). eexists _, _, _. split_and!; [done|done|cbn; lia|]. intros Hq.
    split; [|done]. intros j q [Hj Hx]. apply (Hq j q). split; [lia|congruence].
  - destruct (Hstore []) as (s1 & E1 & H1 & Hf1 & Hu1 & Hb1); [cbn; lia|].
    cbv zeta. rewrite (bind_ok _ _ _ E1).
    assert (Hp1 : entry s1 i p) by (split; [lia|congruence]).
    destruct (entry_lookup l s1 (user_counter s1) H1) as (q & Hq1); [lia|].
    destruct (leave_ok l s1 i p q H1 Hp1 Hq1) as (s' & E & H' & Hu & _).
    rewrite (bind_ok _ _ _ E). eexists _, _, _. split_and!; [done|done|cbn; lia|]. intros Hq.
    destruct (Hq i p Hp) as [_ Hr]. by destruct (Hr Hin).
Qed.

(** ** A pass over the entries *)

(** How many iterations may follow. *)
Definition fuel_left (i : Z) (s : room) : Z :=
  user_counter s + 1 - i + (if decide (i = 0) then 1 else 0).

Lemma body_ok l e i s :
  room_ok l s -> 0 <= i <= user_counter s -> (i = 0 -> fresh l e s) ->
  (exists s' i' calls, body l e i s = Ok (s', i', calls) /\ room_ok l s' /\
     1 <= i' <= user_counter s' + 1 /\ fuel_left i' s' < fuel_left i s /\
     (quiet e s -> quiet e s' /\ (bufs_ok s -> bufs_ok s'))) \/
  (body l e i s = Err Uninit /\ ~ bufs_ok s).
Proof.
  intros H Hi Hf. pose proof (ro_head _ _ H) as (p0 & Hp0 & Hl & Hev & Hr1 & Hr2).
  unfold fuel_left. destruct (decide (i = 0)) as [->|Hne].
  - left. unfold body. rewrite (bind_ok _ _ p0) by (by apply aget_ok). case_decide as Hin.
    + destruct (on_listen_ok l e s H (Hf eq_refl)) as (s' & calls & E & H' & Hu & Hq & Hb).
      rewrite (bind_ok _ _ _ E). eexists _, _, _. split; [reflexivity|].
      rewrite decide_False by lia. split_and!; [done|lia|lia|lia|tauto].
    + rewrite Hr1, Hr2. assert (has (revents p0) POLLIN = false) as ->.
      { destruct (has (revents p0) POLLIN); [|done]. by destruct Hin. }
      destruct (has (revents p0) POLLERR); eexists _, _, _; (split; [reflexivity|]);
        rewrite decide_False by lia; (split_and!; [done|lia|lia|lia|tauto]).
  - destruct (entry_lookup l s i H) as (p & Hp); [lia|].
    destruct (ro_fd _ _ H _ _ Hp) as [_ Hpl]. unfold body. rewrite (bind_ok _ _ _ (entry_aget _ _ _ Hp)).
    rewrite decide_False by tauto. destruct (has (revents p) POLLERR).
    { left. eexists _, _, _. split; [reflexivity|]. rewrite decide_False by lia.
      split_and!; [done|lia|lia|lia|tauto]. }
    destruct (has (revents p) POLLRDHUP) eqn:Erh; [left|destruct (has (revents p) POLLIN) eqn:Ein; [left|]].
    + destruct (entry_lookup l s (user_counter s) H) as (q & Hq); [lia|].
      destruct (leave_ok l s i p q H Hp Hq) as (s' & E & H' & Hu & _). rewrite (bind_ok _ _ _ E).
      eexists _, _, _. split; [reflexivity|]. rewrite decide_False by lia.
      split_and!; [done|lia|lia|lia|]. intros Hqu. destruct (Hqu i p Hp). congruence.
    + destruct (on_data_ok l e i p s H Hp Ein) as (s' & b & calls & E & H' & Hu & Hq).
      rewrite (bind_ok _ _ _ E). eexists _, _, _. split; [reflexivity|].
      destruct b; rewrite decide_False by lia; (split_and!; [done|lia|lia|lia|exact Hq]).
    + destruct (has (revents p) POLLOUT) eqn:Eo.
      * destruct (on_writable_ok l s i p e H Hp Eo) as [(s' & calls & E & H' & Hu & Hq)|[E Hb]].
        -- left. rewrite (bind_ok _ _ _ E). eexists _, _, _. split; [reflexivity|].
           rewrite decide_False by lia. split_and!; [done|lia|lia|lia|tauto].
        -- right. by rewrite E.
      * left. eexists _, _, _. split; [reflexivity|]. rewrite decide_False by lia.
        split_and!; [done|lia|lia|lia|tauto].
Qed.

Lemma pass_ok l e fuel : forall i s,
  room_ok l s -> 0 <= i -> (i = 0 -> fresh l e s) -> fuel_left i s <= Z.of_nat fuel ->
  (exists s' calls, pass fuel l e i s = Ok (s', calls) /\ room_ok l s' /\
     (quiet e s -> bufs_ok s -> bufs_ok s')) \/
  (pass fuel l e i s = Err Uninit /\ ~ (quiet e s /\ bufs_ok s)).
Proof.
  induction fuel as [|fuel IH]; intros i s H Hi Hf Hm; cbn [pass]; case_decide as Hlt.
  2, 4: left; eexists _, _; split_and!; [reflexivity|done|tauto].
  { exfalso. unfold fuel_left in Hm. destruct (decide (i = 0)); lia. }
  destruct (body_ok l e i s H) as [(s1 & i1 & c1 & E & H1 & Hi1 & Hm1 & Hq1)|[E Hb]]; [lia|done| |].
  - rewrite (bind_ok _ _ _ E). cbv beta iota.
    destruct (IH i1 s1 H1) as [(s2 & c2 & E2 & H2 & Hq2)|[E2 Hb2]]; [lia|lia|lia| |].
    + left. rewrite (bind_ok _ _ _ E2). eexists _, _. split_and!; [reflexivity|done|tauto].
    + right. rewrite E2. split; [done|tauto].
  - right. rewrite E. split; [done|tauto].
Qed.

(** ** Rounds *)

(** What [poll] may store: only what an entry is registered for (errors and
    hang-ups apart, which it reports always). *)
Definition polled (revs : list Z) (s : room) : Prop :=
  length revs = Z.to_nat (user_counter s + 1) /\
  forall i p r, fds s !! i = Some p -> revs !! i = Some r ->
    (has r POLLOUT = true -> has (events p) POLLOUT = true) /\
    (has r POLLRDHUP = true -> has (events p) POLLRDHUP = true).

(** A round of the server, where [P] holds of the answers. *)
Inductive round (l : Z) (P : env -> room -> Prop) : room -> room -> Prop :=
  | Round revs e s s' calls :
      polled revs s -> fresh l e (set_revents revs s) -> P e (set_revents revs s) ->
      pass 8 l e 0 (set_revents revs s) = Ok (s', calls) -> round l P s s'.

Lemma set_revents_lookup revs s i :
  fds (set_revents revs s) !! i =
    match fds s !! i, revs !! i with
    | Some p, Some r => Some (Pollfd (fd p) (events p) r)
    | o, _ => o
    end.
Proof.
  cbn [set_revents fds]. set (n := length revs).
  destruct (decide (i < n)%nat) as [Hi|Hi].
  - destruct (fds s !! i) as [p|] eqn:Ep.
    + destruct (lookup_lt_is_Some_2 revs i Hi) as [r Hr].
      rewrite lookup_app_l, lookup_zip_with, lookup_take_lt, Ep, Hr by
        (try (apply lookup_lt_Some in Ep; rewrite length_zip_with, length_take; lia); lia). done.
    + apply lookup_ge_None in Ep. rewrite lookup_ge_None. 
      rewrite length_app, length_zip_with, length_take, length_drop. lia.
  - rewrite (lookup_ge_None_2 revs i) by lia. transitivity (fds s !! i); [|by destruct (fds s !! i)].
    destruct (decide (n <= length (fds s))%nat).
    + rewrite lookup_app_r, lookup_drop by (rewrite length_zip_with, length_take; lia).
      f_equal. rewrite length_zip_with, length_take. lia.
    + rewrite !lookup_ge_None_2; [done|lia|].
      rewrite length_app, length_zip_with, length_take, length_drop. lia.
Qed.

Lemma set_revents_ok l revs s : room_ok l s -> polled revs s -> room_ok l (set_revents revs s).
Proof.
  intros H [Hlen Hrev].
  assert (Hent : forall i p, entry (set_revents revs s) i p -> exists q, entry s i q /\ fd q = fd p /\
    events q = events p /\ revs !! Z.to_nat i = Some (revents p)).
  { intros i p [Hi Hp]. cbn [user_counter set_revents] in Hi. rewrite set_revents_lookup in Hp.
    destruct (lookup_lt_is_Some_2 revs (Z.to_nat i)) as [r Hr]; [lia|]. rewrite Hr in Hp.
    destruct (fds s !! Z.to_nat i) as [q|] eqn:Eq; [|done]. injection Hp as <-. by exists q. }
  pose proof (ro_count _ _ H) as Hc. pose proof (ro_len _ _ H) as Hl. unfold USER_LIMIT in Hc.
  split.
  - cbn [set_revents fds]. rewrite length_app, length_zip_with, length_take, length_drop. lia.
  - exact (ro_count _ _ H).
  - destruct (ro_head _ _ H) as (p & Hp & Hfd & Hev & _). rewrite set_revents_lookup, Hp.
    destruct (lookup_lt_is_Some_2 revs 0) as [r Hr]; [lia|]. rewrite Hr.
    eexists. split; [done|]. cbn [fd events revents]. destruct (Hrev _ _ _ Hp Hr) as [H1 H2].
    rewrite Hev in H1, H2. split_and!; [done|done| |].
    + destruct (has r POLLRDHUP); [by discriminate H2|done].
    + destruct (has r POLLOUT); [by discriminate H1|done].
  - intros i p (q & Hq & <- & _)%Hent. by eapply (ro_fd _ _ H).
  - intros i j p q (p' & Hp & <- & _)%Hent (q' & Hq & <- & _)%Hent. by eapply (ro_inj _ _ H).
  - intros i p (q & Hq & <- & Hev & Hr)%Hent Hb. apply (ro_out _ _ H _ _ Hq). left.
    destruct Hb as [Hb|Hb]; [congruence|]. destruct Hq as [_ Hq]. by eapply Hrev.
  - apply (ro_ptr _ _ H).
  - apply (ro_buf _ _ H).
Qed.

Lemma initial_ok l : room_ok l (initial l).
Proof.
  split; cbn [initial fds users user_counter]; try done.
  - eexists. by split_and!.
  - intros i p [Hi _]. cbn in Hi. lia.
  - intros i j p q [Hi _]. cbn in Hi. lia.
  - intros i p [Hi _]. cbn in Hi. lia.
Qed.

Lemma fuel_enough l s : room_ok l s -> fuel_left 0 s <= Z.of_nat 8.
Proof.
  intros H. pose proof (ro_count _ _ H) as Hc. unfold USER_LIMIT in Hc. unfold fuel_left.
  case_decide; lia.
Qed.

Lemma round_ok l P s s' : room_ok l s -> round l P s s' -> room_ok l s'.
Proof.
  intros H Hr. revert H. destruct Hr as [revs e s s' calls Hp Hf _ E]. intros H.
  pose proof (set_revents_ok l revs s H Hp) as H1.
  destruct (pass_ok l e 8 0 _ H1) as [(s2 & c2 & E2 & H2 & _)|[E2 _]];
    [lia|done|by apply (fuel_enough l)|congruence|congruence].
Qed.


(** ** Who is sent what *)

(** Entry [j] with nothing but writability reported. *)
Definition only_writable (p : pollfd) : Prop :=
  has (revents p) POLLOUT = true /\ has (revents p) POLLERR = false /\
  has (revents p) POLLRDHUP = false /\ has (revents p) POLLIN = false.

Lemma send_text l e s j q g b t :
  room_ok l s -> entry s j q -> only_writable q -> write_buf (slot (users s) (fd q)) = WBuf g ->
  buf (slot (users s) g) = Some b -> upto_nul b = Some t ->
  exists s', body l e j s = Ok (s', j + 1, [Send (fd q) t]).
Proof.
  intros H Hq (Ho & He & Hr & Hn) Hw Hb Ht. destruct (ro_fd _ _ H _ _ Hq) as [Hfq Hl].
  pose proof (ro_len _ _ H) as Hlen. pose proof (ro_count _ _ H) as Hc. unfold USER_LIMIT in Hc.
  pose proof Hq as [Hj _]. unfold body. rewrite (bind_ok _ _ _ (entry_aget _ _ _ Hq)).
  rewrite decide_False, He, Hr, Hn, Ho by tauto. unfold on_writable.
  rewrite user_get_ok by done. cbn [mbind res_bind]. rewrite Hw.
  rewrite user_get_ok by by eapply (ro_ptr _ _ H). cbn [mbind res_bind]. rewrite Hb. cbn [from_opt mbind res_bind].
  rewrite Ht. cbn [from_opt mbind res_bind]. rewrite user_set_ok by done. cbn [mbind res_bind].
  rewrite aset_ok by lia. cbn. by eauto.
Qed.

(** [C34] chat_delivered: the first 63 bytes of what a client sends, when they have no
    NUL, are given to [send] for each other client when [poll] next reports that client
    writable and nothing else of it, as long as the client has not been told to send
    another client's text and the sender's buffer has not been overwritten by then.
    Without these conditions it may be sent something else (see [leaver_text]). *)
Theorem chat_delivered l e s i p data j q :
  room_ok l s -> entry s i p -> entry s j q -> j <> i ->
  has (revents p) POLLERR = false -> has (revents p) POLLRDHUP = false ->
  has (revents p) POLLIN = true -> received e (fd p) = Received data -> data <> [] ->
  NUL ∉ take 63 data ->
  exists s1, body l e i s = Ok (s1, i + 1, []) /\ room_ok l s1 /\
    forall e' s2 j' q', room_ok l s2 ->
      write_buf (slot (users s2) (fd q)) = write_buf (slot (users s1) (fd q)) ->
      buf (slot (users s2) (fd p)) = buf (slot (users s1) (fd p)) ->
      entry s2 j' q' -> fd q' = fd q -> only_writable q' ->
      exists s3, body l e' j' s2 = Ok (s3, j' + 1, [Send (fd q) (take 63 data)]).
Proof.
  intros H Hp Hq Hji He Hr Hn Hrecv Hdata Hnul.
  destruct (ro_fd _ _ H _ _ Hp) as [Hfp Hl]. pose proof (ro_count _ _ H) as Hc.
  assert (Hlen : (length (take 63 data) < BUFFER_SIZE)%nat).
  { apply (Nat.le_lt_trans _ 63); [rewrite length_take; lia|apply Nat.ltb_lt; reflexivity]. }
  unfold body. rewrite (bind_ok _ _ _ (entry_aget _ _ _ Hp)).
  rewrite decide_False, He, Hr, Hn by tauto. unfold on_data.
  rewrite user_get_ok by done. cbn [mbind res_bind]. rewrite Hrecv.
  change (BUFFER_SIZE - 1)%nat with 63%nat. rewrite user_set_ok by done. cbn [mbind res_bind].
  rewrite decide_False by by destruct data.
  set (s0 := Room _ (<[fd p := _]> _) _).
  assert (H0 : room_ok l s0).
  { apply store_ok; [done|done|]. cbn. intros b [= <-]. exists (take 63 data). by apply filled_text. }
  destruct (mark_loop_ok l (fd p) (Z.to_nat (user_counter s)) 1 s0 H0 Hfp) as (s1 & E & H1 & Hu & Hent & Hb & _);
    [lia|cbn; lia|]. change (user_counter s0) with (user_counter s). rewrite (bind_ok _ _ _ E).
  exists s1. split_and!; [done|done|]. intros e' s2 j' q' H2 Hus Hbs Hq' Hf Ho. rewrite <- Hf.
  assert (Hpq : fd q <> fd p) by (intros Heq; apply Hji; by apply (ro_inj _ _ H _ _ _ _ Hq Hp)).
  destruct (Hent j q Hq) as [_ Hw]. rewrite decide_True in Hw by (destruct Hq; split; [lia|done]).
  eapply (send_text l e' s2 j' q' (fd p)); [done|done|done|by rewrite Hf, Hus| |by apply filled_text].
  rewrite Hbs, Hb. cbn [users s0]. by rewrite slot_insert, decide_True.
Qed.

(** leaver_text: when a client hangs up after sending a message that another
    has not been sent yet, the other is sent the last thing a third client (the
    one in the last entry) had sent instead. *)
Theorem leaver_text l e s i p j q c b t :
  room_ok l s -> entry s i p -> entry s j q -> entry s (user_counter s) c ->
  j <> i -> j <> user_counter s -> has (revents p) POLLERR = false -> has (revents p) POLLRDHUP = true ->
  write_buf (slot (users s) (fd q)) = WBuf (fd p) ->
  buf (slot (users s) (fd c)) = Some b -> upto_nul b = Some t ->
  exists s1, body l e i s = Ok (s1, i, [Close (fd p)]) /\ room_ok l s1 /\ entry s1 j q /\
    forall e' s2 q', room_ok l s2 -> users s2 = users s1 -> entry s2 j q' -> fd q' = fd q ->
      only_writable q' -> exists s3, body l e' j s2 = Ok (s3, j + 1, [Send (fd q) t]).
Proof.
  intros H Hp Hq Hc Hji Hjc He Hr Hw Hb Ht. destruct (ro_fd _ _ H _ _ Hp) as [Hfp Hl].
  destruct (leave_ok l s i p c H Hp Hc) as (s1 & E & H1 & Hu & Hs & Hent & _).
  unfold body. rewrite (bind_ok _ _ _ (entry_aget _ _ _ Hp)).
  rewrite decide_False, He, Hr, (bind_ok _ _ _ E) by tauto. exists s1.
  assert (Hqp : fd q <> fd p) by (intros Heq; apply Hji; by apply (ro_inj _ _ H _ _ _ _ Hq Hp)).
  split_and!; [done|done|apply Hent; [done|destruct Hq; lia|done]|].
  intros e' s2 q' H2 Hus Hq' Hf Ho. rewrite <- Hf.
  eapply (send_text l e' s2 j q' (fd p)); [done|done|done| | |exact Ht]; rewrite Hus, Hs.
  - by rewrite decide_False, Hf by congruence.
  - by rewrite decide_True.
Qed.

Lemma mark_writable p : has (events (mark p)) POLLOUT = true.
Proof. unfold mark. cbn [events]. rewrite has_lor. by rewrite (orb_comm _ (has POLLOUT POLLOUT)). Qed.

(** [kept s' q calls]: the server closed [q]'s socket or still waits for its writability. *)
Definition kept (s' : room) (q : pollfd) (calls : list call) : Prop :=
  Close (fd q) ∈ calls \/
  exists j q', entry s' j q' /\ fd q' = fd q /\ has (events q') POLLOUT = true.

Lemma kept_same s s' j q calls :
  fds s' = fds s -> user_counter s' = user_counter s -> entry s j q ->
  has (events q) POLLOUT = true -> kept s' q calls.
Proof.
  intros Hf Hu Hq Ho. right. exists j, q. split_and!; [|done|done]. unfold entry in *. by rewrite Hf, Hu.
Qed.

Lemma kept_leave l s s' i p j q :
  room_ok l s -> entry s i p -> entry s j q -> has (events q) POLLOUT = true -> leave i p s = Ok s' ->
  kept s' q [Close (fd p)].
Proof.
  intros H Hp Hq Ho E. destruct (entry_lookup l s (user_counter s) H) as (c & Hc); [destruct Hq; lia|].
  destruct (leave_ok l s i p c H Hp Hc) as (s2 & E2 & _ & _ & _ & Hent & Hlast).
  assert (s2 = s') as -> by congruence. destruct (decide (j = i)) as [->|Hne].
  { left. assert (q = p) as -> by (destruct Hp, Hq; congruence). by apply elem_of_cons; left. }
  right. destruct (decide (j = user_counter s)) as [->|Hjc].
  - exists i, q. assert (c = q) as -> by (destruct Hc, Hq; congruence).
    split_and!; [|done|done]. apply Hlast. destruct Hp, Hq. lia.
  - exists j, q. split_and!; [|done|done]. apply Hent; [done|destruct Hq; lia|done].
Qed.

Lemma kept_listen l e s s' calls j q :
  room_ok l s -> on_listen e s = Ok (s', calls) -> entry s j q -> has (events q) POLLOUT = true ->
  kept s' q calls.
Proof.
  intros H E Hq Ho. unfold on_listen in E. destruct (accepted e) as [c addr].
  case_decide; [injection E as <- <-; by eapply kept_same|].
  case_decide; [injection E as <- <-; by eapply kept_same|]. cbv zeta in E.
  apply bind_ok_inv in E as (d & _ & (u & _ & (f & [_ ->]%aset_ok_inv & E)%bind_ok_inv)%bind_ok_inv).
  injection E as <- <-. right. exists j, q. split_and!; [|done|done]. destruct Hq as [Hj Hq].
  split; cbn [user_counter fds]; [lia|]. by rewrite list_lookup_insert_ne by lia.
Qed.

Lemma kept_writable s s' calls i p j q :
  on_writable i p s = Ok (s', calls) -> entry s i p -> entry s j q -> has (events q) POLLOUT = true ->
  kept s' q calls.
Proof.
  intros E Hp Hq Ho. unfold on_writable in E. apply bind_ok_inv in E as (d & Ed & E).
  destruct (write_buf d); [done|injection E as <- <-; by eapply kept_same|].
  apply bind_ok_inv in E as (o & _ & (b & _ & (t & _ & (u & _ & E)%bind_ok_inv)%bind_ok_inv)%bind_ok_inv).
  apply bind_ok_inv in E as (f & [Hlen ->]%aset_ok_inv & E). injection E as <- <-. right. pose proof Hp as [Hi _]. destruct (decide (j = i)) as [->|Hne].
  - assert (q = p) as -> by (destruct Hp, Hq; congruence).
    eexists i, _. split_and!; [apply entry_insert; [lia|lia|by left]|done|].
    cbn [events]. by rewrite !has_lor, Ho.
  - exists j, q. split_and!; [|done|done]. apply entry_insert; [lia|lia|by right].
Qed.

Lemma kept_data l e s s' left_ calls i p j q :
  room_ok l s -> on_data e i p s = Ok (s', left_, calls) -> entry s i p -> entry s j q ->
  has (events q) POLLOUT = true -> kept s' q calls.
Proof.
  intros H E Hp Hq Ho. destruct (ro_fd _ _ H _ _ Hp) as [Hfp _].
  unfold on_data in E. rewrite user_get_ok in E by done. cbn [mbind res_bind] in E.
  assert (Hpos : (0 < BUFFER_SIZE)%nat) by (apply Nat.ltb_lt; reflexivity).
  assert (Hs : forall data, (length data < BUFFER_SIZE)%nat ->
    room_ok l (Room (fds s) (<[fd p := Client (address (slot (users s) (fd p)))
      (write_buf (slot (users s) (fd p))) (Some (filled data))]> (users s)) (user_counter s))).
  { intros data Hd. apply store_ok; [done|done|]. cbn. intros b [= <-]. by apply filled_valid. }
  destruct (received e (fd p)) as [data| |]; cbv zeta in E; rewrite user_set_ok in E by done;
    cbn [mbind res_bind] in E.
  - case_decide; [injection E as <- <- <-; by eapply kept_same|].
    apply bind_ok_inv in E as (s1 & E1 & E). injection E as <- <- <-.
    assert (Hl : (length (take (BUFFER_SIZE - 1) data) < BUFFER_SIZE)%nat) by (rewrite length_take; lia).
    pose proof (ro_count _ _ H). cbn [user_counter] in E1.
    destruct (mark_loop_ok l (fd p) (Z.to_nat (user_counter s)) 1 _ (Hs _ Hl) Hfp ltac:(lia) ltac:(cbn [user_counter]; lia))
      as (s2 & E2 & _ & _ & Hent & _). assert (s2 = s1) as -> by congruence.
    destruct (Hent j q Hq) as [Hj _]. right. eexists j, _. split_and!; [exact Hj| |].
    + by case_decide.
    + case_decide; [apply mark_writable|done].
  - injection E as <- <- <-. by eapply kept_same.
  - apply bind_ok_inv in E as (s1 & E1 & E). injection E as <- <- <-.
    eapply (kept_leave l _ _ i p j q); [apply (Hs [] Hpos)|exact Hp|exact Hq|done|exact E1].
Qed.

(** pollout_kept: once the server is interested in writability of a client's
    socket it stays so until it closes the socket: [|= ~POLLOUT] sets bits where
    it means to clear one.  From the first message on, [poll] never waits. *)
Theorem pollout_kept l e i s s' i' calls j q :
  room_ok l s -> 0 <= i <= user_counter s ->
  body l e i s = Ok (s', i', calls) -> entry s j q -> has (events q) POLLOUT = true ->
  Close (fd q) ∈ calls \/
  exists j' q', entry s' j' q' /\ fd q' = fd q /\ has (events q') POLLOUT = true.
Proof.
  intros H Hi E Hq Ho. change (kept s' q calls). unfold body in E.
  apply bind_ok_inv in E as (p & [_ Ep]%aget_ok_inv & E). case_decide as Hin.
  { apply bind_ok_inv in E as ([s1 c1] & E1 & E). injection E as <- _ <-. by eapply kept_listen. }
  destruct (has (revents p) POLLERR); [injection E as <- _ <-; by eapply kept_same|].
  destruct (decide (i = 0)) as [->|Hne].
  { destruct (ro_head _ _ H) as (p0 & Hp0 & Hl & _ & Hr & Hw). change (Z.to_nat 0) with 0%nat in Ep. assert (p = p0) as -> by congruence.
    rewrite Hr, Hw in E. assert (has (revents p0) POLLIN = false) as Hn.
    { destruct (has (revents p0) POLLIN); [by destruct Hin|done]. }
    rewrite Hn in E. injection E as <- _ <-. by eapply kept_same. }
  assert (Hp : entry s i p) by (split; [lia|done]).
  destruct (has (revents p) POLLRDHUP).
  { apply bind_ok_inv in E as (s1 & E1 & E). injection E as <- _ <-. by eapply kept_leave. }
  destruct (has (revents p) POLLIN).
  { apply bind_ok_inv in E as ([[s1 lf] c1] & E1 & E). injection E as <- _ <-. by eapply kept_data. }
  destruct (has (revents p) POLLOUT); [|injection E as <- _ <-; by eapply kept_same].
  apply bind_ok_inv in E as ([s1 c1] & E1 & E). injection E as <- _ <-. by eapply kept_writable.
Qed.

(** ** Examples *)

(** The listening socket is 3; clients 4, 5 and 6 join one after the other. *)
Definition env0 (c : Z) : env := Env (c, 77) (fun k => if decide (k = 4) then Received (lit "hello") else Again).
Definition after (r : res (room * list call)) (s : room) : room :=
  match r with Ok (s', _) => s' | Err _ => s end.
Definition turn (revs : list Z) (c : Z) (s : room) : room :=
  after (pass 8 3 (env0 c) 0 (set_revents revs s)) s.
Definition room1 : room := turn [1] 4 (initial 3).
Definition room2 : room := turn [1; 0] 5 room1.
Definition room3 : room := turn [1; 0; 0] 6 room2.

(** No other client has descriptor [c]. *)
Definition new_fd (c : Z) (s : room) : bool :=
  bool_decide (0 <= c < FD_LIMIT) && bool_decide (c <> 3) && bool_decide (c ∉ fd <$> fds s).

Lemma new_fd_fresh c s : new_fd c s = true -> fresh 3 (env0 c) s.
Proof.
  unfold new_fd. intros [[H1%bool_decide_eq_true H2%bool_decide_eq_true]%andb_true_iff
    H3%bool_decide_eq_true]%andb_true_iff. right. cbn. split_and!; [lia|lia|done|].
  intros j q [_ Hq] <-. apply H3, list_elem_of_fmap. exists q. split; [done|].
  by eapply list_elem_of_lookup_2.
Qed.

(** [polled], as a test. *)
Definition polled_b (revs : list Z) (s : room) : bool :=
  bool_decide (length revs = Z.to_nat (user_counter s + 1)) &&
  forallb (fun '(p, r) => implb (has r POLLOUT) (has (events p) POLLOUT) &&
                          implb (has r POLLRDHUP) (has (events p) POLLRDHUP)) (zip (fds s) revs).

Lemma polled_b_ok revs s : polled_b revs s = true -> polled revs s.
Proof.
  unfold polled_b. rewrite andb_true_iff, forallb_forall. intros [H1%bool_decide_eq_true H2].
  split; [done|]. intros i p r Hp Hr. specialize (H2 (p, r)). cbn in H2.
  rewrite andb_true_iff, !implb_true_iff in H2. apply H2.
  apply list_elem_of_In, (list_elem_of_lookup_2 _ i). by rewrite lookup_zip_with, Hp, Hr.
Qed.

Lemma turn_round revs c s s' :
  s' = turn revs c s -> polled_b revs s = true -> new_fd c (set_revents revs s) = true ->
  is_ok (pass 8 3 (env0 c) 0 (set_revents revs s)) = true -> round 3 (fun _ _ => True) s s'.
Proof.
  intros -> Hp Hf Hok. unfold turn. destruct (pass 8 3 (env0 c) 0 (set_revents revs s)) as [[s2 c2]|] eqn:E; [|done].
  eapply Round; [by apply polled_b_ok|by apply new_fd_fresh|done|exact E].
Qed.

Lemma room3_reached : rtc (round 3 (fun _ _ => True)) (initial 3) room3.
Proof.
  eapply rtc_l; [apply (turn_round [1] 4 _ room1); vm_compute; reflexivity|].
  eapply rtc_l; [apply (turn_round [1; 0] 5 _ room2); vm_compute; reflexivity|].
  eapply rtc_l; [apply (turn_round [1; 0; 0] 6 _ room3); vm_compute; reflexivity|]. apply rtc_refl.
Qed.

Lemma room3_ok : room_ok 3 room3.
Proof.
  apply (rtc_invariant (round 3 (fun _ _ => True)) (room_ok 3) (initial 3) room3);
    [intros a b; apply round_ok|apply initial_ok|apply room3_reached].
Qed.

(** Client 4 has sent "hello". *)
Definition told : room := set_revents [0; 1; 0; 0] room3.
Lemma told_ok : room_ok 3 told.
Proof. apply set_revents_ok; [apply room3_ok|]. apply polled_b_ok. vm_compute. reflexivity. Qed.

Definition nth_entry (s : room) (i : Z) : pollfd := default (Pollfd 0 0 0) (fds s !! Z.to_nat i).
Lemma nth_entry_ok s i :
  bool_decide (1 <= i <= user_counter s) && bool_decide (is_Some (fds s !! Z.to_nat i)) = true ->
  entry s i (nth_entry s i).
Proof.
  intros [H1%bool_decide_eq_true [p Hp]%bool_decide_eq_true]%andb_true_iff. split; [done|].
  unfold nth_entry. by rewrite Hp.
Qed.


Lemma chat_delivered_witness :
  exists s1, body 3 (env0 9) 1 told = Ok (s1, 2, []) /\ room_ok 3 s1 /\
    forall e' s2 j' q', room_ok 3 s2 ->
      write_buf (slot (users s2) (fd (nth_entry told 2))) = write_buf (slot (users s1) (fd (nth_entry told 2))) ->
      buf (slot (users s2) (fd (nth_entry told 1))) = buf (slot (users s1) (fd (nth_entry told 1))) ->
      entry s2 j' q' -> fd q' = fd (nth_entry told 2) -> only_writable q' ->
      exists s3, body 3 e' j' s2 = Ok (s3, j' + 1, [Send (fd (nth_entry told 2)) (take 63 (lit "hello"))]).
Proof.
  apply (chat_delivered 3 (env0 9) told 1 (nth_entry told 1) (lit "hello") 2 (nth_entry told 2));
    [apply told_ok|apply nth_entry_ok; vm_compute; reflexivity|apply nth_entry_ok; vm_compute; reflexivity
    |lia|vm_compute; reflexivity..|done|decided].
Defined.

(** Clients 4 and 6 have sent "hello" ([recv] of 6 is answered alike here), and 4 hangs up. *)
Definition both : env := Env (-1, 0) (fun k => Received (lit (if decide (k = 4) then "hello" else "bye"))).
Definition said : room :=
  set_revents [0; POLLRDHUP; 0; 0]
    (after (pass 8 3 both 0 (set_revents [0; 1; 0; 0] (after (pass 8 3 both 0 (set_revents [0; 0; 0; 1] room3)) room3)))
       room3).

Lemma said_ok : room_ok 3 said.
Proof.
  assert (Hstep : forall revs s, room_ok 3 s -> polled_b revs s = true -> room_ok 3 (after (pass 8 3 both 0 (set_revents revs s)) s)).
  { intros revs s H Hp. pose proof (set_revents_ok 3 revs s H (polled_b_ok _ _ Hp)) as H1.
    destruct (pass_ok 3 both 8 0 _ H1) as [(s2 & c2 & E2 & H2 & _)|[E2 _]];
      [lia|by left|by apply (fuel_enough 3)| |]; by rewrite E2. }
  apply set_revents_ok; [|apply polled_b_ok; vm_compute; reflexivity].
  match goal with |- room_ok 3 (after (pass _ _ _ _ (set_revents ?r ?s)) _) => set (s1 := s) end.
  assert (H1 : room_ok 3 s1) by (apply Hstep; [apply room3_ok|vm_compute; reflexivity]).
  pose proof (Hstep [0; 1; 0; 0] s1 H1 ltac:(vm_compute; reflexivity)) as H2.
  destruct (pass 8 3 both 0 (set_revents [0; 1; 0; 0] s1)) as [[s2 c2]|]; [exact H2|apply room3_ok].
Qed.

Lemma leaver_text_witness :
  exists s1, body 3 both 1 said = Ok (s1, 1, [Close (fd (nth_entry said 1))]) /\ room_ok 3 s1 /\
    entry s1 2 (nth_entry said 2) /\
    forall e' s2 q', room_ok 3 s2 -> users s2 = users s1 -> entry s2 2 q' -> fd q' = fd (nth_entry said 2) ->
      only_writable q' -> exists s3, body 3 e' 2 s2 = Ok (s3, 3, [Send (fd (nth_entry said 2)) (lit "bye")]).
Proof.
  apply (leaver_text 3 both said 1 (nth_entry said 1) 2 (nth_entry said 2) (nth_entry said 3)
           (filled (lit "bye")) (lit "bye"));
    first [exact said_ok|apply nth_entry_ok; vm_compute; reflexivity|vm_compute; reflexivity|vm_compute; lia].
Defined.

Lemma pollout_kept_witness :
  exists s' i' calls, body 3 both 2 said = Ok (s', i', calls) /\
  (Close (fd (nth_entry said 2)) ∈ calls \/
   exists j' q', entry s' j' q' /\ fd q' = fd (nth_entry said 2) /\ has (events q') POLLOUT = true).
Proof.
  eexists _, _, _. split; [vm_compute; reflexivity|].
  eapply (pollout_kept 3 both 2 said _ _ _ 2 (nth_entry said 2));
    [apply said_ok|vm_compute; split; discriminate|vm_compute; reflexivity
    |apply nth_entry_ok; vm_compute; reflexivity|vm_compute; reflexivity].
Defined.
