(* ===== verification/EpollModes.v ===== *)
(** * Level-triggered and edge-triggered epoll (socket/io_multiplexing/io_epoll.c)

    Both handlers of the file over a model of what the kernel documents of
    nonblocking sockets and of epoll: a connection is the bytes that arrived and
    whether the peer has closed; an edge-triggered descriptor is reported once for
    each arrival, a level-triggered one as long as there is something to read. *)

From S2P Require Import Prelude CString.

Definition MAX_EVENT_NUMBER : nat := 1024.
Definition BUFFER_SIZE : nat := 10.
Definition EPOLLIN : Z := 1.
Definition EPOLLET : Z := 2147483648.

(** ** The kernel *)

Record sock := Sock { inbox : bytes; fin : bool }.

Inductive out :=
  | Trigger                       (** "event trigger once" *)
  | Got (fd : Z) (data : bytes)   (** "get %d bytes of content: %s" *)
  | ReadLater
  | SomethingElse
  | Close (fd : Z).

(** [interest]: the masks of the epoll table; [edges]: edge-triggered descriptors
    that have to be reported; [nonblock]: descriptors with O_NONBLOCK. *)
Record kern := Kern {
  socks : gmap Z sock;
  backlog : list (Z * sock);
  interest : gmap Z Z;
  edges : gset Z;
  nonblock : gset Z;
  log : list out }.

Definition emit (o : out) (k : kern) : kern :=
  Kern (socks k) (backlog k) (interest k) (edges k) (nonblock k) (log k ++ [o]).

Definition set_sock (fd : Z) (s : sock) (k : kern) : kern :=
  Kern (<[fd := s]> (socks k)) (backlog k) (interest k) (edges k) (nonblock k) (log k).

(** [recv]; all descriptors it is called with are nonblocking. *)
Definition recv (fd : Z) (n : nat) (k : kern) : recv_t * kern :=
  match socks k !! fd with
  | None => (RecvError, k)
  | Some s =>
      if decide (inbox s = []) then (if fin s then Received [] else Again, k)
      else (Received (take n (inbox s)), set_sock fd (Sock (drop n (inbox s)) (fin s)) k)
  end.

(** [close]; a closed descriptor leaves the epoll table. *)
Definition close (fd : Z) (k : kern) : kern :=
  emit (Close fd) (Kern (delete fd (socks k)) (backlog k) (delete fd (interest k)) (edges k ∖ {[fd]})
                     (nonblock k ∖ {[fd]}) (log k)).

(** [accept]: -1 when no connection waits. *)
Definition accept (k : kern) : Z * kern :=
  match backlog k with
  | [] => (-1, k)
  | (c, s) :: l => (c, Kern (<[c := s]> (socks k)) l (interest k) (edges k) (nonblock k) (log k))
  end.

Definition readable (listenfd fd : Z) (k : kern) : bool :=
  if decide (fd = listenfd) then bool_decide (backlog k <> [])
  else match socks k !! fd with
       | None => false
       | Some s => bool_decide (inbox s <> []) || fin s
       end.

(** ** The program *)

(** The call on an open descriptor, or on -1, where both fail. *)
Definition setnonblocking (fd : Z) (k : kern) : kern :=
  if decide (fd < 0) then k
  else Kern (socks k) (backlog k) (interest k) (edges k) ({[fd]} ∪ nonblock k) (log k).

(** A new entry of the table is reported if there is something to read already. *)
Definition addfd (listenfd fd : Z) (enable_et : bool) (k : kern) : kern :=
  let events := if enable_et then Z.lor EPOLLIN EPOLLET else EPOLLIN in
  let k := if decide (fd < 0) then k
           else Kern (socks k) (backlog k) (<[fd := events]> (interest k))
                  (if readable listenfd fd k then {[fd]} ∪ edges k else edges k) (nonblock k) (log k) in
  setnonblocking fd k.

(** One event of [lt]. *)
Definition lt_event (listenfd : Z) (ev : Z * Z) (k : kern) : kern :=
  let '(sockfd, events) := ev in
  if decide (sockfd = listenfd) then
    let '(connfd, k) := accept k in addfd listenfd connfd false k
  else if negb (Z.land events EPOLLIN =? 0) then
    let k := emit Trigger k in
    match recv sockfd (BUFFER_SIZE - 1) k with
    | (Received data, k) => if decide (data = []) then close sockfd k else emit (Got sockfd data) k
    | (_, k) => close sockfd k
    end
  else emit SomethingElse k.

Definition lt (listenfd : Z) (evs : list (Z * Z)) (k : kern) : kern :=
  foldl (fun k ev => lt_event listenfd ev k) k evs.

(** The [while] loop of [et]; it goes on after the [close] at the end of the file. *)
Fixpoint et_loop (fuel : nat) (sockfd : Z) (k : kern) : res kern :=
  match fuel with
  | O => Err OutOfFuel
  | S fuel =>
      match recv sockfd (BUFFER_SIZE - 1) k with
      | (Again, k) => Ok (emit ReadLater k)
      | (RecvError, k) => Ok (close sockfd k)
      | (Received data, k) =>
          et_loop fuel sockfd (if decide (data = []) then close sockfd k else emit (Got sockfd data) k)
      end
  end.

(** A bound on the iterations: what the socket holds, and three more. *)
Definition et_fuel (sockfd : Z) (k : kern) : nat :=
  match socks k !! sockfd with Some s => length (inbox s) + 3 | None => 1 end.

Definition et_event (listenfd : Z) (ev : Z * Z) (k : kern) : res kern :=
  let '(sockfd, events) := ev in
  if decide (sockfd = listenfd) then
    let '(connfd, k) := accept k in Ok (addfd listenfd connfd true k)
  else if negb (Z.land events EPOLLIN =? 0) then
    let k := emit Trigger k in et_loop (et_fuel sockfd k) sockfd k
  else Ok (emit SomethingElse k).

Fixpoint et (listenfd : Z) (evs : list (Z * Z)) (k : kern) : res kern :=
  match evs with
  | [] => Ok k
  | ev :: evs => k ← et_event listenfd ev k; et listenfd evs k
  end.

(** ** The main loop *)

(** [epoll_wait]: what is reported, with the mask of what happened. *)
Definition reported (listenfd : Z) (k : kern) : list (Z * Z) :=
  filter (fun '(fd, mask) =>
            (if decide (Z.land mask EPOLLET = 0) then readable listenfd fd k
             else bool_decide (fd ∈ edges k) && readable listenfd fd k) = true)
    ((fun '(fd, mask) => (fd, mask)) <$> map_to_list (interest k)).

Definition epoll_wait (listenfd : Z) (k : kern) : list (Z * Z) * kern :=
  ((fun ev => (ev.1, EPOLLIN)) <$> take MAX_EVENT_NUMBER (reported listenfd k),
   Kern (socks k) (backlog k) (interest k)
     (edges k ∖ list_to_set ((take MAX_EVENT_NUMBER (reported listenfd k)).*1)) (nonblock k) (log k)).

(** What happens on the network between two waits. *)
Inductive arrival :=
  | NewConn (c : Z) (s : sock)
  | Data (fd : Z) (data : bytes)
  | Fin (fd : Z).

Definition arrive (listenfd : Z) (a : arrival) (k : kern) : kern :=
  let edge fd := Kern (socks k) (backlog k) (interest k) ({[fd]} ∪ edges k) (nonblock k) (log k) in
  match a with
  | NewConn c s =>
      Kern (socks k) (backlog k ++ [(c, s)]) (interest k) ({[listenfd]} ∪ edges k) (nonblock k) (log k)
  | Data fd data =>
      match socks k !! fd with
      | Some s => set_sock fd (Sock (inbox s ++ data) (fin s)) (edge fd)
      | None => k
      end
  | Fin fd =>
      match socks k !! fd with
      | Some s => set_sock fd (Sock (inbox s) true) (edge fd)
      | None => k
      end
  end.

Definition round (listenfd : Z) (arrivals : list arrival) (k : kern) : res kern :=
  let '(evs, k) := epoll_wait listenfd (foldl (fun k a => arrive listenfd a k) k arrivals) in
  et listenfd evs k.

(** [None]: [epoll_wait] failed. *)
Fixpoint main_loop (listenfd : Z) (waits : list (option (list arrival))) (k : kern) : res kern :=
  match waits with
  | [] => Err OutOfFuel
  | None :: _ => Ok (close listenfd k)
  | Some arrivals :: waits => k ← round listenfd arrivals k; main_loop listenfd waits k
  end.

(** The calls of [main] before the loop, with their results. *)
Definition setup (argc listenfd bnd lst epollfd : Z) : res (Z + kern) :=
  if decide (argc <> 2) then Ok (inl 1)
  else
    _ ← assert_that (listenfd >= 0);
    _ ← assert_that (bnd >= 0);
    _ ← assert_that (lst <> -1);
    _ ← assert_that (epollfd <> -1);
    Ok (inr (addfd listenfd listenfd true (Kern ∅ [] ∅ ∅ ∅ []))).

(** ** Reading a socket to its end *)

(** The kernel after [data] was read of socket [fd] and [outs] was printed. *)
Definition drained (fd : Z) (f : bool) (outs : list out) (k : kern) : kern :=
  Kern (<[fd := Sock [] f]> (socks k)) (backlog k) (interest k) (edges k) (nonblock k) (log k ++ outs).

Lemma et_loop_reads fd f fuel d : forall k,
  socks k !! fd = Some (Sock d f) -> (length d < fuel)%nat ->
  exists fuel', (fuel - length d <= fuel')%nat /\
  et_loop fuel fd k = et_loop fuel' fd (drained fd f (Got fd <$> chunks 9 d) k).
Proof.
  revert fuel. apply (pieces_ind 9 (fun d => forall fuel k, socks k !! fd = Some (Sock d f) ->
    (length d < fuel)%nat -> exists fuel', (fuel - length d <= fuel')%nat /\
    et_loop fuel fd k = et_loop fuel' fd (drained fd f (Got fd <$> chunks 9 d) k))); [lia| |].
  - intros fuel k Hk _. exists fuel. split; [lia|]. f_equal. unfold drained. rewrite insert_id by done.
    cbn. rewrite app_nil_r. by destruct k.
  - clear d. intros d Hd IH [|fuel] k Hk Hf; [lia|].
    pose proof (drop_shorter 9 d ltac:(lia) Hd) as Hs. cbn [et_loop]. unfold recv. rewrite Hk.
    cbn [inbox fin]. rewrite decide_False by done. change (BUFFER_SIZE - 1)%nat with 9%nat.
    rewrite decide_False by by destruct d.
    edestruct (IH fuel (emit (Got fd (take 9 d)) (set_sock fd (Sock (drop 9 d) f) k)))
      as (fuel' & Hf' & ->); [cbn; by rewrite lookup_insert_eq|lia|].
    exists fuel'. split; [lia|]. f_equal. unfold drained, emit, set_sock.
    cbn [socks backlog interest edges nonblock log]. rewrite insert_insert_eq.
    rewrite (chunks_cons 9 d) by (lia || done). cbn [fmap list_fmap]. by rewrite <- app_assoc.
Qed.

(** What [et] prints for a socket. *)
Definition et_log (fd : Z) (s : sock) : list out :=
  Trigger :: (Got fd <$> chunks 9 (inbox s)) ++ (if fin s then [Close fd; Close fd] else [ReadLater]).

Lemma et_event_reads l fd s k :
  socks k !! fd = Some s -> fd <> l ->
  exists k', et_event l (fd, EPOLLIN) k = Ok k' /\ log k' = log k ++ et_log fd s /\
    concat (chunks 9 (inbox s)) = inbox s /\
    socks k' = (if fin s then delete fd (socks k) else <[fd := Sock [] false]> (socks k)) /\
    backlog k' = backlog k /\ interest k' !! l = interest k !! l /\ edges k' ⊆ edges k.
Proof.
  intros Hk Hl. destruct s as [d f]. unfold et_event. rewrite decide_False by done.
  change (negb (Z.land EPOLLIN EPOLLIN =? 0)) with true. cbv iota zeta.
  assert (Hk' : socks (emit Trigger k) !! fd = Some (Sock d f)) by done.
  unfold et_fuel. rewrite Hk'. cbn [inbox fin].
  destruct (et_loop_reads fd f (length d + 3) d (emit Trigger k) Hk') as (fuel & Hf & ->); [lia|].
  destruct fuel as [|[|[|fuel]]]; [lia..|]. unfold et_log.
  cbn [et_loop]. unfold recv at 1. cbn [drained socks]. rewrite lookup_insert_eq.
  cbn [inbox fin]. rewrite decide_True by done. destruct f.
  - rewrite decide_True by done. unfold recv at 1. cbn [close emit socks].
    rewrite lookup_delete_eq. eexists. split; [reflexivity|]. cbn [close emit log socks backlog].
    cbn [close drained emit log socks backlog interest edges].
    split_and!; [by rewrite <- !app_assoc|apply chunks_concat; lia|by rewrite delete_delete_eq, delete_insert_eq|done
      |by rewrite !lookup_delete_ne|set_solver].
  - eexists. split; [reflexivity|]. cbn [close drained emit log socks backlog interest edges].
    split_and!; [by rewrite <- !app_assoc|apply chunks_concat; lia|done|done|done|done].
Qed.

(** et_reads_all: on an edge-triggered event [et] terminates having read
    everything that had arrived, in pieces of at most nine bytes, and waits for the
    next event; but if the peer has closed the connection it closes the
    descriptor, reads from it again, and closes it a second time. *)
Theorem et_reads_all l fd s k :
  socks k !! fd = Some s -> fd <> l ->
  exists k', et_event l (fd, EPOLLIN) k = Ok k' /\ log k' = log k ++ et_log fd s /\
    concat (chunks 9 (inbox s)) = inbox s /\
    socks k' = (if fin s then delete fd (socks k) else <[fd := Sock [] false]> (socks k)) /\
    backlog k' = backlog k.
Proof.
  intros Hk Hl. destruct (et_event_reads l fd s k Hk Hl) as (k' & H). exists k'. tauto.
Qed.

(** ** Level-triggered and edge-triggered handling agree *)

(** A level-triggered descriptor is reported as long as it is readable. *)
Fixpoint lt_while (fuel : nat) (l fd : Z) (k : kern) : res kern :=
  if readable l fd k then
    match fuel with
    | O => Err OutOfFuel
    | S fuel => lt_while fuel l fd (lt_event l (fd, EPOLLIN) k)
    end
  else Ok k.

(** The bytes of [fd] that were printed. *)
Definition printed (fd : Z) (os : list out) : bytes :=
  concat (omap (fun o => match o with
                         | Got fd' data => if decide (fd' = fd) then Some data else None
                         | _ => None
                         end) os).

Lemma printed_app fd o1 o2 : printed fd (o1 ++ o2) = printed fd o1 ++ printed fd o2.
Proof. unfold printed. by rewrite omap_app, concat_app. Qed.

Lemma printed_got fd ds : printed fd (Got fd <$> ds) = concat ds.
Proof.
  induction ds as [|d ds IH]; [done|]. cbn [fmap list_fmap concat]. rewrite <- IH.
  unfold printed. cbn [omap list_omap]. by rewrite decide_True.
Qed.

(** What [lt] prints for a socket, over all the times it is called. *)
Definition lt_log (fd : Z) (s : sock) : list out :=
  concat ((fun c => [Trigger; Got fd c]) <$> chunks 9 (inbox s)) ++
  (if fin s then [Trigger; Close fd] else []).

Lemma lt_event_reads l fd f d k :
  fd <> l -> socks k !! fd = Some (Sock d f) -> d <> [] ->
  lt_event l (fd, EPOLLIN) k =
  emit (Got fd (take 9 d)) (set_sock fd (Sock (drop 9 d) f) (emit Trigger k)).
Proof.
  intros Hl Hk Hd. unfold lt_event. rewrite decide_False by done.
  change (negb (Z.land EPOLLIN EPOLLIN =? 0)) with true. cbv iota zeta. unfold recv.
  change (socks (emit Trigger k)) with (socks k). rewrite Hk. cbn [inbox fin].
  rewrite decide_False by done. change (BUFFER_SIZE - 1)%nat with 9%nat.
  rewrite decide_False by by destruct d. done.
Qed.

Lemma lt_while_reads l fd f d : forall fuel k, fd <> l ->
  socks k !! fd = Some (Sock d f) -> (length d + 2 <= fuel)%nat ->
  exists k', lt_while fuel l fd k = Ok k' /\ readable l fd k' = false /\
    log k' = log k ++ lt_log fd (Sock d f) /\
    socks k' = (if f then delete fd (socks k) else <[fd := Sock [] false]> (socks k)).
Proof.
  apply (pieces_ind 9 (fun d => forall fuel k, fd <> l -> socks k !! fd = Some (Sock d f) ->
    (length d + 2 <= fuel)%nat -> exists k', lt_while fuel l fd k = Ok k' /\ readable l fd k' = false /\
    log k' = log k ++ lt_log fd (Sock d f) /\
    socks k' = (if f then delete fd (socks k) else <[fd := Sock [] false]> (socks k)))); [lia| |].
  - intros fuel k Hl Hk Hf. destruct fuel as [|[|fuel]]; [cbn in Hf; lia..|].
    cbn [lt_while]. unfold readable at 1. rewrite decide_False, Hk by done. cbn [inbox fin].
    rewrite bool_decide_eq_false_2 by by intros []. destruct f; cbn [orb].
    + unfold lt_event. rewrite decide_False by done.
      change (negb (Z.land EPOLLIN EPOLLIN =? 0)) with true. cbv iota zeta. unfold recv.
      change (socks (emit Trigger k)) with (socks k). rewrite Hk. cbn [inbox fin].
      rewrite !decide_True by done.
      assert (Hr : readable l fd (close fd (emit Trigger k)) = false).
      { unfold readable. rewrite decide_False by done. cbn [close emit socks]. by rewrite lookup_delete_eq. }
      rewrite Hr. eexists. split_and!; [reflexivity|done| |done].
      cbn [close emit log]. by rewrite <- app_assoc.
    + exists k. split_and!; [done| | |by rewrite insert_id].
      * unfold readable. by rewrite decide_False, Hk by done.
      * cbn. by rewrite app_nil_r.
  - clear d. intros d Hd IH fuel k Hl Hk Hf. pose proof (drop_shorter 9 d ltac:(lia) Hd) as Hs.
    destruct fuel as [|fuel]; [lia|]. cbn [lt_while]. unfold readable at 1.
    rewrite decide_False, Hk by done. cbn [inbox fin]. rewrite bool_decide_eq_true_2 by done. cbn [orb].
    rewrite (lt_event_reads l fd f d k) by done.
    destruct (IH fuel (emit (Got fd (take 9 d)) (set_sock fd (Sock (drop 9 d) f) (emit Trigger k))))
      as (k' & E & Hr & Hlog & Hsock); [done|cbn; by rewrite lookup_insert_eq|lia|].
    exists k'. split_and!; [done|done| |].
    + rewrite Hlog. unfold lt_log. cbn [inbox fin]. rewrite (chunks_cons 9 d) by (lia || done).
      cbn [emit set_sock log fmap list_fmap concat]. by rewrite <- !app_assoc.
    + rewrite Hsock. cbn [emit set_sock socks]. destruct f; [by rewrite delete_insert_eq|by rewrite insert_insert_eq].
Qed.

Lemma printed_lt fd s : printed fd (lt_log fd s) = inbox s.
Proof.
  unfold lt_log. rewrite printed_app.
  assert (printed fd (if fin s then [Trigger; Close fd] else []) = []) as -> by by destruct (fin s).
  rewrite app_nil_r. transitivity (concat (chunks 9 (inbox s))); [|apply chunks_concat; lia].
  induction (chunks 9 (inbox s)) as [|c cs IH]; [done|]. cbn [fmap list_fmap concat].
  rewrite printed_app, IH. unfold printed. cbn [omap list_omap]. rewrite decide_True by done.
  cbn [concat]. by rewrite app_nil_r.
Qed.

Lemma printed_et fd s : printed fd (et_log fd s) = inbox s.
Proof.
  unfold et_log. change (Trigger :: ?o) with ([Trigger] ++ o). rewrite !printed_app, printed_got.
  rewrite chunks_concat by lia.
  assert (printed fd (if fin s then [Close fd; Close fd] else [ReadLater]) = []) as -> by by destruct (fin s).
  by rewrite app_nil_r.
Qed.

(** [C35] lt_et_same: handling a socket level-triggered, as often as it is reported,
    and edge-triggered, once, comes to the same: the same bytes are printed, all that
    arrived, the same sockets remain, and nothing is left to read.  (Only the
    number of calls of [close] differs, see [et_reads_all].) *)
Theorem lt_et_same l fd s k :
  socks k !! fd = Some s -> fd <> l ->
  exists k1 k2, lt_while (length (inbox s) + 2) l fd k = Ok k1 /\ et_event l (fd, EPOLLIN) k = Ok k2 /\
    log k1 = log k ++ lt_log fd s /\ log k2 = log k ++ et_log fd s /\
    printed fd (lt_log fd s) = inbox s /\ printed fd (et_log fd s) = inbox s /\
    socks k1 = socks k2 /\ readable l fd k1 = false /\ readable l fd k2 = false.
Proof.
  intros Hk Hl. destruct (et_event_reads l fd s k Hk Hl) as (k2 & E2 & L2 & _ & S2 & _).
  destruct s as [d f]. destruct (lt_while_reads l fd f d (length d + 2) k Hl Hk) as (k1 & E1 & R1 & L1 & S1); [lia|].
  exists k1, k2. split_and!; try done; [apply printed_lt|apply printed_et|by rewrite S1, S2|].
  unfold readable. rewrite decide_False by done. rewrite S2. cbn [fin].
  destruct f; [by rewrite lookup_delete_eq|by rewrite lookup_insert_eq].
Qed.

(** ** A connection that is not accepted *)

(** No one connects. *)
Definition no_conn (l : Z) (a : arrival) : Prop :=
  match a with NewConn _ _ => False | Data fd _ | Fin fd => fd <> l end.

(** The listening socket [l] is not about to be reported, and [b] waits. *)
Record stuck (l : Z) (b : list (Z * sock)) (k : kern) : Prop := {
  st_mask : interest k !! l = Some (Z.lor EPOLLIN EPOLLET);
  st_edge : l ∉ edges k;
  st_backlog : backlog k = b }.

Lemma et_event_stuck l b ev k :
  stuck l b k -> ev.1 <> l -> exists k', et_event l ev k = Ok k' /\ stuck l b k'.
Proof.
  intros [H1 H2 H3] Hl. destruct ev as [fd mask]. cbn in Hl.
  unfold et_event. rewrite decide_False by done.
  destruct (negb (Z.land mask EPOLLIN =? 0)) eqn:Em; [|by eexists].
  destruct (socks k !! fd) as [s|] eqn:Es.
  - destruct (et_event_reads l fd s k Es Hl) as (k' & E & _ & _ & _ & Hb & Hi & He).
    unfold et_event in E. rewrite decide_False in E by done.
    exists k'. split; [exact E|]. split; [congruence|set_solver|congruence].
  - cbv zeta. unfold et_fuel. change (socks (emit Trigger k)) with (socks k). rewrite Es.
    cbn [et_loop]. unfold recv. change (socks (emit Trigger k)) with (socks k). rewrite Es.
    eexists. split; [reflexivity|]. split; cbn [close emit interest edges backlog];
      [by rewrite lookup_delete_ne|set_solver|done].
Qed.

Lemma et_stuck l b evs : forall k,
  stuck l b k -> l ∉ evs.*1 -> exists k', et l evs k = Ok k' /\ stuck l b k'.
Proof.
  induction evs as [|ev evs IH]; intros k H Hn; [by exists k|].
  rewrite fmap_cons, not_elem_of_cons in Hn. destruct Hn as [Hne Hn].
  destruct (et_event_stuck l b ev k H) as (k1 & E1 & H1); [done|].
  destruct (IH k1 H1 Hn) as (k2 & E2 & H2). exists k2. cbn [et]. by rewrite (bind_ok _ _ _ E1).
Qed.

Lemma reported_et l k :
  interest k !! l = Some (Z.lor EPOLLIN EPOLLET) -> l ∉ edges k -> l ∉ (reported l k).*1.
Proof.
  intros Hi He ([fd mask] & Hl & Hin)%list_elem_of_fmap. cbn in Hl. subst fd.
  unfold reported in Hin. apply list_elem_of_filter in Hin as [Hr Hin].
  apply list_elem_of_fmap in Hin as ([fd' mask'] & [= -> ->] & Hin).
  apply elem_of_map_to_list in Hin. assert (mask' = Z.lor EPOLLIN EPOLLET) as -> by congruence.
  rewrite decide_False in Hr by done. by rewrite bool_decide_eq_false_2 in Hr.
Qed.

Lemma round_stuck l b arrivals k :
  stuck l b k -> Forall (no_conn l) arrivals ->
  exists k', round l arrivals k = Ok k' /\ stuck l b k'.
Proof.
  intros H Ha. unfold round. revert k H. induction Ha as [|a arrivals Hq _ IH]; intros k H.
  - cbn [foldl]. unfold epoll_wait. apply et_stuck.
    + destruct H as [H1 H2 H3]. split; cbn [interest edges backlog]; [done|set_solver|done].
    + rewrite <- list_fmap_compose. intros ([fd mask] & Hl & Hin)%list_elem_of_fmap. cbn in Hl. subst fd.
      apply (reported_et l k); [apply H|apply H|]. apply list_elem_of_fmap. exists (l, mask). split; [done|].
      apply list_elem_of_In. apply list_elem_of_In in Hin. rewrite <- (take_drop MAX_EVENT_NUMBER (reported l k)).
      apply list_elem_of_In, elem_of_app. left. by apply list_elem_of_In.
  - cbn [foldl]. apply IH. destruct H as [H1 H2 H3].
    destruct a as [c s|fd data|fd]; [done|..]; cbn [no_conn] in Hq; cbn [arrive];
      destruct (socks k !! fd); split; cbn [set_sock interest edges backlog]; set_solver.
Qed.

Lemma main_loop_stuck l b waits : forall k,
  stuck l b k -> Forall (Forall (no_conn l)) waits ->
  exists k', main_loop l ((Some <$> waits) ++ [None]) k = Ok k' /\ backlog k' = b.
Proof.
  induction waits as [|w waits IH]; intros k H Hw; cbn [fmap list_fmap app main_loop].
  - eexists. split; [reflexivity|]. apply H.
  - apply Forall_cons in Hw as [Hw Hws]. destruct (round_stuck l b w k H Hw) as (k1 & E1 & H1).
    rewrite (bind_ok _ _ _ E1). by apply IH.
Qed.

Lemma one_accepted l c1 s1 c2 s2 k :
  interest k = {[l := Z.lor EPOLLIN EPOLLET]} -> backlog k = [] -> c1 <> l -> 0 <= c1 ->
  exists k', round l [NewConn c1 s1; NewConn c2 s2] k = Ok k' /\ stuck l [(c2, s2)] k'.
Proof.
  intros Hi Hb Hc Hc0. unfold round. cbn [foldl arrive].
  set (k1 := Kern _ _ _ _ _ _).
  assert (Hrep : reported l k1 = [(l, Z.lor EPOLLIN EPOLLET)]).
  { unfold reported. change (interest k1) with (interest k). rewrite Hi, map_to_list_singleton.
    cbn [fmap list_fmap]. rewrite filter_cons, decide_True, filter_nil; [done|].
    rewrite decide_False by done. rewrite bool_decide_eq_true_2.
    - unfold readable. rewrite decide_True by done. cbn. by rewrite Hb.
    - cbn [edges k1]. set_solver. }
  unfold epoll_wait. rewrite Hrep. cbn [take fmap list_fmap et et_event MAX_EVENT_NUMBER].
  rewrite decide_True by done. unfold accept. cbn [backlog k1]. rewrite Hb. cbn [app].
  cbn [mbind res_bind]. eexists. split; [reflexivity|]. unfold addfd. rewrite decide_False by lia.
  unfold setnonblocking. rewrite decide_False by lia.
  split; cbn [interest edges backlog].
  - cbn [k1 interest]. rewrite Hi, lookup_insert_ne by done. by rewrite lookup_singleton_eq.
  - case_match; cbn [k1 edges]; set_solver.
  - done.
Qed.

(** connection_stranded: the listening socket is registered edge-triggered and
    one event makes one call of [accept].  Of two connections that arrive between
    two waits the second is never accepted as long as nobody else connects, no
    matter what else happens. *)
Theorem connection_stranded l bnd lst epollfd k c1 s1 c2 s2 waits :
  setup 2 l bnd lst epollfd = Ok (inr k) -> c1 <> l -> 0 <= c1 ->
  Forall (Forall (no_conn l)) waits ->
  exists k', main_loop l ((Some <$> [NewConn c1 s1; NewConn c2 s2] :: waits) ++ [None]) k = Ok k' /\
    backlog k' = [(c2, s2)].
Proof.
  intros Hk Hc Hc0 Hw. assert (interest k = {[l := Z.lor EPOLLIN EPOLLET]} /\ backlog k = []) as [Hi Hb].
  { unfold setup in Hk. rewrite decide_False in Hk by lia.
    apply bind_ok_inv in Hk as (_ & Hl%assert_that_inv & Hk).
    do 3 apply bind_ok_inv in Hk as (_ & _ & Hk). injection Hk as <-.
    unfold addfd, setnonblocking. rewrite !decide_False by lia. done. }
  destruct (one_accepted l c1 s1 c2 s2 k Hi Hb Hc Hc0) as (k1 & E1 & H1).
  cbn [fmap list_fmap app main_loop]. rewrite (bind_ok _ _ _ E1). by apply main_loop_stuck.
Qed.

(** ** Examples *)

Definition start0 : kern :=
  match setup 2 3 0 0 4 with Ok (inr k) => k | _ => Kern ∅ [] ∅ ∅ ∅ [] end.
Definition talking : kern := set_sock 5 (Sock (lit "hello, world") true) start0.

Lemma et_reads_all_witness :
  exists k', et_event 3 (5, EPOLLIN) talking = Ok k' /\
    log k' = [Trigger; Got 5 (lit "hello, wo"); Got 5 (lit "rld"); Close 5; Close 5].
Proof.
  destruct (et_reads_all 3 5 (Sock (lit "hello, world") true) talking) as (k' & E & L & _);
    [reflexivity|done|]. exists k'. split; [exact E|]. rewrite L. vm_compute. reflexivity.
Defined.

Lemma lt_et_same_witness :
  exists k1 k2, lt_while 14 3 5 talking = Ok k1 /\ et_event 3 (5, EPOLLIN) talking = Ok k2 /\
    socks k1 = socks k2 /\ readable 3 5 k1 = false /\ readable 3 5 k2 = false.
Proof.
  destruct (lt_et_same 3 5 (Sock (lit "hello, world") true) talking)
    as (k1 & k2 & E1 & E2 & _ & _ & _ & _ & Hs & R1 & R2); [reflexivity|done|].
  exists k1, k2. split_and!; [exact E1|exact E2|exact Hs|exact R1|exact R2].
Defined.

Lemma connection_stranded_witness :
  setup 2 3 0 0 4 = Ok (inr start0) /\
  exists k', main_loop 3 ((Some <$> [NewConn 5 (Sock [] false); NewConn 6 (Sock [] false)]
                             :: [[Data 5 (lit "hi")]; []]) ++ [None]) start0 = Ok k' /\
    backlog k' = [(6, Sock [] false)].
Proof.
  split; [vm_compute; reflexivity|].
  apply (connection_stranded 3 0 0 4 start0); [vm_compute; reflexivity|lia|lia|].
  repeat constructor; discriminate.
Defined.
