(* ===== verification/OneShot.v ===== *)
(** * One thread per event (socket/io_multiplexing/io_epoll2.c)

    Connections are registered with EPOLLONESHOT; for each event the main loop
    starts a thread, which reads the connection and registers it again.  The
    thread's argument is the address of a variable of the loop, the same for every
    event: it is read when the thread starts.  The state machine interleaves the main
    thread and the workers. *)

From S2P Require Import Prelude CString.

Definition BUFFER_SIZE : nat := 1024.
#[global] Arguments BUFFER_SIZE : simpl never.

Record fds := Fds { epollfd : Z; sockfd : Z }.

(** A worker: created, or in its loop with its descriptors and its buffer, or done. *)
Inductive thread :=
  | Created
  | Running (f : fds) (buf : bytes)
  | Ended.

Inductive out :=
  | GetContent (fd : Z) (text : bytes)   (** "get content: %s" *)
  | ReadLater (fd : Z)
  | Close (fd : Z)
  | SomethingElse.                       (** "something else happened" *)

(** [fds_for_new_worker] is the loop's variable; [armed]: the descriptors whose
    event is enabled; [opened]: the connections that are open. *)
Record state := State {
  fds_for_new_worker : option fds;
  threads : list thread;
  armed : gset Z;
  opened : gset Z;
  log : list out }.

(** ** The program *)

(** [addfd] with [oneshot] for the connection that [accept] returned, which is not
    looked at; [added]: [epoll_ctl] registered it (its result is not looked at either). *)
Definition on_listen (connfd : Z) (added : bool) (s : state) : state :=
  if decide (connfd < 0) then s
  else State (fds_for_new_worker s) (threads s) (if added then {[connfd]} ∪ armed s else armed s)
         ({[connfd]} ∪ opened s) (log s).

(** EPOLLIN of a connection: the report disables it ([EPOLLONESHOT]); [created]:
    pthread_create did not fail, which is not looked at. *)
Definition on_readable (ep fd : Z) (created : bool) (s : state) : state :=
  State (Some (Fds ep fd)) (if created then threads s ++ [Created] else threads s)
    (armed s ∖ {[fd]}) (opened s) (log s).

(** An event of a connection; EPOLLERR and EPOLLHUP may be reported without EPOLLIN,
    and disable the connection as well. *)
Definition on_event (ep fd : Z) (epollin created : bool) (s : state) : state :=
  if epollin then on_readable ep fd created s
  else State (fds_for_new_worker s) (threads s) (armed s ∖ {[fd]}) (opened s) (log s ++ [SomethingElse]).

(** The start of [worker]: [*arg] is read now; the buffer is cleared. *)
Definition worker_start (i : nat) (s : state) : res state :=
  match threads s !! i with
  | Some Created =>
      f ← from_opt Uninit (fds_for_new_worker s);
      Ok (State (fds_for_new_worker s) (<[i := Running f (replicate BUFFER_SIZE NUL)]> (threads s))
            (armed s) (opened s) (log s))
  | _ => Ok s
  end.

(** [reset_oneshot] of a descriptor that is open. *)
Definition reset_oneshot (fd : Z) (s : state) : state :=
  State (fds_for_new_worker s) (threads s)
    (if decide (fd ∈ opened s) then {[fd]} ∪ armed s else armed s) (opened s) (log s).

Definition close (fd : Z) (s : state) : state :=
  State (fds_for_new_worker s) (threads s) (armed s ∖ {[fd]}) (opened s ∖ {[fd]}) (log s ++ [Close fd]).

Definition set_thread (i : nat) (t : thread) (s : state) : state :=
  State (fds_for_new_worker s) (<[i := t]> (threads s)) (armed s) (opened s) (log s).

Definition emit (o : out) (s : state) : state :=
  State (fds_for_new_worker s) (threads s) (armed s) (opened s) (log s ++ [o]).

(** One iteration of the worker's loop, with the result of [recv]: the data is put
    over the start of the buffer, which is printed up to its first NUL. *)
Definition worker_step (i : nat) (r : recv_t) (s : state) : res state :=
  match threads s !! i with
  | Some (Running f buf) =>
      match r with
      | Received data =>
          let data := take (BUFFER_SIZE - 1) data in
          if decide (data = []) then Ok (set_thread i Ended (close (sockfd f) s))
          else
            buf ← awrite buf 0 data;
            text ← cstr buf 0;
            Ok (set_thread i (Running f buf) (emit (GetContent (sockfd f) text) s))
      | Again => Ok (set_thread i Ended (emit (ReadLater (sockfd f)) (reset_oneshot (sockfd f) s)))
      | RecvError => Ok s   (** any other error: the loop goes on *)
      end
  | _ => Ok s
  end.

(** ** Interleavings *)

Inductive action :=
  | Accept (connfd : Z) (added : bool)
  | Report (fd : Z) (epollin created : bool)
  | Start (i : nat)
  | Step (i : nat) (r : recv_t).

(** What may happen: [accept] returns a descriptor not in use; what is reported is
    armed; [recv] fails on a closed descriptor. *)
Definition enabled (a : action) (s : state) : Prop :=
  match a with
  | Accept c _ => c < 0 \/ c ∉ opened s
  | Report fd _ _ => fd ∈ armed s
  | Start i => threads s !! i = Some Created
  | Step i r => match threads s !! i with
                | Some (Running f _) => sockfd f ∈ opened s \/ r = RecvError
                | _ => False
                end
  end.

Definition run (ep : Z) (a : action) (s : state) : res state :=
  match a with
  | Accept c added => Ok (on_listen c added s)
  | Report fd epollin created => Ok (on_event ep fd epollin created s)
  | Start i => worker_start i s
  | Step i r => worker_step i r s
  end.

Inductive step (ep : Z) : state -> state -> Prop :=
  | step_run a s s' : enabled a s -> run ep a s = Ok s' -> step ep s s'.

(** The same, where a new thread reads its argument before the main thread goes on. *)
Inductive prompt (ep : Z) : action -> state -> state -> Prop :=
  | prompt_other a s s' :
      (forall fd, a <> Report fd true true) -> enabled a s -> run ep a s = Ok s' -> prompt ep a s s'
  | prompt_report fd s s' :
      enabled (Report fd true true) s ->
      worker_start (length (threads s)) (on_event ep fd true true s) = Ok s' ->
      prompt ep (Report fd true true) s s'.

Inductive prompts (ep : Z) : list action -> state -> state -> Prop :=
  | prompts_nil s : prompts ep [] s s
  | prompts_snoc acts a s s' s'' :
      prompts ep acts s s' -> prompt ep a s' s'' -> prompts ep (acts ++ [a]) s s''.

(** The connections for which nothing is done when something happens to them: one that
    is not registered, one whose report has no EPOLLIN, one whose thread is not created. *)
Definition lost1 (a : action) : gset Z :=
  match a with
  | Accept c added => if decide (c < 0) then ∅ else if added then ∅ else {[c]}
  | Report fd epollin created => if epollin && created then ∅ else {[fd]}
  | _ => ∅
  end.

Definition lost (acts : list action) : gset Z := ⋃ (lost1 <$> acts).

Definition initial : state := State None [] ∅ ∅ [].

(** The calls of [main] before the loop. *)
Definition setup (argc listenfd bnd lst ep : Z) : res (Z + state) :=
  if decide (argc <> 2) then Ok (inl 1)
  else
    _ ← assert_that (listenfd >= 0);
    _ ← assert_that (bnd <> -1);
    _ ← assert_that (lst <> -1);
    _ ← assert_that (ep <> -1);
    Ok (inr initial).

(** ** Who serves a connection *)

Definition serves (s : state) (i : nat) (fd : Z) : Prop :=
  exists f buf, threads s !! i = Some (Running f buf) /\ sockfd f = fd.

(** A buffer of the right size with a NUL at its end. *)
Definition terminated (buf : bytes) : Prop :=
  length buf = BUFFER_SIZE /\ drop (BUFFER_SIZE - 1) buf = [NUL].

(** [l]: the connections that are lost. *)
Record owned (l : gset Z) (s : state) : Prop := {
  ow_armed : armed s ⊆ opened s;
  ow_lost : forall fd, fd ∈ l -> fd ∈ opened s /\ fd ∉ armed s /\ forall i, ~ serves s i fd;
  ow_open : forall fd, fd ∈ opened s -> fd ∈ armed s \/ (exists i, serves s i fd) \/ fd ∈ l;
  ow_serves : forall i fd, serves s i fd -> fd ∈ opened s /\ fd ∉ armed s;
  ow_unique : forall i j fd, serves s i fd -> serves s j fd -> i = j;
  ow_started : forall i, threads s !! i <> Some Created;
  ow_buf : forall i f buf, threads s !! i = Some (Running f buf) -> terminated buf }.

Lemma buffer_pos : (0 < BUFFER_SIZE)%nat.
Proof. apply Nat.ltb_lt. reflexivity. Qed.

Lemma terminated_zero : terminated (replicate BUFFER_SIZE NUL).
Proof.
  pose proof buffer_pos. split; [apply length_replicate|]. rewrite drop_replicate.
  by replace (BUFFER_SIZE - (BUFFER_SIZE - 1))%nat with 1%nat by lia.
Qed.

Lemma upto_nul_terminated b : upto_nul (b ++ [NUL]) <> None.
Proof.
  induction b as [|c b IH]; [done|]. cbn. case_decide; [done|]. destruct (upto_nul (b ++ [NUL])); done.
Qed.

Lemma terminated_text buf : terminated buf -> exists t, cstr buf 0 = Ok t.
Proof.
  intros [_ Hd]. unfold cstr. rewrite decide_True, drop_0 by lia.
  rewrite <- (take_drop (BUFFER_SIZE - 1) buf), Hd.
  destruct (upto_nul _) as [t|] eqn:E; [by exists t|by destruct (upto_nul_terminated _ E)].
Qed.

(** Data is put over the start of a buffer. *)
Lemma terminated_write buf data :
  terminated buf -> (length data <= BUFFER_SIZE - 1)%nat ->
  exists buf', awrite buf 0 data = Ok buf' /\ terminated buf' /\ buf' = data ++ drop (length data) buf.
Proof.
  intros [Hl Hd] Hdata. pose proof buffer_pos. rewrite awrite_ok by lia.
  exists (data ++ drop (length data) buf). split; [done|]. split; [|done]. split.
  - rewrite length_app, length_drop. lia.
  - rewrite drop_app, drop_ge, app_nil_l by done. rewrite drop_drop.
    by replace (length data + (BUFFER_SIZE - 1 - length data))%nat with (BUFFER_SIZE - 1)%nat by lia.
Qed.

Lemma serves_insert s i t j fd :
  (i < length (threads s))%nat ->
  serves (set_thread i t s) j fd <->
  (j = i /\ exists f buf, t = Running f buf /\ sockfd f = fd) \/ (j <> i /\ serves s j fd).
Proof.
  intros Hi. unfold serves, set_thread. cbn [threads]. destruct (decide (j = i)) as [->|Hne].
  - rewrite list_lookup_insert_eq by done. naive_solver.
  - rewrite list_lookup_insert_ne by done. naive_solver.
Qed.

(** A thread that ends gives up its connection, which was closed or armed again. *)
Lemma owned_end l i s s1 f buf :
  owned l s -> threads s !! i = Some (Running f buf) -> threads s1 = threads s ->
  (opened s1 = opened s /\ armed s1 = {[sockfd f]} ∪ armed s \/
   opened s1 = opened s ∖ {[sockfd f]} /\ armed s1 = armed s ∖ {[sockfd f]}) ->
  owned l (set_thread i Ended s1).
Proof.
  intros [H1 HL H2 H3 H4 H5 H6] Hi Ht Hoa. assert (Hf : serves s i (sockfd f)) by by exists f, buf.
  assert (Hlen : (i < length (threads s1))%nat) by (rewrite Ht; by eapply lookup_lt_Some).
  assert (Hs : forall j fd, serves (set_thread i Ended s1) j fd <-> j <> i /\ serves s j fd).
  { intros j fd. rewrite serves_insert by done. unfold serves. rewrite Ht. naive_solver. }
  destruct (H3 _ _ Hf) as [Hfo Hfa].
  split; cbn [set_thread armed opened threads].
  - destruct Hoa as [[-> ->]|[-> ->]]; set_solver.
  - intros fd Hfd. destruct (HL fd Hfd) as (Ho & Ha & Hn).
    assert (fd <> sockfd f) by (intros ->; by apply (Hn i)).
    split_and!; [destruct Hoa as [[-> _]|[-> _]]; set_solver|destruct Hoa as [[_ ->]|[_ ->]]; set_solver|].
    intros j [_ Hj]%Hs. by apply (Hn j).
  - intros fd Hfd. assert (Hfd' : fd ∈ opened s) by (destruct Hoa as [[E _]|[E _]]; rewrite E in Hfd; set_solver).
    destruct (decide (fd = sockfd f)) as [->|Hne].
    + left. destruct Hoa as [[_ ->]|[E _]]; [set_solver|]. rewrite E in Hfd. set_solver.
    + destruct (H2 fd Hfd') as [Ha|[[j Hj]|Hl]]; [| |by right; right].
      * left. destruct Hoa as [[_ ->]|[_ ->]]; set_solver.
      * right. left. exists j. apply Hs. split; [|done]. intros ->. destruct Hj as (f' & b' & E & <-). congruence.
  - intros j fd [Hne Hj]%Hs. destruct (H3 _ _ Hj) as [Ho Ha].
    assert (fd <> sockfd f) by (intros ->; by apply Hne, (H4 _ _ (sockfd f))).
    destruct Hoa as [[-> ->]|[-> ->]]; set_solver.
  - intros j k fd [_ Hj]%Hs [_ Hk]%Hs. by eapply H4.
  - intros j. destruct (decide (j = i)) as [->|]; [by rewrite list_lookup_insert_eq|].
    rewrite list_lookup_insert_ne, Ht by done. apply H5.
  - intros j f' b'. destruct (decide (j = i)) as [->|]; [by rewrite list_lookup_insert_eq|].
    rewrite list_lookup_insert_ne, Ht by done. apply H6.
Qed.

(** A running thread that keeps its connection. *)
Lemma owned_keep l i s s1 f buf buf' :
  owned l s -> threads s !! i = Some (Running f buf) -> threads s1 = threads s -> opened s1 = opened s ->
  armed s1 = armed s -> terminated buf' -> owned l (set_thread i (Running f buf') s1).
Proof.
  intros [H1 HL H2 H3 H4 H5 H6] Hi Ht Ho Ha Hb.
  assert (Hlen : (i < length (threads s1))%nat) by (rewrite Ht; by eapply lookup_lt_Some).
  assert (Hs : forall j fd, serves (set_thread i (Running f buf') s1) j fd <-> serves s j fd).
  { intros j fd. rewrite serves_insert by done. unfold serves at 1. rewrite Ht.
    destruct (decide (j = i)) as [->|]; unfold serves; [|naive_solver].
    split; [naive_solver|]. intros (f' & b & E & Hf). left. split; [done|]. exists f, buf'. naive_solver. }
  split; cbn [set_thread armed opened threads]; rewrite ?Ho, ?Ha.
  - done.
  - intros fd (? & ? & Hn)%HL. split_and!; [done..|]. intros j ?%Hs. by apply (Hn j).
  - intros fd [?|[[j ?]|?]]%H2; [by left| |by right; right]. right. left. exists j. by apply Hs.
  - intros j fd ?%Hs. by eapply H3.
  - intros j k fd ?%Hs ?%Hs. by eapply H4.
  - intros j. destruct (decide (j = i)) as [->|]; [by rewrite list_lookup_insert_eq|].
    rewrite list_lookup_insert_ne, Ht by done. apply H5.
  - intros j f' b'. destruct (decide (j = i)) as [->|].
    + rewrite list_lookup_insert_eq by done. by intros [= _ <-].
    + rewrite list_lookup_insert_ne, Ht by done. apply H6.
Qed.

Lemma worker_step_owned l i r s :
  owned l s -> enabled (Step i r) s -> exists s', worker_step i r s = Ok s' /\ owned l s'.
Proof.
  intros H Hen. cbn in Hen. unfold worker_step.
  destruct (threads s !! i) as [[|f buf|]|] eqn:Ei; try done.
  destruct r as [data| |].
  - case_decide.
    + eexists. split; [reflexivity|]. eapply owned_end; [done|done|done|]. by right.
    + destruct (terminated_write buf (take (BUFFER_SIZE - 1) data)) as (buf' & E & Hb & _);
        [by eapply (ow_buf _ _ H)|rewrite length_take; lia|].
      cbv zeta. rewrite (bind_ok _ _ _ E). destruct (terminated_text _ Hb) as [t Et].
      rewrite (bind_ok _ _ _ Et). eexists. split; [reflexivity|]. by eapply owned_keep.
  - eexists. split; [reflexivity|]. eapply owned_end; [done|done|done|]. left. cbn.
    rewrite decide_True; [done|]. eapply (ow_serves _ _ H i). by exists f, buf.
  - by exists s.
Qed.

Lemma on_listen_owned l c added s :
  owned l s -> c < 0 \/ c ∉ opened s -> owned (l ∪ lost1 (Accept c added)) (on_listen c added s).
Proof.
  intros H Hc. unfold on_listen, lost1. case_decide; [by rewrite union_empty_r_L|].
  destruct Hc as [|Hc]; [done|]. destruct H as [H1 HL H2 H3 H4 H5 H6].
  assert (Hns : forall i, ~ serves s i c) by (intros i Hi; by destruct (H3 i c Hi)).
  split; cbn [armed opened threads]; try done.
  - destruct added; set_solver.
  - intros fd [Hfd|Hfd]%elem_of_union.
    + destruct (HL fd Hfd) as (? & ? & Hn). split_and!; [set_solver|destruct added; set_solver|done].
    + destruct added; [set_solver|]. apply elem_of_singleton in Hfd as ->.
      split_and!; [set_solver|set_solver|done].
  - intros fd [->%elem_of_singleton|Hfd]%elem_of_union; [destruct added; [left|right; right]; set_solver|].
    destruct (H2 fd Hfd) as [?|[?|?]]; [left; destruct added; set_solver|by right; left|right; right; set_solver].
  - intros i fd Hs. destruct (H3 i fd Hs) as [Ho Ha]. split; [set_solver|].
    destruct added; [|done]. rewrite elem_of_union, elem_of_singleton. intros [->|?]; [|done]. by apply Hc.
Qed.

(** A report for which no thread starts. *)
Lemma event_lost ep l fd epollin created s :
  owned l s -> fd ∈ armed s -> epollin && created = false ->
  owned (l ∪ {[fd]}) (on_event ep fd epollin created s).
Proof.
  intros [H1 HL H2 H3 H4 H5 H6] Hfd Hb.
  assert (E : forall s', threads s' = threads s -> opened s' = opened s -> armed s' = armed s ∖ {[fd]} ->
            owned (l ∪ {[fd]}) s').
  { intros s' Et Eo Ea. assert (Hs : forall i x, serves s' i x <-> serves s i x) by (unfold serves; by rewrite Et).
    split; rewrite ?Et, ?Eo, ?Ea; try done.
    - set_solver.
    - intros x [(? & ? & Hn)%HL| ->%elem_of_singleton]%elem_of_union; (split_and!; [set_solver..|]);
        intros i Hi%Hs; [by apply (Hn i)|]. by destruct (H3 _ _ Hi).
    - intros x Hx. destruct (decide (x = fd)) as [->|]; [right; right; set_solver|].
      destruct (H2 x Hx) as [?|[[i Hi]|?]]; [left; set_solver| |right; right; set_solver].
      right. left. exists i. by apply Hs.
    - intros i x Hi%Hs. destruct (H3 _ _ Hi). set_solver.
    - intros i j x Hi%Hs Hj%Hs. by eapply H4. }
  destruct epollin, created; done || by apply E.
Qed.

(** A report whose thread starts at once. *)
Lemma report_owned ep l fd s :
  owned l s -> fd ∈ armed s ->
  exists s', worker_start (length (threads s)) (on_event ep fd true true s) = Ok s' /\ owned l s'.
Proof.
  intros H Hfd. unfold worker_start. cbn [on_event on_readable threads fds_for_new_worker].
  rewrite list_lookup_middle by done. cbn [from_opt mbind res_bind]. eexists. split; [reflexivity|].
  rewrite insert_app_r_alt, Nat.sub_diag by done. cbn [list_insert insert].
  destruct H as [H1 HL H2 H3 H4 H5 H6]. set (t := Running _ _).
  assert (Hlk : forall i x, (threads s ++ [t]) !! i = Some x ->
            threads s !! i = Some x \/ (i = length (threads s) /\ x = t)).
  { intros i x [?|[Hge Hx]]%lookup_app_Some; [by left|]. right.
    apply list_lookup_singleton_Some in Hx as [? <-]. split; [lia|done]. }
  set (s' := State _ _ _ _ _).
  assert (Hs : forall i x, serves s' i x -> serves s i x \/ (i = length (threads s) /\ x = fd)).
  { intros i x (f & b & [E|[-> E]]%Hlk & <-); [left; by exists f, b|right]. by injection E as -> _. }
  split; cbn [s' armed opened threads].
  - set_solver.
  - intros x (Ho & Ha & Hn)%HL. split_and!; [done|set_solver|]. intros i [Hi|[_ ->]]%Hs; [by apply (Hn i)|done].
  - intros x Hx. destruct (decide (x = fd)) as [->|Hne].
    + right. left. exists (length (threads s)). exists (Fds ep fd), (replicate BUFFER_SIZE NUL).
      split; [cbn; by rewrite list_lookup_middle|done].
    + destruct (H2 x Hx) as [?|[[i (f & b & Hi & Hf)]|?]]; [left; set_solver| |by right; right].
      right. left. exists i, f, b. split; [|done]. cbn. by apply lookup_app_l_Some.
  - intros i x [Hi|[-> ->]]%Hs; [|set_solver]. destruct (H3 i x Hi). set_solver.
  - intros i j x [Hi|[-> ->]]%Hs [Hj|[-> E]]%Hs; subst; try done.
    + by eapply H4.
    + by destruct (H3 _ _ Hi).
    + by destruct (H3 _ _ Hj).
  - intros i [E|[_ E]]%Hlk; [by eapply H5|done].
  - intros i f b [E|[_ E]]%Hlk; [by eapply H6|]. injection E as _ ->. apply terminated_zero.
Qed.

Lemma prompt_owned ep l a s s' : owned l s -> prompt ep a s s' -> owned (l ∪ lost1 a) s'.
Proof.
  intros H Hp. revert H. destruct Hp as [a s s' Hn Hen E|fd s s' Hen E]; intros H.
  - destruct a as [c added|fd epollin created|i|i r]; cbn [run] in E.
    + injection E as <-. by apply on_listen_owned.
    + injection E as <-. cbn [lost1]. destruct (epollin && created) eqn:Eb; [|by apply event_lost].
      apply andb_prop in Eb as [-> ->]. by destruct (Hn fd).
    + by destruct (ow_started _ _ H i).
    + destruct (worker_step_owned l i r s H Hen) as (s1 & E1 & H1). cbn [lost1].
      rewrite union_empty_r_L. congruence.
  - destruct (report_owned ep l fd s H Hen) as (s1 & E1 & H1). cbn [lost1 andb].
    rewrite union_empty_r_L. congruence.
Qed.

Lemma initial_owned : owned ∅ initial.
Proof.
  split; cbn; try set_solver.
  - intros i fd (f & b & E & _). cbn in E. done.
  - intros i j fd (f & b & E & _). cbn in E. done.
Qed.

Lemma prompts_owned ep acts s : prompts ep acts initial s -> owned (lost acts) s.
Proof.
  remember initial as s0 eqn:E0. induction 1 as [s|acts a s s' s'' _ IH Hp].
  - subst. apply initial_owned.
  - specialize (IH E0). unfold lost. rewrite fmap_app, union_list_app_L. cbn [fmap list_fmap union_list].
    cbn [foldr]. rewrite union_empty_r_L. by eapply prompt_owned.
Qed.

(** [C36] one_thread_each: if every new thread reads its argument before the main
    thread goes on, then in every interleaving each open connection is either
    waiting for an event and served by no thread, or served by exactly one and not
    waiting, or lost, and then it neither waits nor is served; it is lost exactly when
    [epoll_ctl] did not register it, or one of its events came without EPOLLIN, or the
    thread for one could not be created.  Whatever may happen next happens without a
    fault. *)
Theorem one_thread_each ep acts s :
  prompts ep acts initial s ->
  (forall fd, fd ∈ opened s ->
     (fd ∈ armed s /\ (forall i, ~ serves s i fd) /\ fd ∉ lost acts) \/
     (fd ∉ armed s /\ (exists i, serves s i fd /\ forall j, serves s j fd -> j = i) /\ fd ∉ lost acts) \/
     (fd ∉ armed s /\ (forall i, ~ serves s i fd) /\ fd ∈ lost acts)) /\
  lost acts ⊆ opened s /\
  (forall i r, enabled (Step i r) s -> is_ok (run ep (Step i r) s) = true) /\
  (forall fd, fd ∈ armed s -> is_ok (worker_start (length (threads s)) (on_event ep fd true true s)) = true).
Proof.
  intros H%prompts_owned. split_and!.
  - intros fd Hfd. destruct (decide (fd ∈ lost acts)) as [Hl|Hl].
    { right. right. destruct (ow_lost _ _ H fd Hl) as (? & ? & ?). by split_and!. }
    destruct (ow_open _ _ H fd Hfd) as [Ha|[[i Hi]|?]]; [| |done].
    + left. split_and!; [done| |done]. intros i Hi. by destruct (ow_serves _ _ H i fd Hi).
    + right. left. split_and!; [by apply (ow_serves _ _ H i fd)| |done]. exists i. split; [done|].
      intros j Hj. by apply (ow_unique _ _ H j i fd).
  - intros fd Hfd. by apply (ow_lost _ _ H).
  - intros i r Hen. destruct (worker_step_owned _ i r s H Hen) as (s' & E & _). cbn [run]. by rewrite E.
  - intros fd Hfd. destruct (report_owned ep _ fd s H Hfd) as (s' & E & _). by rewrite E.
Qed.

(** ** Two reports before a thread starts *)

(** Connection [fd] is open, not waited for, and no thread has or will get it. *)
Record abandoned (fd : Z) (s : state) : Prop := {
  ab_open : fd ∈ opened s;
  ab_armed : fd ∉ armed s;
  ab_serves : forall i, ~ serves s i fd;
  ab_slot : forall f, fds_for_new_worker s = Some f -> sockfd f <> fd }.

Lemma abandoned_step ep fd s s' : abandoned fd s -> step ep s s' -> abandoned fd s'.
Proof.
  intros H Hst. revert H. destruct Hst as [a s s' Hen E]. intros [H1 H2 H3 H4].
  destruct a as [c added|g epollin created|i|i r]; cbn [run] in E.
  - injection E as <-. unfold on_listen. case_decide; [by split|]. destruct Hen as [|Hen]; [done|].
    split; cbn; [set_solver| |done|done]. destruct added; [|done]. rewrite elem_of_union, elem_of_singleton.
    intros [->|?]; [by apply Hen|done].
  - injection E as <-. cbn in Hen. unfold on_event, on_readable. destruct epollin.
    2:{ split; cbn; [done|set_solver|done|done]. }
    split; cbn; [done|set_solver| |].
    + intros i (f & b & Hi & Hf). cbn [threads] in Hi. destruct created; [|apply (H3 i); by exists f, b].
      apply lookup_app_Some in Hi as [Hi|[_ Hi]].
      * apply (H3 i). by exists f, b.
      * by apply list_lookup_singleton_Some in Hi as [_ ?].
    + intros f [= <-]. cbn. by intros ->.
  - unfold worker_start in E. cbn in Hen. rewrite Hen in E.
    destruct (fds_for_new_worker s) as [f|] eqn:Ef; [|done]. cbn [from_opt mbind res_bind] in E.
    injection E as <-. split; cbn; [done|done| |intros f0 [= <-]; by apply H4].
    intros j Hj. change (serves (set_thread i (Running f (replicate BUFFER_SIZE NUL)) s) j fd) in Hj.
    apply serves_insert in Hj as [[-> (f' & b & [= <- _] & Hf)]|[_ Hj]];
      [by apply (H4 f)|by apply (H3 j)|by eapply lookup_lt_Some].
  - unfold worker_step in E. destruct (threads s !! i) as [[|f buf|]|] eqn:Ei; try by injection E as <-; split.
    assert (Hlen : (i < length (threads s))%nat) by by eapply lookup_lt_Some.
    assert (Hne : sockfd f <> fd) by (intros Hf; apply (H3 i); by exists f, buf).
    assert (Hset : forall t s1, threads s1 = threads s -> (forall f' b, t = Running f' b -> f' = f) ->
      forall j, ~ serves (set_thread i t s1) j fd).
    { intros t s1 Ht Hr j Hj. apply serves_insert in Hj as [[_ (f' & b & Hb & Hf)]|[_ Hj]]; [| |by rewrite Ht].
      - apply Hr in Hb. by subst.
      - apply (H3 j). destruct Hj as (f' & b & Hj & Hf). exists f', b. by rewrite <- Ht. }
    destruct r as [data| |].
    + cbv zeta in E. case_decide.
      * injection E as <-. split; [cbn; set_solver|cbn; set_solver|by apply Hset|done].
      * apply bind_ok_inv in E as (b & _ & (t & _ & E)%bind_ok_inv). injection E as <-.
        split; [done|done| |done]. apply Hset; [done|]. by intros f' b' [= -> _].
    + injection E as <-. split; [done| |by apply Hset|done]. cbn. case_decide; [|done]. set_solver.
    + injection E as <-. by split.
Qed.

(** argument_race: when two connections are reported and the first thread starts
    only after the second report, both threads serve the second connection, and
    the first is never read again: nobody serves it, and its event stays disabled
    in every state that can follow. *)
Theorem argument_race ep l s fd1 fd2 :
  owned l s -> fd1 ∈ armed s -> fd2 ∈ armed s -> fd1 <> fd2 ->
  exists s', rtc (step ep) s s' /\
    serves s' (length (threads s)) fd2 /\ serves s' (S (length (threads s))) fd2 /\
    forall s'', rtc (step ep) s' s'' ->
      fd1 ∈ opened s'' /\ fd1 ∉ armed s'' /\ forall i, ~ serves s'' i fd1.
Proof.
  intros H Ha1 Ha2 Hne. set (n := length (threads s)).
  set (s2 := on_event ep fd2 true true (on_event ep fd1 true true s)).
  assert (Hth : threads s2 = threads s ++ [Created; Created]) by (cbn; by rewrite <- app_assoc).
  set (t := Running (Fds ep fd2) (replicate BUFFER_SIZE NUL)).
  set (s3 := set_thread n t s2). set (s4 := set_thread (S n) t s3).
  assert (Hn : threads s2 !! n = Some Created) by (rewrite Hth; by apply list_lookup_middle).
  assert (Hlen : length (threads s2) = (n + 2)%nat) by (rewrite Hth, length_app; done).
  assert (Hsn : threads s3 !! S n = Some Created).
  { cbn [s3 set_thread threads]. rewrite list_lookup_insert_ne by lia. rewrite Hth.
    rewrite lookup_app_r by lia. by replace (S n - length (threads s))%nat with 1%nat by lia. }
  assert (Hin2 : fd2 ∈ armed (on_event ep fd1 true true s)) by (cbn; set_solver).
  exists s4. split_and!.
  - eapply rtc_l; [exact (step_run ep (Report fd1 true true) s _ Ha1 eq_refl)|].
    eapply rtc_l; [exact (step_run ep (Report fd2 true true) _ s2 Hin2 eq_refl)|].
    eapply rtc_l; [apply (step_run ep (Start n) s2 s3 Hn); cbn [run]; unfold worker_start; by rewrite Hn|].
    apply rtc_once, (step_run ep (Start (S n)) s3 s4 Hsn). cbn [run]. unfold worker_start. by rewrite Hsn.
  - exists (Fds ep fd2), (replicate BUFFER_SIZE NUL). split; [|done]. cbn [s4 s3 set_thread threads].
    rewrite list_lookup_insert_ne by lia. by rewrite list_lookup_insert_eq by lia.
  - exists (Fds ep fd2), (replicate BUFFER_SIZE NUL). split; [|done]. cbn [s4 s3 set_thread threads].
    by rewrite list_lookup_insert_eq by (rewrite length_insert; lia).
  - assert (Hab : abandoned fd1 s4).
    { destruct H as [H1 HL H2 H3 H4 H5 H6]. split; cbn; [set_solver|set_solver| |by intros f [= <-]].
      intros i Hi. apply serves_insert in Hi as [[_ (f & b & [= <- _] & Hf)]|[Hn1 Hi]];
        [by apply Hne| |cbn [s3 set_thread threads]; rewrite length_insert; lia].
      apply serves_insert in Hi as [[_ (f & b & [= <- _] & Hf)]|[Hn2 (f & b & Hi & Hf)]];
        [by apply Hne| |lia].
      rewrite Hth in Hi. apply lookup_app_Some in Hi as [Hi|[_ Hi]].
      - destruct (H3 i fd1); [by exists f, b|done].
      - destruct (i - length (threads s))%nat as [|[|]]; done. }
    intros s'' Hr. destruct (rtc_invariant (step ep) (abandoned fd1) s4 s'' (abandoned_step ep fd1) Hab Hr) as [? ? ? _].
    done.
Qed.

(** stale_tail: the buffer is not cleared between two calls of [recv], so of a
    message that follows a longer one the worker prints the rest of the longer
    one too. *)
Theorem stale_tail i s f d1 d2 :
  threads s !! i = Some (Running f (replicate BUFFER_SIZE NUL)) ->
  d1 <> [] -> d2 <> [] -> NUL ∉ d1 -> NUL ∉ d2 -> (length d2 <= length d1 < BUFFER_SIZE)%nat ->
  exists s1 s2, worker_step i (Received d1) s = Ok s1 /\ worker_step i (Received d2) s1 = Ok s2 /\
    log s2 = log s ++ [GetContent (sockfd f) d1; GetContent (sockfd f) (d2 ++ drop (length d2) d1)].
Proof.
  intros Hi Hd1 Hd2 Hn1 Hn2 Hlen. pose proof buffer_pos.
  assert (Hlt : (i < length (threads s))%nat) by by eapply lookup_lt_Some.
  set (z := fun d : bytes => d ++ replicate (BUFFER_SIZE - length d) NUL).
  assert (Htext : forall d, NUL ∉ d -> (length d < BUFFER_SIZE)%nat -> cstr (z d) 0 = Ok d).
  { intros d Hn Hl. unfold cstr, z. rewrite decide_True, drop_0 by lia.
    replace (BUFFER_SIZE - length d)%nat with (S (BUFFER_SIZE - length d - 1)) by lia. cbn [replicate].
    by rewrite upto_nul_app. }
  assert (Hw1 : awrite (replicate BUFFER_SIZE NUL) 0 d1 = Ok (z d1)).
  { rewrite awrite_ok by (rewrite ?length_replicate; lia). unfold z. cbn [Z.to_nat take app Nat.add].
    by rewrite take_0, drop_replicate. }
  set (d := d2 ++ drop (length d2) d1).
  assert (Hw2 : awrite (z d1) 0 d2 = Ok (z d)).
  { unfold z. rewrite awrite_ok by (rewrite ?length_app, ?length_replicate; lia).
    cbn [Z.to_nat Nat.add]. rewrite take_0, drop_app, app_nil_l.
    assert (length d = length d1) as -> by (unfold d; rewrite length_app, length_drop; lia).
    change (Z.to_nat 0 + length d2)%nat with (length d2).
    replace (length d2 - length d1)%nat with 0%nat by lia. rewrite drop_0. unfold d. by rewrite <- app_assoc. }
  assert (Hnd : NUL ∉ d).
  { unfold d. rewrite elem_of_app. intros [?|Hin]; [done|]. apply Hn1.
    rewrite <- (take_drop (length d2) d1), elem_of_app. by right. }
  assert (Hld : length d = length d1) by (unfold d; rewrite length_app, length_drop; lia).
  eexists _, _. split_and!.
  - unfold worker_step. rewrite Hi. cbv zeta. rewrite take_ge by lia. rewrite decide_False by done.
    rewrite (bind_ok _ _ _ Hw1), (bind_ok _ _ d1) by (by apply Htext; [|lia]). reflexivity.
  - unfold worker_step. cbn [set_thread threads emit]. rewrite list_lookup_insert_eq by done.
    cbv zeta. rewrite take_ge by lia. rewrite decide_False by done.
    rewrite (bind_ok _ _ _ Hw2), (bind_ok _ _ d) by (by apply Htext; [|lia]). reflexivity.
  - cbn [set_thread emit log]. by rewrite <- app_assoc.
Qed.

(** ** Examples *)

Definition two : state := on_listen 6 true (on_listen 5 true initial).

Lemma two_reached : prompts 4 [Accept 5 true; Accept 6 true] initial two.
Proof.
  apply (prompts_snoc 4 [Accept 5 true] (Accept 6 true) initial (on_listen 5 true initial) two).
  - apply (prompts_snoc 4 [] (Accept 5 true) initial initial); [apply prompts_nil|].
    apply prompt_other; [done|right; set_solver|done].
  - apply prompt_other; [done| |done]. right. cbn. set_solver.
Qed.

Definition one_running : state :=
  match worker_start 0 (on_event 4 5 true true two) with Ok s => s | Err _ => two end.

(** 5 is served; an error of 6 is reported. *)
Definition one_lost : state := on_event 4 6 false false one_running.
Definition one_lost_acts : list action :=
  [Accept 5 true; Accept 6 true; Report 5 true true; Report 6 false false].

Lemma one_thread_each_witness :
  prompts 4 one_lost_acts initial one_lost /\ lost one_lost_acts = {[6]} /\
  (forall fd, fd ∈ opened one_lost ->
     (fd ∈ armed one_lost /\ (forall i, ~ serves one_lost i fd) /\ fd ∉ lost one_lost_acts) \/
     (fd ∉ armed one_lost /\ (exists i, serves one_lost i fd /\ forall j, serves one_lost j fd -> j = i) /\
        fd ∉ lost one_lost_acts) \/
     (fd ∉ armed one_lost /\ (forall i, ~ serves one_lost i fd) /\ fd ∈ lost one_lost_acts)).
Proof.
  assert (Hr : prompts 4 one_lost_acts initial one_lost).
  { apply (prompts_snoc 4 [Accept 5 true; Accept 6 true; Report 5 true true] (Report 6 false false)
             initial one_running one_lost).
    - apply (prompts_snoc 4 [Accept 5 true; Accept 6 true] (Report 5 true true) initial two one_running);
        [exact two_reached|]. apply (prompt_report 4 5 two); [cbn; set_solver|reflexivity].
    - apply prompt_other; [done|cbn; set_solver|done]. }
  split; [exact Hr|]. split; [vm_compute; reflexivity|]. apply (one_thread_each 4 one_lost_acts one_lost Hr).
Defined.

Lemma argument_race_witness :
  exists s', rtc (step 4) two s' /\ serves s' 0 6 /\ serves s' 1 6 /\
    forall s'', rtc (step 4) s' s'' -> 5 ∈ opened s'' /\ 5 ∉ armed s'' /\ forall i, ~ serves s'' i 5.
Proof.
  apply (argument_race 4 _ two 5 6 (prompts_owned 4 _ two two_reached)).
  - cbn. set_solver.
  - cbn. set_solver.
  - lia.
Defined.

Lemma stale_tail_witness :
  exists s1 s2, worker_step 0 (Received (lit "hello")) one_running = Ok s1 /\
    worker_step 0 (Received (lit "hi")) s1 = Ok s2 /\
    log s2 = log one_running ++ [GetContent 5 (lit "hello"); GetContent 5 (lit "hillo")].
Proof.
  apply (stale_tail 0 one_running (Fds 4 5) (lit "hello") (lit "hi"));
    [reflexivity|done|done|decided|decided|].
  split; [cbn; lia|apply Nat.ltb_lt; reflexivity].
Defined.
