(* ===== verification/UnifiedEvents.v ===== *)
(** * Signals as events (socket/signal/unified_event_handle.c)

    The signal handler writes the number of the signal into a socket pair; the main
    loop reads it there like any other event.  Modelled are the handler with its
    care for errno, the registration of descriptors and signals, and the loop.
    Signals arrive between two waits; the socket pair holds a bounded number of
    bytes and drops what does not fit. *)

From S2P Require Import Prelude.

Definition MAX_EVENT_NUMBER : nat := 1024.
Definition EAGAIN : Z := 11.
Definition SIGHUP : Z := 1.
Definition SIGINT : Z := 2.
Definition SIGTERM : Z := 15.
Definition SIGCHLD : Z := 17.
Definition EPOLLIN : Z := 1.
Definition EPOLLET : Z := 2147483648.

(** The process: [pipe] are the bytes on their way to [pipefd[0]], at most [room];
    [interest] is the epoll table, [handled] the signals with a handler. *)
Record process := Process {
  errno : Z;
  pipe : list Z;
  room : nat;
  interest : gmap Z Z;
  nonblock : gset Z;
  handled : gset Z;
  closed : list Z }.

(** ** Helpers *)

Definition setnonblocking (fd : Z) (p : process) : process :=
  Process (errno p) (pipe p) (room p) (interest p) ({[fd]} ∪ nonblock p) (handled p) (closed p).

(** An entry that exists already is left alone (EEXIST). *)
Definition addfd (fd : Z) (p : process) : process :=
  let events := Z.lor EPOLLIN EPOLLET in
  let table := match interest p !! fd with Some _ => interest p | None => <[fd := events]> (interest p) end in
  setnonblocking fd
    (Process (errno p) (pipe p) (room p) table (nonblock p) (handled p) (closed p)).

Definition set_errno (e : Z) (p : process) : process :=
  Process e (pipe p) (room p) (interest p) (nonblock p) (handled p) (closed p).

(** [send] of one byte into the nonblocking end. *)
Definition send (b : Z) (p : process) : process :=
  if decide (length (pipe p) < room p)%nat then
    Process (errno p) (pipe p ++ [b]) (room p) (interest p) (nonblock p) (handled p) (closed p)
  else set_errno EAGAIN p.

(** The first byte of an [int] is its lowest. *)
Definition sig_handler (sig : Z) (p : process) : process :=
  let save_errno := errno p in
  let msg := sig in
  let p := send (msg mod 256) p in
  set_errno save_errno p.

(** [ret]: what [sigaction] returns. *)
Definition addsig (ret sig : Z) (p : process) : res process :=
  _ ← assert_that (ret <> -1);
  Ok (Process (errno p) (pipe p) (room p) (interest p) (nonblock p) ({[sig]} ∪ handled p) (closed p)).

(** ** The loop *)

Inductive event :=
  | Listen (connfd : Z)   (** the listening socket, with what [accept] returns *)
  | PipeReady
  | Client (fd : Z).

#[export] Instance event_eq_dec : EqDecision event.
Proof. solve_decision. Defined.

(** The bytes read from the pipe, one after the other. *)
Fixpoint on_signals (signals : list Z) (stop_server : bool) : bool :=
  match signals with
  | [] => stop_server
  | s :: signals =>
      if decide (s = SIGCHLD \/ s = SIGHUP) then on_signals signals stop_server
      else if decide (s = SIGTERM \/ s = SIGINT) then on_signals signals true
      else on_signals signals stop_server
  end.

Definition handle_event (ev : event) (st : process * bool) : res (process * bool) :=
  let '(p, stop_server) := st in
  match ev with
  | Listen connfd => _ ← assert_that (connfd >= 0); Ok (addfd connfd p, stop_server)
  | PipeReady =>
      let signals := take 1024 (pipe p) in
      let p := Process (errno p) (drop 1024 (pipe p)) (room p) (interest p) (nonblock p) (handled p) (closed p) in
      if decide (signals = []) then Ok (p, stop_server) else Ok (p, on_signals signals stop_server)
  | Client _ => Ok (p, stop_server)
  end.

Fixpoint handle_events (evs : list event) (st : process * bool) : res (process * bool) :=
  match evs with
  | [] => Ok st
  | ev :: evs => st ← handle_event ev st; handle_events evs st
  end.

(** One wait: the signals that came before it, and what [epoll_wait] reports;
    [None]: it failed with another error than EINTR. *)
Record wait := Wait { sigs : list Z; events : option (list event) }.

(** Signals without a handler do what they do by default. *)
Definition deliver (sigs : list Z) (p : process) : process :=
  foldl (fun p sig => if decide (sig ∈ handled p) then sig_handler sig p else p) p sigs.

Definition close (fd : Z) (p : process) : process :=
  Process (errno p) (pipe p) (room p) (delete fd (interest p)) (nonblock p) (handled p) (closed p ++ [fd]).

Definition close_all (listenfd p0 p1 : Z) (p : process) : process :=
  close p0 (close p1 (close listenfd p)).

(** The result also says how many waits there were. *)
Fixpoint main_loop (listenfd p0 p1 : Z) (waits : list wait) (n : nat) (st : process * bool)
    : res (process * nat) :=
  if st.2 then Ok (close_all listenfd p0 p1 st.1, n)
  else
    match waits with
    | [] => Err OutOfFuel
    | w :: waits =>
        let p := deliver (sigs w) st.1 in
        match events w with
        | None => Ok (close_all listenfd p0 p1 p, S n)
        | Some evs => st ← handle_events evs (p, false); main_loop listenfd p0 p1 waits (S n) st
        end
    end.

(** The calls of [main] before the loop, with their results. *)
Record setup_calls := SetupCalls {
  r_socket : Z; r_bind : Z; r_listen : Z; r_epoll : Z; r_pair : Z * (Z * Z); r_sigs : Z * Z * Z * Z; r_room : nat }.

Definition setup (argc : Z) (c : setup_calls) : res (Z + process) :=
  if decide (argc <> 2) then Ok (inl 1)
  else
    _ ← assert_that (r_socket c >= 0);
    _ ← assert_that (r_bind c <> -1);
    _ ← assert_that (r_listen c <> -1);
    _ ← assert_that (r_epoll c <> -1);
    let p := addfd (r_socket c) (Process 0 [] (r_room c) ∅ ∅ ∅ []) in
    let '(ret, (p0, p1)) := r_pair c in
    _ ← assert_that (ret <> -1);
    let p := addfd p0 (setnonblocking p1 p) in
    let '(a, b, c, d) := r_sigs c in
    p ← addsig a SIGHUP p;
    p ← addsig b SIGCHLD p;
    p ← addsig c SIGTERM p;
    p ← addsig d SIGINT p;
    Ok (inr p).

(** ** The handler leaves no trace but its byte *)

(** handler_reentrant: whenever a signal interrupts the program, errno is
    afterwards what it was before, even if the pipe is full and [send] fails; the only
    effect is the signal's byte at the end of the pipe, if there is room. *)
Theorem handler_reentrant sig p :
  0 <= sig < 256 ->
  errno (sig_handler sig p) = errno p /\
  pipe (sig_handler sig p) = (if decide (length (pipe p) < room p)%nat then pipe p ++ [sig] else pipe p) /\
  interest (sig_handler sig p) = interest p /\ nonblock (sig_handler sig p) = nonblock p /\
  handled (sig_handler sig p) = handled p.
Proof.
  intros Hs. unfold sig_handler, send. rewrite Z.mod_small by done. by case_decide.
Qed.

(** ** When the server stops *)

Definition is_stop (s : Z) : bool := bool_decide (s = SIGTERM \/ s = SIGINT).

Lemma on_signals_spec signals b : on_signals signals b = b || existsb is_stop signals.
Proof.
  revert b. induction signals as [|s signals IH]; intros b; cbn [on_signals existsb]; [by destruct b|].
  unfold is_stop at 1. destruct (decide (s = SIGCHLD \/ s = SIGHUP)) as [Hc|Hc].
  - rewrite IH, bool_decide_eq_false_2; [done|]. destruct Hc as [-> | ->]; unfold SIGTERM, SIGINT; intros [|]; done.
  - destruct (decide (s = SIGTERM \/ s = SIGINT)) as [Hs|Hs].
    + rewrite IH, bool_decide_eq_true_2 by done. by destruct b.
    + rewrite IH, bool_decide_eq_false_2 by done. done.
Qed.

(** The signals the program has a handler for. *)
Definition caught (s : Z) : bool := bool_decide (s = SIGHUP \/ s = SIGCHLD \/ s = SIGTERM \/ s = SIGINT).

Definition four : gset Z := {[SIGINT]} ∪ ({[SIGTERM]} ∪ ({[SIGCHLD]} ∪ ({[SIGHUP]} ∪ ∅))).

Lemma four_spec s : s ∈ four <-> caught s = true.
Proof. unfold four, caught. rewrite bool_decide_eq_true. set_solver. Qed.

Lemma deliver_spec ss : forall p,
  handled p = four -> (length (pipe p) + length ss <= room p)%nat ->
  pipe (deliver ss p) = pipe p ++ filter (fun s => caught s = true) ss /\
  handled (deliver ss p) = four /\ room (deliver ss p) = room p /\ closed (deliver ss p) = closed p.
Proof.
  induction ss as [|s ss IH]; intros p Hh Hr; [by rewrite app_nil_r|].
  cbn [length] in Hr. rewrite filter_cons.
  change (deliver (s :: ss) p) with (deliver ss (if decide (s ∈ handled p) then sig_handler s p else p)). destruct (decide (s ∈ handled p)) as [Hs|Hs]; rewrite Hh, four_spec in Hs.
  - rewrite decide_True by done.
    assert (Hb : 0 <= s < 256).
    { unfold caught in Hs. apply bool_decide_eq_true in Hs.
      destruct Hs as [->|[->|[->| ->]]]; unfold SIGHUP, SIGCHLD, SIGTERM, SIGINT; lia. }
    assert (Hp : pipe (sig_handler s p) = pipe p ++ [s] /\ handled (sig_handler s p) = four /\
                 room (sig_handler s p) = room p /\ closed (sig_handler s p) = closed p).
    { unfold sig_handler, send. rewrite Z.mod_small, decide_True by (done || lia). done. }
    destruct Hp as (Hp & Hh' & Hr' & Hc').
    destruct (IH (sig_handler s p)) as (E & E2 & E3 & E4); [done|rewrite Hp, Hr', length_app; cbn; lia|].
    rewrite E, E2, E3, E4, Hp, Hr', Hc'. by rewrite <- app_assoc.
  - rewrite decide_False by done. destruct (IH p Hh) as (E & E2 & E3 & E4); [lia|]. done.
Qed.

(** What [epoll_wait] may report: the pipe, once, if and only if bytes arrived; and
    [accept] succeeds. *)
Definition reported (w : wait) (evs : list event) : Prop :=
  events w = Some evs /\
  length (filter (fun ev => ev = PipeReady) evs) = (if existsb caught (sigs w) then 1 else 0)%nat /\
  Forall (fun ev => match ev with Listen c => c >= 0 | _ => True end) evs.

(** Handling what is reported after the pipe has been read: nothing changes. *)
Lemma handle_events_quiet evs : forall p stop,
  pipe p = [] -> Forall (fun ev => match ev with Listen c => c >= 0 | _ => True end) evs ->
  exists p', handle_events evs (p, stop) = Ok (p', stop) /\ pipe p' = [] /\ handled p' = handled p /\
    room p' = room p /\ closed p' = closed p.
Proof.
  induction evs as [|ev evs IH]; intros p stop Hp Hf; cbn [handle_events]; [by exists p|].
  apply Forall_cons in Hf as [Hev Hf]. destruct ev as [c| |fd]; cbn [handle_event].
  - unfold assert_that. rewrite decide_True by done. cbn [mbind res_bind].
    destruct (IH (addfd c p) stop) as (p' & E & H1 & H2 & H3 & H4); [done|done|]. exists p'.
    split_and!; [exact E|done|by rewrite H2|by rewrite H3|by rewrite H4].
  - rewrite Hp. cbn [take drop]. rewrite decide_True by done. cbn [mbind res_bind].
    destruct (IH (Process (errno p) [] (room p) (interest p) (nonblock p) (handled p) (closed p)) stop)
      as (p' & E & H1 & H2 & H3 & H4); [done|done|]. exists p'. by split_and!.
  - cbn [mbind res_bind]. by apply IH.
Qed.

(** Handling a batch in which the pipe is reported as it should be. *)
Lemma handle_events_reads evs : forall p,
  (length (pipe p) <= 1024)%nat ->
  Forall (fun ev => match ev with Listen c => c >= 0 | _ => True end) evs ->
  (pipe p = [] \/ PipeReady ∈ evs) ->
  exists p', handle_events evs (p, false) = Ok (p', existsb is_stop (pipe p)) /\ pipe p' = [] /\
    handled p' = handled p /\ room p' = room p /\ closed p' = closed p.
Proof.
  induction evs as [|ev evs IH]; intros p Hl Hf Hp.
  { destruct Hp as [Hp|Hp%elem_of_nil]; [|done]. exists p. by rewrite Hp. }
  apply Forall_cons in Hf as [Hev Hf]. cbn [handle_events]. destruct ev as [c| |fd]; cbn [handle_event].
  - unfold assert_that. rewrite decide_True by done. cbn [mbind res_bind].
    destruct (IH (addfd c p)) as (p' & E & H1 & H2 & H3 & H4); [done|done|by set_solver|]. exists p'.
    split_and!; [exact E|done|by rewrite H2|by rewrite H3|by rewrite H4].
  - rewrite take_ge, drop_ge by done.
    set (p0 := Process _ [] _ _ _ _ _).
    assert (Hq : forall b, exists p', handle_events evs (p0, b) = Ok (p', b) /\ pipe p' = [] /\
               handled p' = handled p /\ room p' = room p /\ closed p' = closed p).
    { intros b. destruct (handle_events_quiet evs p0 b) as (p' & E & H); [done|done|]. by exists p'. }
    case_decide as Hn.
    + rewrite Hn. apply (Hq false).
    + cbn [mbind res_bind]. rewrite on_signals_spec. apply (Hq (existsb is_stop (pipe p))).
  - cbn [mbind res_bind]. apply IH; [done|done|set_solver].
Qed.

Lemma stop_caught ss : existsb is_stop (filter (fun s => caught s = true) ss) = existsb is_stop ss.
Proof.
  induction ss as [|s ss IH]; [done|]. rewrite filter_cons. cbn [existsb]. case_decide as Hc; cbn [existsb].
  - by rewrite IH.
  - rewrite IH. destruct (is_stop s) eqn:Es; [|done]. destruct Hc. unfold is_stop in Es.
    apply bool_decide_eq_true in Es. unfold caught. apply bool_decide_eq_true. tauto.
Qed.

Lemma caught_none ss : existsb caught ss = false -> filter (fun s => caught s = true) ss = [].
Proof.
  intros H. apply filter_Forall_none. apply Forall_forall. intros s Hs Hc.
  assert (existsb caught ss = true); [|congruence]. apply existsb_exists. exists s.
  split; [by apply list_elem_of_In|done].
Qed.

(** One wait of the loop. *)
Lemma one_wait p w evs :
  handled p = four -> pipe p = [] -> (length (sigs w) <= 1024)%nat -> (length (sigs w) <= room p)%nat ->
  reported w evs ->
  exists p', handle_events evs (deliver (sigs w) p, false) = Ok (p', existsb is_stop (sigs w)) /\
    handled p' = four /\ pipe p' = [] /\ room p' = room p /\ closed p' = closed p.
Proof.
  intros Hh Hp Hl Hr (_ & Hrep & Hf).
  destruct (deliver_spec (sigs w) p Hh) as (E1 & E2 & E3 & E4); [rewrite Hp; cbn; lia|].
  rewrite Hp, app_nil_l in E1.
  destruct (handle_events_reads evs (deliver (sigs w) p)) as (p' & E & H1 & H2 & H3 & H4); [|done| |].
  - rewrite E1. etrans; [apply length_filter|done].
  - rewrite E1. destruct (existsb caught (sigs w)) eqn:Ec; [|left; by apply caught_none].
    right. destruct (filter (fun ev => ev = PipeReady) evs) as [|x l] eqn:Ex; [done|].
    assert (Hx : x ∈ filter (fun ev => ev = PipeReady) evs) by (rewrite Ex; by left).
    by apply list_elem_of_filter in Hx as [-> ?].
  - exists p'. rewrite E, E1, stop_caught. by rewrite H2, H3, H4.
Qed.

(** stops_at_first: as long as no more signals arrive between two waits than
    the loop reads at once and the pipe holds, the server runs through exactly the
    waits up to the first before which SIGTERM or SIGINT was delivered, whatever
    other signals and events there are, and then closes the listening socket and
    both ends of the pipe. *)
Theorem stops_at_first argc c p listenfd p0 p1 before w after_ :
  setup argc c = Ok (inr p) ->
  Forall (fun w => (length (sigs w) <= 1024)%nat /\ (length (sigs w) <= r_room c)%nat /\ exists evs, reported w evs)
    (before ++ [w]) ->
  Forall (fun w => existsb is_stop (sigs w) = false) before -> existsb is_stop (sigs w) = true ->
  exists p', main_loop listenfd p0 p1 (before ++ w :: after_) 0 (p, false) = Ok (p', S (length before)) /\
    closed p' = [listenfd; p1; p0].
Proof.
  intros Hset Hall Hbefore Hstop.
  assert (Hp : handled p = four /\ pipe p = [] /\ room p = r_room c /\ closed p = []).
  { unfold setup in Hset. case_decide; [done|]. do 4 apply bind_ok_inv in Hset as (_ & _ & Hset).
    destruct (r_pair c) as [ret [q0 q1]]. apply bind_ok_inv in Hset as (_ & _ & Hset).
    destruct (r_sigs c) as [[[s1 s2] s3] s4]. unfold addsig in Hset.
    do 4 apply bind_ok_inv in Hset as (? & (_ & _ & [= <-])%bind_ok_inv & Hset).
    by injection Hset as <-. }
  destruct Hp as (Hh & Hpi & Hro & Hcl). rewrite <- Hro in Hall. clear Hset Hro.
  enough (forall n, exists p', main_loop listenfd p0 p1 (before ++ w :: after_) n (p, false) =
            Ok (p', (n + S (length before))%nat) /\ closed p' = closed p ++ [listenfd; p1; p0]) as Hn.
  { destruct (Hn 0%nat) as (p' & E & Hc). exists p'. by rewrite Hcl in Hc. }
  clear Hcl. revert p Hh Hpi Hall. induction Hbefore as [|v before Hv _ IH]; intros p Hh Hpi Hall n.
  - apply Forall_singleton in Hall as (Hl & Hr & evs & Hrep).
    destruct (one_wait p w evs Hh Hpi Hl Hr Hrep) as (p' & E & H1 & H2 & H3 & H4).
    cbn [app main_loop snd fst]. destruct Hrep as (-> & _). rewrite (bind_ok _ _ _ E), Hstop.
    destruct after_; cbn [main_loop snd fst]; (eexists; split; [do 2 f_equal; cbn; lia|]);
      unfold close_all; cbn [close closed]; rewrite H4, <- !app_assoc; done.
  - rewrite <- app_comm_cons in Hall. apply Forall_cons in Hall as [(Hl & Hr & evs & Hrep) Hall].
    destruct (one_wait p v evs Hh Hpi Hl Hr Hrep) as (p' & E & H1 & H2 & H3 & H4).
    cbn [app main_loop snd fst length]. destruct Hrep as (-> & _). rewrite (bind_ok _ _ _ E), Hv.
    rewrite <- H3 in Hall. destruct (IH p' H1 H2 Hall (S n)) as (p2 & E2 & Hc2).
    exists p2. rewrite E2, Hc2, H4. split; [do 2 f_equal; lia|done].
Qed.

(** ** Examples *)

Definition calls0 : setup_calls := SetupCalls 3 0 0 4 (0, (5, 6)) (0, 0, 0, 0) 200.
Definition proc0 : process :=
  match setup 2 calls0 with Ok (inr p) => p | _ => Process 0 [] 0 ∅ ∅ ∅ [] end.
Definition quiet_wait : wait := Wait [SIGCHLD; 10; SIGHUP] (Some [Listen 7; PipeReady; Client 7]).
Definition stop_wait : wait := Wait [SIGHUP; SIGTERM] (Some [Client 7; PipeReady]).

Lemma handler_reentrant_witness :
  errno (sig_handler SIGHUP (set_errno 4 proc0)) = 4 /\
  pipe (sig_handler SIGHUP (set_errno 4 proc0)) = [SIGHUP].
Proof.
  destruct (handler_reentrant SIGHUP (set_errno 4 proc0)) as (H1 & H2 & _); [unfold SIGHUP; lia|].
  split; [exact H1|]. rewrite H2. reflexivity.
Defined.

Lemma stops_at_first_witness :
  setup 2 calls0 = Ok (inr proc0) /\
  exists p', main_loop 3 5 6 ([quiet_wait] ++ stop_wait :: [quiet_wait]) 0 (proc0, false) = Ok (p', 2%nat) /\
    closed p' = [3; 6; 5].
Proof.
  assert (E : setup 2 calls0 = Ok (inr proc0)) by (vm_compute; reflexivity).
  split; [exact E|]. apply (stops_at_first 2 calls0 proc0 3 5 6 [quiet_wait] stop_wait [quiet_wait] E).
  - repeat apply Forall_cons_2; [| |apply Forall_nil_2];
      (split_and!; [by apply Nat.leb_le|by apply Nat.leb_le|]);
      (eexists; split_and!; [reflexivity|reflexivity|]; repeat constructor; cbn; lia).
  - repeat constructor.
  - reflexivity.
Defined.
