(* ===== verification/MergeSort.v ===== *)
(** * Sorting with threads and a barrier (apue/pthread_barrier.c)

    Eight threads sort an eighth of an array each and meet the main thread at a
    barrier; the main thread merges the eighths.  The definitions take the number of
    threads and the length of a part as arguments ([NTHR], [TNUM] in the program).
    [qsort] is modelled by a sort of the slice it is given. *)

From S2P Require Import Prelude.

Definition NTHR : nat := 8.
Definition TNUM : Z := 1000000.
Definition LONG_MAX : Z := 9223372036854775807.

(** ** The threads *)

(** The order of [complong]. *)
Definition complong (l1 l2 : Z) : Z := if decide (l1 = l2) then 0 else if decide (l1 < l2) then -1 else 1.

Definition before (x y : Z) : Prop := complong x y <= 0.

#[export] Instance before_dec : RelDecision before.
Proof. intros x y. unfold before. apply _. Defined.

(** [qsort] of [n] elements from [lo] on. *)
Definition qsort (nums : list Z) (lo n : nat) : list Z :=
  take lo nums ++ merge_sort before (take n (drop lo nums)) ++ drop (lo + n) nums.

(** The array, and which threads have reached the barrier. *)
Record sorting := Sorting { nums : list Z; arrived : list bool }.

(** [thr_fn] of thread [i] up to the barrier. *)
Definition thr_fn (tnum i : nat) (s : sorting) : sorting :=
  Sorting (qsort (nums s) (i * tnum) tnum) (<[i := true]> (arrived s)).

(** The threads run in any order, each once; the sorts are of disjoint slices. *)
Inductive thread_step (tnum : nat) : sorting -> sorting -> Prop :=
  | thread_runs i s : arrived s !! i = Some false -> thread_step tnum s (thr_fn tnum i s).

(** [pthread_barrier_wait] lets the main thread pass. *)
Definition barrier_open (s : sorting) : Prop := Forall (fun b => b = true) (arrived s).

(** ** The merge *)

(** The inner loop from part [i] on, for [n] parts: the least head so far and its
    part; [minidx] is uninitialised at first and survives from turn to turn. *)
Fixpoint scan (tnum : Z) (n : nat) (i : Z) (idx : list Z) (nums : list Z) (num : Z) (minidx : option Z)
    : res (Z * option Z) :=
  match n with
  | O => Ok (num, minidx)
  | S n =>
      k ← aget idx i;
      if decide (k < (i + 1) * tnum) then
        x ← aget nums k;
        if decide (x < num) then scan tnum n (i + 1) idx nums x (Some i)
        else scan tnum n (i + 1) idx nums num minidx
      else scan tnum n (i + 1) idx nums num minidx
  end.

(** The outer loop from [sidx] on, for [n] elements. *)
Fixpoint merge_loop (nthr : nat) (tnum : Z) (n : nat) (sidx : Z) (idx nums : list Z) (minidx : option Z)
    (snums : list Z) : res (list Z) :=
  match n with
  | O => Ok snums
  | S n =>
      '(_, minidx) ← scan tnum nthr 0 idx nums LONG_MAX minidx;
      m ← from_opt Uninit minidx;
      k ← aget idx m;
      x ← aget nums k;
      snums ← aset snums sidx x;
      idx ← aset idx m (k + 1);
      merge_loop nthr tnum n (sidx + 1) idx nums minidx snums
  end.

Definition start (nthr : nat) (tnum : Z) : list Z := (fun i => Z.of_nat i * tnum) <$> seq 0 nthr.

Definition merge (nthr : nat) (tnum : Z) (nums snums : list Z) : res (list Z) :=
  merge_loop nthr tnum (Z.to_nat (Z.of_nat nthr * tnum)) 0 (start nthr tnum) nums None snums.

(** ** The parts that are left *)

(** [idx] points to what is left of each part: the lists [rests]. *)
Record view (tnum : Z) (idx nums : list Z) (rests : list (list Z)) : Prop := {
  vw_len : length idx = length rests;
  vw_at : forall i r, rests !! i = Some r ->
    exists k, idx !! i = Some k /\ 0 <= k /\ k + Z.of_nat (length r) = (Z.of_nat i + 1) * tnum /\
      forall j x, r !! j = Some x -> nums !! (Z.to_nat k + j)%nat = Some x }.

Definition small (rests : list (list Z)) : Prop := Forall (Forall (fun x => x < LONG_MAX)) rests.

(** What the inner loop knows after the first [i] parts. *)
Definition least (rests : list (list Z)) (i : nat) (num : Z) (minidx : option Z) : Prop :=
  (forall j x r, (j < i)%nat -> rests !! j = Some (x :: r) -> num <= x) /\
  ((num = LONG_MAX /\ forall j r, (j < i)%nat -> rests !! j = Some r -> r = []) \/
   (exists m r, minidx = Some (Z.of_nat m) /\ rests !! m = Some (num :: r))).

Lemma scan_least tnum idx nums rests :
  view tnum idx nums rests -> small rests -> forall n i num minidx,
  (n + i)%nat = length rests -> num <= LONG_MAX -> least rests i num minidx ->
  exists num' minidx', scan tnum n (Z.of_nat i) idx nums num minidx = Ok (num', minidx') /\
    least rests (length rests) num' minidx'.
Proof.
  intros Hv Hs. induction n as [|n IH]; intros i num minidx Hn Hmax Hl; cbn [scan].
  { exists num, minidx. cbn in Hn. by subst i. }
  destruct (lookup_lt_is_Some_2 rests i) as [r Hr]; [lia|].
  destruct (vw_at _ _ _ _ Hv i r Hr) as (k & Hk & Hk0 & Hkr & Hx).
  rewrite (bind_ok _ _ k) by (apply aget_ok; [lia|by rewrite Nat2Z.id]).
  replace (Z.of_nat i + 1) with (Z.of_nat (S i)) in * by lia.
  destruct r as [|x r].
  - cbn [length] in Hkr. rewrite decide_False by lia. apply IH; [lia|done|].
    destruct Hl as [H1 H2]. split.
    + intros j y t Hj Ht. destruct (decide (j = i)) as [->|]; [congruence|]. apply (H1 j y t); [lia|done].
    + destruct H2 as [[-> H2]|H2]; [left|by right]. split; [done|]. intros j t Hj Ht.
      destruct (decide (j = i)) as [->|]; [congruence|]. apply (H2 j t); [lia|done].
  - cbn [length] in Hkr. rewrite decide_True by lia. specialize (Hx 0%nat x eq_refl). rewrite Nat.add_0_r in Hx.
    rewrite (bind_ok _ _ x) by (by apply aget_ok).
    assert (Hxm : x < LONG_MAX).
    { unfold small in Hs. rewrite Forall_lookup in Hs. specialize (Hs i _ Hr). by inversion Hs. }
    destruct Hl as [H1 H2]. destruct (decide (x < num)) as [Hlt|Hge].
    + apply IH; [lia|lia|]. split.
      * intros j y t Hj Ht. destruct (decide (j = i)) as [->|].
        -- assert (y = x) as -> by congruence. lia.
        -- assert (num <= y) by (apply (H1 j y t); [lia|done]). lia.
      * right. by exists i, r.
    + apply IH; [lia|done|]. split.
      * intros j y t Hj Ht. destruct (decide (j = i)) as [->|].
        -- assert (y = x) as -> by congruence. lia.
        -- apply (H1 j y t); [lia|done].
      * right. destruct H2 as [[-> _]|H2]; [lia|done].
Qed.

(** Taking the least head off its part. *)
Lemma view_pop tnum idx nums rests m x r k :
  view tnum idx nums rests -> rests !! m = Some (x :: r) -> idx !! m = Some k ->
  view tnum (<[m := k + 1]> idx) nums (<[m := r]> rests).
Proof.
  intros [H1 H2] Hm Hk. split; [by rewrite !length_insert|]. intros i t Hi.
  assert (Hlen : (m < length rests)%nat) by by eapply lookup_lt_Some.
  destruct (decide (i = m)) as [->|Hne].
  - rewrite list_lookup_insert_eq in Hi by done. injection Hi as <-.
    destruct (H2 m _ Hm) as (k' & Hk' & Hk0 & Hkr & Hx). assert (k' = k) as -> by congruence.
    exists (k + 1). rewrite list_lookup_insert_eq by lia. cbn [length] in Hkr.
    split_and!; [done|lia|lia|]. intros j y Hy. replace (Z.to_nat (k + 1) + j)%nat with (Z.to_nat k + S j)%nat by lia.
    by apply Hx.
  - rewrite list_lookup_insert_ne in Hi by done. rewrite list_lookup_insert_ne by done. by apply H2.
Qed.

(** The elements that are left. *)
Lemma concat_pop (rests : list (list Z)) m x r :
  rests !! m = Some (x :: r) -> concat rests ≡ₚ x :: concat (<[m := r]> rests).
Proof.
  revert m. induction rests as [|t rests IH]; intros [|m] H; cbn in H; try done.
  - injection H as ->. done.
  - cbn [concat insert list_insert]. rewrite (IH m H). by rewrite Permutation_middle.
Qed.

Lemma concat_nil_all (rests : list (list Z)) j r : concat rests = [] -> rests !! j = Some r -> r = [].
Proof.
  revert j. induction rests as [|t rests IH]; intros [|j] H Hj; cbn in *; try done.
  - injection Hj as ->. by apply app_nil in H as [-> _].
  - apply app_nil in H as [_ H]. by apply (IH j).
Qed.

Lemma concat_all_nil (rests : list (list Z)) :
  (forall j r, rests !! j = Some r -> r = []) -> concat rests = [].
Proof.
  induction rests as [|t rests IH]; intros H; [done|]. cbn. rewrite (H 0%nat t eq_refl).
  apply IH. intros j r Hj. by apply (H (S j)).
Qed.

(** Sorted parts: the least head is least of all that is left. *)
Lemma least_of_all (rests : list (list Z)) num :
  Forall (StronglySorted Z.le) rests ->
  (forall j x r, rests !! j = Some (x :: r) -> num <= x) -> Forall (Z.le num) (concat rests).
Proof.
  intros Hs H. apply Forall_concat. apply Forall_lookup. intros j r Hj. rewrite Forall_lookup in Hs.
  specialize (Hs j r Hj). destruct r as [|x r]; [constructor|].
  pose proof (H j x r Hj). apply StronglySorted_inv in Hs as [_ Hs]. constructor; [done|].
  eapply Forall_impl; [exact Hs|]. intros y. cbn. lia.
Qed.

Lemma merge_loop_spec tnum nums n : forall sidx idx rests minidx snums,
  view tnum idx nums rests -> small rests -> Forall (StronglySorted Z.le) rests ->
  length (concat rests) = n -> (sidx + n)%nat = length snums ->
  exists out, merge_loop (length rests) tnum n (Z.of_nat sidx) idx nums minidx snums =
      Ok (take sidx snums ++ out) /\
    out ≡ₚ concat rests /\ StronglySorted Z.le out.
Proof.
  induction n as [|n IH]; intros sidx idx rests minidx snums Hv Hs Hso Hn Hlen; cbn [merge_loop].
  { exists []. rewrite app_nil_r, take_ge by lia. apply nil_length_inv in Hn. rewrite Hn.
    split_and!; [done|done|constructor]. }
  destruct (scan_least tnum idx nums rests Hv Hs (length rests) 0 LONG_MAX minidx) as (num & mi & E & Hle & Hmi);
    [lia|done|split; [intros; lia|left; split; [done|intros; lia]]|].
  change 0 with (Z.of_nat 0) at 1. rewrite (bind_ok _ _ _ E). cbv beta iota.
  destruct Hmi as [[_ Hall]|(m & r & -> & Hm)].
  { rewrite (concat_all_nil rests) in Hn; [done|]. intros j t Hj. apply (Hall j t); [by eapply lookup_lt_Some|done]. }
  destruct (vw_at _ _ _ _ Hv m _ Hm) as (k & Hk & Hk0 & Hkr & Hx).
  specialize (Hx 0%nat num eq_refl). rewrite Nat.add_0_r in Hx.
  assert (Hml : (m < length rests)%nat) by by eapply lookup_lt_Some.
  cbn [from_opt mbind res_bind]. rewrite (bind_ok _ _ k) by (apply aget_ok; [lia|by rewrite Nat2Z.id]).
  rewrite (bind_ok _ _ num) by (by apply aget_ok).
  rewrite (aset_ok snums) by lia. cbn [mbind res_bind]. rewrite aset_ok by (rewrite (vw_len _ _ _ _ Hv); lia).
  cbn [mbind res_bind]. rewrite !Nat2Z.id. replace (Z.of_nat sidx + 1) with (Z.of_nat (S sidx)) by lia.
  pose proof (concat_pop rests m num r Hm) as Hperm.
  destruct (IH (S sidx) (<[m := k + 1]> idx) (<[m := r]> rests) (Some (Z.of_nat m)) (<[sidx := num]> snums))
    as (out & E2 & Hout & Hsort).
  - by eapply view_pop.
  - apply Forall_insert; [done|]. unfold small in Hs. rewrite Forall_lookup in Hs. specialize (Hs m _ Hm). by inversion Hs.
  - apply Forall_insert; [done|]. rewrite Forall_lookup in Hso. specialize (Hso m _ Hm). by apply StronglySorted_inv in Hso as [? _].
  - apply Permutation_length in Hperm. cbn in Hperm. lia.
  - rewrite length_insert. lia.
  - rewrite length_insert in E2. exists (num :: out). rewrite E2. split_and!.
    + f_equal. rewrite (take_S_r _ _ num) by (apply list_lookup_insert_eq; lia).
      rewrite take_insert_ge by lia. by rewrite <- app_assoc.
    + by rewrite Hout, <- Hperm.
    + constructor; [done|]. rewrite Hout. apply (Forall_cons_1 _ num). rewrite <- Hperm.
      apply least_of_all; [done|]. intros j y t Hj. apply (Hle j y t); [by eapply lookup_lt_Some|done].
Qed.

(** ** The parts of the array *)

Section Parts.

Context (nthr tnum : nat).

Definition part (l : list Z) (i : nat) : list Z := take tnum (drop (i * tnum) l).
Definition parts (l : list Z) : list (list Z) := part l <$> seq 0 nthr.

Lemma parts_lookup l i r : parts l !! i = Some r <-> (i < nthr)%nat /\ r = part l i.
Proof.
  unfold parts. rewrite list_lookup_fmap. split.
  - intros H. apply fmap_Some in H as (j & Hj & ->). apply lookup_seq in Hj as [-> ?]. done.
  - intros [Hi ->]. by rewrite lookup_seq_lt.
Qed.

Lemma concat_parts_from l n : forall i,
  length l = ((i + n) * tnum)%nat -> concat (part l <$> seq i n) = drop (i * tnum) l.
Proof.
  induction n as [|n IH]; intros i Hl; cbn [seq fmap list_fmap concat].
  - rewrite drop_ge by lia. done.
  - rewrite IH by lia. unfold part. replace (S i * tnum)%nat with (i * tnum + tnum)%nat by lia.
    rewrite <- drop_drop. apply take_drop.
Qed.

Lemma concat_parts l : length l = (nthr * tnum)%nat -> concat (parts l) = l.
Proof. intros Hl. unfold parts. rewrite concat_parts_from by lia. apply drop_0. Qed.

Lemma length_part l i : length l = (nthr * tnum)%nat -> (i < nthr)%nat -> length (part l i) = tnum.
Proof. intros Hl Hi. unfold part. rewrite length_take, length_drop. nia. Qed.

Lemma start_view l :
  length l = (nthr * tnum)%nat -> view (Z.of_nat tnum) (start nthr (Z.of_nat tnum)) l (parts l).
Proof.
  intros Hl. split; [unfold start, parts; by rewrite !length_fmap, !length_seq|].
  intros i r [Hi ->]%parts_lookup. exists (Z.of_nat i * Z.of_nat tnum).
  split_and!; [|lia|rewrite length_part by done; lia|].
  - unfold start. rewrite list_lookup_fmap, lookup_seq_lt by done. done.
  - intros j x Hj. unfold part in Hj. assert (Hjt : (j < tnum)%nat).
    { apply lookup_lt_Some in Hj. rewrite length_take in Hj. lia. }
    rewrite lookup_take_lt, lookup_drop in Hj by done. by replace (Z.to_nat (Z.of_nat i * Z.of_nat tnum)) with (i * tnum)%nat by lia.
Qed.

(** *** A slice is sorted *)

Lemma before_le x y : before x y <-> x <= y.
Proof. unfold before, complong. repeat case_decide; lia. Qed.

Lemma sorted_slice l : StronglySorted Z.le (merge_sort before l).
Proof.
  assert (Ht : Transitive before) by (intros x y z; rewrite !before_le; lia).
  assert (Htot : Total before) by (intros x y; rewrite !before_le; lia).
  pose proof (StronglySorted_merge_sort before l) as H. clear Ht Htot.
  induction H as [|x k _ IH Hx]; constructor; [done|]. eapply Forall_impl; [exact Hx|].
  intros y. cbn. by rewrite before_le.
Qed.

Lemma qsort_length l lo n : (lo + n <= length l)%nat -> length (qsort l lo n) = length l.
Proof.
  intros H. unfold qsort. rewrite !length_app, length_take, length_drop.
  rewrite (Permutation_length (merge_sort_Permutation before _)), length_take, length_drop. lia.
Qed.

Lemma qsort_perm l lo n : qsort l lo n ≡ₚ l.
Proof.
  unfold qsort. rewrite merge_sort_Permutation, <- drop_drop, take_drop. by rewrite take_drop.
Qed.

Lemma qsort_part l i j :
  length l = (nthr * tnum)%nat -> (i < nthr)%nat -> (j < nthr)%nat ->
  part (qsort l (i * tnum) tnum) j = if decide (j = i) then merge_sort before (part l i) else part l j.
Proof.
  intros Hl Hi Hj. unfold part, qsort. set (s := merge_sort before _).
  assert (Hs : length s = tnum).
  { unfold s. rewrite (Permutation_length (merge_sort_Permutation before _)).
    rewrite length_take, length_drop. nia. }
  assert (Ht : length (take (i * tnum) l) = (i * tnum)%nat) by (rewrite length_take; nia).
  case_decide as E; [subst j|].
  - rewrite drop_app_length' by done. by rewrite take_app_length'.
  - destruct (decide (j < i)%nat) as [Hlt|Hge].
    + rewrite drop_app_le by nia. rewrite take_app_le by (rewrite length_drop; nia).
      rewrite <- (take_drop (i * tnum) l) at 2. rewrite drop_app_le by nia.
      by rewrite take_app_le by (rewrite length_drop; nia).
    + rewrite drop_app_ge by nia. rewrite drop_app_ge by nia. rewrite Ht, Hs, drop_drop.
      do 2 f_equal. nia.
Qed.

(** ** The whole program *)

Definition start_state (l : list Z) : sorting := Sorting l (replicate nthr false).

Record sorting_ok (l : list Z) (s : sorting) : Prop := {
  so_len : length (nums s) = (nthr * tnum)%nat;
  so_perm : nums s ≡ₚ l;
  so_arrived : length (arrived s) = nthr;
  so_sorted : forall i, arrived s !! i = Some true -> StronglySorted Z.le (part (nums s) i) }.

Lemma thread_step_ok l s s' : sorting_ok l s -> thread_step tnum s s' -> sorting_ok l s'.
Proof.
  intros H Hs. revert H. destruct Hs as [i s Hi]. intros [H1 H2 H3 H4].
  assert (Hin : (i < nthr)%nat) by (rewrite <- H3; by eapply lookup_lt_Some).
  split; cbn [thr_fn nums arrived].
  - rewrite qsort_length by nia. done.
  - by rewrite qsort_perm.
  - by rewrite length_insert.
  - intros j Hj. assert (Hjn : (j < nthr)%nat) by (apply lookup_lt_Some in Hj; by rewrite length_insert, H3 in Hj).
    rewrite qsort_part by done. case_decide as E; [apply sorted_slice|].
    apply H4. by rewrite list_lookup_insert_ne in Hj.
Qed.

(** [C39] sorts_in_any_order: in whatever order the threads run, once the barrier
    lets the main thread pass, the merge makes no access outside the arrays, never
    uses the uninitialised index, and fills [snums] with the numbers in ascending
    order, provided all are less than LONG_MAX (random() returns at most 2^31 - 1). *)
Theorem sorts_in_any_order l s snums :
  length l = (nthr * tnum)%nat -> Forall (fun x => x < LONG_MAX) l -> length snums = length l ->
  rtc (thread_step tnum) (start_state l) s -> barrier_open s ->
  exists out, merge nthr (Z.of_nat tnum) (nums s) snums = Ok out /\ out ≡ₚ l /\ StronglySorted Z.le out.
Proof.
  intros Hl Hmax Hsn Hr Hopen.
  assert (H : sorting_ok l s).
  { apply (rtc_invariant (thread_step tnum) (sorting_ok l) (start_state l) s);
      [intros a b; apply thread_step_ok| |done].
    split; cbn; [done|done|apply length_replicate|]. intros i [[=] _]%lookup_replicate. }
  destruct H as [H1 H2 H3 H4].
  assert (Hlp : length (parts (nums s)) = nthr) by (unfold parts; by rewrite length_fmap, length_seq).
  destruct (merge_loop_spec (Z.of_nat tnum) (nums s) (nthr * tnum) 0 (start nthr (Z.of_nat tnum))
              (parts (nums s)) None snums) as (out & E & Hp & Hso).
  - by apply start_view.
  - unfold small. apply Forall_lookup. intros i r [Hi ->]%parts_lookup. unfold part.
    apply Forall_take, Forall_drop. by rewrite H2.
  - apply Forall_lookup. intros i r [Hi ->]%parts_lookup. apply H4.
    unfold barrier_open in Hopen. rewrite Forall_lookup in Hopen.
    destruct (lookup_lt_is_Some_2 (arrived s) i) as [b Hb]; [by rewrite H3|]. by rewrite Hb, (Hopen i b Hb).
  - by rewrite concat_parts.
  - lia.
  - rewrite Hlp in E. exists out. rewrite concat_parts in Hp by done. split_and!; [|by rewrite Hp|done].
    unfold merge. replace (Z.to_nat (Z.of_nat nthr * Z.of_nat tnum)) with (nthr * tnum)%nat by lia.
    change 0 with (Z.of_nat 0) at 1. rewrite E. by rewrite take_0.
Qed.

End Parts.

(** ** Examples *)

Definition nums0 : list Z := [5; 3; 9; 1; 7; 2].
Definition done0 : sorting := thr_fn 3 0 (thr_fn 3 1 (start_state 2 nums0)).

Lemma sorts_in_any_order_witness :
  exists out, merge 2 3 (nums done0) (replicate 6 0) = Ok out /\ out ≡ₚ nums0 /\ StronglySorted Z.le out.
Proof.
  apply (sorts_in_any_order 2 3 nums0 done0 (replicate 6 0)); [reflexivity| |reflexivity| |].
  - unfold LONG_MAX. repeat constructor.
  - eapply rtc_l; [apply (thread_runs 3 1); reflexivity|]. apply rtc_once, (thread_runs 3 0). reflexivity.
  - repeat constructor.
Defined.
