(* ===== verification/Connect.v ===== *)
(** * Connecting, and changing the user (socket/others, socket/timer, socket/io_multiplexing)

    connect_retry.h retries with growing pauses; io_nonblock_connect.c waits for a
    nonblocking connect with [select]; socket_connect_timeout.c sets a timeout on the
    socket; change_user.h gives up root. *)

From S2P Require Import Prelude.

(** ** connect_retry.h *)
Module Retry.

Definition MAXSLEEP : Z := 128.

Inductive call := Close (fd : Z) | Sleep (n : Z).

(** The loop with pause [numsec], for [n] more rounds; [att i] is what [socket] and
    [connect] return in round [i]. *)
Fixpoint retry_loop (n : nat) (i : nat) (numsec : Z) (att : nat -> Z * Z) : res (Z * list call) :=
  if decide (numsec <= MAXSLEEP) then
    match n with
    | O => Err OutOfFuel
    | S n =>
        let '(fd, ret) := att i in
        if decide (fd < 0) then Ok (-1, [])
        else if decide (ret = 0) then Ok (fd, [])
        else
          let pause := if decide (numsec <= MAXSLEEP / 2) then [Sleep numsec] else [] in
          '(r, calls) ← retry_loop n (S i) (Z.shiftl numsec 1) att;
          Ok (r, Close fd :: pause ++ calls)
    end
  else Ok (-1, []).

(** The pause doubles from 1 to 128: eight rounds. *)
Definition connect_retry (att : nat -> Z * Z) : res (Z * list call) := retry_loop 8 0 1 att.

(** The calls of the failed rounds [i, ..., i + n - 1] of the first [8]. *)
Definition failed (att : nat -> Z * Z) (i n : nat) : list call :=
  mjoin ((fun j => Close (att j).1 :: (if decide (j < 7)%nat then [Sleep (2 ^ Z.of_nat j)] else [])) <$> seq i n).

Lemma pause_half i : (i < 8)%nat ->
  (if decide (2 ^ Z.of_nat i <= MAXSLEEP / 2) then [Sleep (2 ^ Z.of_nat i)] else []) =
  (if decide (i < 7)%nat then [Sleep (2 ^ Z.of_nat i)] else []).
Proof. intros Hi. do 8 (destruct i as [|i]; [reflexivity|]). lia. Qed.

Lemma retry_loop_spec att k : forall n i,
  (i + n = 8)%nat -> (i + k <= 8)%nat ->
  (forall j, (i <= j < i + k)%nat -> 0 <= (att j).1 /\ (att j).2 <> 0) ->
  exists n', (n' + k = n)%nat /\ retry_loop n i (2 ^ Z.of_nat i) att =
    ('(r, calls) ← retry_loop n' (i + k) (2 ^ Z.of_nat (i + k)) att; Ok (r, failed att i k ++ calls)).
Proof.
  induction k as [|k IH]; intros n i Hn Hk Hf.
  { exists n. split; [lia|]. rewrite Nat.add_0_r. by destruct (retry_loop n i (2 ^ Z.of_nat i) att) as [[r c]|]. }
  destruct n as [|n]; [lia|]. destruct (IH n (S i)) as (n' & Hn' & E); [lia|lia|intros j Hj; apply Hf; lia|].
  exists n'. split; [lia|]. cbn [retry_loop].
  assert (Hb : 2 ^ Z.of_nat i <= 2 ^ 7) by (apply Z.pow_le_mono_r; lia).
  rewrite decide_True by (unfold MAXSLEEP; lia).
  destruct (Hf i) as [H1 H2]; [lia|]. destruct (att i) as [fd ret] eqn:Ea. cbn in H1, H2.
  rewrite decide_False by lia. rewrite decide_False by done. cbv zeta. rewrite pause_half by lia.
  replace (Z.shiftl (2 ^ Z.of_nat i) 1) with (2 ^ Z.of_nat (S i)).
  2: { rewrite Z.shiftl_mul_pow2 by lia. rewrite Nat2Z.inj_succ, Z.pow_succ_r by lia. lia. }
  rewrite E. replace (S i + k)%nat with (i + S k)%nat by lia.
  destruct (retry_loop n' (i + S k) (2 ^ Z.of_nat (i + S k)) att) as [[r c]|]; [|done].
  cbn [mbind res_bind]. unfold failed. cbn [seq fmap list_fmap mjoin list_join]. rewrite Ea. cbn [fst].
  by rewrite <- app_assoc.
Qed.

(** retry_result: the connection made in the first successful of at most eight
    rounds is returned; every socket of a failed round is closed, the pauses are 1,
    2, 4, ... seconds and there is none after the last round; if [socket] fails, or
    all eight rounds do, the result is -1. *)
Theorem retry_result att k :
  (k <= 8)%nat -> (forall j, (j < k)%nat -> 0 <= (att j).1 /\ (att j).2 <> 0) ->
  (k = 8%nat -> connect_retry att = Ok (-1, failed att 0 8)) /\
  ((k < 8)%nat -> (att k).1 < 0 -> connect_retry att = Ok (-1, failed att 0 k)) /\
  ((k < 8)%nat -> 0 <= (att k).1 -> (att k).2 = 0 -> connect_retry att = Ok ((att k).1, failed att 0 k)).
Proof.
  intros Hk Hf. unfold connect_retry.
  destruct (retry_loop_spec att k 8 0 eq_refl Hk) as (n' & Hn & E); [intros j Hj; apply Hf; lia|].
  change (2 ^ Z.of_nat 0) with 1 in E. rewrite E. cbn [Nat.add].
  split_and!.
  - intros ->. assert (n' = 0%nat) as -> by lia. cbn. by rewrite app_nil_r.
  - intros Hlt Hneg. destruct n' as [|n']; [lia|]. cbn [retry_loop].
    assert (2 ^ Z.of_nat k <= 2 ^ 7) by (apply Z.pow_le_mono_r; lia).
    rewrite decide_True by (unfold MAXSLEEP; lia). destruct (att k) as [fd ret]. cbn in Hneg.
    rewrite decide_True by done. cbn [mbind res_bind]. by rewrite app_nil_r.
  - intros Hlt Hpos Hz. destruct n' as [|n']; [lia|]. cbn [retry_loop].
    assert (2 ^ Z.of_nat k <= 2 ^ 7) by (apply Z.pow_le_mono_r; lia).
    rewrite decide_True by (unfold MAXSLEEP; lia). destruct (att k) as [fd ret]. cbn in Hpos, Hz |- *.
    rewrite decide_False by lia. rewrite decide_True by done. cbn [mbind res_bind]. by rewrite app_nil_r.
Qed.

End Retry.

(** ** io_nonblock_connect.c *)
Module Nonblock.

Inductive call := Close (fd : Z) | SetFlags (fd flags : Z).

Definition EINPROGRESS : Z := 115.

(** The answers of the kernel: the socket, its flags, [connect] (0 or errno); which
    descriptors are open, which are writable at once; whether the connection is
    decided in time; [getsockopt] and the socket's error. *)
Record answers := Answers {
  a_socket : Z;
  a_flags : Z;
  a_connect : Z;
  a_open : gset Z;
  a_writable : gset Z;
  a_in_time : bool;
  a_getsockopt : Z;
  a_error : Z }.

(** [select] on the first [sockfd + 1] bits of a write set: an error if one of them is
    not open; what is writable at once; or a wait for [sockfd]. *)
Definition select (a : answers) (sockfd : Z) (fds : gset Z) : Z * gset Z :=
  let fds := filter (fun fd => fd <= sockfd) fds in
  if decide (fds ⊆ a_open a) then
    let now := fds ∩ a_writable a in
    if decide (now = ∅) then
      if a_in_time a then if decide (sockfd ∈ fds) then (1, {[sockfd]}) else (0, ∅) else (0, ∅)
    else (Z.of_nat (size now), now)
  else (-1, fds).

(** [writefds] is the memory the local variable [writefds] happens to occupy: it is
    not cleared ([FD_ZERO] is called for [readfds]). *)
Definition unblock_connect (writefds : gset Z) (a : answers) : res (Z * list call) :=
  let sockfd := a_socket a in
  _ ← assert_that (sockfd >= 0);
  let fdopt := a_flags a in
  let nonblock := SetFlags sockfd (Z.lor fdopt 2048) in
  if decide (a_connect a = 0) then Ok (sockfd, [nonblock; SetFlags sockfd fdopt])
  else if decide (a_connect a <> EINPROGRESS) then Ok (-1, [nonblock])
  else
    let '(ret, writefds) := select a sockfd ({[sockfd]} ∪ writefds) in
    if decide (ret <= 0) then Ok (-1, [nonblock; Close sockfd])
    else if decide (sockfd ∉ writefds) then Ok (-1, [nonblock; Close sockfd])
    else if decide (a_getsockopt a < 0) then Ok (-1, [nonblock; Close sockfd])
    else if decide (a_error a <> 0) then Ok (-1, [nonblock; Close sockfd])
    else Ok (sockfd, [nonblock; SetFlags sockfd fdopt]).

Definition main (argc : Z) (writefds : gset Z) (a : answers) : res (Z * list call) :=
  if decide (argc <> 3) then Ok (1, [])
  else
    '(sockfd, calls) ← unblock_connect writefds a;
    if decide (sockfd < 0) then Ok (1, calls) else Ok (0, calls ++ [Close sockfd]).

(** The connection is established by the end of the timeout. *)
Definition connected (a : answers) : bool :=
  bool_decide (a_connect a = 0) ||
  (bool_decide (a_connect a = EINPROGRESS) &&
   (bool_decide (a_socket a ∈ a_writable a) || a_in_time a) &&
   bool_decide (0 <= a_getsockopt a) && bool_decide (a_error a = 0)).

(** connect_clean: if the memory of [writefds] happens to be clear, the result is
    the socket, with its flags as they were, exactly when the connection is
    established in time, and otherwise -1; the socket is then closed, except when
    [connect] failed at once. *)
Theorem connect_clean a :
  0 <= a_socket a -> a_socket a ∈ a_open a ->
  unblock_connect ∅ a =
  Ok (if connected a then
        (a_socket a, [SetFlags (a_socket a) (Z.lor (a_flags a) 2048); SetFlags (a_socket a) (a_flags a)])
      else (-1, SetFlags (a_socket a) (Z.lor (a_flags a) 2048) ::
                (if decide (a_connect a = EINPROGRESS) then [Close (a_socket a)] else []))).
Proof.
  intros Hs Ho. unfold unblock_connect, connected.
  rewrite (bind_ok _ _ tt) by (unfold assert_that; by rewrite decide_True by lia). destruct (decide (a_connect a = 0)) as [E0|E0].
  { by rewrite bool_decide_eq_true_2. }
  rewrite bool_decide_eq_false_2 by done. cbn [orb].
  destruct (decide (a_connect a = EINPROGRESS)) as [Ei|Ei].
  2: { rewrite decide_True by done. rewrite bool_decide_eq_false_2 by done. done. }
  rewrite decide_False by tauto. rewrite (bool_decide_eq_true_2 _ Ei). cbn [andb].
  set (sd := a_socket a) in *.
  assert (Hf : filter (fun fd => fd <= sd) ({[sd]} ∪ ∅ : gset Z) = {[sd]}).
  { apply set_eq. intros x. rewrite elem_of_filter. set_solver by lia. }
  unfold select. rewrite Hf. rewrite decide_True by set_solver.
  destruct (decide (sd ∈ a_writable a)) as [Hw|Hw].
  - assert (Hn : ({[sd]} : gset Z) ∩ a_writable a = {[sd]}) by set_solver. rewrite Hn.
    rewrite decide_False by set_solver. rewrite size_singleton. cbv iota.
    rewrite decide_False by lia. rewrite decide_False by set_solver.
    rewrite (bool_decide_eq_true_2 _ Hw). cbn [orb andb].
    case_decide as Hg; [by rewrite bool_decide_eq_false_2 by lia|]. rewrite bool_decide_eq_true_2 by lia.
    cbn [andb]. case_decide as He; [by rewrite bool_decide_eq_false_2|]. rewrite bool_decide_eq_true_2 by tauto. done.
  - assert (Hn : ({[sd]} : gset Z) ∩ a_writable a = ∅) by set_solver. rewrite Hn, decide_True by done.
    rewrite (bool_decide_eq_false_2 _ Hw). cbn [orb andb]. destruct (a_in_time a); [|done].
    rewrite decide_True by set_solver. cbn [andb]. rewrite decide_False by lia. rewrite decide_False by set_solver.
    case_decide as Hg; [by rewrite bool_decide_eq_false_2 by lia|]. rewrite bool_decide_eq_true_2 by lia.
    cbn [andb]. case_decide as He; [by rewrite bool_decide_eq_false_2|]. rewrite bool_decide_eq_true_2 by tauto. done.
Qed.

(** connect_garbage: but [writefds] is never cleared.  If its memory has the bit
    of a lower descriptor that is not open, every connection that is not made at
    once is reported as timed out, whether it is established or not. *)
Theorem connect_garbage writefds g a :
  0 <= a_socket a -> a_connect a = EINPROGRESS -> g ∈ writefds -> g <= a_socket a -> g ∉ a_open a ->
  unblock_connect writefds a =
    Ok (-1, [SetFlags (a_socket a) (Z.lor (a_flags a) 2048); Close (a_socket a)]).
Proof.
  intros Hs Hc Hg Hle Ho. unfold unblock_connect.
  rewrite (bind_ok _ _ tt) by (unfold assert_that; by rewrite decide_True by lia). rewrite Hc. rewrite decide_False by done. rewrite decide_False by tauto. unfold select.
  rewrite decide_False; [done|]. intros Hsub. apply Ho, Hsub, elem_of_filter. set_solver.
Qed.

End Nonblock.

(** ** socket_connect_timeout.c *)
Module Timeout.

(** [socket], [setsockopt], [connect]. *)
Definition timeout_connect (sockfd opt ret : Z) : res Z :=
  _ ← assert_that (sockfd >= 0);
  _ ← assert_that (opt <> -1);
  if decide (ret = -1) then Ok (-1) else Ok sockfd.

Definition main (argc sockfd opt ret : Z) : res Z :=
  if decide (argc <> 3) then Ok (-1)
  else fd ← timeout_connect sockfd opt ret; if decide (fd < 0) then Ok 1 else Ok 0.

End Timeout.

(** ** change_user.h *)
Module User.

(** The user and group of the process. *)
Record ids := Ids { uid : Z; gid : Z }.

(** [setuid] and [setgid]: root may become anyone, others only themselves. *)
Definition setuid (u : Z) (p : ids) : bool * ids :=
  if decide (uid p = 0 \/ uid p = u) then (true, Ids u (gid p)) else (false, p).
Definition setgid (g : Z) (p : ids) : bool * ids :=
  if decide (uid p = 0 \/ gid p = g) then (true, Ids (uid p) g) else (false, p).

Definition switch_to_user (user_id gp_id : Z) (p : ids) : bool * ids :=
  let g := gid p in
  let u := uid p in
  if decide (g = gp_id /\ u = user_id) then (true, p)
  else if decide (g = 0 /\ u = 0) then
    let '(ok, p) := setuid u p in
    if ok then let '(ok, p) := setgid g p in (ok, p) else (false, p)
  else (false, p).

(** root_stays_root: whoever root asks to become, the function reports success
    and the process is still root: [setuid] and [setgid] are given the present
    ids, not the wanted ones. *)
Theorem root_stays_root user_id gp_id : switch_to_user user_id gp_id (Ids 0 0) = (true, Ids 0 0).
Proof.
  unfold switch_to_user. cbn [gid uid]. case_decide; [done|]. rewrite decide_True by done.
  reflexivity.
Qed.

(** Anyone else is left as is, with success exactly if nothing had to change. *)
Lemma other_stays user_id gp_id p :
  ~ (gid p = 0 /\ uid p = 0) ->
  switch_to_user user_id gp_id p = (bool_decide (gid p = gp_id /\ uid p = user_id), p).
Proof.
  intros H. unfold switch_to_user. cbv zeta. case_decide as E; [by rewrite bool_decide_eq_true_2|].
  by rewrite bool_decide_eq_false_2, decide_False.
Qed.

End User.

(** ** Examples *)

Lemma retry_result_witness :
  Retry.connect_retry (fun i => (10 + Z.of_nat i, if decide (i = 2%nat) then 0 else -1)) =
  Ok (12, [Retry.Close 10; Retry.Sleep 1; Retry.Close 11; Retry.Sleep 2]).
Proof.
  apply (Retry.retry_result (fun i => (10 + Z.of_nat i, if decide (i = 2%nat) then 0 else -1)) 2);
    [lia|intros [|[|j]] Hj; [split; cbn; [lia|discriminate]|split; cbn; [lia|discriminate]|lia]|lia|cbn; lia|reflexivity].
Defined.

Definition slow : Nonblock.answers := Nonblock.Answers 4 2 115 {[0; 1; 2; 4]} {[1]} true 0 0.

Lemma connect_clean_witness :
  Nonblock.unblock_connect ∅ slow = Ok (4, [Nonblock.SetFlags 4 2050; Nonblock.SetFlags 4 2]).
Proof. rewrite (Nonblock.connect_clean slow); [reflexivity|cbn; lia|decided]. Defined.

Lemma connect_garbage_witness :
  Nonblock.unblock_connect {[3]} slow = Ok (-1, [Nonblock.SetFlags 4 2050; Nonblock.Close 4]).
Proof. apply (Nonblock.connect_garbage {[3]} 3 slow); [cbn; lia|reflexivity|decided|cbn; lia|decided]. Defined.
