(* ===== verification/Locker.v ===== *)
(** * Semaphore and mutex wrappers (socket/thread/locker.h)

    The state behind [sem_t] and [pthread_mutex_t] as the classes [sem] and
    [locker] use it, one function per method.  A call that blocks is [None]:
    the thread that makes it has no step until the state allows one.  The
    class [cond], which no program of the repository uses, is in [Sync] and [ThreadDemos]. *)

From S2P Require Import Prelude.

(** Who takes a lock: the pool's workers and the threads that call [append]. *)
Inductive thread := Worker (i : nat) | Producer (j : nat).

#[export] Instance thread_eqdec : EqDecision thread.
Proof. solve_decision. Defined.

(** ** class sem *)

Record sem := Sem { sem_value : nat }.

(** The constructor: [sem_init] gives [ret]. *)
Definition sem_new (ret : Z) : res sem :=
  if decide (ret <> 0) then Err Thrown else Ok (Sem 0).

(** [wait]: the result tells whether [sem_wait] returned 0.  A handled signal
    makes a blocked [sem_wait] return -1 without taking anything ([intr]). *)
Definition sem_wait (intr : bool) (s : sem) : option (bool * sem) :=
  if intr then Some (false, s)
  else match sem_value s with
       | O => None
       | S n => Some (true, Sem n)
       end.

#[global] Arguments sem_wait : simpl never.

Definition sem_post (s : sem) : bool * sem := (true, Sem (S (sem_value s))).

(** ** class locker *)

Record locker := Locker { owner : option thread }.

Definition locker_new (ret : Z) : res locker :=
  if decide (ret <> 0) then Err Thrown else Ok (Locker None).

Definition lock (t : thread) (l : locker) : option (bool * locker) :=
  match owner l with
  | None => Some (true, Locker (Some t))
  | Some _ => None
  end.

(** Only the thread that holds the mutex may release it. *)
Definition unlock (t : thread) (l : locker) : res (bool * locker) :=
  if decide (owner l = Some t) then Ok (true, Locker None) else Err AssertFail.

(** ** Lemmas *)

Lemma lock_inv t l b l' :
  lock t l = Some (b, l') -> owner l = None /\ l' = Locker (Some t).
Proof. unfold lock. destruct (owner l); [discriminate|]. by intros [= <- <-]. Qed.

Lemma unlock_ok t l : owner l = Some t -> unlock t l = Ok (true, Locker None).
Proof. intros H. unfold unlock. by rewrite decide_True. Qed.

Lemma sem_wait_inv intr s b s' :
  sem_wait intr s = Some (b, s') ->
  (intr = true /\ s' = s) \/ (intr = false /\ sem_value s = S (sem_value s')).
Proof.
  unfold sem_wait. destruct intr; [intros [= <- <-]; by left|].
  destruct (sem_value s) eqn:E; [discriminate|]. intros [= <- <-]. by right.
Qed.
