(* ===== verification/ThreadPool.v ===== *)
(** * The thread pool (socket/pool/threadpool.h)

    [threadpool<T>]: its constructor and destructor, and the code that runs
    concurrently, [append] in the calling threads and [run] in the workers, as
    one small step per statement that touches shared state.  A thread's program
    counter names the statement it executes next; a run of the pool is any
    interleaving.  Requests are pointers ([T *]), null included. *)

From S2P Require Import Prelude Locker.

(** ** Data *)

Record threadpool := ThreadPool {
  m_thread_number : Z;
  m_max_requests : Z;
  m_threads : bool;                  (** the array is allocated *)
  m_workqueue : list ptr;
  m_queuelocker : locker;
  m_queuestat : sem;
  m_stop : bool }.

Definition set_queue (q : list ptr) (p : threadpool) : threadpool :=
  ThreadPool (m_thread_number p) (m_max_requests p) (m_threads p) q
    (m_queuelocker p) (m_queuestat p) (m_stop p).
Definition set_locker (l : locker) (p : threadpool) : threadpool :=
  ThreadPool (m_thread_number p) (m_max_requests p) (m_threads p) (m_workqueue p)
    l (m_queuestat p) (m_stop p).
Definition set_stat (s : sem) (p : threadpool) : threadpool :=
  ThreadPool (m_thread_number p) (m_max_requests p) (m_threads p) (m_workqueue p)
    (m_queuelocker p) s (m_stop p).

(** ** Constructor and destructor *)

(** The thread-creating loop, with the results of [pthread_create] and
    [pthread_detach] for each thread.  The first component counts the threads
    that run when the loop ends, whether it ends normally or by a throw. *)
Fixpoint create_threads (n : nat) (rets : list (Z * Z)) : nat * res unit :=
  match n with
  | O => (0%nat, Ok tt)
  | S n => match rets with
           | [] => (0%nat, Err OutOfFuel)
           | (create, detach) :: rets =>
               if decide (create <> 0) then (0%nat, Err Thrown)
               else if decide (detach <> 0) then (1%nat, Err Thrown)
               else let '(k, r) := create_threads n rets in (S k, r)
           end
  end.

Definition new_threadpool (thread_number max_requests : Z) (rets : list (Z * Z))
    : nat * res threadpool :=
  if decide (thread_number <= 0 \/ max_requests <= 0) then (0%nat, Err Thrown)
  else let '(k, r) := create_threads (Z.to_nat thread_number) rets in
       (k, match r with
           | Ok _ => Ok (ThreadPool thread_number max_requests true []
                           (Locker None) (Sem 0) false)
           | Err f => Err f
           end).

Definition destroy_threadpool (p : threadpool) : threadpool :=
  ThreadPool (m_thread_number p) (m_max_requests p) false (m_workqueue p)
    (m_queuelocker p) (m_queuestat p) true.

(** ** Events: what the threads did, in the order they did it *)

Inductive event :=
  | Push (r : ptr)                 (** [push_back] *)
  | Take (r : ptr)                 (** [front] and [pop_front] *)
  | Process (l : loc)              (** [request->process()] *)
  | Returned (r : ptr) (b : bool). (** [append] returned [b] *)

(** ** append *)

Inductive ppc :=
  | PIdle                (** outside [append] *)
  | PLock (r : ptr)      (** about to lock *)
  | PTest (r : ptr)      (** the size test *)
  | PFull (r : ptr)      (** unlock on the full branch *)
  | PPush (r : ptr)
  | PUnlock (r : ptr)
  | PPost (r : ptr)
  | PRet (r : ptr) (b : bool)
  | PFault (f : fault).

Definition release (t : thread) (p : threadpool) : res threadpool :=
  '(_, l) ← unlock t (m_queuelocker p); Ok (set_locker l p).

Definition append_step (j : nat) (c : ppc) (p : threadpool)
    : option (ppc * threadpool * list event) :=
  match c with
  | PIdle | PFault _ => None
  | PLock r =>
      '(_, l) ← lock (Producer j) (m_queuelocker p);
      Some (PTest r, set_locker l p, [])
  | PTest r =>
      if decide (Z.of_nat (length (m_workqueue p)) > m_max_requests p)
      then Some (PFull r, p, []) else Some (PPush r, p, [])
  | PFull r =>
      match release (Producer j) p with
      | Ok p => Some (PRet r false, p, [])
      | Err f => Some (PFault f, p, [])
      end
  | PPush r => Some (PUnlock r, set_queue (m_workqueue p ++ [r]) p, [Push r])
  | PUnlock r =>
      match release (Producer j) p with
      | Ok p => Some (PPost r, p, [])
      | Err f => Some (PFault f, p, [])
      end
  | PPost r => Some (PRet r true, set_stat (sem_post (m_queuestat p)).2 p, [])
  | PRet r b => Some (PIdle, p, [Returned r b])
  end.

(** ** run *)

Inductive wpc :=
  | WLoop                (** [while (!m_stop)] *)
  | WWait
  | WLock
  | WTest                (** [m_workqueue.empty()] *)
  | WSkip                (** unlock on the empty branch *)
  | WPop                 (** [front], [pop_front] *)
  | WUnlock (r : ptr)
  | WCheck (r : ptr)     (** [if (!request) continue] *)
  | WRun (l : loc)       (** [request->process()] *)
  | WExit
  | WFault (f : fault).

Definition run_step (i : nat) (intr : bool) (w : wpc) (p : threadpool)
    : option (wpc * threadpool * list event) :=
  match w with
  | WLoop => Some (if m_stop p then WExit else WWait, p, [])
  | WWait =>
      '(_, s) ← sem_wait intr (m_queuestat p);
      Some (WLock, set_stat s p, [])
  | WLock =>
      '(_, l) ← lock (Worker i) (m_queuelocker p);
      Some (WTest, set_locker l p, [])
  | WTest =>
      match m_workqueue p with
      | [] => Some (WSkip, p, [])
      | _ => Some (WPop, p, [])
      end
  | WSkip =>
      match release (Worker i) p with
      | Ok p => Some (WLoop, p, [])
      | Err f => Some (WFault f, p, [])
      end
  | WPop =>
      match m_workqueue p with
      | [] => Some (WFault OutOfBounds, p, [])
      | r :: q => Some (WUnlock r, set_queue q p, [Take r])
      end
  | WUnlock r =>
      match release (Worker i) p with
      | Ok p => Some (WCheck r, p, [])
      | Err f => Some (WFault f, p, [])
      end
  | WCheck None => Some (WLoop, p, [])
  | WCheck (Some l) => Some (WRun l, p, [])
  | WRun l => Some (WLoop, p, [Process l])
  | WExit | WFault _ => None
  end.

(** ** The concurrent system *)

Record system := System {
  pool : threadpool;
  workers : list wpc;
  producers : list ppc;
  history : list event }.

(** A step of a thread inside the pool's code; [intr] says that a wait is
    interrupted. *)
Inductive tstep (intr : bool) (s : system) : system -> Prop :=
  | tstep_worker i w w' p' e :
      workers s !! i = Some w ->
      run_step i intr w (pool s) = Some (w', p', e) ->
      tstep intr s (System p' (<[i := w']> (workers s)) (producers s) (history s ++ e))
  | tstep_producer j c c' p' e :
      producers s !! j = Some c ->
      append_step j c (pool s) = Some (c', p', e) ->
      tstep intr s (System p' (workers s) (<[j := c']> (producers s)) (history s ++ e)).

(** Steps without interrupted waits and without new calls. *)
Abbreviation internal := (tstep false).

(** Any step: a thread moves, is interrupted, or calls [append]. *)
Inductive step (s : system) : system -> Prop :=
  | step_thread intr s' : tstep intr s s' -> step s s'
  | step_call j r :
      producers s !! j = Some PIdle ->
      step s (System (pool s) (workers s) (<[j := PLock r]> (producers s)) (history s)).

(** The system after a successful construction, with [n] calling threads. *)
Definition start (p : threadpool) (n : nat) : system :=
  System p (replicate (Z.to_nat (m_thread_number p)) WLoop) (replicate n PIdle) [].

Definition pushed (h : list event) : list ptr :=
  omap (fun e => match e with Push r => Some r | _ => None end) h.
Definition taken (h : list event) : list ptr :=
  omap (fun e => match e with Take r => Some r | _ => None end) h.
Definition processed (h : list event) : list loc :=
  omap (fun e => match e with Process l => Some l | _ => None end) h.
Definition accepted (h : list event) : list ptr :=
  omap (fun e => match e with Returned r true => Some r | _ => None end) h.

(** ** Measures of the threads *)

(** The lock is held at this point. *)
Definition wholds (w : wpc) : bool :=
  match w with WTest | WSkip | WPop | WUnlock _ => true | _ => false end.
Definition pholds (c : ppc) : bool :=
  match c with PTest _ | PFull _ | PPush _ | PUnlock _ => true | _ => false end.

(** A wake-up that is under way: given to a worker that has not looked at the
    queue yet, or owed by a producer that has pushed. *)
Definition wtoken (w : wpc) : nat :=
  match w with WLock | WTest | WPop => 1 | _ => 0 end%nat.
Definition ptoken (c : ppc) : nat :=
  match c with PUnlock _ | PPost _ => 1 | _ => 0 end%nat.

(** The request a worker has taken and not processed yet. *)
Definition whand (w : wpc) : list loc :=
  match w with
  | WUnlock (Some l) | WCheck (Some l) | WRun l => [l]
  | _ => []
  end.

(** A request pushed by a call that has not returned yet. *)
Definition phand (c : ppc) : list ptr :=
  match c with PUnlock r | PPost r | PRet r true => [r] | _ => [] end.

(** ** Lemmas: one thread's entry in a list of threads *)

Lemma insert_split {A} (l : list A) i x :
  l !! i = Some x ->
  exists a b, l = a ++ x :: b /\ forall y, <[i := y]> l = a ++ y :: b.
Proof.
  intros H. exists (take i l), (drop (S i) l). split; [by rewrite take_drop_middle|].
  intros y. rewrite insert_take_drop by (by apply lookup_lt_Some in H). done.
Qed.

Lemma sum_insert {A} (f : A -> nat) (l : list A) i x y :
  l !! i = Some x ->
  (sum_list (f <$> <[i := y]> l) + f x = sum_list (f <$> l) + f y)%nat.
Proof.
  intros (a & b & -> & ->)%insert_split.
  assert (E : forall u v, sum_list (u ++ v) = (sum_list u + sum_list v)%nat).
  { clear. intros u v. induction u as [|n u IH]; cbn; [done|]. rewrite IH. lia. }
  rewrite !fmap_app, !E. cbn. lia.
Qed.

Lemma bind_insert {A B} (f : A -> list B) (l : list A) i x y :
  l !! i = Some x ->
  exists rest, (l ≫= f) ≡ₚ f x ++ rest /\ (<[i := y]> l ≫= f) ≡ₚ f y ++ rest.
Proof.
  intros (a & b & -> & ->)%insert_split.
  exists ((a ≫= f) ++ (b ≫= f)).
  rewrite !bind_app, !bind_cons. split; rewrite !(assoc_L (++)); f_equiv; apply Permutation_app_comm.
Qed.

(** ** Lemmas: steps of one thread *)

(** [step_cases H]: the cases of a thread's step [H], its result known in each. *)
Ltac step_cases H :=
  repeat (cbn in H;
  match type of H with
  | Some _ = Some _ => injection H as <- <- <-
  | None = Some _ => discriminate H
  | _ ≫= _ = Some _ =>
      let E := fresh "E" in apply bind_Some in H; destruct H as ([??] & E & H)
  | context [decide ?P] => destruct (decide P)
  | context [match ?x with _ => _ end] => destruct x eqn:?
  end).

Lemma release_ok t p :
  owner (m_queuelocker p) = Some t ->
  release t p = Ok (set_locker (Locker None) p).
Proof. intros H. unfold release. by rewrite (unlock_ok _ _ H). Qed.

Lemma release_inv t p p' :
  release t p = Ok p' ->
  owner (m_queuelocker p) = Some t /\ p' = set_locker (Locker None) p.
Proof.
  unfold release, unlock. case_decide; cbn; [|discriminate]. by intros [= <-].
Qed.

(** What a thread's step does to the lock, given that the thread is inside the
    critical section exactly when it owns the lock. *)
Definition lock_moves (t : thread) (h h' : bool) (p p' : threadpool) : Prop :=
  h' = bool_decide (owner (m_queuelocker p') = Some t) /\
  (forall t', t' <> t ->
    bool_decide (owner (m_queuelocker p') = Some t') =
    bool_decide (owner (m_queuelocker p) = Some t')).

Lemma lock_moves_same t h p p' :
  h = bool_decide (owner (m_queuelocker p) = Some t) ->
  m_queuelocker p' = m_queuelocker p -> lock_moves t h h p p'.
Proof. intros -> E. split; by rewrite E. Qed.

Lemma lock_moves_take t h p l b :
  lock t (m_queuelocker p) = Some (b, l) -> lock_moves t h true p (set_locker l p).
Proof.
  intros [E ->]%lock_inv. split; cbn; [by rewrite bool_decide_true|].
  intros t' Ht. rewrite E, !bool_decide_false; congruence.
Qed.

Lemma lock_moves_release t h p p' :
  release t p = Ok p' -> lock_moves t h false p p'.
Proof.
  intros [E ->]%release_inv. split; cbn; [by rewrite bool_decide_false|].
  intros t' Ht. rewrite E, !bool_decide_false; congruence.
Qed.

#[export] Hint Resolve lock_moves_same lock_moves_take lock_moves_release : verif.

Lemma release_err t h p f :
  release t p = Err f -> h = bool_decide (owner (m_queuelocker p) = Some t) -> h = false.
Proof.
  intros H ->. apply bool_decide_eq_false. intros E. by rewrite (release_ok _ _ E) in H.
Qed.

(** A thread inside the critical section cannot fail to release the lock. *)
Ltac no_release Hw := exfalso; eapply release_err in Hw; [discriminate|eassumption].

Lemma run_step_lock i intr w p w' p' e :
  wholds w = bool_decide (owner (m_queuelocker p) = Some (Worker i)) ->
  (w = WPop -> m_workqueue p <> []) ->
  run_step i intr w p = Some (w', p', e) ->
  lock_moves (Worker i) (wholds w) (wholds w') p p'.
Proof.
  intros Hw Hq H. destruct w; step_cases H; eauto with verif.
  1: destruct (m_stop p); eauto with verif.
  all: try no_release Hw.
  by destruct Hq.
Qed.

Lemma append_step_lock j c p c' p' e :
  pholds c = bool_decide (owner (m_queuelocker p) = Some (Producer j)) ->
  append_step j c p = Some (c', p', e) ->
  lock_moves (Producer j) (pholds c) (pholds c') p p'.
Proof.
  intros Hw H. destruct c; step_cases H; eauto with verif.
  all: try no_release Hw.
Qed.

(** A worker, or a caller, is where it can be in the state [p]: the queue is not
    empty where it is popped, not over the limit where it is pushed to, and
    nobody has faulted or (the pool not being stopped) left the loop. *)
Definition w_ok (p : threadpool) (w : wpc) : Prop :=
  match w with
  | WPop => m_workqueue p <> []
  | WExit | WFault _ => False
  | _ => True
  end.
Definition p_ok (p : threadpool) (c : ppc) : Prop :=
  match c with
  | PPush _ => Z.of_nat (length (m_workqueue p)) <= m_max_requests p
  | PFault _ => False
  | _ => True
  end.

Lemma w_ok_other p p' w :
  wholds w = false \/ m_workqueue p' = m_workqueue p -> w_ok p w -> w_ok p' w.
Proof. destruct w; cbn; intros [Hw|Hq]; by rewrite ?Hq. Qed.

Lemma p_ok_other p p' c :
  m_max_requests p' = m_max_requests p ->
  pholds c = false \/ m_workqueue p' = m_workqueue p -> p_ok p c -> p_ok p' c.
Proof. destruct c; cbn; intros Hm [Hc|Hq]; by rewrite ?Hm, ?Hq. Qed.

(** What a step changes besides the lock. *)
Record changes (p p' : threadpool) (e : list event) (held : bool) : Prop := {
  ch_max : m_max_requests p' = m_max_requests p;
  ch_stop : m_stop p' = m_stop p;
  ch_queue : held = false -> m_workqueue p' = m_workqueue p;
  ch_fifo : taken e ++ m_workqueue p' = m_workqueue p ++ pushed e }.

Lemma run_step_changes i intr w p w' p' e :
  w_ok p w -> m_stop p = false ->
  wholds w = bool_decide (owner (m_queuelocker p) = Some (Worker i)) ->
  run_step i intr w p = Some (w', p', e) ->
  changes p p' e (wholds w) /\ w_ok p' w' /\ pushed e = [] /\ accepted e = [] /\
  omap id (taken e) ++ whand w ≡ₚ processed e ++ whand w'.
Proof.
  intros Hok Hs Hw H.
  destruct w; step_cases H; cbn in Hok;
    try no_release Hw;
    repeat match goal with
    | E : release _ _ = Ok _ |- _ => apply release_inv in E; destruct E as [? ->]
    end;
    rewrite ?Hs; (split; [split; cbn; rewrite ?app_nil_r; try done; by intros|]);
    split_ands; try done; cbn.
  all: solve [congruence | by rewrite app_nil_r].
Qed.

Lemma append_step_changes j c p c' p' e :
  p_ok p c ->
  pholds c = bool_decide (owner (m_queuelocker p) = Some (Producer j)) ->
  append_step j c p = Some (c', p', e) ->
  changes p p' e (pholds c) /\ p_ok p' c' /\ taken e = [] /\ processed e = [] /\
  pushed e ++ phand c ≡ₚ accepted e ++ phand c' /\
  (Z.of_nat (length (m_workqueue p)) <= m_max_requests p + 1 ->
   Z.of_nat (length (m_workqueue p')) <= m_max_requests p + 1).
Proof.
  intros Hok Hw H.
  destruct c; step_cases H; cbn in Hok;
    try no_release Hw;
    repeat match goal with
    | E : release _ _ = Ok _ |- _ => apply release_inv in E; destruct E as [? ->]
    end;
    (split; [split; cbn; rewrite ?app_nil_r; try done; by intros|]);
    split_ands; try done; cbn.
  - rewrite length_app. cbn. lia.
  - by destruct b.
Qed.

(** Wake-ups are never fewer than queued requests: a step keeps the balance. *)
Lemma run_step_tokens i intr w p w' p' e n :
  wholds w = bool_decide (owner (m_queuelocker p) = Some (Worker i)) ->
  run_step i intr w p = Some (w', p', e) ->
  (length (m_workqueue p) <= sem_value (m_queuestat p) + wtoken w + n ->
   length (m_workqueue p') <= sem_value (m_queuestat p') + wtoken w' + n)%nat.
Proof.
  intros Hw H. destruct w; step_cases H; cbn;
    try no_release Hw;
    repeat match goal with
    | E : release _ _ = Ok _ |- _ => apply release_inv in E; destruct E as [? ->]
    | E : sem_wait _ _ = Some _ |- _ => apply sem_wait_inv in E
    | E : m_workqueue _ = _ |- _ => rewrite E
    end; cbn; try lia.
  destruct E as [[? ->]|[? E]]; lia.
Qed.

Lemma append_step_tokens j c p c' p' e n :
  pholds c = bool_decide (owner (m_queuelocker p) = Some (Producer j)) ->
  append_step j c p = Some (c', p', e) ->
  (length (m_workqueue p) <= sem_value (m_queuestat p) + ptoken c + n ->
   length (m_workqueue p') <= sem_value (m_queuestat p') + ptoken c' + n)%nat.
Proof.
  intros Hw H. destruct c; step_cases H; cbn;
    try no_release Hw;
    repeat match goal with
    | E : release _ _ = Ok _ |- _ => apply release_inv in E; destruct E as [? ->]
    end; cbn; rewrite ?length_app; cbn; lia.
Qed.

(** ** The invariant of the running pool *)

Definition holds (s : system) (t : thread) : bool :=
  match t with
  | Worker i => from_option wholds false (workers s !! i)
  | Producer j => from_option pholds false (producers s !! j)
  end.

Definition tokens (s : system) : nat :=
  sum_list (wtoken <$> workers s) + sum_list (ptoken <$> producers s).

Record inv (max : Z) (s : system) : Prop := {
  inv_max : m_max_requests (pool s) = max;
  inv_stop : m_stop (pool s) = false;
  inv_lock : forall t, holds s t = bool_decide (owner (m_queuelocker (pool s)) = Some t);
  inv_workers : forall i w, workers s !! i = Some w -> w_ok (pool s) w;
  inv_producers : forall j c, producers s !! j = Some c -> p_ok (pool s) c;
  inv_length : Z.of_nat (length (m_workqueue (pool s))) <= max + 1;
  inv_tokens : (length (m_workqueue (pool s)) <=
                sem_value (m_queuestat (pool s)) + tokens s)%nat;
  inv_fifo : pushed (history s) = taken (history s) ++ m_workqueue (pool s);
  inv_hand : omap id (taken (history s)) ≡ₚ processed (history s) ++ (workers s ≫= whand);
  inv_accept : pushed (history s) ≡ₚ accepted (history s) ++ (producers s ≫= phand) }.

Lemma holds_worker max s i w :
  inv max s -> workers s !! i = Some w ->
  wholds w = bool_decide (owner (m_queuelocker (pool s)) = Some (Worker i)).
Proof. intros H E. rewrite <- (inv_lock _ _ H (Worker i)). cbn. by rewrite E. Qed.

Lemma holds_producer max s j c :
  inv max s -> producers s !! j = Some c ->
  pholds c = bool_decide (owner (m_queuelocker (pool s)) = Some (Producer j)).
Proof. intros H E. rewrite <- (inv_lock _ _ H (Producer j)). cbn. by rewrite E. Qed.

(** Two threads are not in the critical section together. *)
Lemma holds_one max s t t' :
  inv max s -> holds s t = true -> holds s t' = true -> t = t'.
Proof.
  intros H. rewrite !(inv_lock _ _ H), !bool_decide_eq_true. congruence.
Qed.

Lemma taken_app h e : taken (h ++ e) = taken h ++ taken e.
Proof. apply omap_app. Qed.
Lemma pushed_app h e : pushed (h ++ e) = pushed h ++ pushed e.
Proof. apply omap_app. Qed.
Lemma processed_app h e : processed (h ++ e) = processed h ++ processed e.
Proof. apply omap_app. Qed.
Lemma accepted_app h e : accepted (h ++ e) = accepted h ++ accepted e.
Proof. apply omap_app. Qed.

(** Replacing what one thread has in hand. *)
Lemma account_insert {A B} (f : A -> list B) (l : list A) i x y (a b m m' : list B) :
  l !! i = Some x -> a ≡ₚ b ++ (l ≫= f) -> m ++ f x ≡ₚ m' ++ f y ->
  a ++ m ≡ₚ (b ++ m') ++ (<[i := y]> l ≫= f).
Proof.
  intros H E Em. destruct (bind_insert f l i x y H) as (rest & E1 & E2).
  rewrite E, E1, E2, <- !(assoc_L (++)). f_equiv.
  rewrite (Permutation_app_comm rest m), !(assoc_L (++)), (Permutation_app_comm (f x) m).
  by f_equiv.
Qed.

Lemma holds_after_worker s i w w' p' e t :
  workers s !! i = Some w ->
  holds (System p' (<[i := w']> (workers s)) (producers s) e) t =
  if decide (t = Worker i) then wholds w' else holds s t.
Proof.
  intros E. destruct t as [i'|j]; cbn; [|by rewrite decide_False].
  destruct (decide (Worker i' = Worker i)) as [[= ->]|].
  - by rewrite list_lookup_insert_eq by (by eapply lookup_lt_Some).
  - by rewrite list_lookup_insert_ne by congruence.
Qed.

Lemma holds_after_producer s j c c' p' e t :
  producers s !! j = Some c ->
  holds (System p' (workers s) (<[j := c']> (producers s)) e) t =
  if decide (t = Producer j) then pholds c' else holds s t.
Proof.
  intros E. destruct t as [i|j']; cbn; [by rewrite decide_False|].
  destruct (decide (Producer j' = Producer j)) as [[= ->]|].
  - by rewrite list_lookup_insert_eq by (by eapply lookup_lt_Some).
  - by rewrite list_lookup_insert_ne by congruence.
Qed.

(** A thread other than the one that stepped is still where it can be. *)
Lemma others_free max s t t' p' e held :
  inv max s -> held = holds s t -> changes (pool s) p' e held -> t' <> t ->
  holds s t' = false \/ m_workqueue p' = m_workqueue (pool s).
Proof.
  intros H -> Hc Hne. destruct (holds s t) eqn:Et.
  - left. destruct (holds s t') eqn:Et'; [|done].
    by destruct Hne; eapply holds_one.
  - right. by apply Hc.
Qed.

Lemma others_workers max s t p' e held i w :
  inv max s -> held = holds s t -> changes (pool s) p' e held ->
  Worker i <> t -> workers s !! i = Some w -> w_ok p' w.
Proof.
  intros H Hheld Hc Hne Hi. apply (w_ok_other (pool s)); [|by eapply inv_workers].
  destruct (others_free _ _ _ (Worker i) _ _ _ H Hheld Hc Hne) as [Hf|Hf]; [left|by right].
  cbn in Hf. by rewrite Hi in Hf.
Qed.

Lemma others_producers max s t p' e held j c :
  inv max s -> held = holds s t -> changes (pool s) p' e held ->
  Producer j <> t -> producers s !! j = Some c -> p_ok p' c.
Proof.
  intros H Hheld Hc Hne Hj.
  apply (p_ok_other (pool s)); [apply Hc| |by eapply inv_producers].
  destruct (others_free _ _ _ (Producer j) _ _ _ H Hheld Hc Hne) as [Hf|Hf]; [left|by right].
  cbn in Hf. by rewrite Hj in Hf.
Qed.

Lemma sum_ge {A} (f : A -> nat) (l : list A) i x :
  l !! i = Some x -> (f x <= sum_list (f <$> l))%nat.
Proof.
  intros (a & b & -> & _)%insert_split. induction a as [|y a IH]; cbn in *; lia.
Qed.

Lemma insert_Forall {A} (P : A -> Prop) (l : list A) i x y :
  l !! i = Some x -> P y -> (forall k z, k <> i -> l !! k = Some z -> P z) ->
  forall k z, <[i := y]> l !! k = Some z -> P z.
Proof.
  intros Hi Hy Ho k z Hk. destruct (decide (k = i)) as [->|Hne].
  - rewrite list_lookup_insert_eq in Hk by (by eapply lookup_lt_Some). by simplify_eq.
  - rewrite list_lookup_insert_ne in Hk by done. by eapply Ho.
Qed.

Lemma inv_worker_step max s i intr w w' p' e :
  inv max s -> workers s !! i = Some w ->
  run_step i intr w (pool s) = Some (w', p', e) ->
  inv max (System p' (<[i := w']> (workers s)) (producers s) (history s ++ e)).
Proof.
  intros H Hi Hr.
  pose proof (holds_worker _ _ _ _ H Hi) as Hw.
  pose proof (inv_workers _ _ H _ _ Hi) as Hok.
  destruct (run_step_changes _ _ _ _ _ _ _ Hok (inv_stop _ _ H) Hw Hr)
    as (Hc & Hok' & Hpush & Hacc & Hhand).
  assert (Hpop : w = WPop -> m_workqueue (pool s) <> []) by (by intros ->).
  destruct (run_step_lock _ _ _ _ _ _ _ Hw Hpop Hr) as [Hl Hl'].
  assert (Hheld : wholds w = holds s (Worker i)) by (cbn; by rewrite Hi).
  split; cbn.
  - rewrite (ch_max _ _ _ _ Hc). apply H.
  - rewrite (ch_stop _ _ _ _ Hc). apply H.
  - intros t. rewrite (holds_after_worker _ _ w) by done.
    destruct (decide (t = Worker i)) as [->|Ht]; [done|].
    by rewrite Hl', (inv_lock _ _ H) by done.
  - apply (insert_Forall _ _ _ w); [done..|]. intros i' w2 Hne.
    apply (others_workers max s (Worker i) p' e (wholds w)); congruence.
  - intros j c. by apply (others_producers max s (Worker i) p' e (wholds w)).
  - pose proof (f_equal length (ch_fifo _ _ _ _ Hc)) as Hlen.
    rewrite Hpush, !length_app in Hlen. cbn in Hlen. pose proof (inv_length _ _ H). lia.
  - pose proof (inv_tokens _ _ H). unfold tokens in *. cbn.
    pose proof (sum_insert wtoken _ i w w' Hi). pose proof (sum_ge wtoken _ _ _ Hi).
    pose proof (run_step_tokens _ _ _ _ _ _ _
      (sum_list (wtoken <$> workers s) - wtoken w + sum_list (ptoken <$> producers s))
      Hw Hr). lia.
  - rewrite taken_app, pushed_app, Hpush, app_nil_r, <- (assoc_L (++)).
    rewrite (ch_fifo _ _ _ _ Hc), Hpush, app_nil_r. apply H.
  - rewrite taken_app, processed_app, omap_app.
    by apply account_insert with w, Hhand; [|apply H].
  - rewrite pushed_app, accepted_app, Hpush, Hacc, !app_nil_r. apply H.
Qed.

Lemma inv_producer_step max s j c c' p' e :
  inv max s -> producers s !! j = Some c ->
  append_step j c (pool s) = Some (c', p', e) ->
  inv max (System p' (workers s) (<[j := c']> (producers s)) (history s ++ e)).
Proof.
  intros H Hj Hr.
  pose proof (holds_producer _ _ _ _ H Hj) as Hw.
  pose proof (inv_producers _ _ H _ _ Hj) as Hok.
  destruct (append_step_changes _ _ _ _ _ _ Hok Hw Hr)
    as (Hc & Hok' & Htake & Hproc & Hacc & Hlen).
  destruct (append_step_lock _ _ _ _ _ _ Hw Hr) as [Hl Hl'].
  assert (Hheld : pholds c = holds s (Producer j)) by (cbn; by rewrite Hj).
  split; cbn.
  - rewrite (ch_max _ _ _ _ Hc). apply H.
  - rewrite (ch_stop _ _ _ _ Hc). apply H.
  - intros t. rewrite (holds_after_producer _ _ c) by done.
    destruct (decide (t = Producer j)) as [->|Ht]; [done|].
    by rewrite Hl', (inv_lock _ _ H) by done.
  - intros i w. by apply (others_workers max s (Producer j) p' e (pholds c)).
  - apply (insert_Forall _ _ _ c); [done..|]. intros j' c2 Hne.
    apply (others_producers max s (Producer j) p' e (pholds c)); congruence.
  - rewrite (inv_max _ _ H) in Hlen. apply Hlen, H.
  - pose proof (inv_tokens _ _ H). unfold tokens in *. cbn.
    pose proof (sum_insert ptoken _ j c c' Hj). pose proof (sum_ge ptoken _ _ _ Hj).
    pose proof (append_step_tokens _ _ _ _ _ _
      (sum_list (wtoken <$> workers s) + (sum_list (ptoken <$> producers s) - ptoken c))
      Hw Hr). lia.
  - rewrite taken_app, pushed_app, Htake, app_nil_r, (inv_fifo _ _ H), <- (assoc_L (++)).
    rewrite <- (ch_fifo _ _ _ _ Hc), Htake. done.
  - rewrite taken_app, processed_app, Htake, Hproc, !app_nil_r. apply H.
  - rewrite pushed_app, accepted_app.
    by apply account_insert with c, Hacc; [|apply H].
Qed.

Lemma inv_step max s s' : inv max s -> step s s' -> inv max s'.
Proof.
  intros H [intr s1 [i w w' p' e Hi Hr | j c c' p' e Hj Hr] | j r Hj].
  - by eapply inv_worker_step.
  - by eapply inv_producer_step.
  - pose proof (sum_insert ptoken _ j _ (PLock r) Hj) as Hsum.
    pose proof (account_insert phand _ j PIdle (PLock r) _ _ [] [] Hj
                  (inv_accept _ _ H)) as Hacc.
    destruct H; split; cbn; try done.
    + intros t. rewrite (holds_after_producer _ _ PIdle), <- inv_lock0 by done.
      destruct (decide (t = Producer j)) as [->|Ht]; [cbn; by rewrite Hj|done].
    + by apply (insert_Forall _ _ _ PIdle); [..|intros; eapply inv_producers0].
    + unfold tokens in *. cbn in *. lia.
    + rewrite !app_nil_r in Hacc. by apply Hacc.
Qed.

(** ** Construction *)

Lemma create_threads_all n rets k :
  create_threads n rets = (k, Ok tt) -> k = n.
Proof.
  revert rets k. induction n as [|n IH]; intros rets k H; cbn in H; [by injection H|].
  destruct rets as [|[c d] rets]; [discriminate|].
  repeat (case_decide; [discriminate|]).
  destruct (create_threads n rets) as [k' r] eqn:E. injection H as <- ->.
  by rewrite (IH _ _ E).
Qed.

Lemma new_threadpool_ok t m rets k p :
  new_threadpool t m rets = (k, Ok p) ->
  0 < t /\ 0 < m /\ k = Z.to_nat t /\
  p = ThreadPool t m true [] (Locker None) (Sem 0) false.
Proof.
  unfold new_threadpool. case_decide; [discriminate|].
  destruct (create_threads _ _) as [k' [[]|]] eqn:E; [|discriminate].
  intros [= <- <-]. apply create_threads_all in E. subst k'. split_ands; [lia..|done].
Qed.

Lemma bind_nil {A B} (f : A -> list B) (l : list A) :
  (forall i x, l !! i = Some x -> f x = []) -> l ≫= f = [].
Proof.
  induction l as [|x l IH]; intros H; [done|]. cbn.
  rewrite (H 0%nat x), IH by (try done; intros i; apply (H (S i))). done.
Qed.

Lemma sum_zero {A} (f : A -> nat) (l : list A) :
  (forall i x, l !! i = Some x -> f x = 0%nat) -> sum_list (f <$> l) = 0%nat.
Proof.
  induction l as [|x l IH]; intros H; [done|]. cbn.
  rewrite (H 0%nat x), IH by (try done; intros i; apply (H (S i))). done.
Qed.

Lemma inv_start t m n :
  0 < m -> inv m (start (ThreadPool t m true [] (Locker None) (Sem 0) false) n).
Proof.
  intros Hm. split; cbn; try done; try lia.
  - intros [i|j]; cbn.
    all: destruct (replicate _ _ !! _) eqn:E; [apply lookup_replicate in E as [-> _]|]; done.
  - by intros i w [-> _]%lookup_replicate.
  - by intros j c [-> _]%lookup_replicate.
  - by rewrite bind_nil by (by intros i w [-> _]%lookup_replicate).
  - by rewrite bind_nil by (by intros i w [-> _]%lookup_replicate).
Qed.

Lemma inv_reachable t m rets k p n s :
  new_threadpool t m rets = (k, Ok p) -> rtc step (start p n) s -> inv m s.
Proof.
  intros (Ht & Hm & _ & ->)%new_threadpool_ok. apply (rtc_invariant step (inv m)).
  - intros a b. apply inv_step.
  - by apply inv_start.
Qed.

(** ** The pool is a FIFO queue served exactly once *)

(** [C4] pool_exactly_once: in every state that any interleaving of a
    constructed pool's workers and of any number of calling threads reaches
    (waits interrupted by signals included), no thread has popped an empty queue
    or released a lock it does not hold; at most one thread is in the critical
    section; requests leave the queue in the order they entered it and none is
    lost; every non-null request taken is processed once or is in one worker's
    hands; and the calls of [append] that returned [true] pushed their request,
    the others (but for those still running) pushed nothing. *)
Theorem pool_exactly_once (t m : Z) rets k p n s :
  new_threadpool t m rets = (k, Ok p) ->
  rtc step (start p n) s ->
  (forall i f, workers s !! i <> Some (WFault f)) /\
  (forall j f, producers s !! j <> Some (PFault f)) /\
  (forall a b, holds s a = true -> holds s b = true -> a = b) /\
  pushed (history s) = taken (history s) ++ m_workqueue (pool s) /\
  omap id (taken (history s)) ≡ₚ processed (history s) ++ (workers s ≫= whand) /\
  pushed (history s) ≡ₚ accepted (history s) ++ (producers s ≫= phand).
Proof.
  intros Hp Hr. pose proof (inv_reachable _ _ _ _ _ _ _ Hp Hr) as H.
  split_ands; try apply H.
  - intros i f Hi. by apply (inv_workers _ _ H) in Hi.
  - intros j f Hj. by apply (inv_producers _ _ H) in Hj.
  - intros a b. by eapply holds_one.
Qed.

(** ** Every accepted request is eventually processed *)

Definition wrank (w : wpc) : nat :=
  match w with
  | WLoop => 1 | WLock => 9 | WTest => 8 | WSkip => 2 | WPop => 7
  | WUnlock _ => 6 | WCheck _ => 5 | WRun _ => 4 | WWait | WExit | WFault _ => 0
  end%nat.
Definition prank (c : ppc) : nat :=
  match c with
  | PLock _ => 17 | PTest _ => 16 | PFull _ => 2 | PPush _ => 15
  | PUnlock _ => 14 | PPost _ => 13 | PRet _ _ => 1 | PIdle | PFault _ => 0
  end%nat.

(** A wake-up is worth ten steps. *)
Definition work_left (s : system) : nat :=
  10 * sem_value (m_queuestat (pool s)) + sum_list (wrank <$> workers s)
  + sum_list (prank <$> producers s).

Lemma run_step_rank i w p w' p' e :
  run_step i false w p = Some (w', p', e) ->
  (10 * sem_value (m_queuestat p') + wrank w' < 10 * sem_value (m_queuestat p) + wrank w)%nat.
Proof.
  intros H. destruct w; step_cases H; cbn;
    repeat match goal with
    | E : release _ _ = Ok _ |- _ => apply release_inv in E; destruct E as [? ->]
    | E : sem_wait _ _ = Some _ |- _ => apply sem_wait_inv in E; destruct E as [[??]|[??]]
    end; cbn; try lia.
  destruct (m_stop p); cbn; lia.
Qed.

Lemma append_step_rank j c p c' p' e :
  append_step j c p = Some (c', p', e) ->
  (10 * sem_value (m_queuestat p') + prank c' < 10 * sem_value (m_queuestat p) + prank c)%nat.
Proof.
  intros H. destruct c; step_cases H; cbn;
    repeat match goal with
    | E : release _ _ = Ok _ |- _ => apply release_inv in E; destruct E as [? ->]
    end; cbn; lia.
Qed.

Lemma internal_decreases s s' : internal s s' -> (work_left s' < work_left s)%nat.
Proof.
  unfold work_left. intros [i w w' p' e Hi Hr | j c c' p' e Hj Hr]; cbn.
  - pose proof (sum_insert wrank _ i w w' Hi). apply run_step_rank in Hr. lia.
  - pose proof (sum_insert prank _ j c c' Hj). apply append_step_rank in Hr. lia.
Qed.

Lemma internal_terminates s : sn internal s.
Proof.
  remember (work_left s) as n eqn:E. revert s E.
  induction (lt_wf n) as [n _ IH]. intros s ->. constructor. intros s' Hs.
  apply (IH (work_left s')); [by apply internal_decreases|done].
Qed.

Lemma run_step_blocked i w p :
  run_step i false w p = None -> w_ok p w ->
  wholds w = false /\
  (owner (m_queuelocker p) = None -> w = WWait /\ sem_value (m_queuestat p) = 0%nat).
Proof.
  intros H Hok. destruct w as [| | | | | |r|[l|]|l| |f]; cbn in *; try done.
  - destruct (sem_wait _ _) as [[]|] eqn:E; [discriminate|].
    unfold sem_wait in E. destruct (sem_value _); [done|discriminate].
  - destruct (lock _ _) as [[]|] eqn:E; [discriminate|].
    unfold lock in E. destruct (owner _); [done|discriminate].
  - by destruct (m_workqueue p).
  - by destruct (release _ _).
  - by destruct (m_workqueue p).
  - by destruct (release _ _).
Qed.

Lemma append_step_blocked j c p :
  append_step j c p = None -> p_ok p c ->
  pholds c = false /\ (owner (m_queuelocker p) = None -> c = PIdle).
Proof.
  intros H Hok. destruct c; cbn in *; try done.
  - destruct (lock _ _) as [[]|] eqn:E; [discriminate|].
    unfold lock in E. destruct (owner _); [done|discriminate].
  - by case_decide.
  - by destruct (release _ _).
  - by destruct (release _ _).
Qed.

Lemma nf_worker s i w :
  nf internal s -> workers s !! i = Some w -> run_step i false w (pool s) = None.
Proof.
  intros Hnf Hi. destruct (run_step _ _ _ _) as [[[w' p'] e]|] eqn:E; [|done].
  destruct Hnf. eexists. by eapply tstep_worker.
Qed.

Lemma nf_producer s j c :
  nf internal s -> producers s !! j = Some c -> append_step j c (pool s) = None.
Proof.
  intros Hnf Hj. destruct (append_step _ _ _) as [[[c' p'] e]|] eqn:E; [|done].
  destruct Hnf. eexists. by eapply tstep_producer.
Qed.

(** A pool in which no thread can move has no lock held. *)
Lemma nf_unlocked max s :
  inv max s -> nf internal s -> owner (m_queuelocker (pool s)) = None.
Proof.
  intros H Hnf. destruct (owner _) as [t|] eqn:Ho; [|done]. exfalso.
  assert (Ht : holds s t = true) by (by rewrite (inv_lock _ _ H), bool_decide_eq_true).
  destruct t as [i|j]; cbn in Ht.
  - destruct (workers s !! i) as [w|] eqn:E; [|done]. cbn in Ht.
    destruct (run_step_blocked i w (pool s)) as [Hf _];
      [by apply nf_worker|by eapply inv_workers|congruence].
  - destruct (producers s !! j) as [c|] eqn:E; [|done]. cbn in Ht.
    destruct (append_step_blocked j c (pool s)) as [Hf _];
      [by apply nf_producer|by eapply inv_producers|congruence].
Qed.

Lemma rtc_internal s s' : rtc internal s s' -> rtc step s s'.
Proof. apply rtc_subrel. intros a b. apply step_thread. Qed.

Lemma step_workers s s' : step s s' -> length (workers s') = length (workers s).
Proof. intros [intr s1 []|]; cbn; by rewrite ?length_insert. Qed.

Lemma some_worker t m rets k p n s :
  new_threadpool t m rets = (k, Ok p) -> rtc step (start p n) s ->
  exists w, workers s !! 0%nat = Some w.
Proof.
  intros (Ht & _ & _ & ->)%new_threadpool_ok Hr. apply lookup_lt_is_Some_2.
  eapply (rtc_invariant step (fun s => 0 < length (workers s))%nat); [..|exact Hr].
  - by intros a b Ha ->%step_workers.
  - cbn. rewrite length_replicate. lia.
Qed.

(** [C22] pool_drains: left to itself, with no further calls of [append] and no
    interrupted waits, the pool comes to rest after finitely many steps, whatever
    the schedule and whatever state it was in; and wherever it comes to rest, all
    calls have returned, every worker sleeps in [wait], the queue is empty and
    every non-null request a call accepted has been processed exactly once: no
    wake-up is lost, and no schedule deadlocks. *)
Theorem pool_drains (t m : Z) rets k p n s :
  new_threadpool t m rets = (k, Ok p) ->
  rtc step (start p n) s ->
  sn internal s /\
  forall s', rtc internal s s' -> nf internal s' ->
    (forall j c, producers s' !! j = Some c -> c = PIdle) /\
    (forall i w, workers s' !! i = Some w -> w = WWait) /\
    m_workqueue (pool s') = [] /\
    processed (history s') ≡ₚ omap id (accepted (history s')).
Proof.
  intros Hp Hr. split; [apply internal_terminates|]. intros s' Hs Hnf.
  assert (Hr' : rtc step (start p n) s') by (etrans; [exact Hr|by apply rtc_internal]).
  pose proof (inv_reachable _ _ _ _ _ _ _ Hp Hr') as H.
  pose proof (nf_unlocked _ _ H Hnf) as Ho.
  assert (Hw : forall i w, workers s' !! i = Some w ->
                w = WWait /\ sem_value (m_queuestat (pool s')) = 0%nat).
  { intros i w Hi. eapply run_step_blocked; [by apply nf_worker|by eapply inv_workers|done]. }
  assert (Hc : forall j c, producers s' !! j = Some c -> c = PIdle).
  { intros j c Hj. eapply append_step_blocked; [by apply nf_producer|by eapply inv_producers|done]. }
  assert (Hq : m_workqueue (pool s') = []).
  { destruct (some_worker _ _ _ _ _ _ _ Hp Hr') as [w [_ Hz]%Hw].
    apply nil_length_inv. pose proof (inv_tokens _ _ H) as Ht. unfold tokens in Ht.
    rewrite !sum_zero, Hz in Ht; [lia|by intros j c ->%Hc|by intros i' w' [-> _]%Hw]. }
  split_ands; [done|intros i w Hi; by eapply Hw|done|].
  pose proof (inv_hand _ _ H) as Hhand. pose proof (inv_accept _ _ H) as Hacc.
  rewrite bind_nil, app_nil_r in Hhand by (by intros i w [-> _]%Hw).
  rewrite bind_nil, app_nil_r in Hacc by (by intros j c ->%Hc).
  rewrite <- Hhand, <- Hacc, (inv_fifo _ _ H), Hq, app_nil_r. done.
Qed.

Lemma pool_drains_witness :
  let ok := [(0, 0); (0, 0)] in
  exists k p s,
    new_threadpool 2 10 ok = (k, Ok p) /\ rtc step (start p 1) s /\
    producers s = [PLock (Some 7%positive)] /\
    sn internal s /\
    forall s', rtc internal s s' -> nf internal s' ->
      (forall j c, producers s' !! j = Some c -> c = PIdle) /\
      (forall i w, workers s' !! i = Some w -> w = WWait) /\
      m_workqueue (pool s') = [] /\
      processed (history s') ≡ₚ omap id (accepted (history s')).
Proof.
  eexists _, _, _. split; [vm_compute; reflexivity|].
  match goal with |- context [start ?q 1] =>
    assert (Hr : rtc step (start q 1) (System q [WLoop; WLoop] [PLock (Some 7%positive)] []))
      by (apply rtc_once; exact (step_call (start q 1) 0 (Some 7%positive) eq_refl))
  end.
  split; [exact Hr|]. split; [reflexivity|].
  apply (pool_drains 2 10 [(0, 0); (0, 0)] 2 _ 1 _ eq_refl Hr).
Defined.

(** ** The limit of the queue *)

(** A complete call of [append] by thread 0, while nobody holds the lock. *)
Lemma append_runs p ws cs h r :
  owner (m_queuelocker p) = None ->
  Z.of_nat (length (m_workqueue p)) <= m_max_requests p ->
  exists p' h',
    rtc step (System p ws (PIdle :: cs) h) (System p' ws (PIdle :: cs) h') /\
    owner (m_queuelocker p') = None /\ m_max_requests p' = m_max_requests p /\
    m_workqueue p' = m_workqueue p ++ [r] /\ last h' = Some (Returned r true).
Proof.
  intros Ho Hlen.
  assert (Hstep : forall q c q' c' h e,
    append_step 0 c q = Some (c', q', e) ->
    step (System q ws (c :: cs) h) (System q' ws (c' :: cs) (h ++ e))).
  { intros q c q' c' g e E. apply (step_thread _ false).
    exact (tstep_producer false (System q ws (c :: cs) g) 0 c c' q' e eq_refl E). }
  eexists _, _. split.
  - eapply rtc_l; [exact (step_call (System p ws (PIdle :: cs) h) 0 r eq_refl)|]. cbn.
    eapply rtc_l; [apply Hstep; cbn; unfold lock; rewrite Ho; reflexivity|].
    eapply rtc_l; [apply Hstep; cbn; rewrite decide_False by lia; reflexivity|].
    eapply rtc_l; [apply Hstep; reflexivity|].
    eapply rtc_l; [apply Hstep; reflexivity|].
    eapply rtc_l; [apply Hstep; reflexivity|].
    eapply rtc_l; [apply Hstep; reflexivity|]. apply rtc_refl.
  - cbn. split_ands; [done..|]. by rewrite last_snoc.
Qed.

Lemma append_fills p ws h r k :
  owner (m_queuelocker p) = None -> m_workqueue p = [] ->
  Z.of_nat k <= m_max_requests p + 1 ->
  exists p' h',
    rtc step (System p ws [PIdle] h) (System p' ws [PIdle] h') /\
    owner (m_queuelocker p') = None /\ m_max_requests p' = m_max_requests p /\
    m_workqueue p' = replicate k r.
Proof.
  intros Ho Hq. induction k as [|k IH]; intros Hk.
  - exists p, h. by split_ands.
  - destruct IH as (p1 & h1 & Hr & Ho1 & Hm1 & Hq1); [lia|].
    destruct (append_runs p1 ws [] h1 r Ho1) as (p2 & h2 & Hr2 & Ho2 & Hm2 & Hq2 & _).
    { rewrite Hq1, Hm1, length_replicate. lia. }
    exists p2, h2. split_ands; [by etrans|done|congruence|].
    rewrite Hq2, Hq1. symmetry. apply (replicate_cons_app k r).
Qed.

(** pool_limit: the queue never holds more than [max_requests] + 1 requests,
    and it does hold that many, one more than the documented maximum: [append]
    refuses only when the size already exceeds the limit. *)
Theorem pool_limit (t m : Z) rets k p :
  new_threadpool t m rets = (k, Ok p) ->
  (forall n s, rtc step (start p n) s ->
    Z.of_nat (length (m_workqueue (pool s))) <= m + 1) /\
  (exists s, rtc step (start p 1) s /\
    Z.of_nat (length (m_workqueue (pool s))) = m + 1).
Proof.
  intros Hp. split.
  - intros n s Hr. by eapply inv_length, inv_reachable.
  - destruct (new_threadpool_ok _ _ _ _ _ Hp) as (Ht & Hm & _ & ->).
    destruct (append_fills (ThreadPool t m true [] (Locker None) (Sem 0) false)
      (replicate (Z.to_nat t) WLoop) [] None (Z.to_nat (m + 1)))
      as (p' & h' & Hr & _ & _ & Hq); [done..|cbn; lia|].
    eexists. split; [exact Hr|]. cbn. rewrite Hq, length_replicate. lia.
Qed.

Lemma pool_limit_witness :
  exists k p, new_threadpool 1 2 [(0, 0)] = (k, Ok p) /\
  (forall n s, rtc step (start p n) s ->
    Z.of_nat (length (m_workqueue (pool s))) <= 2 + 1) /\
  (exists s, rtc step (start p 1) s /\
    Z.of_nat (length (m_workqueue (pool s))) = 2 + 1).
Proof.
  eexists _, _. split; [vm_compute; reflexivity|].
  apply (pool_limit 1 2 [(0, 0)] 1). reflexivity.
Defined.

Lemma pool_exactly_once_witness :
  exists k p s, new_threadpool 2 10 [(0, 0); (0, 0)] = (k, Ok p) /\
    rtc step (start p 1) s /\
  (forall i f, workers s !! i <> Some (WFault f)) /\
  (forall j f, producers s !! j <> Some (PFault f)) /\
  (forall a b, holds s a = true -> holds s b = true -> a = b) /\
  pushed (history s) = taken (history s) ++ m_workqueue (pool s) /\
  omap id (taken (history s)) ≡ₚ processed (history s) ++ (workers s ≫= whand) /\
  pushed (history s) ≡ₚ accepted (history s) ++ (producers s ≫= phand).
Proof.
  destruct (append_runs (ThreadPool 2 10 true [] (Locker None) (Sem 0) false)
    [WLoop; WLoop] [] [] (Some 7%positive) eq_refl) as (p' & h' & Hr & _); [cbn; lia|].
  eexists 2%nat, _, _. split; [vm_compute; reflexivity|]. split; [exact Hr|].
  apply (pool_exactly_once 2 10 [(0, 0); (0, 0)] 2 _ 1 _ eq_refl Hr).
Defined.
