(* ===== verification/PoolMain.v ===== *)
(** * The web server: main thread and workers over shared connections

    socket/pool/main.cpp: the set-up, the event loop that reads, writes, opens
    and closes connections, and the hand-over of complete reads to the thread
    pool, whose workers call [http_conn::process].  The kernel's side of the
    one-shot epoll registrations is a state of its own, computed from the calls
    the program makes, so that one can say which thread may touch a connection.

    A worker that closes a connection ([close_conn] inside [process]) does so in
    steps between which other threads run: the descriptor is closed, then [m_sockfd]
    set to -1, then [m_user_count] counted down, then the last [modfd] made. *)

From S2P Require Import Prelude CString HttpConn HttpParse HttpServe Locker ThreadPool.

Definition MAX_FD : Z := 65536.
Definition EPOLLHUP : Z := 16.
Definition EPOLLERR : Z := 8.

(** ** epoll, as epoll_ctl(2) and close(2) describe it

    The connections registered, and those whose one-shot event can still fire. *)

Record kernel := Kernel { watched : gset Z; armed : gset Z }.

Definition apply_sys (k : kernel) (e : sys) : kernel :=
  match e with
  | EpollAdd _ fd _ => Kernel (watched k ∪ {[fd]}) (armed k ∪ {[fd]})
  | EpollMod _ fd _ =>
      if decide (fd ∈ watched k) then Kernel (watched k) (armed k ∪ {[fd]}) else k
  | EpollDel _ fd | Close fd => Kernel (watched k ∖ {[fd]}) (armed k ∖ {[fd]})
  | _ => k
  end.

(** Delivering an event of a one-shot registration disables it. *)
Definition deliver (fd : Z) (k : kernel) : kernel := Kernel (watched k) (armed k ∖ {[fd]}).

(** ** State *)

(** How far a worker is that closes a connection inside [process]: it has closed the
    descriptor, set [m_sockfd] to -1, counted [m_user_count] down. *)
Inductive phase := Closed | Cleared | Counted.

#[export] Instance phase_eq_dec : EqDecision phase.
Proof. solve_decision. Defined.

Record web_server := Server {
  users : gmap Z http_conn;     (** the array, where it was written to *)
  sw : world;
  kern : kernel;
  queue : list Z;               (** the pool's request queue: users + fd *)
  hands : list Z;               (** connections a worker is processing *)
  lost : list Z;                (** connections whose [append] was refused *)
  ending : list (Z * phase) }.  (** connections a worker is closing *)

(** [users[fd]], an array of [MAX_FD] objects. *)
Definition user_at (s : web_server) (fd : Z) : res http_conn :=
  if decide (0 <= fd < MAX_FD) then Ok (default new_conn (users s !! fd)) else Err OutOfBounds.

(** The object [fd] has become [c] and the calls that led to [w] were made. *)
Definition store (fd : Z) (c : http_conn) (w : world) (s : web_server) : web_server :=
  Server (<[fd := c]> (users s)) w
    (foldl apply_sys (kern s) (drop (length (trace (sw s))) (trace w)))
    (queue s) (hands s) (lost s) (ending s).

Definition set_world (w : world) (s : web_server) : web_server :=
  Server (users s) w
    (foldl apply_sys (kern s) (drop (length (trace (sw s))) (trace w)))
    (queue s) (hands s) (lost s) (ending s).

Definition set_kern (k : kernel) (s : web_server) : web_server :=
  Server (users s) (sw s) k (queue s) (hands s) (lost s) (ending s).

(** ** Handlers *)

Definition show_error (connfd : Z) (info : bytes) (w : world) : world :=
  emit (Close connfd) (emit (Sent connfd info) w).

(** A new connection; [connfd] and [addr] come from [accept]. *)
Definition on_listen (connfd addr : Z) (s : web_server) : res web_server :=
  if decide (connfd < 0) then Ok s
  else if decide (m_user_count (sw s) >= MAX_FD) then
    Ok (set_world (show_error connfd (lit "Internal server busy") (sw s)) s)
  else
    c ← user_at s connfd;
    let '(c, w) := init_conn connfd addr c (sw s) in
    Ok (store connfd c w s).

Definition on_close (fd : Z) (s : web_server) : res web_server :=
  c ← user_at s fd;
  let '(c, w) := close_conn true c (sw s) in
  Ok (store fd c w s).

(** [pool->append(users + sockfd)], its result unused: refused when the queue
    holds more than [max] requests ([ThreadPool.append_step]). *)
Definition append (max fd : Z) (s : web_server) : web_server :=
  if decide (Z.of_nat (length (queue s)) > max)
  then Server (users s) (sw s) (kern s) (queue s) (hands s) (lost s ++ [fd]) (ending s)
  else Server (users s) (sw s) (kern s) (queue s ++ [fd]) (hands s) (lost s) (ending s).

Definition on_readable (max fd : Z) (rs : list recv_t) (s : web_server) : res web_server :=
  c ← user_at s fd;
  '(c, ok) ← read rs c;
  let s := store fd c (sw s) s in
  if negb ok then on_close fd s else Ok (append max fd s).

Definition on_writable (fd : Z) (rs : list writev_t) (s : web_server) : res web_server :=
  c ← user_at s fd;
  '(c, w, ok) ← write rs c (sw s);
  let s := store fd c w s in
  if negb ok then on_close fd s else Ok s.

(** An element of the event array, with the results of the calls its handling
    makes. *)
Record event := Event {
  ev_fd : Z;
  ev_events : Z;
  ev_accept : Z * Z;
  ev_reads : list recv_t;
  ev_writes : list writev_t }.

Definition handle_event (max listenfd : Z) (ev : event) (s : web_server) : res web_server :=
  let sockfd := ev_fd ev in
  if decide (sockfd = listenfd) then on_listen (ev_accept ev).1 (ev_accept ev).2 s
  else if decide (Z.land (ev_events ev) (Z.lor (Z.lor EPOLLRDHUP EPOLLHUP) EPOLLERR) <> 0)
  then on_close sockfd s
  else if decide (Z.land (ev_events ev) EPOLLIN <> 0) then on_readable max sockfd (ev_reads ev) s
  else if decide (Z.land (ev_events ev) EPOLLOUT <> 0) then on_writable sockfd (ev_writes ev) s
  else Ok s.

Fixpoint handle_events (max listenfd : Z) (evs : list event) (s : web_server) : res web_server :=
  match evs with
  | [] => Ok s
  | ev :: evs => s ← handle_event max listenfd ev s; handle_events max listenfd evs s
  end.

(** What one [epoll_wait] gives: an error other than [EINTR], or events ([EINTR]
    gives none). *)
Inductive wait_t := WaitFailed | Events (evs : list event).

(** The loop; it ends when [epoll_wait] fails ([true]), or the waits of the
    argument are used up. *)
Fixpoint serve (max listenfd : Z) (waits : list wait_t) (s : web_server) : res (web_server * bool) :=
  match waits with
  | [] => Ok (s, false)
  | WaitFailed :: _ => Ok (s, true)
  | Events evs :: waits => s ← handle_events max listenfd evs s; serve max listenfd waits s
  end.

(** ** Set-up (main, lines 40-84)

    The results of the calls; [inl] is an exit code, [inr] the listening socket
    and the state with which the loop starts. *)
Record setup_calls := SetupCalls {
  r_sigaction : Z; r_pool : list (Z * Z); r_socket : Z; r_bind : Z; r_listen : Z;
  r_epoll_create : Z }.

Definition setup (argc : Z) (k : setup_calls) : res (Z + Z * threadpool * web_server) :=
  if decide (argc <> 3) then Ok (inl 1)
  else
    _ ← assert_that (r_sigaction k <> -1);
    match (new_threadpool 8 10000 (r_pool k)).2 with
    | Err _ => Ok (inl 1)
    | Ok pool =>
        let listenfd := r_socket k in
        _ ← assert_that (listenfd >= 0);
        _ ← assert_that (r_bind k >= 0);
        _ ← assert_that (r_listen k >= 0);
        let epollfd := r_epoll_create k in
        _ ← assert_that (epollfd <> -1);
        let w := addfd epollfd listenfd false (World epollfd 0 []) in
        Ok (inr (listenfd, pool, Server ∅ w (Kernel ∅ ∅) [] [] [] []))
    end.

(** After the loop (lines 123-126). *)
Definition shut_down (listenfd : Z) (pool : threadpool) (s : web_server) : web_server * threadpool :=
  (set_world (emit (Close listenfd) (emit (Close (m_epollfd (sw s))) (sw s))) s,
   destroy_threadpool pool).

(** ** The workers *)

(** [m_workqueue.pop_front()] ([ThreadPool.run_step]). *)
Definition take_request (s : web_server) : option (Z * web_server) :=
  match queue s with
  | [] => None
  | fd :: q => Some (fd, Server (users s) (sw s) (kern s) q (fd :: hands s) (lost s) (ending s))
  end.

(** [process] up to the point where the worker gives the connection back with the last
    [modfd], or, when [process_write] fails, has closed its descriptor in [close_conn]
    (the flag). *)
Definition process_start (fs : fsys) (c : http_conn) (w : world) : res (http_conn * world * bool) :=
  '(c, w, read_ret) ← process_read fs w c;
  if decide (read_ret = NO_REQUEST) then Ok (c, modfd (m_epollfd w) (m_sockfd c) EPOLLIN w, false)
  else
    '(c, write_ret) ← process_write read_ret c;
    if negb write_ret && negb (m_sockfd c =? -1)
    then Ok (c, removefd (m_epollfd w) (m_sockfd c) w, true)
    else Ok (c, modfd (m_epollfd w) (m_sockfd c) EPOLLOUT w, false).

Definition set_ending (e : list (Z * phase)) (s : web_server) : web_server :=
  Server (users s) (sw s) (kern s) (queue s) (hands s) (lost s) e.

(** [request->process()] of the [i]-th connection in the workers' hands, so far. *)
Definition work (i : nat) (fs : fsys) (s : web_server) : option (res web_server) :=
  match hands s !! i with
  | None => None
  | Some fd =>
      Some (c ← user_at s fd;
            '(c, w, closing) ← process_start fs c (sw s);
            let s := store fd c w s in
            Ok (Server (users s) (sw s) (kern s) (queue s) (delete i (hands s)) (lost s)
                  (if closing : bool then (fd, Closed) :: ending s else ending s)))
  end.

(** The rest of [close_conn], and of [process], of the [j]-th connection that is being
    closed, one statement at a time; [n] is what [--m_user_count] leaves. *)
Definition finish (j : nat) (n : Z) (s : web_server) : option (res web_server) :=
  match ending s !! j with
  | None => None
  | Some (fd, Closed) =>
      Some (c ← user_at s fd;
            Ok (set_ending (<[j := (fd, Cleared)]> (ending s)) (store fd (set_sockfd (-1) c) (sw s) s)))
  | Some (fd, Cleared) =>
      Some (Ok (set_ending (<[j := (fd, Counted)]> (ending s)) (set_world (set_user_count n (sw s)) s)))
  | Some (fd, Counted) =>
      Some (c ← user_at s fd;
            Ok (set_ending (delete j (ending s))
                  (set_world (modfd (m_epollfd (sw s)) (m_sockfd c) EPOLLOUT (sw s)) s)))
  end.

(** ** The concurrent system

    The main thread handles an event that the kernel reports, or a worker takes
    a request, processes one, or goes on closing one.  The premises are the kernel's: a
    descriptor [accept] or [open] returns is not one in use, an event is only reported
    for a registration that can fire and names one of the events asked for.

    With [sync] two more hold, which the program does nothing for: [accept] does not
    return a descriptor whose closing a worker has not finished, and [--m_user_count]
    loses no update.  Without it the counter may get any value when a worker counts
    down (the threads use it without a lock). *)

(** An event that the kernel may report for a connection. *)
Definition wants (ev : event) : Prop :=
  Z.land (ev_events ev) (Z.lor (Z.lor (Z.lor (Z.lor EPOLLRDHUP EPOLLHUP) EPOLLERR) EPOLLIN)
    EPOLLOUT) <> 0.

Definition fresh_open (fs : fsys) (s : web_server) : Prop :=
  forall path, fs_open fs path ∉ watched (kern s).

Inductive step (sync : bool) (max listenfd : Z) (s : web_server) : web_server -> Prop :=
  | step_listen ev s' :
      ev_fd ev = listenfd -> (ev_accept ev).1 ∉ watched (kern s) ->
      (sync = true -> (ev_accept ev).1 ∉ (ending s).*1) ->
      handle_event max listenfd ev s = Ok s' -> step sync max listenfd s s'
  | step_event ev s' :
      ev_fd ev <> listenfd -> ev_fd ev ∈ armed (kern s) ->
      wants ev ->
      handle_event max listenfd ev (set_kern (deliver (ev_fd ev) (kern s)) s) = Ok s' ->
      step sync max listenfd s s'
  | step_take fd s' : take_request s = Some (fd, s') -> step sync max listenfd s s'
  | step_work i fs s' :
      fresh_open fs s -> work i fs s = Some (Ok s') -> step sync max listenfd s s'
  | step_finish j n s' :
      (sync = true -> n = m_user_count (sw s) - 1) ->
      finish j n s = Some (Ok s') -> step sync max listenfd s s'.

(** What a thread does next is undefined or throws. *)
Inductive step_fault (sync : bool) (max listenfd : Z) (s : web_server) (f : fault) : Prop :=
  | fault_listen ev :
      ev_fd ev = listenfd -> (ev_accept ev).1 ∉ watched (kern s) ->
      (sync = true -> (ev_accept ev).1 ∉ (ending s).*1) ->
      handle_event max listenfd ev s = Err f -> step_fault sync max listenfd s f
  | fault_event ev :
      ev_fd ev <> listenfd -> ev_fd ev ∈ armed (kern s) -> wants ev ->
      handle_event max listenfd ev (set_kern (deliver (ev_fd ev) (kern s)) s) = Err f ->
      step_fault sync max listenfd s f
  | fault_work i fs :
      fresh_open fs s -> work i fs s = Some (Err f) -> step_fault sync max listenfd s f
  | fault_finish j n :
      (sync = true -> n = m_user_count (sw s) - 1) ->
      finish j n s = Some (Err f) -> step_fault sync max listenfd s f.

#[export] Instance wants_dec ev : Decision (wants ev).
Proof. unfold wants. apply _. Defined.

(** ** Lemmas: [process] in steps *)

(** The steps one after the other are [process]. *)
Lemma process_in_steps fs c w :
  process fs c w =
  ('(c, w, closing) ← process_start fs c w;
   if (closing : bool) then
     let c := set_sockfd (-1) c in
     let w := set_user_count (m_user_count w - 1) w in
     Ok (c, modfd (m_epollfd w) (m_sockfd c) EPOLLOUT w)
   else Ok (c, w)).
Proof.
  unfold process, process_start. destruct (process_read fs w c) as [[[c1 w1] ret]|]; [|done].
  cbn [mbind res_bind]. case_decide; [done|].
  destruct (process_write ret c1) as [[c2 ok]|]; [|done]. cbn [mbind res_bind].
  destruct ok; cbn [negb andb]; [done|]. unfold close_conn. cbn [andb].
  by destruct (negb (m_sockfd c2 =? -1)).
Qed.

(** When [process] re-arms an open connection, it has not closed it. *)
Lemma process_start_open fs c w c' w' l e fd ev :
  process fs c w = Ok (c', w') -> trace w' = l ++ [EpollMod e fd ev] -> fd <> -1 ->
  process_start fs c w = Ok (c', w', false).
Proof.
  rewrite process_in_steps. destruct (process_start fs c w) as [[[c1 w1] []]|]; [| |done].
  - cbn [mbind res_bind]. unfold modfd, emit. cbn [m_sockfd set_sockfd trace set_user_count].
    intros [= <- <-]. cbn [trace]. intros Ht Hneg. by apply app_inj_2 in Ht as [_ [= ? ? ?]].
  - by intros [= <- <-].
Qed.

Lemma process_start_effects fs c w c' w' closing :
  process_start fs c w = Ok (c', w', closing) ->
  m_sockfd c' = m_sockfd c /\ exists l, (l = [] \/ exists path, l = [Close (fs_open fs path)]) /\
    if closing then
      m_sockfd c <> -1 /\ w' = World (m_epollfd w) (m_user_count w)
        (trace w ++ l ++ [EpollDel (m_epollfd w) (m_sockfd c); Close (m_sockfd c)])
    else exists ev, w' = World (m_epollfd w) (m_user_count w) (trace w ++ l ++ [rearm ev c' w]).
Proof.
  unfold process_start. intros H. apply bind_ok_inv in H as ([[c1 w1] ret] & E & H).
  apply pr_loop_world in E as [Hs Hw]. unfold wside in Hs. injection Hs as Hs _ _ _.
  assert (exists l, w1 = World (m_epollfd w) (m_user_count w) (trace w ++ l) /\
            (l = [] \/ exists path, l = [Close (fs_open fs path)])) as (l & -> & Hl).
  { destruct Hw as [->|[path ->]]; [exists []|by eexists; split; [reflexivity|eauto]].
    rewrite app_nil_r. split; [by destruct w|by left]. }
  unfold rearm. case_decide.
  - injection H as <- <- <-. split; [done|]. exists l. split; [done|]. exists EPOLLIN.
    unfold modfd, emit. cbn. by rewrite <- app_assoc.
  - apply bind_ok_inv in H as ([c2 ok] & E2 & H). apply process_write_sock in E2.
    destruct (negb ok && negb (m_sockfd c2 =? -1)) eqn:Eb; injection H as <- <- <-;
      (split; [congruence|]; exists l; split; [done|]).
    + apply andb_prop in Eb as [_ Eb%negb_true_iff%Z.eqb_neq].
      unfold removefd, emit. cbn. rewrite <- !app_assoc. split; [congruence|]. by rewrite E2, Hs.
    + exists EPOLLOUT. unfold modfd, emit. cbn. by rewrite <- app_assoc.
Qed.

(** ** Lemmas: what the calls do to the kernel's registrations *)

Definition arm (fd : Z) (k : kernel) : kernel := Kernel (watched k) (armed k ∪ {[fd]}).

(** Calls of one connection's own: sending, unmapping, re-arming. *)
Definition own (fd : Z) (e : sys) : Prop :=
  match e with
  | Munmap _ _ => True
  | Sent f _ | EpollMod _ f _ => f = fd
  | _ => False
  end.

Lemma apply_own fd l k :
  Forall (own fd) l -> fd ∈ watched k ->
  foldl apply_sys k l = if existsb is_mod l then arm fd k else k.
Proof.
  intros Hl. revert k. induction Hl as [|e l He _ IH]; intros k Hk; [done|]. cbn.
  destruct e; cbn in He |- *; try done; try (by apply IH).
  subst. rewrite decide_True by done. rewrite IH by done.
  destruct (existsb _ _); [|done]. unfold arm. cbn. f_equal. set_solver.
Qed.

Lemma kernel_eq w w' a a' : w = w' -> a = a' -> Kernel w a = Kernel w' a'.
Proof. by intros -> ->. Qed.

Lemma apply_foreign k fd : fd ∉ watched k -> armed k ⊆ watched k -> apply_sys k (Close fd) = k.
Proof. intros H Ha. destruct k as [w a]. cbn in *. apply kernel_eq; set_solver. Qed.

Lemma since_app (l l' : list sys) : drop (length l) (l ++ l') = l'.
Proof. apply drop_app_length. Qed.

Lemma unmap_effects c w c' w' :
  unmap c w = Ok (c', w') ->
  m_sockfd c' = m_sockfd c /\ m_user_count w' = m_user_count w /\
  m_epollfd w' = m_epollfd w /\
  exists l, trace w' = trace w ++ l /\ Forall (own (m_sockfd c)) l /\ existsb is_mod l = false.
Proof.
  unfold unmap. intros (m & Hm & H)%bind_ok_inv. case_decide.
  - injection H as <- <-. split_ands; try done. exists []. by rewrite app_nil_r.
  - apply bind_ok_inv in H as (st & Hst & H). injection H as <- <-. split_ands; try done.
    eexists. split; [reflexivity|]. split; [by repeat constructor|done].
Qed.

(** [write] only sends on, unmaps for and re-arms its own connection; when it
    tells the caller to keep the connection, it has re-armed it. *)
Lemma write_loop_effects rs b h c w c' w' ok :
  write_loop rs b h c w = Ok (c', w', ok) ->
  m_sockfd c' = m_sockfd c /\ m_user_count w' = m_user_count w /\
  exists l, trace w' = trace w ++ l /\ Forall (own (m_sockfd c)) l /\
    (ok = true -> existsb is_mod l = true).
Proof.
  revert b h w. induction rs as [|[n| |] rs IH]; intros b h w H; cbn [write_loop] in H; [done|..].
  - apply bind_ok_inv in H as (k & _ & H). set (w1 := emit _ w) in H.
    assert (Ht1 : exists e, trace w1 = trace w ++ [e] /\ own (m_sockfd c) e /\ is_mod e = false)
      by (by eexists).
    destruct Ht1 as (e & Ht1 & He & Hm). change (m_user_count w) with (m_user_count w1).
    case_decide.
    + apply bind_ok_inv in H as ([c2 w2] & E & H).
      apply unmap_effects in E as (Hs & Hu & _ & l & Ht & Hl & _).
      assert (m_sockfd c' = m_sockfd c2 /\
              w' = modfd (m_epollfd w2) (m_sockfd c2) EPOLLIN w2) as [Hs' ->]
        by (destruct (m_linger c2); by injection H as <- <- _).
      split_ands; [congruence|exact Hu|]. eexists. cbn. rewrite Ht, Ht1, <- !app_assoc.
      split; [reflexivity|]. split.
      * repeat (apply Forall_app; split); try done; by repeat constructor.
      * intros _. rewrite !existsb_app. cbn. by rewrite !orb_true_r.
    + apply IH in H as (Hs & Hu & l & Ht & Hl & Hok). split_ands; [done..|].
      exists (e :: l). rewrite Ht, Ht1, <- app_assoc. split_ands; [done|by constructor|].
      intros Ho. cbn. by rewrite Hm, Hok.
  - injection H as <- <- <-. split_ands; try done. eexists. split; [reflexivity|].
    split; [by repeat constructor|done].
  - apply bind_ok_inv in H as ([c2 w2] & E & H). injection H as <- <- <-.
    apply unmap_effects in E as (Hs & Hu & _ & l & Ht & Hl & _). split_ands; try done.
    by exists l.
Qed.

Lemma write_effects rs c w c' w' ok :
  write rs c w = Ok (c', w', ok) ->
  m_sockfd c' = m_sockfd c /\ m_user_count w' = m_user_count w /\
  exists l, trace w' = trace w ++ l /\ Forall (own (m_sockfd c)) l /\
    (ok = true -> existsb is_mod l = true).
Proof.
  unfold write. case_decide; [|apply write_loop_effects].
  intros [= <- <- <-]. split_ands; [done..|]. eexists. split; [reflexivity|].
  split; [by repeat constructor|done].
Qed.

Lemma read_loop_sock rs c c' ok : read_loop rs c = Ok (c', ok) -> m_sockfd c' = m_sockfd c.
Proof.
  revert c. induction rs as [|[d| |] rs IH]; intros c H; cbn [read_loop] in H;
    [done| |by injection H as <- <-|by injection H as <- <-].
  case_decide; [by injection H as <- <-|].
  apply bind_ok_inv in H as (b & _ & H). by apply IH in H.
Qed.

Lemma read_sock rs c c' ok : read rs c = Ok (c', ok) -> m_sockfd c' = m_sockfd c.
Proof. unfold read. case_decide; [by intros [= <- <-]|apply read_loop_sock]. Qed.

(** ** Lemmas: lists updated at one place *)

Lemma list_elem_of_insert_cases {A} (l : list A) i x y : x ∈ <[i := y]> l -> x = y \/ x ∈ l.
Proof.
  intros [k Hk]%list_elem_of_lookup. apply list_lookup_insert_Some in Hk as [(_ & <- & _)|[_ Hk]];
    [by left|right; by eapply list_elem_of_lookup_2].
Qed.

Lemma fmap_insert_fst {A B} (l : list (A * B)) i x y y' :
  l !! i = Some (x, y) -> (<[i := (x, y')]> l).*1 = l.*1.
Proof. intros Hi. rewrite list_fmap_insert. apply list_insert_id. by rewrite list_lookup_fmap, Hi. Qed.

Section FilterInsert.
Context {A : Type} (P : A -> Prop) `{!forall x, Decision (P x)}.

Lemma filter_insert_length l i x y :
  l !! i = Some x ->
  (length (filter P (<[i := y]> l)) + (if decide (P x) then 1 else 0) =
   length (filter P l) + (if decide (P y) then 1 else 0))%nat.
Proof.
  revert i. induction l as [|z l IH]; intros [|i]; [done|done| |].
  - intros [= ->]. change (<[0%nat := y]> (x :: l)) with (y :: l). rewrite !filter_cons.
    repeat case_decide; cbn; lia.
  - intros Hi. specialize (IH i Hi). change (<[S i := y]> (z :: l)) with (z :: <[i := y]> l).
    rewrite !filter_cons. destruct (decide (P z)); cbn [length]; lia.
Qed.

Lemma filter_insert_same l i x y :
  l !! i = Some x -> P x -> P y -> length (filter P (<[i := y]> l)) = length (filter P l).
Proof.
  intros Hi Hx Hy. pose proof (filter_insert_length l i x y Hi) as Hl.
  rewrite decide_True, decide_True in Hl by done. lia.
Qed.

Lemma filter_insert_out l i x y :
  l !! i = Some x -> P x -> ~ P y -> length (filter P l) = S (length (filter P (<[i := y]> l))).
Proof.
  intros Hi Hx Hy. pose proof (filter_insert_length l i x y Hi) as Hl.
  rewrite decide_True, decide_False in Hl by done. lia.
Qed.

Lemma filter_delete_out l i x :
  l !! i = Some x -> ~ P x -> length (filter P (delete i l)) = length (filter P l).
Proof.
  intros Hi%delete_Permutation Hx. assert (filter P l ≡ₚ filter P (x :: delete i l)) as -> by (by rewrite <- Hi).
  by rewrite filter_cons, decide_False.
Qed.

End FilterInsert.

(** ** The invariant: every open connection is in one place *)

Definition sock_of (s : web_server) (fd : Z) : Z := m_sockfd (default new_conn (users s !! fd)).

(** The connections a worker has closed and not yet counted off. *)
Definition uncounted (s : web_server) : nat := length (filter (fun x => x.2 <> Counted) (ending s)).

(** [inv_but o s]: the invariant of a state in which the connection [o], if any,
    is in the main thread's or a worker's hands, and nowhere else. *)
Record inv_but (o : option Z) (s : web_server) : Prop := {
  inv_sock : forall fd, fd ∈ watched (kern s) -> 0 <= fd /\ sock_of s fd = fd;
  inv_count : m_user_count (sw s) = Z.of_nat (size (watched (kern s)) + uncounted s);
  inv_ending : forall fd ph, (fd, ph) ∈ ending s -> fd ∉ watched (kern s) /\ (ph <> Closed -> sock_of s fd = -1);
  inv_once : NoDup (ending s).*1;
  inv_places : elements (watched (kern s)) ≡ₚ
    option_list o ++ elements (armed (kern s)) ++ queue s ++ hands s ++ lost s }.

Abbreviation inv := (inv_but None).

Lemma inv_armed_sub o s : inv_but o s -> armed (kern s) ⊆ watched (kern s).
Proof.
  intros H fd Hfd. apply elem_of_elements. rewrite (inv_places _ _ H).
  apply elem_of_app. right. apply elem_of_app. left. by apply elem_of_elements.
Qed.

Lemma inv_but_open fd s : inv_but (Some fd) s -> fd ∈ watched (kern s) /\ fd ∉ armed (kern s).
Proof.
  intros H. pose proof (inv_places _ _ H) as Hp. split.
  - apply elem_of_elements. rewrite Hp. left.
  - intros Hfd. pose proof (NoDup_elements (watched (kern s))) as Hn. rewrite Hp in Hn.
    apply NoDup_cons in Hn as [Hn _]. apply Hn, elem_of_app. left. by apply elem_of_elements.
Qed.

Lemma elements_take (X : gset Z) x :
  x ∈ X -> elements X ≡ₚ x :: elements (X ∖ {[x]}).
Proof.
  intros Hx. rewrite (union_difference_singleton_L x X) at 1 by done.
  rewrite elements_disj_union by set_solver. by rewrite elements_singleton.
Qed.

Lemma elements_put (X : gset Z) x :
  x ∉ X -> elements (X ∪ {[x]}) ≡ₚ x :: elements X.
Proof.
  intros Hx. rewrite (comm_L (∪)), elements_disj_union by set_solver.
  by rewrite elements_singleton.
Qed.

Lemma size_take (X : gset Z) x : x ∈ X -> size (X ∖ {[x]}) = (size X - 1)%nat.
Proof.
  intros Hx. rewrite size_difference by set_solver. by rewrite size_singleton.
Qed.

Lemma size_pos (X : gset Z) x : x ∈ X -> (0 < size X)%nat.
Proof.
  intros Hx. destruct (size X) eqn:E; [|lia]. apply size_empty_inv in E. set_solver.
Qed.

Lemma size_put (X : gset Z) x : x ∉ X -> size (X ∪ {[x]}) = S (size X).
Proof. intros Hx. rewrite size_union by set_solver. rewrite size_singleton. lia. Qed.

Lemma sock_store fd c w s fd' :
  sock_of (store fd c w s) fd' = if decide (fd' = fd) then m_sockfd c else sock_of s fd'.
Proof.
  unfold sock_of, store. cbn. case_decide as E.
  - subst. by rewrite lookup_insert_eq.
  - by rewrite lookup_insert_ne by congruence.
Qed.

Lemma set_ending_sock e s fd : sock_of (set_ending e s) fd = sock_of s fd.
Proof. done. Qed.

Lemma deliver_inv fd s :
  inv s -> fd ∈ armed (kern s) -> inv_but (Some fd) (set_kern (deliver fd (kern s)) s).
Proof.
  intros H Hfd. destruct H as [Hs Hc He Hd Hp]. split; cbn; [done..|].
  rewrite Hp. cbn. by rewrite (elements_take _ _ Hfd).
Qed.

Lemma user_sock o s fd c :
  inv_but o s -> fd ∈ watched (kern s) -> user_at s fd = Ok c -> 0 <= fd /\ m_sockfd c = fd.
Proof.
  intros H Hfd. unfold user_at. case_decide; [|discriminate]. intros [= <-].
  by apply (inv_sock _ _ H).
Qed.

(** The connection in hands has been closed and counted off. *)
Lemma drop_inv fd c w s :
  inv_but (Some fd) s -> kern (store fd c w s) = Kernel (watched (kern s) ∖ {[fd]}) (armed (kern s)) ->
  m_user_count w = m_user_count (sw s) - 1 -> inv (store fd c w s).
Proof.
  intros H Hk Hu. destruct (inv_but_open _ _ H) as [Hw Ha]. destruct H as [Hs Hc He Hd Hp].
  split; rewrite ?Hk; cbn [watched armed].
  - intros fd' [Hfd' Hne]%elem_of_difference. rewrite sock_store, decide_False by set_solver.
    by apply Hs.
  - change (uncounted (store fd c w s)) with (uncounted s). cbn [sw store].
    rewrite size_take, Hu, Hc by done. pose proof (size_pos _ _ Hw). lia.
  - intros fd' ph [Hn Hph]%He. split; [set_solver|]. rewrite sock_store, decide_False by (by intros ->). done.
  - done.
  - rewrite (elements_take _ _ Hw) in Hp. by apply Permutation_cons_inv in Hp.
Qed.

(** The main thread closes the connection it has in hands. *)
Lemma on_close_inv fd s s' :
  inv_but (Some fd) s -> on_close fd s = Ok s' -> inv s'.
Proof.
  intros H. destruct (inv_but_open _ _ H) as [Hw Ha].
  unfold on_close. intros (c & E & Hr)%bind_ok_inv. revert Hr.
  destruct (user_sock _ _ fd c H Hw E) as [H0 Hsock].
  unfold close_conn. rewrite Hsock. replace (fd =? -1) with false by lia. cbn [andb negb].
  intros [= <-]. apply drop_inv; [done| |done].
  unfold store, removefd, emit, set_user_count. cbn [kern trace].
  rewrite <- app_assoc, since_app. cbn. apply kernel_eq; set_solver.
Qed.

(** The connection in hands has been worked on by calls of its own. *)
Lemma store_own fd c w l s :
  inv_but (Some fd) s -> m_sockfd c = fd -> m_user_count w = m_user_count (sw s) ->
  trace w = trace (sw s) ++ l -> Forall (own fd) l ->
  if existsb is_mod l then inv (store fd c w s) /\ fd ∈ armed (kern (store fd c w s))
  else inv_but (Some fd) (store fd c w s).
Proof.
  intros H Hc Hu Ht Hl. destruct (inv_but_open _ _ H) as [Hw Ha].
  assert (Hk : kern (store fd c w s) = if existsb is_mod l then arm fd (kern s) else kern s).
  { unfold store. cbn. by rewrite Ht, since_app, (apply_own fd). }
  assert (Hwk : watched (kern (store fd c w s)) = watched (kern s)).
  { rewrite Hk. by destruct (existsb _ _). }
  assert (Hs : forall fd', fd' ∈ watched (kern (store fd c w s)) ->
                0 <= fd' /\ sock_of (store fd c w s) fd' = fd').
  { intros fd'. rewrite Hwk, sock_store. intros Hf. split; [by apply H|].
    case_decide; [congruence|by apply H]. }
  assert (Hcount : m_user_count (sw (store fd c w s)) =
                   Z.of_nat (size (watched (kern (store fd c w s))) + uncounted s)).
  { rewrite Hwk. cbn. rewrite Hu. apply H. }
  assert (He : forall fd' ph, (fd', ph) ∈ ending s ->
    fd' ∉ watched (kern (store fd c w s)) /\ (ph <> Closed -> sock_of (store fd c w s) fd' = -1)).
  { intros fd' ph [Hn Hph]%(inv_ending _ _ H). rewrite Hwk, sock_store, decide_False by (by intros ->). done. }
  destruct (existsb is_mod l); [split; [split|]|split]; try done; rewrite ?Hk; cbn.
  - apply H.
  - rewrite (inv_places _ _ H), elements_put by done. done.
  - set_solver.
  - apply H.
  - apply H.
Qed.

(** Closing a connection that has just been re-armed. *)
Lemma on_close_armed fd s s' :
  inv s -> fd ∈ armed (kern s) -> on_close fd s = Ok s' -> inv s'.
Proof.
  intros H Ha Hc. eapply (on_close_inv fd (set_kern (deliver fd (kern s)) s));
    [by apply deliver_inv|].
  revert Hc. unfold on_close. change (user_at (set_kern (deliver fd (kern s)) s) fd) with (user_at s fd).
  destruct (user_at s fd) as [c|] eqn:E; [|done]. cbn [mbind res_bind].
  destruct (user_sock _ _ fd c H) as [H0 Hsock]; [by apply (inv_armed_sub _ _ H)|done|].
  cbn [sw set_kern]. unfold close_conn. rewrite Hsock.
  replace (fd =? -1) with false by lia. cbn [andb negb]. intros <-.
  unfold store, set_kern. cbn -[removefd]. set (w := removefd _ _ _).
  assert (Ht : trace w = trace (sw s) ++
    [EpollDel (m_epollfd (sw s)) fd; Close fd]) by (cbn; by rewrite <- app_assoc).
  rewrite Ht, since_app. cbn. do 2 f_equal. apply kernel_eq; set_solver.
Qed.

Lemma append_inv max fd s : inv_but (Some fd) s -> inv (append max fd s).
Proof.
  intros [Hs Hc He Hd Hp]. unfold append. case_decide; split; cbn; try done; rewrite Hp; cbn;
    rewrite <- ?app_assoc; solve_Permutation.
Qed.

Lemma on_readable_inv max fd rs s s' :
  inv_but (Some fd) s -> on_readable max fd rs s = Ok s' -> inv s'.
Proof.
  intros H. unfold on_readable. intros (c & E & Hr)%bind_ok_inv.
  apply bind_ok_inv in Hr as ([c' ok] & E' & Hr). apply read_sock in E'.
  assert (m_sockfd c' = fd) as Hc'.
  { rewrite E'. by apply (user_sock _ _ fd c H); [apply inv_but_open|]. }
  pose proof (store_own fd c' (sw s) [] s H Hc' eq_refl) as Hst.
  rewrite app_nil_r in Hst. specialize (Hst eq_refl (List.Forall_nil _)). cbn in Hst.
  destruct ok; cbn [negb] in Hr.
  - injection Hr as <-. by apply append_inv.
  - by eapply on_close_inv.
Qed.

Lemma on_writable_inv fd rs s s' :
  inv_but (Some fd) s -> on_writable fd rs s = Ok s' -> inv s'.
Proof.
  intros H. unfold on_writable. intros (c & E & Hr)%bind_ok_inv.
  apply bind_ok_inv in Hr as ([[c' w'] ok] & E' & Hr).
  apply write_effects in E' as (Hs & Hu & l & Ht & Hl & Hok).
  assert (m_sockfd c = fd) as Hc by (by apply (user_sock _ _ fd c H); [apply inv_but_open|]).
  rewrite Hc in *. pose proof (store_own fd c' w' l s H Hs Hu Ht Hl) as Hst.
  destruct ok; cbn [negb] in Hr.
  - injection Hr as <-. rewrite Hok in Hst by done. apply Hst.
  - destruct (existsb is_mod l); [by eapply on_close_armed; [apply Hst..|]|by eapply on_close_inv].
Qed.

(** ** Opening *)

Lemma on_listen_inv connfd addr s s' :
  inv s -> connfd ∉ watched (kern s) -> connfd ∉ (ending s).*1 -> on_listen connfd addr s = Ok s' -> inv s'.
Proof.
  intros H Hf Hfe. unfold on_listen. generalize (lit "Internal server busy") as info. intros info.
  case_decide as Hneg; [by intros [= <-]|].
  pose proof (inv_armed_sub _ _ H) as Hsub. case_decide.
  - intros [= <-]. unfold set_world.
    assert (Hk : foldl apply_sys (kern s) (drop (length (trace (sw s)))
              (trace (show_error connfd info (sw s)))) = kern s).
    { unfold show_error, emit. cbn [trace]. rewrite <- app_assoc, since_app.
      cbn -[apply_sys]. by apply apply_foreign. }
    rewrite Hk. by destruct H.
  - intros (c & E & Hr)%bind_ok_inv. destruct (init_conn _ _ _ _) as [c' w'] eqn:Ei.
    injection Hr as <-. unfold init_conn in Ei. injection Ei as <- <-.
    destruct H as [Hs Hc He Hd Hp]. unfold addfd, setnonblocking, emit. cbn [trace m_epollfd m_user_count].
    set (c' := init _). set (w' := set_user_count _ _).
    assert (Hk : foldl apply_sys (kern s) (drop (length (trace (sw s))) (trace w')) =
      Kernel (watched (kern s) ∪ {[connfd]}) (armed (kern s) ∪ {[connfd]})).
    { unfold w', set_user_count. cbn [trace]. by rewrite <- !app_assoc, since_app. }
    split; unfold store; rewrite Hk; cbn -[w' c'].
    + intros fd Hfd. unfold sock_of. cbn -[w' c'].
      destruct (decide (fd = connfd)) as [->|Hne].
      * rewrite lookup_insert_eq. split; [lia|done].
      * rewrite lookup_insert_ne by congruence. apply Hs. set_solver.
    + unfold uncounted in *. cbn -[w' c'] in *. rewrite size_put by done. unfold w'.
      cbn [set_user_count m_user_count]. lia.
    + intros fd ph Hfd. assert (fd <> connfd) by (intros ->; apply Hfe, list_elem_of_fmap; by exists (connfd, ph)).
      destruct (He fd ph Hfd) as [Hn Hph]. split; [set_solver|]. unfold sock_of. cbn -[w' c'].
      by rewrite lookup_insert_ne.
    + done.
    + rewrite elements_put, elements_put by set_solver. by rewrite Hp.
Qed.

(** ** Workers *)

Lemma take_inv fd s s' : inv s -> take_request s = Some (fd, s') -> inv s'.
Proof.
  intros [Hs Hc He Hd Hp]. unfold take_request. destruct (queue s) as [|x q] eqn:E; [done|].
  intros [= <- <-]. split; cbn; try done. rewrite Hp. cbn. solve_Permutation.
Qed.

(** A worker's call of [open] and [close] for a file is nothing to the connections. *)
Lemma file_calls fs s l :
  armed (kern s) ⊆ watched (kern s) -> fresh_open fs s -> l = [] \/ (exists path, l = [Close (fs_open fs path)]) ->
  foldl apply_sys (kern s) l = kern s.
Proof. intros Ha Hfs [->|[path ->]]; [done|]. apply apply_foreign; [apply Hfs|done]. Qed.

Lemma work_inv i fs s s' : inv s -> fresh_open fs s -> work i fs s = Some (Ok s') -> inv s'.
Proof.
  intros H Hfs. unfold work. destruct (hands s !! i) as [fd|] eqn:Ei; [|done].
  intros [= Hr]. apply bind_ok_inv in Hr as (c & E & Hr).
  apply bind_ok_inv in Hr as ([[c' w'] closing] & E' & Hr).
  set (s1 := Server (users s) (sw s) (kern s) (queue s) (delete i (hands s)) (lost s) (ending s)).
  assert (H1 : inv_but (Some fd) s1).
  { destruct H as [Hs Hc He Hd Hp]. split; cbn; try done. rewrite Hp. cbn.
    rewrite (delete_Permutation _ _ _ Ei) at 1. solve_Permutation. }
  assert (Hs' : s' = set_ending (if closing then (fd, Closed) :: ending s else ending s) (store fd c' w' s1))
    by (by injection Hr as <-). rewrite Hs'. clear Hr Hs'.
  destruct (inv_but_open _ _ H1) as [Hw Ha].
  destruct (user_sock _ _ fd c H1 Hw E) as [H0 Hsock].
  apply process_start_effects in E' as (Hsk & l & Hl & Hcase). rewrite Hsock in Hsk.
  pose proof (file_calls fs s l (inv_armed_sub _ _ H) Hfs Hl) as Hfl. destruct closing.
  - destruct Hcase as [_ ->]. rewrite Hsock.
    assert (Hk : kern (store fd c' (World (m_epollfd (sw s)) (m_user_count (sw s))
        (trace (sw s) ++ l ++ [EpollDel (m_epollfd (sw s)) fd; Close fd])) s1) =
        Kernel (watched (kern s) ∖ {[fd]}) (armed (kern s))).
    { unfold store. cbn [kern trace sw s1]. rewrite since_app, foldl_app, Hfl. cbn. apply kernel_eq; set_solver. }
    destruct H1 as [Hs Hc He Hd Hp]. set (s2 := store _ _ _ _) in *.
    split; cbn [set_ending kern sw ending]; rewrite ?Hk; cbn [watched armed].
    + intros fd' [Hfd' Hne]%elem_of_difference. rewrite set_ending_sock. unfold s2.
      rewrite sock_store, decide_False by set_solver. by apply Hs.
    + change (uncounted _) with (S (uncounted s1)). rewrite size_take by done.
      pose proof (size_pos _ _ Hw). cbn -[uncounted] in *. lia.
    + intros fd' ph [[= -> ->]|[Hn Hph]%He]%elem_of_cons; [split; [set_solver|done]|].
      split; [set_solver|]. rewrite set_ending_sock. unfold s2. rewrite sock_store, decide_False by (by intros ->). done.
    + cbn. constructor; [|exact Hd]. intros ([y ph] & -> & Hy)%list_elem_of_fmap. by apply He in Hy as [Hy _].
    + cbn [s2 store queue hands lost set_ending s1 option_list app] in *.
      rewrite (elements_take _ _ Hw) in Hp. by apply Permutation_cons_inv in Hp.
  - destruct Hcase as [ev ->].
    pose proof (store_own fd c' (World (m_epollfd (sw s)) (m_user_count (sw s)) (trace (sw s) ++ [rearm ev c' (sw s)]))
      [rearm ev c' (sw s)] s1 H1 Hsk eq_refl eq_refl) as Hst.
    destruct Hst as [Hst _]; [by repeat constructor|].
    assert (Hk : kern (store fd c' (World (m_epollfd (sw s)) (m_user_count (sw s))
        (trace (sw s) ++ l ++ [rearm ev c' (sw s)])) s1) =
      kern (store fd c' (World (m_epollfd (sw s)) (m_user_count (sw s)) (trace (sw s) ++ [rearm ev c' (sw s)])) s1)).
    { unfold store. cbn [kern trace sw s1]. rewrite !since_app, foldl_app, Hfl. done. }
    destruct Hst as [Hs Hc He Hd Hp]. rewrite <- Hk in *. by split.
Qed.

(** A worker goes on closing a connection. *)
Lemma finish_inv j n s s' :
  inv s -> n = m_user_count (sw s) - 1 -> finish j n s = Some (Ok s') -> inv s'.
Proof.
  intros H Hn. pose proof H as [Hs Hc He Hd Hp]. unfold finish.
  destruct (ending s !! j) as [[fd ph]|] eqn:Ej; [|done].
  assert (Hin : (fd, ph) ∈ ending s) by (by eapply list_elem_of_lookup_2).
  destruct (He fd ph Hin) as [Hfd Hph]. pose proof (delete_Permutation _ _ _ Ej) as Hperm.
  destruct ph; intros [= E].
  - apply bind_ok_inv in E as (c & _ & E). injection E as <-.
    assert (Hk : kern (store fd (set_sockfd (-1) c) (sw s) s) = kern s) by (unfold store; cbn; by rewrite drop_all).
    split; cbn [set_ending kern sw ending]; rewrite ?Hk.
    + intros fd' Hfd'. rewrite set_ending_sock, sock_store, decide_False by (by intros ->). by apply Hs.
    + cbn. rewrite Hc. f_equal. f_equal. unfold uncounted. cbn.
      by rewrite (filter_insert_same _ _ _ (fd, Closed)).
    + intros fd' ph' Hin'. rewrite set_ending_sock, sock_store.
      apply list_elem_of_insert_cases in Hin' as [[= -> ->]|Hin']; [by rewrite decide_True|].
      destruct (He _ _ Hin') as [? Hs']. split; [done|]. case_decide; [done|exact Hs'].
    + cbn. by rewrite (fmap_insert_fst _ _ _ _ _ Ej).
    + exact Hp.
  - subst s'. unfold set_world. cbn [trace set_user_count]. rewrite drop_all. cbn [foldl].
    split; cbn; try done.
    + rewrite Hn, Hc. unfold uncounted. cbn.
      pose proof (filter_insert_out (fun x : Z * phase => x.2 <> Counted) _ j (fd, Cleared) (fd, Counted) Ej) as Hx.
      cbn in Hx. rewrite Hx by (done || intros Hy; by apply Hy). lia.
    + intros fd' ph' Hin'. apply list_elem_of_insert_cases in Hin' as [[= -> ->]|Hin'].
      * split; [done|]. intros _. by apply Hph.
      * exact (He _ _ Hin').
    + by rewrite (fmap_insert_fst _ _ _ _ _ Ej).
  - apply bind_ok_inv in E as (c & Ec & E). injection E as <-.
    assert (Hsock : m_sockfd c = -1).
    { specialize (Hph ltac:(done)). unfold user_at in Ec. case_decide; [|done]. by injection Ec as <-. }
    assert (Hk : foldl apply_sys (kern s) (drop (length (trace (sw s)))
        (trace (modfd (m_epollfd (sw s)) (m_sockfd c) EPOLLOUT (sw s)))) = kern s).
    { unfold modfd, emit. cbn [trace]. rewrite since_app, Hsock. cbn. rewrite decide_False; [done|].
      intros Hx. apply Hs in Hx. lia. }
    unfold set_world. rewrite Hk. split; cbn; try done.
    + rewrite Hc. do 2 f_equal. unfold uncounted. cbn.
      by rewrite (filter_delete_out _ _ _ _ Ej) by (intros Hx; by apply Hx).
    + intros fd' ph' Hin'. apply He. rewrite Hperm. by right.
    + rewrite Hperm in Hd. by apply NoDup_cons in Hd as [_ Hd].
Qed.

Lemma server_inv_step max listenfd s s' : inv s -> step true max listenfd s s' -> inv s'.
Proof.
  intros H [ev s1 Hl Hf Hfe E | ev s1 Hl Ha Hev E | fd s1 E | i fs s1 Hfs E | j n s1 Hn E].
  - unfold handle_event in E. rewrite decide_True in E by done. eapply on_listen_inv; eauto.
  - apply (deliver_inv _ _ H) in Ha. unfold handle_event in E.
    rewrite decide_False in E by done. repeat case_decide.
    + by eapply on_close_inv.
    + by eapply on_readable_inv.
    + by eapply on_writable_inv.
    + destruct Hev. rewrite Z.land_lor_distr_r, Z.land_lor_distr_r.
      repeat match goal with X : ~ _ <> 0 |- _ => apply dec_stable in X end.
      by repeat match goal with X : _ = 0 |- _ => rewrite X; clear X end.
  - by eapply take_inv.
  - by eapply work_inv.
  - by eapply finish_inv; [|apply Hn|].
Qed.

(** ** The running server *)

Lemma setup_inv argc k listenfd pool s :
  setup argc k = Ok (inr (listenfd, pool, s)) -> inv s.
Proof.
  unfold setup. case_decide; [done|]. intros (? & _ & H1)%bind_ok_inv.
  destruct (new_threadpool _ _ _).2; [|done].
  do 4 apply bind_ok_inv in H1 as (? & _ & H1).
  injection H1 as <- <- <-. split; cbn; [set_solver|done|set_solver|constructor|]. by rewrite elements_empty.
Qed.

Lemma inv_run max listenfd s s' : inv s -> rtc (step true max listenfd) s s' -> inv s'.
Proof. apply (rtc_invariant (step true max listenfd) inv). intros a b. apply server_inv_step. Qed.

(** [C5] connection_owned: however the main thread and the workers interleave, with
    any thread running between the statements of a [close_conn] that a worker makes,
    every open connection is in exactly one place: its one-shot event can fire,
    or it waits in the pool's queue, or one worker is processing it, or its
    [append] was refused.  So no connection is ever queued twice, given to two
    workers or touched by the main thread while a worker has it.  Each open
    connection's object holds its own descriptor; a connection that a worker is
    still closing is none of the open ones; and [m_user_count] is the number of
    open connections and of those closed but not yet counted off.

    Two things are assumed that the program does nothing for: [accept] does not return
    a descriptor that a worker has closed and whose [close_conn] it has not finished
    (CloseRace shows what happens when it does), and [m_user_count]'s [++] and [--],
    made by several threads without a lock, lose no update. *)
Theorem connection_owned max argc k listenfd pool s0 s :
  setup argc k = Ok (inr (listenfd, pool, s0)) ->
  rtc (step true max listenfd) s0 s ->
  NoDup (elements (armed (kern s)) ++ queue s ++ hands s ++ lost s) /\
  (forall fd, fd ∈ watched (kern s) <->
     fd ∈ elements (armed (kern s)) ++ queue s ++ hands s ++ lost s) /\
  (forall fd, fd ∈ watched (kern s) -> m_sockfd (default new_conn (users s !! fd)) = fd) /\
  (forall fd ph, (fd, ph) ∈ ending s -> fd ∉ watched (kern s)) /\
  m_user_count (sw s) = Z.of_nat (size (watched (kern s)) + uncounted s).
Proof.
  intros H0%setup_inv Hr. pose proof (inv_run _ _ _ _ H0 Hr) as [Hs Hc He Hd Hp]. cbn in Hp.
  split_and!; [rewrite <- Hp; apply NoDup_elements| |apply Hs|intros fd ph Hin; by eapply He|done].
  intros fd. by rewrite <- Hp, elem_of_elements.
Qed.

Lemma step_lost sync max listenfd s s' fd : step sync max listenfd s s' -> fd ∈ lost s -> fd ∈ lost s'.
Proof.
  assert (Hclose : forall x a b, on_close x a = Ok b -> lost b = lost a).
  { intros x a b H. unfold on_close in H. apply bind_ok_inv in H as (c & _ & H).
    destruct (close_conn _ _ _). by injection H as <-. }
  assert (Hev : forall ev a b, handle_event max listenfd ev a = Ok b -> fd ∈ lost a -> fd ∈ lost b).
  { intros ev a b H Hfd. unfold handle_event in H. repeat case_decide.
    - unfold on_listen in H. repeat case_decide; [by injection H as <-..|].
      apply bind_ok_inv in H as (c & _ & H). destruct (init_conn _ _ _ _).
      by injection H as <-.
    - by rewrite (Hclose _ _ _ H).
    - unfold on_readable in H. apply bind_ok_inv in H as (c & _ & H).
      apply bind_ok_inv in H as ([c' []] & _ & H); cbn [negb] in H.
      + injection H as <-. unfold append. case_decide; cbn; set_solver.
      + by rewrite (Hclose _ _ _ H).
    - unfold on_writable in H. apply bind_ok_inv in H as (c & _ & H).
      apply bind_ok_inv in H as ([[c' w'] []] & _ & H); cbn [negb] in H.
      + by injection H as <-.
      + by rewrite (Hclose _ _ _ H).
    - by injection H as <-. }
  intros [ev s1 Hl Hf Hfe E | ev s1 Hl Ha Hz E | x s1 E | i fs s1 Hfs E | j n s1 Hn E] Hfd.
  - by eapply Hev.
  - by eapply Hev.
  - unfold take_request in E. destruct (queue s); [done|]. by injection E as <- <-.
  - unfold work in E. destruct (hands s !! i); [|done]. injection E as E.
    apply bind_ok_inv in E as (c & _ & E). apply bind_ok_inv in E as ([[c' w'] b] & _ & E).
    by injection E as <-.
  - unfold finish in E. destruct (ending s !! j) as [[x []]|]; [..|done]; injection E as E.
    + apply bind_ok_inv in E as (c & _ & E). by injection E as <-.
    + by subst s1.
    + apply bind_ok_inv in E as (c & _ & E). by injection E as <-.
Qed.

(** refused_append_strands: when [append] refuses a connection whose request
    has been read (the main loop does not look at the result), the connection is
    never served again: whatever happens later it stays open, its one-shot event
    cannot fire, it is not queued and no worker has it. *)
Theorem refused_append_strands max argc k listenfd pool s0 s fd rs c c' :
  setup argc k = Ok (inr (listenfd, pool, s0)) ->
  rtc (step true max listenfd) s0 s ->
  fd <> listenfd -> fd ∈ armed (kern s) ->
  max < Z.of_nat (length (queue s)) ->
  user_at s fd = Ok c -> read rs c = Ok (c', true) ->
  exists s1,
    handle_event max listenfd (Event fd EPOLLIN (0, 0) rs [])
      (set_kern (deliver fd (kern s)) s) = Ok s1 /\
    forall s2, rtc (step true max listenfd) s1 s2 ->
      fd ∈ watched (kern s2) /\ fd ∉ armed (kern s2) /\ fd ∉ queue s2 /\ fd ∉ hands s2.
Proof.
  intros H0%setup_inv Hr Hne Ha Hfull Hu Hrd.
  pose proof (inv_run _ _ _ _ H0 Hr) as H.
  eexists. assert (E : handle_event max listenfd (Event fd EPOLLIN (0, 0) rs [])
    (set_kern (deliver fd (kern s)) s) =
    Ok (append max fd (store fd c' (sw s) (set_kern (deliver fd (kern s)) s)))).
  { unfold handle_event. cbn [ev_fd ev_events ev_reads]. rewrite decide_False by done.
    rewrite decide_False by (intros Hn; by apply Hn).
    rewrite decide_True by (vm_compute; done). unfold on_readable.
    change (user_at (set_kern (deliver fd (kern s)) s) fd) with (user_at s fd).
    rewrite (bind_ok _ _ _ Hu), (bind_ok _ _ _ Hrd). done. }
  split; [exact E|]. set (s1 := append _ _ _) in *. intros s2 Hr2.
  assert (H1 : inv s1).
  { eapply server_inv_step; [exact H|]. by apply (step_event _ _ _ _ (Event fd EPOLLIN (0, 0) rs [])). }
  assert (Hl : fd ∈ lost s1).
  { unfold s1, append. rewrite decide_True by (cbn; lia). cbn. set_solver. }
  assert (Hl2 : fd ∈ lost s2).
  { apply (rtc_invariant (step true max listenfd) (fun s => fd ∈ lost s) s1); [|done..].
    intros a b Hab Hs. by eapply step_lost. }
  pose proof (inv_run _ _ _ _ H1 Hr2) as [_ _ _ _ Hp]. cbn in Hp.
  pose proof (NoDup_elements (watched (kern s2))) as Hn. rewrite Hp in Hn.
  apply NoDup_app in Hn as (_ & Hn1 & (_ & Hn2 & (_ & Hn3 & _)%NoDup_app)%NoDup_app).
  split_ands.
  - apply elem_of_elements. rewrite Hp. set_solver.
  - intros Hx%elem_of_elements%Hn1. set_solver.
  - intros Hx%Hn2. set_solver.
  - intros Hx%Hn3. set_solver.
Qed.

(** ** An example run *)

(** Running events of the main thread, each of which the kernel may report. *)
Fixpoint exec (max listenfd : Z) (evs : list event) (s : web_server) : option web_server :=
  match evs with
  | [] => Some s
  | ev :: evs =>
      match
        (if decide (ev_fd ev = listenfd) then
           if decide ((ev_accept ev).1 ∉ watched (kern s) /\ (ev_accept ev).1 ∉ (ending s).*1)
           then handle_event max listenfd ev s else Err AssertFail
         else if decide (ev_fd ev ∈ armed (kern s) /\ wants ev)
         then handle_event max listenfd ev (set_kern (deliver (ev_fd ev) (kern s)) s)
         else Err AssertFail)
      with
      | Ok s => exec max listenfd evs s
      | Err _ => None
      end
  end.

Lemma exec_sound max listenfd evs s s' :
  exec max listenfd evs s = Some s' -> rtc (step true max listenfd) s s'.
Proof.
  revert s. induction evs as [|ev evs IH]; intros s H; cbn in H; [by injection H as <-|].
  destruct (decide (ev_fd ev = listenfd)) as [Hl|Hl].
  - destruct (decide _) as [[Hf Hfe]|]; [|done].
    destruct (handle_event _ _ _ _) as [s1|] eqn:E; [|done].
    eapply rtc_l; [by eapply step_listen|by apply IH].
  - destruct (decide _) as [[Ha Hz]|]; [|done].
    destruct (handle_event _ _ _ _) as [s1|] eqn:E; [|done].
    eapply rtc_l; [by eapply step_event|by apply IH].
Qed.

Definition setup0 : setup_calls := SetupCalls 0 (replicate 8 (0, 0)) 3 0 0 4.
Definition start0 : web_server :=
  match setup 3 setup0 with Ok (inr (_, _, s)) => s | _ => Server ∅ (World 0 0 []) (Kernel ∅ ∅) [] [] [] [] end.
(** Two clients connect and each sends half a line. *)
Definition run0 : list event :=
  [Event 3 EPOLLIN (5, 0) [] []; Event 3 EPOLLIN (6, 0) [] []; Event 3 EPOLLIN (7, 0) [] [];
   Event 5 EPOLLIN (0, 0) [Received (lit "GET"); Again] [];
   Event 6 EPOLLIN (0, 0) [Received (lit "GET"); Again] []].
Definition busy0 : web_server := default start0 (exec 1 3 run0 start0).

Lemma busy0_reached : rtc (step true 1 3) start0 busy0.
Proof. apply (exec_sound 1 3 run0). vm_compute. reflexivity. Qed.

Lemma refused_append_strands_witness :
  exists c', read [Received (lit "GET"); Again] (default new_conn (users busy0 !! 7)) = Ok (c', true) /\
  exists s1,
    handle_event 1 3 (Event 7 EPOLLIN (0, 0) [Received (lit "GET"); Again] [])
      (set_kern (deliver 7 (kern busy0)) busy0) = Ok s1 /\
    forall s2, rtc (step true 1 3) s1 s2 ->
      7 ∈ watched (kern s2) /\ 7 ∉ armed (kern s2) /\ 7 ∉ queue s2 /\ 7 ∉ hands s2.
Proof.
  destruct (read [Received (lit "GET"); Again] (default new_conn (users busy0 !! 7)))
    as [[c' b]|f] eqn:E; [|vm_compute in E; discriminate].
  assert (Hb : b = true) by (vm_compute in E; congruence). rewrite Hb in *.
  exists c'. split; [reflexivity|].
  apply (refused_append_strands 1 3 setup0 3 (ThreadPool 8 10000 true [] (Locker None) (Sem 0) false)
    start0 busy0 7 _ (default new_conn (users busy0 !! 7)) c');
    [reflexivity|exact busy0_reached|lia| | |reflexivity|exact E].
  - decided.
  - vm_compute. reflexivity.
Defined.
