(* ===== verification/WebServer.v ===== *)
(** * The web server as its clients see it

    The parts put together: socket/pool/main.cpp's loop and workers
    (PoolMain) over connections (HttpConn) that receive requests in pieces
    (HttpStream).  A client's conversation is followed through any interleaving
    with everything else the server does. *)

From S2P Require Import Prelude CString HttpConn HttpParse HttpServe HttpStream Locker ThreadPool PoolMain.

(** ** Calls that are about a descriptor *)

Definition about (fd : Z) (e : sys) : Prop :=
  match e with
  | EpollAdd _ f _ | EpollMod _ f _ | EpollDel _ f | Close f | Sent f _ => f = fd
  | _ => False
  end.

Abbreviation others fd := (Forall (fun e => ~ about fd e)).

Lemma apply_others fd l k :
  others fd l ->
  (fd ∈ watched (foldl apply_sys k l) <-> fd ∈ watched k) /\
  (fd ∈ armed (foldl apply_sys k l) <-> fd ∈ armed k).
Proof.
  intros Hl. revert k. induction Hl as [|e l He _ IH]; intros k; [done|]. cbn [foldl].
  destruct (IH (apply_sys k e)) as [-> ->].
  destruct e; cbn in He |- *; try done; try case_decide; cbn; set_solver.
Qed.

Lemma sent_on_app fd l l' : sent_on fd (l ++ l') = sent_on fd l ++ sent_on fd l'.
Proof. unfold sent_on. by rewrite fmap_app, join_app. Qed.

Lemma sent_others fd l : others fd l -> sent_on fd l = [].
Proof.
  intros Hl. induction Hl as [|e l He _ IH]; [done|].
  change (e :: l) with ([e] ++ l). rewrite sent_on_app, IH, app_nil_r.
  destruct e; try done. cbn in He |- *. by rewrite decide_False.
Qed.

Lemma own_others x fd l : x <> fd -> Forall (own x) l -> others fd l.
Proof.
  intros Hx. induction 1 as [|e l He _ IH]; constructor; [|done].
  destruct e; cbn in He |- *; try done; congruence.
Qed.

(** ** What a connection keeps while others are served *)

(** [kept fd s s']: going from [s] to [s'] has not touched [fd]: not its object,
    its registration, what it was sent, nor its place in the pool. *)
Record kept (fd : Z) (s s' : web_server) : Prop := {
  kept_user : users s' !! fd = users s !! fd;
  kept_watched : fd ∈ watched (kern s') <-> fd ∈ watched (kern s);
  kept_armed : fd ∈ armed (kern s') <-> fd ∈ armed (kern s);
  kept_sent : sent_on fd (trace (sw s')) = sent_on fd (trace (sw s));
  kept_pool : fd ∈ queue s ++ hands s -> fd ∈ queue s' ++ hands s' }.

#[export] Instance kept_preorder fd : PreOrder (kept fd).
Proof.
  split; [by intros s|]. intros s1 s2 s3 [H1 H2 H3 H4 H5] [H6 H7 H8 H9 H10].
  split; [congruence|tauto|tauto|congruence|auto].
Qed.

Lemma store_kept fd x c w l s :
  x <> fd -> trace w = trace (sw s) ++ l -> others fd l -> kept fd s (store x c w s).
Proof.
  intros Hx Ht Hl. destruct (apply_others fd l (kern s) Hl) as [H1 H2].
  split; unfold store; cbn [users kern sw queue hands]; rewrite ?Ht, ?since_app; try done.
  - by rewrite lookup_insert_ne.
  - by rewrite sent_on_app, (sent_others fd l), app_nil_r.
Qed.

Lemma deliver_kept fd x s : x <> fd -> kept fd s (set_kern (deliver x (kern s)) s).
Proof. intros Hx. split; cbn; try done. set_solver. Qed.

Lemma append_kept fd max x s : kept fd s (append max x s).
Proof. unfold append. case_decide; split; cbn; try done. set_solver. Qed.

(** The object of a connection in hands holds its own descriptor. *)
Definition at_home (x : Z) (s : web_server) : Prop := forall c, user_at s x = Ok c -> m_sockfd c = x.

Lemma store_home x c w s : m_sockfd c = x -> at_home x (store x c w s).
Proof.
  intros Hc c'. unfold user_at, store. cbn [users]. case_decide; [|done].
  rewrite lookup_insert_eq. by intros [= <-].
Qed.

Lemma on_close_kept fd x s s' : x <> fd -> at_home x s -> on_close x s = Ok s' -> kept fd s s'.
Proof.
  intros Hx Hh. unfold on_close. intros (c & E & H)%bind_ok_inv. apply Hh in E.
  unfold close_conn in H. destruct (true && negb (m_sockfd c =? -1)); injection H as <-.
  - eapply store_kept; [done|unfold removefd, emit, set_user_count; cbn [trace];
      rewrite <- app_assoc; reflexivity|]. rewrite E. by repeat constructor.
  - eapply store_kept; [done|symmetry; apply app_nil_r|constructor].
Qed.

Lemma on_readable_kept fd max x rs s s' :
  x <> fd -> at_home x s -> on_readable max x rs s = Ok s' -> kept fd s s'.
Proof.
  intros Hx Hh. unfold on_readable. intros (c & E & H)%bind_ok_inv.
  apply bind_ok_inv in H as ([c' ok] & E' & H).
  assert (Hst : kept fd s (store x c' (sw s) s)).
  { eapply store_kept; [done|symmetry; apply app_nil_r|constructor]. }
  destruct ok; cbn [negb] in H.
  - injection H as <-. etrans; [exact Hst|apply append_kept].
  - etrans; [exact Hst|]. eapply on_close_kept; [done| |exact H].
    apply store_home. apply read_sock in E'. rewrite E'. by apply Hh.
Qed.

Lemma on_writable_kept fd x rs s s' :
  x <> fd -> at_home x s -> on_writable x rs s = Ok s' -> kept fd s s'.
Proof.
  intros Hx Hh. unfold on_writable. intros (c & E & H)%bind_ok_inv.
  apply bind_ok_inv in H as ([[c' w'] ok] & E' & H).
  apply write_effects in E' as (Hs & _ & l & Ht & Hl & _). rewrite (Hh c E) in Hs, Hl.
  pose proof (store_kept fd x c' w' l s Hx Ht (own_others _ _ _ Hx Hl)) as Hst.
  destruct ok; cbn [negb] in H; [by injection H as <-|].
  etrans; [exact Hst|]. eapply on_close_kept; [done|by apply store_home|exact H].
Qed.

Lemma on_listen_kept fd connfd addr s s' :
  connfd <> fd -> on_listen connfd addr s = Ok s' -> kept fd s s'.
Proof.
  intros Hx. unfold on_listen. generalize (lit "Internal server busy") as info. intros info H.
  case_decide; [by injection H as <-|]. case_decide.
  - injection H as <-. destruct (apply_others fd [Sent connfd info; Close connfd] (kern s))
      as [Hw Ha]; [by repeat constructor|].
    split; unfold set_world, show_error, emit; cbn [users kern sw queue hands trace];
      rewrite <- ?app_assoc, ?since_app; try done.
    rewrite !sent_on_app. cbn. rewrite decide_False by done. by rewrite !app_nil_r.
  - apply bind_ok_inv in H as (c & _ & H). destruct (init_conn _ _ _ _) as [c' w'] eqn:Ei.
    injection H as <-. unfold init_conn in Ei. injection Ei as <- <-.
    eapply store_kept; [done| |].
    + unfold addfd, setnonblocking, emit, set_user_count. cbn [trace m_epollfd].
      rewrite <- !app_assoc. reflexivity.
    + cbn [app]. repeat constructor; cbn; tauto.
Qed.

Lemma handle_event_kept fd max listenfd ev s s' :
  ev_fd ev <> fd -> (ev_fd ev = listenfd -> (ev_accept ev).1 <> fd) ->
  (ev_fd ev <> listenfd -> at_home (ev_fd ev) s) ->
  handle_event max listenfd ev s = Ok s' -> kept fd s s'.
Proof.
  intros Hx Ha Hh. unfold handle_event. repeat case_decide.
  - apply on_listen_kept; auto.
  - apply on_close_kept; auto.
  - apply on_readable_kept; auto.
  - apply on_writable_kept; auto.
  - by intros [= <-].
Qed.

(** ** The other steps *)

Section Serving.
Context (max listenfd : Z).

(** Steps of the server that neither report an event of [fd] nor process its
    request. *)
Inductive quiet (fd : Z) (s : web_server) : web_server -> Prop :=
  | quiet_listen ev s' :
      ev_fd ev = listenfd -> (ev_accept ev).1 ∉ watched (kern s) ->
      (ev_accept ev).1 ∉ (ending s).*1 ->
      handle_event max listenfd ev s = Ok s' -> quiet fd s s'
  | quiet_event ev s' :
      ev_fd ev <> fd -> ev_fd ev <> listenfd -> ev_fd ev ∈ armed (kern s) ->
      wants ev ->
      handle_event max listenfd ev (set_kern (deliver (ev_fd ev) (kern s)) s) = Ok s' ->
      quiet fd s s'
  | quiet_take x s' : take_request s = Some (x, s') -> quiet fd s s'
  | quiet_work i fs s' :
      hands s !! i <> Some fd -> fresh_open fs s -> work i fs s = Some (Ok s') -> quiet fd s s'
  | quiet_finish j s' :
      finish j (m_user_count (sw s) - 1) s = Some (Ok s') -> quiet fd s s'.

Lemma quiet_step fd s s' : quiet fd s s' -> step true max listenfd s s'.
Proof. intros []; by econstructor. Qed.

Lemma take_kept fd x s s' : take_request s = Some (x, s') -> kept fd s s'.
Proof.
  unfold take_request. destruct (queue s) as [|y q] eqn:E; [done|]. intros [= <- <-].
  split; cbn; try done. rewrite E. set_solver.
Qed.

Lemma inv_home s x : inv s -> x ∈ watched (kern s) -> at_home x s.
Proof. intros H Hx c Hc. by destruct (user_sock None s x c H Hx Hc). Qed.

Lemma inv_hands s i x : inv s -> hands s !! i = Some x -> x ∈ watched (kern s).
Proof.
  intros H Hi. apply elem_of_elements. rewrite (inv_places _ _ H). cbn.
  apply list_elem_of_lookup_2 in Hi. set_solver.
Qed.

Lemma work_kept fd i fs s s' :
  inv s -> fd ∈ watched (kern s) -> hands s !! i <> Some fd -> fresh_open fs s ->
  work i fs s = Some (Ok s') -> kept fd s s'.
Proof.
  intros H Hfd Hi Hfs. unfold work. destruct (hands s !! i) as [x|] eqn:Ei; [|done].
  assert (Hx : x <> fd) by congruence. intros [= E].
  apply bind_ok_inv in E as (c & Ec & E). apply bind_ok_inv in E as ([[c' w'] closing] & Ep & E).
  injection E as <-. apply (inv_home s x H (inv_hands _ _ _ H Ei)) in Ec as Hc.
  assert (Hneg : fd <> -1) by (pose proof (inv_sock _ _ H fd Hfd); lia).
  assert (Hl : exists l, trace w' = trace (sw s) ++ l /\ others fd l).
  { apply process_start_effects in Ep as (Hs & l & Hl & Hcase).
    assert (Hol : others fd l).
    { destruct Hl as [->|[path ->]]; repeat constructor. cbn. intros E1. apply (Hfs path). by rewrite E1. }
    destruct closing; [destruct Hcase as [_ ->]|destruct Hcase as [ev ->]]; eexists; (split; [reflexivity|]);
      cbn [trace]; rewrite ?Forall_app; split_ands; try done; repeat constructor; cbn; congruence. }
  destruct Hl as (l & Ht & Hl). destruct (store_kept fd x c' w' l s Hx Ht Hl) as [H1 H2 H3 H4 _].
  split; try done. cbn. rewrite !elem_of_app. intros [Hq|Hh]; [by left|right].
  apply list_elem_of_lookup in Hh as [j Hj]. assert (j <> i) as Hji by (intros ->; congruence).
  apply list_elem_of_lookup. destruct (decide (j < i)%nat).
  - exists j. by rewrite list_lookup_delete_lt.
  - exists (j - 1)%nat. rewrite list_lookup_delete_ge by lia. by replace (S (j - 1)) with j by lia.
Qed.

Lemma finish_kept fd j n s s' :
  inv s -> fd ∈ watched (kern s) -> finish j n s = Some (Ok s') -> kept fd s s'.
Proof.
  intros H Hfd. unfold finish. destruct (ending s !! j) as [[x ph]|] eqn:Ej; [|done].
  destruct (inv_ending _ _ H x ph) as [Hx Hph]; [by eapply list_elem_of_lookup_2|].
  assert (Hne : x <> fd) by (by intros ->).
  destruct ph; intros [= E].
  - apply bind_ok_inv in E as (c & _ & E). injection E as <-.
    destruct (store_kept fd x (set_sockfd (-1) c) (sw s) [] s Hne) as [H1 H2 H3 H4 H5];
      [symmetry; apply app_nil_r|constructor|]. by split.
  - subst s'. unfold set_world. cbn [trace set_user_count]. rewrite drop_all. by split.
  - apply bind_ok_inv in E as (c & Ec & E). injection E as <-.
    assert (m_sockfd c = -1) as Hsock.
    { specialize (Hph ltac:(done)). unfold user_at in Ec. case_decide; [|done]. by injection Ec as <-. }
    assert (Ho : others fd [EpollMod (m_epollfd (sw s)) (m_sockfd c)
        (Z.lor (Z.lor (Z.lor EPOLLOUT EPOLLET) EPOLLONESHOT) EPOLLRDHUP)]).
    { pose proof (inv_sock _ _ H fd Hfd). repeat constructor. cbn. lia. }
    destruct (apply_others fd _ (kern s) Ho) as [Hw Ha].
    split; cbn [set_ending set_world users kern sw queue hands]; unfold modfd, emit; cbn [trace];
      rewrite ?since_app; try done.
    by rewrite sent_on_app, (sent_others fd _ Ho), app_nil_r.
Qed.

Lemma quiet_kept fd s s' : inv s -> fd ∈ watched (kern s) -> quiet fd s s' -> kept fd s s'.
Proof.
  intros H Hfd [ev s1 Hl Hf _ E|ev s1 Hne Hl Ha _ E|x s1 E|i fs s1 Hi Hfs E|j s1 E].
  - unfold handle_event in E. rewrite decide_True in E by done.
    eapply on_listen_kept; [|exact E]. intros Hac. apply Hf. by rewrite Hac.
  - etrans; [by apply (deliver_kept fd (ev_fd ev))|].
    eapply handle_event_kept; [done|done| |exact E].
    intros _ c Hc. apply (inv_home s _ H (inv_armed_sub _ _ H _ Ha)). exact Hc.
  - by eapply take_kept.
  - by eapply work_kept.
  - by eapply finish_kept.
Qed.

Lemma quiets_kept fd s s' :
  inv s -> fd ∈ watched (kern s) -> rtc (quiet fd) s s' ->
  inv s' /\ kept fd s s' /\ rtc (step true max listenfd) s s'.
Proof.
  intros H Hfd Hr. induction Hr as [s|s s1 s2 Hq _ IH]; [done|].
  pose proof (quiet_kept _ _ _ H Hfd Hq) as Hk. apply quiet_step in Hq.
  destruct IH as (H2 & Hk2 & Hr2).
  - by eapply server_inv_step.
  - by apply (kept_watched _ _ _ Hk).
  - split_ands; [done|by etrans|by eapply rtc_l].
Qed.

(** ** A connection's own steps *)

(** The connection waits for an event; it has been sent [out] so far. *)
Record resting (fd : Z) (c : http_conn) (out : bytes) (s : web_server) : Prop := {
  rs_user : users s !! fd = Some c;
  rs_armed : fd ∈ armed (kern s);
  rs_sent : sent_on fd (trace (sw s)) = out }.

(** It waits for a worker, or one has it. *)
Record pending (fd : Z) (c : http_conn) (out : bytes) (s : web_server) : Prop := {
  pd_user : users s !! fd = Some c;
  pd_watched : fd ∈ watched (kern s);
  pd_pool : fd ∈ queue s ++ hands s;
  pd_sent : sent_on fd (trace (sw s)) = out }.

Lemma kept_resting fd c out s s' : kept fd s s' -> resting fd c out s -> resting fd c out s'.
Proof. intros [H1 _ H3 H4 _] [R1 R2 R3]. split; [congruence|by apply H3|congruence]. Qed.

Lemma kept_pending fd c out s s' : kept fd s s' -> pending fd c out s -> pending fd c out s'.
Proof.
  intros [H1 H2 _ H4 H5] [P1 P2 P3 P4]. split; [congruence|by apply H2|by apply H5|congruence].
Qed.

(** Data arrive in the pieces [ds], and the pool accepts the request. *)
Definition hear_event (fd : Z) (ds : list bytes) (s s' : web_server) : Prop :=
  fd ∈ armed (kern s) /\ Z.of_nat (length (queue s)) <= max /\
  handle_event max listenfd (Event fd EPOLLIN (0, 0) ((Received <$> ds) ++ [Again]) [])
    (set_kern (deliver fd (kern s)) s) = Ok s'.

(** A worker processes it. *)
Definition work_on (fs : fsys) (fd : Z) (s s' : web_server) : Prop :=
  exists i, hands s !! i = Some fd /\ fresh_open fs s /\ work i fs s = Some (Ok s').

(** The socket takes [n] bytes at once. *)
Definition send_event (fd : Z) (n : nat) (s s' : web_server) : Prop :=
  fd ∈ armed (kern s) /\
  handle_event max listenfd (Event fd EPOLLOUT (0, 0) [] [Wrote (Z.of_nat n)])
    (set_kern (deliver fd (kern s)) s) = Ok s'.

Lemma hear_step fd ds s s' : fd <> listenfd -> hear_event fd ds s s' -> step true max listenfd s s'.
Proof. intros Hl (Ha & _ & E). by eapply step_event; [..|exact E]. Qed.

Lemma work_step fs fd s s' : work_on fs fd s s' -> step true max listenfd s s'.
Proof. intros (i & _ & Hf & E). by eapply step_work. Qed.

Lemma send_step fd n s s' : fd <> listenfd -> send_event fd n s s' -> step true max listenfd s s'.
Proof. intros Hl (Ha & E). by eapply step_event; [..|exact E]. Qed.

Section Connection.
Context (fd : Z) (Hlisten : fd <> listenfd) (Hrange : 0 <= fd < MAX_FD).

Lemma user_found c s : users s !! fd = Some c -> user_at s fd = Ok c.
Proof. intros H. unfold user_at. by rewrite decide_True, H. Qed.

Lemma kern_store_quiet c s : kern (store fd c (sw s) s) = kern s.
Proof. unfold store. cbn [kern]. by rewrite drop_all. Qed.

(** Reading: the pieces are appended and the request goes to the pool. *)
Lemma hear_result ds d c0 c out s :
  inv s -> resting fd c out s -> heard d c0 c -> Forall (fun x => x <> []) ds ->
  (length (d ++ mjoin ds) < 2048)%nat -> Z.of_nat (length (queue s)) <= max ->
  exists s1, hear_event fd ds s s1 /\ pending fd (received (mjoin ds) c) out s1 /\
    watched (kern s1) = watched (kern s).
Proof.
  intros H [Hu Ha Hsent] Hh Hds Hlen Hq. rewrite length_app in Hlen.
  destruct (heard_facts d c0 c Hh) as (Hidx & Hbuf & _); [lia|].
  assert (Hrd : read ((Received <$> ds) ++ [Again]) c = Ok (received (mjoin ds) c, true)).
  { unfold read. change READ_BUFFER_SIZE with 2048. rewrite decide_False by lia.
    apply read_loop_data; [lia|exact Hbuf|done|]. unfold fits. lia. }
  set (s0 := set_kern (deliver fd (kern s)) s).
  exists (append max fd (store fd (received (mjoin ds) c) (sw s0) s0)). split; [|split].
  - split; [done|split; [done|]]. unfold handle_event. cbn [ev_fd ev_events ev_reads].
    rewrite decide_False by done. rewrite decide_False by (intros Hn; by apply Hn).
    rewrite decide_True by (vm_compute; done). unfold on_readable. fold s0.
    rewrite (bind_ok _ _ _ (user_found c s0 Hu)), (bind_ok _ _ _ Hrd). done.
  - unfold append. rewrite decide_False by (cbn; lia).
    split; cbn [users kern sw queue hands].
    + unfold store. cbn [users]. by rewrite lookup_insert_eq.
    + rewrite kern_store_quiet. cbn. by eapply inv_armed_sub.
    + cbn. set_solver.
    + exact Hsent.
  - unfold append. rewrite decide_False by (cbn; lia). cbn [kern]. by rewrite kern_store_quiet.
Qed.

(** Processing: the connection is given back, re-armed. *)
Lemma work_result fs i c c' w' l e ev out s :
  inv s -> pending fd c out s -> hands s !! i = Some fd -> fresh_open fs s ->
  process fs c (sw s) = Ok (c', w') -> trace w' = trace (sw s) ++ l ++ [EpollMod e fd ev] ->
  (l = [] \/ exists path, l = [Close (fs_open fs path)]) ->
  exists s1, work i fs s = Some (Ok s1) /\ resting fd c' out s1 /\
    watched (kern s1) = watched (kern s).
Proof.
  intros H [Hu Hw _ Hsent] Hi Hfs E Ht Hl.
  assert (process_start fs c (sw s) = Ok (c', w', false)) as E'.
  { rewrite app_assoc in Ht. apply (process_start_open _ _ _ _ _ _ _ _ _ E Ht). lia. }
  unfold work. rewrite Hi, (bind_ok _ _ _ (user_found c s Hu)), (bind_ok _ _ _ E'). cbv zeta.
  eexists. split; [reflexivity|].
  assert (Hk : kern (store fd c' w' s) = arm fd (kern s)).
  { unfold store. cbn [kern]. rewrite Ht, since_app, foldl_app.
    assert (foldl apply_sys (kern s) l = kern s) as ->.
    { destruct Hl as [->|[path ->]]; [done|].
      apply apply_foreign; [apply Hfs|by apply (inv_armed_sub _ _ H)]. }
    cbn. by rewrite decide_True. }
  split; [|cbn [kern]; by rewrite Hk]. split; cbn [users kern sw].
  - unfold store. cbn [users]. by rewrite lookup_insert_eq.
  - rewrite Hk. cbn. set_solver.
  - unfold store. cbn [sw]. rewrite Ht, !sent_on_app, Hsent.
    destruct Hl as [->|[path ->]]; cbn; by rewrite ?app_nil_r.
Qed.

(** The answer [resp] is queued in the connection. *)
Record queued (resp : bytes) (stays : bool) (c : http_conn) : Prop := {
  qd_out : outgoing c = resp;
  qd_head : 0 < m_write_idx c <= Z.of_nat (length resp);
  qd_count : is_Some (m_iv_count c);
  qd_mapping : mapping_known c;
  qd_sock : m_sockfd c = fd;
  qd_stays : m_linger c = stays;
  qd_iv : length (m_iv c) = 2%nat }.

(** The kernel and the bytes sent after a write that sent [resp] and re-armed the connection. *)
Lemma after_write resp out c c1 w1 s :
  fd ∈ watched (kern s) -> m_sockfd c = fd -> sent_on fd (trace (sw s)) = out ->
  trace w1 = trace (sw s) ++ Sent fd resp :: unmap_calls c ++ [rearm EPOLLIN c (sw s)] ->
  kern (store fd c1 w1 (set_kern (deliver fd (kern s)) s)) = arm fd (deliver fd (kern s)) /\
  sent_on fd (trace w1) = out ++ resp.
Proof.
  intros Hw Hsock Hsent Ht.
  assert (Forall (own fd) (unmap_calls c) /\ sent_on fd (unmap_calls c) = []) as [Hun Hnosend].
  { unfold unmap_calls. destruct (m_file_address c) as [[]|], (m_file_stat c); split; by repeat constructor. }
  unfold rearm in Ht. rewrite Hsock in Ht. split.
  - unfold store. cbn [kern sw set_kern]. rewrite Ht, since_app.
    rewrite (apply_own fd); [|constructor; [done|apply Forall_app; by repeat constructor]|exact Hw].
    cbn [existsb is_mod orb]. by rewrite existsb_app, orb_true_r.
  - rewrite Ht, sent_on_app, Hsent. f_equal.
    change (Sent fd resp :: ?l) with ([Sent fd resp] ++ l). rewrite !sent_on_app, Hnosend.
    cbn. by rewrite decide_True, !app_nil_r by done.
Qed.

(** Sending: the answer goes out, and the connection waits for the next request
    or is closed. *)
Lemma send_result resp stays c out s :
  inv s -> resting fd c out s -> queued resp stays c ->
  exists s1, send_event fd (length resp) s s1 /\
    sent_on fd (trace (sw s1)) = out ++ resp /\
    if stays then
      watched (kern s1) = watched (kern s) /\
      exists c0, resting fd (init c0) (out ++ resp) s1 /\ m_sockfd c0 = fd /\ length (m_iv c0) = 2%nat
    else fd ∉ watched (kern s1).
Proof.
  intros H [Hu Ha Hsent] [Ho Hwr Hcnt Hm Hsock Hst Hiv].
  set (s0 := set_kern (deliver fd (kern s)) s).
  destruct (write_once (Z.of_nat (length resp)) [] c (sw s0)) as (c1 & w1 & E & Ht & Hcount & Hc1);
    [lia|lia|done|done|]. rewrite Hst in E, Hc1.
  rewrite Ho, Nat2Z.id, take_ge, Hsock in Ht by done.
  assert (Hev : handle_event max listenfd (Event fd EPOLLOUT (0, 0) [] [Wrote (Z.of_nat (length resp))]) s0 =
    if negb stays then on_close fd (store fd c1 w1 s0) else Ok (store fd c1 w1 s0)).
  { unfold handle_event. cbn [ev_fd ev_events ev_writes].
    rewrite decide_False by done. rewrite decide_False by (intros Hn; by apply Hn).
    rewrite decide_False by (intros Hn; by apply Hn).
    rewrite decide_True by (vm_compute; done). unfold on_writable.
    rewrite (bind_ok _ _ _ (user_found c s0 Hu)), (bind_ok _ _ _ E). done. }
  assert (Hsock1 : m_sockfd c1 = fd) by (rewrite Hc1; by destruct stays).
  assert (Hw : fd ∈ watched (kern s)) by by eapply inv_armed_sub.
  destruct (after_write resp out c c1 w1 s Hw Hsock Hsent Ht) as [Hk Hs1]. fold s0 in Hk.
  assert (Hs2 : sent_on fd (trace (sw (store fd c1 w1 s0))) = out ++ resp) by exact Hs1.
  destruct stays; cbn [negb] in Hev.
  - exists (store fd c1 w1 s0). split; [by split|]. split; [exact Hs1|split].
    + by rewrite Hk.
    + exists (set_file_address (Some MapNull) c). split_ands; [|done|done]. split.
      * unfold store. cbn [users]. by rewrite lookup_insert_eq, Hc1.
      * rewrite Hk. cbn. set_solver.
      * exact Hs1.
  - unfold on_close in Hev. rewrite (bind_ok _ _ c1) in Hev
      by (apply user_found; unfold store; cbn [users]; by rewrite lookup_insert_eq).
    unfold close_conn in Hev. rewrite Hsock1 in Hev.
    replace (fd =? -1) with false in Hev by lia. cbn [andb negb] in Hev.
    eexists. split; [split; [done|exact Hev]|].
    set (s2 := store fd c1 w1 s0) in *. clearbody s2.
    unfold store. cbn [sw kern]. unfold removefd, set_user_count, emit. cbn [trace].
    rewrite <- app_assoc. split.
    + rewrite sent_on_app, Hs2. cbn. by rewrite app_nil_r.
    + rewrite since_app, Hk. cbn. set_solver.
Qed.

(** ** Conversations *)

(** A request arrives over several readable events: the pieces of each event are
    appended by the main thread and the connection goes through the pool once,
    whatever else happens in between. *)
Inductive hears (fs : fsys) : list (list bytes) -> web_server -> web_server -> Prop :=
  | hears_nil s : hears fs [] s s
  | hears_cons ds dss s s1 s2 s3 s4 s5 :
      rtc (quiet fd) s s1 -> hear_event fd ds s1 s2 ->
      rtc (quiet fd) s2 s3 -> work_on fs fd s3 s4 ->
      hears fs dss s4 s5 -> hears fs (ds :: dss) s s5.

(** A conversation: requests and the events they arrive in, each answered by one
    [writev] of [n] bytes before the next one is sent; after a request that does
    not ask to be kept alive there is none. *)
Inductive session (fs : fsys) (n : request -> nat)
    : list (request * list (list bytes)) -> web_server -> web_server -> Prop :=
  | session_nil s : session fs n [] s s
  | session_last r dss s s1 s2 s3 :
      rq_stays r = false -> hears fs dss s s1 -> rtc (quiet fd) s1 s2 ->
      send_event fd (n r) s2 s3 -> session fs n [(r, dss)] s s3
  | session_more r dss xs s s1 s2 s3 s4 :
      rq_stays r = true -> hears fs dss s s1 -> rtc (quiet fd) s1 s2 ->
      send_event fd (n r) s2 s3 -> session fs n xs s3 s4 -> session fs n ((r, dss) :: xs) s s4.

(** The events bring the bytes of the request, each at least one. *)
Definition batches (dss : list (list bytes)) : Prop :=
  Forall (fun ds => ds <> [] /\ Forall (fun d => d <> []) ds) dss.
Definition arrives (r : request) (dss : list (list bytes)) : Prop :=
  batches dss /\ mjoin (mjoin dss) = rq_bytes r.

Lemma batches_bytes dss : batches dss -> mjoin (mjoin dss) = [] -> dss = [].
Proof.
  intros [|ds dss' [Hne Hds] _]; [done|]. destruct Hds as [|d ds Hd _]; [done|].
  destruct d; [done|]. discriminate.
Qed.

(** The workers empty the queue. *)
Lemma drain s :
  exists s', rtc (quiet fd) s s' /\ queue s' = [] /\ kern s' = kern s.
Proof.
  remember (queue s) as q eqn:E. revert s E. induction q as [|x q IH]; intros s E.
  - exists s. by split_ands.
  - set (s1 := Server (users s) (sw s) (kern s) q (x :: hands s) (lost s) (ending s)).
    destruct (IH s1 eq_refl) as (s' & Hr & Hq & Hk). exists s'. split_ands; [|done|exact Hk].
    eapply rtc_l; [|exact Hr]. eapply quiet_take. unfold take_request. by rewrite <- E.
Qed.

Section Exchange.
Context (fs : fsys) (r : request) (st : stat_t) (b : bytes).
Context (Hwf : well_formed r) (Hfile : has_file fs r st b).

(** What a worker makes of the part of the request it finds. *)
Lemma worker_outcome d e rest c0 c w :
  heard d c0 c -> m_sockfd c0 = fd -> length (m_iv c0) = 2%nat -> (d ++ e) ++ rest = rq_bytes r ->
  exists c' w' l ep ev, process fs (received e c) w = Ok (c', w') /\
    trace w' = trace w ++ l ++ [EpollMod ep fd ev] /\
    (l = [] \/ exists path, l = [Close (fs_open fs path)]) /\
    if decide (rest = []) then queued (file_response r st b) (rq_stays r) c'
    else heard (d ++ e) c0 c'.
Proof.
  intros Hh Hsock Hiv E. case_decide as Hrest.
  - subst rest. rewrite app_nil_r in E.
    destruct (heard_answered fs w d e c0 c r st b Hh Hwf E Hfile Hiv)
      as (c1 & Ep & Ho & Hhead & Hcnt & Hm & Hs & Hl & Hiv1).
    eexists c1, _, [_], _, _. split; [exact Ep|]. unfold modfd, emit. cbn [trace].
    rewrite Hsock, <- app_assoc. split; [reflexivity|]. split; [right; by eexists|].
    split; (done || congruence).
  - destruct (heard_waits d e rest c0 c r Hh Hwf E Hrest) as (c' & Hh' & Hs & Ep).
    assert (m_sockfd c = fd) as Hc.
    { pose proof (wf_room _ Hwf) as Hroom. rewrite <- E, !length_app in Hroom.
      destruct (heard_facts d c0 c Hh) as (_ & _ & [= H1 _ _ _]); [lia|congruence]. }
    eexists c', _, [], _, _. split; [apply Ep|]. unfold modfd, emit. cbn [trace app].
    rewrite Hc. split; [reflexivity|]. split; [by left|done].
Qed.

(** One readable event: from waiting through the pool to waiting again. *)
Lemma batch_served ds d c0 c out s rest :
  inv s -> resting fd c out s -> heard d c0 c -> m_sockfd c0 = fd -> length (m_iv c0) = 2%nat ->
  Forall (fun x => x <> []) ds -> (d ++ mjoin ds) ++ rest = rq_bytes r ->
  let next c' := if decide (rest = []) then queued (file_response r st b) (rq_stays r) c'
                 else heard (d ++ mjoin ds) c0 c' in
  (forall s1 s2 s3 s4, rtc (quiet fd) s s1 -> hear_event fd ds s1 s2 ->
     rtc (quiet fd) s2 s3 -> work_on fs fd s3 s4 ->
     inv s4 /\ rtc (step true max listenfd) s s4 /\ exists c', resting fd c' out s4 /\ next c') /\
  (0 <= max -> fresh_open fs s -> exists s1 s2 s3 s4, rtc (quiet fd) s s1 /\ hear_event fd ds s1 s2 /\
     rtc (quiet fd) s2 s3 /\ work_on fs fd s3 s4 /\ watched (kern s4) = watched (kern s)).
Proof.
  intros Hinv Hrs Hh Hsock Hiv Hds E next.
  assert (Hw : forall x, resting fd c out x -> inv x -> fd ∈ watched (kern x)).
  { intros x [_ Ha _] Hx. by apply (inv_armed_sub _ _ Hx). }
  assert (Hlen : (length (d ++ mjoin ds) < 2048)%nat).
  { pose proof (wf_room _ Hwf) as Hroom. rewrite <- E, length_app in Hroom. lia. }
  split.
  - intros s1 s2 s3 s4 Hq1 Hhear Hq3 (i & Hi & Hfo & Hwork).
    destruct (quiets_kept fd s s1 Hinv (Hw _ Hrs Hinv) Hq1) as (Hinv1 & Hk1 & Hr1).
    pose proof (kept_resting _ _ _ _ _ Hk1 Hrs) as Hrs1.
    assert (Hinv2 : inv s2) by (eapply server_inv_step; [exact Hinv1|by eapply hear_step]).
    destruct (hear_result ds d c0 c out s1 Hinv1 Hrs1 Hh Hds Hlen) as (s2' & Hhear' & Hpd2 & _);
      [apply Hhear|].
    assert (s2' = s2) as -> by (destruct Hhear as (_ & _ & X), Hhear' as (_ & _ & Y); congruence).
    destruct (quiets_kept fd s2 s3 Hinv2 (pd_watched _ _ _ _ Hpd2) Hq3) as (Hinv3 & Hk3 & Hr3).
    pose proof (kept_pending _ _ _ _ _ Hk3 Hpd2) as Hpd3.
    destruct (worker_outcome d (mjoin ds) rest c0 c (sw s3) Hh Hsock Hiv E)
      as (c' & w' & l & ep & ev & Ep & Ht & Hl & Hnext).
    destruct (work_result fs i _ c' w' l ep ev out s3 Hinv3 Hpd3 Hi Hfo Ep Ht Hl) as (s4' & Hw4 & Hrs4 & _).
    rewrite Hwork in Hw4. injection Hw4 as <-.
    assert (Hst4 : step true max listenfd s3 s4) by by eapply step_work.
    split; [by eapply server_inv_step|]. split; [|by exists c'].
    etrans; [exact Hr1|]. eapply rtc_l; [by eapply hear_step|]. etrans; [exact Hr3|]. by apply rtc_once.
  - intros Hmax Hfo. destruct (drain s) as (s1 & Hq1 & Hqe & Hke).
    destruct (quiets_kept fd s s1 Hinv (Hw _ Hrs Hinv) Hq1) as (Hinv1 & Hk1 & _).
    pose proof (kept_resting _ _ _ _ _ Hk1 Hrs) as Hrs1.
    destruct (hear_result ds d c0 c out s1 Hinv1 Hrs1 Hh Hds Hlen) as (s2 & Hhear & Hpd2 & Hw2);
      [rewrite Hqe; done|].
    assert (Hinv2 : inv s2) by (eapply server_inv_step; [exact Hinv1|by eapply hear_step]).
    destruct (drain s2) as (s3 & Hq3 & Hqe3 & Hke3).
    destruct (quiets_kept fd s2 s3 Hinv2 (pd_watched _ _ _ _ Hpd2) Hq3) as (Hinv3 & Hk3 & _).
    pose proof (kept_pending _ _ _ _ _ Hk3 Hpd2) as Hpd3.
    pose proof (pd_pool _ _ _ _ Hpd3) as Hin. rewrite Hqe3 in Hin.
    apply list_elem_of_lookup in Hin as [i Hi]. cbn [app] in Hi.
    assert (Hw3 : watched (kern s3) = watched (kern s)) by (rewrite Hke3, Hw2; congruence).
    assert (Hfo3 : fresh_open fs s3) by (intros path; rewrite Hw3; apply Hfo).
    destruct (worker_outcome d (mjoin ds) rest c0 c (sw s3) Hh Hsock Hiv E)
      as (c' & w' & l & ep & ev & Ep & Ht & Hl & _).
    destruct (work_result fs i _ c' w' l ep ev out s3 Hinv3 Hpd3 Hi Hfo3 Ep Ht Hl)
      as (s4 & Hw4 & _ & Hww).
    exists s1, s2, s3, s4. split_ands; [done|done|done|by exists i|congruence].
Qed.

(** A whole request: from waiting for its first byte to the answer being queued. *)
Lemma request_heard dss d c0 c out s :
  inv s -> resting fd c out s -> heard d c0 c -> m_sockfd c0 = fd -> length (m_iv c0) = 2%nat ->
  batches dss -> dss <> [] -> d ++ mjoin (mjoin dss) = rq_bytes r ->
  (forall s', hears fs dss s s' ->
     inv s' /\ rtc (step true max listenfd) s s' /\
     exists c', resting fd c' out s' /\ queued (file_response r st b) (rq_stays r) c') /\
  (0 <= max -> fresh_open fs s ->
     exists s', hears fs dss s s' /\ watched (kern s') = watched (kern s)).
Proof.
  revert d c s. induction dss as [|ds dss IH]; intros d c s Hinv Hrs Hh Hsock Hiv Hb Hne E; [done|].
  apply Forall_cons in Hb as [[_ Hds] Hb].
  change (mjoin (mjoin (ds :: dss))) with (mjoin (ds ++ mjoin dss)) in E.
  rewrite join_app, app_assoc in E.
  destruct (batch_served ds d c0 c out s _ Hinv Hrs Hh Hsock Hiv Hds E) as [Hall Hex].
  cbv zeta in Hall. destruct (decide (mjoin (mjoin dss) = [])) as [Hnil|Hrest].
  - apply (batches_bytes dss Hb) in Hnil as ->. split.
    + intros s' H. inversion H as [|? ? ? s1 s2 s3 s4 ? Hq1 Hh1 Hq3 Hw4 Hrest]; subst.
      inversion Hrest; subst. by apply (Hall s1 s2 s3 s').
    + intros Hmax Hfo. destruct (Hex Hmax Hfo) as (s1 & s2 & s3 & s4 & Hq1 & Hh1 & Hq3 & Hw4 & Hww).
      exists s4. split; [|done]. by econstructor; [..|constructor].
  - assert (Hmore : dss <> []) by (intros ->; by apply Hrest). split.
    + intros s' H. inversion H as [|? ? ? s1 s2 s3 s4 ? Hq1 Hh1 Hq3 Hw4 Hrest']; subst.
      destruct (Hall s1 s2 s3 s4 Hq1 Hh1 Hq3 Hw4) as (Hinv4 & Hr4 & c' & Hrs' & Hh').
      destruct (IH _ c' s4 Hinv4 Hrs' Hh' Hsock Hiv Hb Hmore E) as [Hall' _].
      destruct (Hall' s' Hrest') as (? & Hr' & ?). split_ands; [done|by etrans|done].
    + intros Hmax Hfo. destruct (Hex Hmax Hfo) as (s1 & s2 & s3 & s4 & Hq1 & Hh1 & Hq3 & Hw4 & Hww).
      destruct (Hall s1 s2 s3 s4 Hq1 Hh1 Hq3 Hw4) as (Hinv4 & Hr4 & c' & Hrs' & Hh').
      destruct (IH _ c' s4 Hinv4 Hrs' Hh' Hsock Hiv Hb Hmore E) as [_ Hex'].
      destruct Hex' as (s' & Hs' & Hww'); [done|by intros path; rewrite Hww; apply Hfo|].
      exists s'. split; [by econstructor|congruence].
Qed.

End Exchange.

(** The connection is open and no request has begun. *)
Definition idle (out : bytes) (s : web_server) : Prop :=
  exists c0, resting fd (init c0) out s /\ m_sockfd c0 = fd /\ length (m_iv c0) = 2%nat.

(** What the file system makes of a request, if it has the file. *)
Definition response (fs : fsys) (r : request) : bytes :=
  match fs_stat fs (rq_path r) with
  | Some st =>
      match fs_mmap fs (fs_open fs (rq_path r)) (st_size st) with
      | Mapped b => file_response r st b
      | _ => []
      end
  | None => []
  end.

Definition good_request (fs : fsys) (x : request * list (list bytes)) : Prop :=
  well_formed x.1 /\ (exists st b, has_file fs x.1 st b) /\ arrives x.1 x.2.

Lemma response_of fs r st b : has_file fs r st b -> response fs r = file_response r st b.
Proof. intros [_ Hst _ Hm]. unfold response. by rewrite Hst, Hm. Qed.

(** Only the last request of a conversation may want the connection closed. *)
Fixpoint polite (rs : list request) : bool :=
  match rs with
  | [] | [_] => true
  | r :: rs => rq_stays r && polite rs
  end.

Lemma arrives_some r dss : arrives r dss -> dss <> [].
Proof.
  intros [_ E] ->. cbn in E. symmetry in E. unfold rq_bytes in E.
  apply app_eq_nil in E as [_ E]. discriminate E.
Qed.

Lemma exchange_served fs r dss out s :
  inv s -> idle out s -> good_request fs (r, dss) ->
  (forall s1 s2 s3, hears fs dss s s1 -> rtc (quiet fd) s1 s2 ->
     send_event fd (length (response fs r)) s2 s3 ->
     inv s3 /\ rtc (step true max listenfd) s s3 /\ sent_on fd (trace (sw s3)) = out ++ response fs r /\
     if rq_stays r then idle (out ++ response fs r) s3 else fd ∉ watched (kern s3)) /\
  (0 <= max -> fresh_open fs s -> exists s1 s3, hears fs dss s s1 /\
     send_event fd (length (response fs r)) s1 s3 /\
     (rq_stays r = true -> watched (kern s3) = watched (kern s))).
Proof.
  intros Hinv (c0 & Hrs & Hsock & Hiv) (Hwf & (st & b & Hf) & Harr). cbn [fst snd] in *.
  pose proof (arrives_some _ _ Harr) as Hne. destruct Harr as [Hb E].
  rewrite (response_of _ _ _ _ Hf).
  destruct (request_heard fs r st b Hwf Hf dss [] c0 (init c0) out s Hinv Hrs) as [Hall Hex];
    [by left|done..|]. split.
  - intros s1 s2 s3 Hh Hq Hs. destruct (Hall s1 Hh) as (Hinv1 & Hr1 & c1 & Hrs1 & Hqd).
    destruct (quiets_kept fd s1 s2 Hinv1) as (Hinv2 & Hk2 & Hr2);
      [apply (inv_armed_sub _ _ Hinv1), Hrs1|done|].
    pose proof (kept_resting _ _ _ _ _ Hk2 Hrs1) as Hrs2.
    destruct (send_result _ _ c1 out s2 Hinv2 Hrs2 Hqd) as (s3' & Hs' & Hsent & Hnext).
    assert (s3' = s3) as -> by (destruct Hs as [_ X], Hs' as [_ Y]; congruence).
    assert (Hst : step true max listenfd s2 s3) by by eapply send_step.
    split_ands; [by eapply server_inv_step| |done|].
    + etrans; [exact Hr1|]. etrans; [exact Hr2|]. by apply rtc_once.
    + destruct (rq_stays r); [|done]. by destruct Hnext as [_ ?].
  - intros Hmax Hfo. destruct (Hex Hmax Hfo) as (s1 & Hh & Hww).
    destruct (Hall s1 Hh) as (Hinv1 & _ & c1 & Hrs1 & Hqd).
    destruct (send_result _ _ c1 out s1 Hinv1 Hrs1 Hqd) as (s3 & Hs & _ & Hnext).
    exists s1, s3. split_ands; [done|done|]. intros Hst. rewrite Hst in Hnext.
    destruct Hnext as [-> _]. done.
Qed.

Lemma session_served fs xs out s :
  inv s -> idle out s -> Forall (good_request fs) xs -> polite xs.*1 = true ->
  let n r := length (response fs r) in
  (0 <= max -> fresh_open fs s -> exists s', session fs n xs s s') /\
  (forall s', session fs n xs s s' ->
     rtc (step true max listenfd) s s' /\
     sent_on fd (trace (sw s')) = out ++ mjoin (response fs <$> xs.*1) /\
     (fd ∈ watched (kern s') <-> forallb rq_stays xs.*1 = true)).
Proof.
  intros Hinv Hid Hxs Hpol n. revert out s Hinv Hid Hpol.
  induction Hxs as [|[r dss] xs Hx Hxs IH]; intros out s Hinv Hid Hpol.
  { split; [intros _ _; exists s; constructor|]. intros s' H. inversion H; subst.
    destruct Hid as (c0 & [_ Ha Hs] & _). split_ands; [done|by rewrite app_nil_r|].
    split; [done|]. intros _. by apply (inv_armed_sub _ _ Hinv). }
  destruct (exchange_served fs r dss out s Hinv Hid Hx) as [Hall Hex]. split.
  - intros Hmax Hfo. destruct (Hex Hmax Hfo) as (s1 & s3 & Hh & Hs & Hww).
    destruct (Hall s1 s1 s3 Hh (rtc_refl _ _) Hs) as (Hinv3 & _ & _ & Hnext).
    destruct (rq_stays r) eqn:Est.
    + destruct (IH _ s3 Hinv3 Hnext) as [Hex' _].
      { cbn [fmap list_fmap fst polite] in Hpol. rewrite Est in Hpol. by destruct (xs.*1). }
      destruct Hex' as (s' & Hs'); [done|by intros path; rewrite Hww by done; apply Hfo|].
      exists s'. by eapply session_more; [..|exact Hs'].
    + exists s3. assert (xs = []) as ->; [|by eapply session_last].
      destruct xs; [done|]. cbn [fmap list_fmap fst polite] in Hpol. by rewrite Est in Hpol.
  - intros s' H. inversion H as [|? ? ? s1 s2 ? Est Hh Hq Hs|? ? ? ? s1 s2 s3 ? Est Hh Hq Hs Hrest]; subst.
    + destruct (Hall s1 s2 s' Hh Hq Hs) as (_ & Hr & Hsent & Hnext). rewrite Est in Hnext.
      cbn. rewrite Est, app_nil_r. split_ands; [done|done|]. by split.
    + destruct (Hall s1 s2 s3 Hh Hq Hs) as (Hinv3 & Hr & _ & Hnext). rewrite Est in Hnext.
      destruct (IH _ s3 Hinv3 Hnext) as [_ Hall'].
      { cbn [fmap list_fmap fst polite] in Hpol. rewrite Est in Hpol. by destruct (xs.*1). }
      destruct (Hall' s' Hrest) as (Hr' & Hsent' & Hw'). cbn. rewrite Est. split_ands; [by etrans| |done].
      by rewrite Hsent', <- app_assoc.
Qed.

End Connection.

End Serving.

(** ** The two elements of [m_iv] *)

Lemma read_loop_iv rs c c' ok : read_loop rs c = Ok (c', ok) -> m_iv c' = m_iv c.
Proof.
  revert c. induction rs as [|[d| |] rs IH]; intros c H; cbn [read_loop] in H;
    [done| |by injection H as <-|by injection H as <-].
  case_decide; [by injection H as <-|].
  apply bind_ok_inv in H as (b & _ & H). by apply IH in H.
Qed.

Lemma read_iv rs c c' ok : read rs c = Ok (c', ok) -> m_iv c' = m_iv c.
Proof. unfold read. case_decide; [by intros [= <-]|apply read_loop_iv]. Qed.

Lemma unmap_iv c w c' w' : unmap c w = Ok (c', w') -> m_iv c' = m_iv c.
Proof.
  unfold unmap. intros (m & _ & H)%bind_ok_inv. case_decide; [by injection H as <-|].
  apply bind_ok_inv in H as (st & _ & H). by injection H as <-.
Qed.

Lemma write_iv rs c w c' w' ok : write rs c w = Ok (c', w', ok) -> m_iv c' = m_iv c.
Proof.
  unfold write. case_decide; [by intros [= <-]|]. generalize (m_write_idx c) as n, 0 as k. intros n k.
  revert n k w. induction rs as [|[j| |] rs IH]; intros n k w E; cbn [write_loop] in E;
    [done| |by injection E as <-|].
  - apply bind_ok_inv in E as (cnt & _ & E). case_decide; [|by eapply IH].
    apply bind_ok_inv in E as ([c1 w1] & E1 & E). apply unmap_iv in E1. rewrite <- E1.
    destruct (m_linger c1); by injection E as <-.
  - apply bind_ok_inv in E as ([c1 w1] & E1 & E). apply unmap_iv in E1. by injection E as <-.
Qed.

Lemma add_response_iv msg c c' ok : add_response msg c = Ok (c', ok) -> m_iv c' = m_iv c.
Proof.
  unfold add_response. intros H. case_decide; [by injection H as <-|].
  apply bind_ok_inv in H as (b & _ & H). case_decide; by injection H as <-.
Qed.

Lemma add_headers_iv n c c' ok : add_headers n c = Ok (c', ok) -> m_iv c' = m_iv c.
Proof.
  unfold add_headers, add_content_length, add_linger, add_blank_line. intros H.
  apply bind_ok_inv in H as ([c1 b1] & E1 & H). apply bind_ok_inv in H as ([c2 b2] & E2 & H).
  apply bind_ok_inv in H as ([c3 b3] & E3 & H). apply add_response_iv in E1, E2, E3.
  injection H as <- <-. congruence.
Qed.

Lemma process_write_iv ret c c' ok :
  process_write ret c = Ok (c', ok) -> length (m_iv c') = length (m_iv c).
Proof.
  assert (Hf : forall status title form c c' ok,
    send_form status title form c = Ok (c', ok) -> length (m_iv c') = length (m_iv c)).
  { clear. unfold send_form, add_status_line, add_content. intros status title form c c' ok H.
    apply bind_ok_inv in H as ([c1 b1] & E1 & H). apply bind_ok_inv in H as ([c2 b2] & E2 & H).
    apply bind_ok_inv in H as ([c3 b3] & E3 & H). apply add_response_iv in E1, E3.
    apply add_headers_iv in E2. destruct (negb b3); injection H as <- <-; [congruence|].
    cbn [set_iov set_iv set_iv_count m_iv]. rewrite length_insert. congruence. }
  destruct ret; cbn [process_write]; try apply Hf; try (by intros [= <- <-]).
  unfold add_status_line, add_content. intros H.
  apply bind_ok_inv in H as ([c1 b1] & E1 & H). apply bind_ok_inv in H as (st & _ & H).
  apply add_response_iv in E1. case_decide; apply bind_ok_inv in H as ([c2 b2] & E2 & H);
    apply add_headers_iv in E2; apply bind_ok_inv in H as (x & E3 & H).
  - injection H as <- <-. cbn [set_iov set_iv set_iv_count m_iv]. rewrite !length_insert. congruence.
  - destruct x as [c3 b3]. apply add_response_iv in E3. injection H as <- <-. congruence.
Qed.

Lemma process_start_iv fs c w c' w' closing :
  process_start fs c w = Ok (c', w', closing) -> length (m_iv c') = length (m_iv c).
Proof.
  unfold process_start. intros ([[c1 w1] ret] & E & H)%bind_ok_inv.
  apply pr_loop_world in E as [[= _ _ _ Hiv] _]. case_decide; [by injection H as <-; rewrite Hiv|].
  apply bind_ok_inv in H as ([c2 ok] & E2 & H). apply process_write_iv in E2. rewrite Hiv in E2.
  destruct (negb ok && _); by injection H as <-.
Qed.

Definition iv_inv (s : web_server) : Prop := forall fd c, users s !! fd = Some c -> length (m_iv c) = 2%nat.

Lemma store_iv fd c w s : iv_inv s -> length (m_iv c) = 2%nat -> iv_inv (store fd c w s).
Proof.
  intros H Hc x c' Hx. unfold store in Hx. cbn [users] in Hx.
  apply lookup_insert_Some in Hx as [[_ <-]|[_ Hx]]; [done|by apply H in Hx].
Qed.

Lemma user_iv s fd c : iv_inv s -> user_at s fd = Ok c -> length (m_iv c) = 2%nat.
Proof.
  intros H. unfold user_at. case_decide; [|done]. intros [= <-].
  destruct (users s !! fd) eqn:E; [by apply H in E|done].
Qed.

Lemma on_close_iv fd s s' : iv_inv s -> on_close fd s = Ok s' -> iv_inv s'.
Proof.
  intros H. unfold on_close. intros (c & Hu & E)%bind_ok_inv.
  destruct (close_conn true c (sw s)) as [c1 w1] eqn:Ec. injection E as <-.
  apply store_iv; [done|]. apply (user_iv s fd c H) in Hu. unfold close_conn in Ec.
  destruct (true && _); by injection Ec as <- <-.
Qed.

Lemma handle_event_iv max listenfd ev s s' :
  iv_inv s -> handle_event max listenfd ev s = Ok s' -> iv_inv s'.
Proof.
  intros H. unfold handle_event. repeat case_decide.
  - unfold on_listen. repeat case_decide; try (by intros [= <-]).
    intros (c & Hu & E)%bind_ok_inv. destruct (init_conn _ _ _ _) as [c1 w1] eqn:Ei.
    injection E as <-. unfold init_conn in Ei. injection Ei as <- _.
    apply store_iv; [done|]. by apply (user_iv s) in Hu.
  - by apply on_close_iv.
  - unfold on_readable. intros (c & Hu & E)%bind_ok_inv.
    apply bind_ok_inv in E as ([c1 ok] & E1 & E). apply read_iv in E1.
    apply (user_iv s) in Hu; [|done]. rewrite <- E1 in Hu.
    pose proof (store_iv (ev_fd ev) c1 (sw s) s H Hu) as Hst.
    destruct ok; cbn [negb] in E; [|by eapply on_close_iv].
    injection E as <-. unfold append. by case_decide.
  - unfold on_writable. intros (c & Hu & E)%bind_ok_inv.
    apply bind_ok_inv in E as ([[c1 w1] ok] & E1 & E). apply write_iv in E1.
    apply (user_iv s) in Hu; [|done]. rewrite <- E1 in Hu.
    pose proof (store_iv (ev_fd ev) c1 w1 s H Hu) as Hst.
    destruct ok; cbn [negb] in E; [by injection E as <-|by eapply on_close_iv].
  - by intros [= <-].
Qed.

Lemma step_iv max listenfd s s' : iv_inv s -> step true max listenfd s s' -> iv_inv s'.
Proof.
  intros H [ev s1 _ _ _ E|ev s1 _ _ _ E|x s1 E|i fs s1 _ E|j n s1 _ E].
  - by eapply handle_event_iv.
  - by eapply (handle_event_iv _ _ _ (set_kern _ s)).
  - unfold take_request in E. destruct (queue s); [done|]. by injection E as _ <-.
  - unfold work in E. destruct (hands s !! i) as [fd|]; [|done]. injection E as E.
    apply bind_ok_inv in E as (c & Hu & E). apply bind_ok_inv in E as ([[c1 w1] closing] & Ep & E).
    injection E as <-. apply process_start_iv in Ep. apply (user_iv s) in Hu; [|done].
    apply (store_iv fd c1 w1 s H). congruence.
  - unfold finish in E. destruct (ending s !! j) as [[x []]|]; [..|done]; injection E as E.
    + apply bind_ok_inv in E as (c & Hu & E). injection E as <-. apply (user_iv s) in Hu; [|done].
      exact (store_iv x (set_sockfd (-1) c) (sw s) s H Hu).
    + by subst s1.
    + apply bind_ok_inv in E as (c & _ & E). by injection E as <-.
Qed.

Lemma setup_iv argc k listenfd pool s : setup argc k = Ok (inr (listenfd, pool, s)) -> iv_inv s.
Proof.
  unfold setup. case_decide; [done|]. intros (? & _ & Hs)%bind_ok_inv.
  destruct (new_threadpool _ _ _).2; [|done].
  do 4 apply bind_ok_inv in Hs as (? & _ & Hs). injection Hs as <- <- <-.
  intros fd c. cbn. by rewrite lookup_empty.
Qed.

(** ** The server *)

(** Accepting a connection. *)
Lemma accepted_idle max listenfd connfd addr s :
  inv s -> iv_inv s -> connfd ∉ watched (kern s) -> connfd ∉ (ending s).*1 -> 0 <= connfd < MAX_FD ->
  m_user_count (sw s) < MAX_FD ->
  exists s1, handle_event max listenfd (Event listenfd EPOLLIN (connfd, addr) [] []) s = Ok s1 /\
    inv s1 /\ idle connfd (sent_on connfd (trace (sw s))) s1 /\
    watched (kern s1) = watched (kern s) ∪ {[connfd]}.
Proof.
  intros H Hiv Hf Hfe Hr Hc. unfold handle_event. cbn [ev_fd ev_accept fst snd].
  rewrite decide_True by done.
  assert (E : on_listen connfd addr s =
    Ok (store connfd (init_conn connfd addr (default new_conn (users s !! connfd)) (sw s)).1
          (init_conn connfd addr (default new_conn (users s !! connfd)) (sw s)).2 s)).
  { unfold on_listen. rewrite decide_False by lia. rewrite decide_False by lia.
    unfold user_at. rewrite decide_True by done. cbn [mbind res_bind].
    by destruct (init_conn _ _ _ _). }
  eexists. split; [exact E|]. split; [by eapply on_listen_inv|].
  unfold init_conn. cbn [fst snd]. set (c0 := set_address _ _). set (w' := set_user_count _ _).
  assert (Ht : exists f, trace w' = trace (sw s) ++
    [SetReuse connfd; EpollAdd (m_epollfd (sw s)) connfd f; SetNonblock connfd]).
  { eexists. unfold w', addfd, setnonblocking, emit, set_user_count. cbn [trace m_epollfd].
    rewrite <- !app_assoc. reflexivity. }
  destruct Ht as [f Ht]. split.
  - exists c0. split; [split|].
    + unfold store. cbn [users]. by rewrite lookup_insert_eq.
    + unfold store. cbn [kern]. rewrite Ht, since_app. cbn. set_solver.
    + unfold store. cbn [sw]. rewrite Ht, sent_on_app. cbn. by rewrite app_nil_r.
    + split; [done|]. change (m_iv c0) with (m_iv (default new_conn (users s !! connfd))).
      apply (user_iv s connfd); [done|]. unfold user_at. by rewrite decide_True.
  - unfold store. cbn [kern]. rewrite Ht, since_app. done.
Qed.

(** [C1] web_session: from any state the running server can reach, a new client is
    accepted and can hold a conversation: requests for files that exist, each cut
    into reads and events anywhere, each asking to be kept alive except perhaps
    the last, each response taken whole by one [writev], the pool not full when
    the main thread hands a read to it.  In such a conversation, whatever the main
    thread and the workers do for other connections in between, closing them one
    statement at a time included, what the client has been sent at the end is exactly
    the responses, in order, and the connection is then open exactly if every
    request asked for that.

    As in connection_owned, [accept] never returns a descriptor whose closing
    a worker has not finished, and no update of [m_user_count] is lost. *)
Theorem web_session max argc k listenfd pool s0 s fs connfd addr xs :
  setup argc k = Ok (inr (listenfd, pool, s0)) -> rtc (step true max listenfd) s0 s ->
  0 <= max -> connfd ∉ watched (kern s) -> connfd ∉ (ending s).*1 ->
  connfd <> listenfd -> 0 <= connfd < MAX_FD ->
  m_user_count (sw s) < MAX_FD ->
  (forall path, fs_open fs path ∉ watched (kern s) ∪ {[connfd]}) ->
  Forall (good_request fs) xs -> polite xs.*1 = true ->
  let n r := length (response fs r) in
  exists s1,
    handle_event max listenfd (Event listenfd EPOLLIN (connfd, addr) [] []) s = Ok s1 /\
    (exists s', session max listenfd connfd fs n xs s1 s') /\
    forall s', session max listenfd connfd fs n xs s1 s' ->
      rtc (step true max listenfd) s0 s' /\
      sent_on connfd (trace (sw s')) =
        sent_on connfd (trace (sw s)) ++ mjoin (response fs <$> xs.*1) /\
      (connfd ∈ watched (kern s') <-> forallb rq_stays xs.*1 = true).
Proof.
  intros H0 Hr Hmax Hf Hfe Hl Hrange Hc Hfo Hxs Hpol n.
  assert (Hinv : inv s) by (eapply inv_run; [by eapply setup_inv|exact Hr]).
  assert (Hiv : iv_inv s).
  { apply (rtc_invariant (step true max listenfd) iv_inv s0); [intros a b; apply step_iv|by eapply setup_iv|done]. }
  destruct (accepted_idle max listenfd connfd addr s Hinv Hiv Hf Hfe Hrange Hc) as (s1 & E & Hinv1 & Hid & Hw).
  assert (Hs1 : step true max listenfd s s1) by (by eapply (step_listen _ _ _ _ (Event listenfd EPOLLIN (connfd, addr) [] []))).
  destruct (session_served max listenfd connfd Hl Hrange fs xs _ s1 Hinv1 Hid Hxs Hpol) as [Hex Hall].
  exists s1. split_ands; [done|by apply Hex; [|intros path; rewrite Hw]|].
  intros s' Hs'. destruct (Hall s' Hs') as (Hr' & H2). split; [|exact H2].
  etrans; [exact Hr|]. by eapply rtc_l.
Qed.

(** ** An example: two requests in three events, while two other clients wait *)

Definition w_hello : stat_t := Stat 33188 5.   (** a regular file, rw-r--r-- *)
Definition w_fs : fsys :=
  Fsys (fun p => if decide (p = lit "./a") then Some w_hello else None)
       (fun _ => 9) (fun _ _ => Mapped (lit "hello")).
Definition w_request (hs : list bytes) : request :=
  Request (lit "GET /a HTTP/1.1")
    (RequestParts (lit "GET") SP [] (lit "/a") SP [] (lit "HTTP/1.1") 0) hs.
Definition w_first : request := w_request [lit "Host: x"; lit "Connection: keep-alive"].
Definition w_second : request := w_request [].
Definition w_conversation : list (request * list (list bytes)) :=
  [(w_first, [[lit "GET /a HT"; lit "TP/1.1"]; [drop 15 (rq_bytes w_first)]]);
   (w_second, [[rq_bytes w_second]])].

Lemma w_request_good hs dss :
  (length (rq_bytes (w_request hs)) < 2048)%nat ->
  Forall (fun h => plain h /\ h <> [] /\ has_length h = false) hs ->
  arrives (w_request hs) dss -> good_request w_fs (w_request hs, dss).
Proof.
  intros Hlen Hhs Harr. split; [|split; [exists w_hello, (lit "hello")|exact Harr]].
  - split; [exact Hlen|split; decided| |exact Hhs].
    split; try reflexivity; try decided. intros x Hx. injection Hx as <-. decided.
  - split; [reflexivity|reflexivity|discriminate|reflexivity].
Qed.

Lemma w_good : Forall (good_request w_fs) w_conversation.
Proof.
  repeat constructor; try apply w_request_good; try (apply Nat.ltb_lt; vm_compute; reflexivity);
    try (split; [|reflexivity]); repeat constructor; try discriminate; try decided.
Qed.

Lemma web_session_witness :
  setup 3 setup0 = Ok (inr (3, ThreadPool 8 10000 true [] (Locker None) (Sem 0) false, start0)) /\
  rtc (step true 1 3) start0 busy0 /\
  exists s1, handle_event 1 3 (Event 3 EPOLLIN (8, 0) [] []) busy0 = Ok s1 /\
    (exists s', session 1 3 8 w_fs (fun r => length (response w_fs r)) w_conversation s1 s') /\
    forall s', session 1 3 8 w_fs (fun r => length (response w_fs r)) w_conversation s1 s' ->
      rtc (step true 1 3) start0 s' /\
      sent_on 8 (trace (sw s')) =
        sent_on 8 (trace (sw busy0)) ++ mjoin (response w_fs <$> w_conversation.*1) /\
      (8 ∈ watched (kern s') <-> forallb rq_stays w_conversation.*1 = true).
Proof.
  assert (E : setup 3 setup0 =
    Ok (inr (3, ThreadPool 8 10000 true [] (Locker None) (Sem 0) false, start0))) by reflexivity.
  split; [exact E|]. split; [exact busy0_reached|].
  apply (web_session 1 3 setup0 3 _ start0 busy0 w_fs 8 0 w_conversation E busy0_reached).
  - lia.
  - decided.
  - decided.
  - lia.
  - unfold MAX_FD. lia.
  - vm_compute. reflexivity.
  - intros path. change (fs_open w_fs path) with 9. decided.
  - exact w_good.
  - vm_compute. reflexivity.
Defined.
