(* ===== verification/PoolThreads.v ===== *)
(** * The web server's threads

    PoolMain's server hands a request to the workers in one step.  Here the
    main thread of socket/pool/main.cpp calls [append] and the workers run
    [run] of socket/pool/threadpool.h statement by statement, with the lock,
    the semaphore and the queue of ThreadPool, over the same connections, a worker that
    closes one going through [close_conn] statement by statement; and this system is
    shown to refine PoolMain's, its faults included. *)

From S2P Require Import Prelude CString HttpConn HttpParse HttpServe HttpStream Locker ThreadPool PoolMain WebServer.

(** ** The concurrent system *)

(** A request is the address [users + fd]. *)
Definition request_of (fd : Z) : loc := Z.to_pos (fd + 1).
Definition conn_of (l : loc) : Z := Z.pos l - 1.

(** The threads with the pool they share (the main thread is the pool's only
    caller), and the state of the program and the kernel. *)
Record threads := Threads {
  tp : ThreadPool.system;
  t_users : gmap Z http_conn;
  t_sw : world;
  t_kern : kernel;
  t_ending : list (nat * (Z * phase)) }.  (** the workers inside [close_conn], and how far *)

(** The state as the main thread's handlers see it: their call of [append] is
    recorded by the queue of this state. *)
Definition front (k : kernel) (c : threads) : web_server := Server (t_users c) (t_sw c) k [] [] [] (t_ending c).*2.

(** The main thread has handled an event; if it called [append], it is now at
    the beginning of that function. *)
Definition after_event (s : web_server) (c : threads) : threads :=
  let t := tp c in
  Threads
    (match PoolMain.queue s with
     | fd :: _ => System (pool t) (workers t) (<[0%nat := PLock (Some (request_of fd))]> (producers t)) (history t)
     | [] => t
     end) (users s) (sw s) (kern s) (t_ending c).

(** Worker [i] calls [process] on the connection [fd]; the flag says that it has closed
    the descriptor and goes on with [close_conn] ([process_start]). *)
Definition process_at (i : nat) (fs : fsys) (fd : Z) (c : threads) : res (threads * bool) :=
  let s := front (t_kern c) c in
  h ← user_at s fd;
  '(h, w, closing) ← process_start fs h (t_sw c);
  let s := store fd h w s in
  Ok (Threads (tp c) (users s) (sw s) (kern s)
        (if (closing : bool) then (i, (fd, Closed)) :: t_ending c else t_ending c), closing).

(** The next statement of the [j]-th [close_conn] under way (or, after the last, of
    [process]), [e] being those then under way. *)
Definition finish_at (j : nat) (e : list (nat * (Z * phase))) (c : threads) : option (res threads) :=
  match finish j (m_user_count (t_sw c) - 1) (front (t_kern c) c) with
  | None => None
  | Some r => Some (s ← r; Ok (Threads (tp c) (users s) (sw s) (kern s) e))
  end.

Definition set_tp (t : ThreadPool.system) (c : threads) : threads :=
  Threads t (t_users c) (t_sw c) (t_kern c) (t_ending c).

Inductive thread_step (listenfd : Z) (c : threads) : threads -> Prop :=
  | main_accepts ev s' :
      producers (tp c) !! 0%nat = Some PIdle ->
      ev_fd ev = listenfd -> (ev_accept ev).1 ∉ watched (t_kern c) ->
      (ev_accept ev).1 ∉ (t_ending c).*2.*1 ->
      PoolMain.handle_event 0 listenfd ev (front (t_kern c) c) = Ok s' ->
      thread_step listenfd c (after_event s' c)
  | main_event ev s' :
      producers (tp c) !! 0%nat = Some PIdle ->
      ev_fd ev <> listenfd -> ev_fd ev ∈ armed (t_kern c) -> wants ev ->
      PoolMain.handle_event 0 listenfd ev (front (deliver (ev_fd ev) (t_kern c)) c) = Ok s' ->
      thread_step listenfd c (after_event s' c)
  | main_appends q q' p' e :
      producers (tp c) !! 0%nat = Some q -> append_step 0 q (pool (tp c)) = Some (q', p', e) ->
      thread_step listenfd c
        (set_tp (System p' (workers (tp c)) (<[0%nat := q']> (producers (tp c))) (history (tp c) ++ e)) c)
  | worker_runs i intr w w' p' e :
      workers (tp c) !! i = Some w -> (forall l, w <> WRun l) ->
      run_step i intr w (pool (tp c)) = Some (w', p', e) ->
      thread_step listenfd c
        (set_tp (System p' (<[i := w']> (workers (tp c))) (producers (tp c)) (history (tp c) ++ e)) c)
  | worker_processes i intr l w' p' e fs c' :
      workers (tp c) !! i = Some (WRun l) -> i ∉ (t_ending c).*1 ->
      (forall path, fs_open fs path ∉ watched (t_kern c)) ->
      process_at i fs (conn_of l) c = Ok (c', false) ->
      run_step i intr (WRun l) (pool (tp c)) = Some (w', p', e) ->
      thread_step listenfd c
        (set_tp (System p' (<[i := w']> (workers (tp c))) (producers (tp c)) (history (tp c) ++ e)) c')
  | worker_closes i l fs c' :
      workers (tp c) !! i = Some (WRun l) -> i ∉ (t_ending c).*1 ->
      (forall path, fs_open fs path ∉ watched (t_kern c)) ->
      process_at i fs (conn_of l) c = Ok (c', true) -> thread_step listenfd c c'
  | worker_clears i j fd c' :
      t_ending c !! j = Some (i, (fd, Closed)) ->
      finish_at j (<[j := (i, (fd, Cleared))]> (t_ending c)) c = Some (Ok c') -> thread_step listenfd c c'
  | worker_counts i j fd c' :
      t_ending c !! j = Some (i, (fd, Cleared)) ->
      finish_at j (<[j := (i, (fd, Counted))]> (t_ending c)) c = Some (Ok c') -> thread_step listenfd c c'
  | worker_returns i intr j l fd w' p' e c' :
      t_ending c !! j = Some (i, (fd, Counted)) -> workers (tp c) !! i = Some (WRun l) ->
      finish_at j (delete j (t_ending c)) c = Some (Ok c') ->
      run_step i intr (WRun l) (pool (tp c)) = Some (w', p', e) ->
      thread_step listenfd c
        (set_tp (System p' (<[i := w']> (workers (tp c))) (producers (tp c)) (history (tp c) ++ e)) c').

(** A thread does something undefined: in the pool's code, in a handler of the main
    thread, in [process]. *)
Inductive thread_fault (listenfd : Z) (c : threads) (f : fault) : Prop :=
  | worker_faults i : workers (tp c) !! i = Some (WFault f) -> thread_fault listenfd c f
  | append_faults j : producers (tp c) !! j = Some (PFault f) -> thread_fault listenfd c f
  | accept_faults ev :
      producers (tp c) !! 0%nat = Some PIdle ->
      ev_fd ev = listenfd -> (ev_accept ev).1 ∉ watched (t_kern c) ->
      (ev_accept ev).1 ∉ (t_ending c).*2.*1 ->
      PoolMain.handle_event 0 listenfd ev (front (t_kern c) c) = Err f -> thread_fault listenfd c f
  | event_faults ev :
      producers (tp c) !! 0%nat = Some PIdle ->
      ev_fd ev <> listenfd -> ev_fd ev ∈ armed (t_kern c) -> wants ev ->
      PoolMain.handle_event 0 listenfd ev (front (deliver (ev_fd ev) (t_kern c)) c) = Err f ->
      thread_fault listenfd c f
  | process_faults i l fs :
      workers (tp c) !! i = Some (WRun l) -> i ∉ (t_ending c).*1 ->
      (forall path, fs_open fs path ∉ watched (t_kern c)) ->
      process_at i fs (conn_of l) c = Err f -> thread_fault listenfd c f
  | finish_faults j e : finish_at j e c = Some (Err f) -> thread_fault listenfd c f.

(** The threads when the loop starts. *)
Definition boot (p : threadpool) (s : web_server) : threads :=
  Threads (start p 1) (users s) (sw s) (kern s) [].

(** ** The relation with PoolMain's states *)

Lemma conn_of_request fd : 0 <= fd -> conn_of (request_of fd) = fd.
Proof. unfold conn_of, request_of. lia. Qed.

Lemma request_inj x y : 0 <= x -> 0 <= y -> request_of x = request_of y -> x = y.
Proof. intros Hx Hy E. rewrite <- (conn_of_request x), <- (conn_of_request y) by done. by rewrite E. Qed.

(** The main thread is inside [append] and has not yet been accepted or refused. *)
Definition undecided (q : ppc) : option ptr :=
  match q with PLock r | PTest r | PPush r => Some r | _ => None end.

(** [reading ev h s]: in [s] the event [ev] can be handled, it reads the connection
    [ev_fd ev] and leaves [h] in its place. *)
Record reading (listenfd : Z) (ev : PoolMain.event) (h : http_conn) (s : web_server) : Prop := {
  rd_conn : ev_fd ev <> listenfd;
  rd_armed : ev_fd ev ∈ armed (kern s);
  rd_wants : wants ev;
  rd_errors : Z.land (ev_events ev) (Z.lor (Z.lor EPOLLRDHUP EPOLLHUP) EPOLLERR) = 0;
  rd_in : Z.land (ev_events ev) EPOLLIN <> 0;
  rd_user : exists h0, user_at s (ev_fd ev) = Ok h0 /\ read (ev_reads ev) h0 = Ok (h, true) }.

(** The server of PoolMain whose step for the event [o] of the main thread is yet
    to come, if there is one. *)
Definition front_of (listenfd : Z) (o : option ptr) (c : threads) (s : web_server) : Prop :=
  match o with
  | None => t_users c = users s /\ t_kern c = kern s
  | Some r =>
      exists ev h, reading listenfd ev h s /\ r = Some (request_of (ev_fd ev)) /\
        t_users c = <[ev_fd ev := h]> (users s) /\ t_kern c = deliver (ev_fd ev) (kern s)
  end.

Record related (listenfd : Z) (c : threads) (s : web_server) : Prop := {
  rel_front : exists q, producers (tp c) = [q] /\ front_of listenfd (undecided q) c s;
  rel_world : t_sw c = sw s;
  rel_queue : m_workqueue (pool (tp c)) = (fun fd => Some (request_of fd)) <$> PoolMain.queue s;
  rel_hands : (workers (tp c) ≫= whand) ≡ₚ request_of <$> hands s ++ (ending s).*1;
  rel_ending : ending s = (t_ending c).*2;
  rel_closing : forall i fd ph, (i, (fd, ph)) ∈ t_ending c ->
    0 <= fd /\ workers (tp c) !! i = Some (WRun (request_of fd)) }.

(** ** Lemmas: the handlers do not look at the pool *)

Definition with_pool (q h l : list Z) (s : web_server) : web_server :=
  Server (users s) (sw s) (kern s) q h l (ending s).

Lemma on_close_pool q h l fd s :
  on_close fd (with_pool q h l s) = with_pool q h l <$> on_close fd s.
Proof.
  unfold on_close. change (user_at (with_pool q h l s) fd) with (user_at s fd).
  destruct (user_at s fd) as [c|]; [|done]. cbn [mbind res_bind sw with_pool].
  by destruct (close_conn true c (sw s)).
Qed.

Lemma on_listen_pool q h l connfd addr s :
  on_listen connfd addr (with_pool q h l s) = with_pool q h l <$> on_listen connfd addr s.
Proof.
  unfold on_listen. case_decide; [done|]. cbn [sw with_pool]. case_decide; [done|].
  change (user_at (with_pool q h l s) connfd) with (user_at s connfd).
  destruct (user_at s connfd) as [c|]; [|done]. cbn [mbind res_bind].
  by destruct (init_conn connfd addr c (sw s)).
Qed.

Lemma on_writable_pool q h l fd rs s :
  on_writable fd rs (with_pool q h l s) = with_pool q h l <$> on_writable fd rs s.
Proof.
  unfold on_writable. change (user_at (with_pool q h l s) fd) with (user_at s fd).
  destruct (user_at s fd) as [c|]; [|done]. cbn [mbind res_bind sw with_pool].
  destruct (write rs c (sw s)) as [[[c' w'] []]|]; [done| |done].
  exact (on_close_pool q h l fd (store fd c' w' s)).
Qed.

(** What handling an event leaves in the queue: nothing, or the connection that
    was read. *)
Lemma handle_event_front max listenfd ev s s' :
  PoolMain.queue s = [] -> PoolMain.handle_event 0 listenfd ev s = Ok s' ->
  (PoolMain.queue s' = [] /\ forall q h l,
     PoolMain.handle_event max listenfd ev (with_pool q h l s) = Ok (with_pool q h l s')) \/
  (ev_fd ev <> listenfd /\
   Z.land (ev_events ev) (Z.lor (Z.lor EPOLLRDHUP EPOLLHUP) EPOLLERR) = 0 /\
   Z.land (ev_events ev) EPOLLIN <> 0 /\
   exists h0 h, user_at s (ev_fd ev) = Ok h0 /\ read (ev_reads ev) h0 = Ok (h, true) /\
     s' = append 0 (ev_fd ev) (store (ev_fd ev) h (sw s) s)).
Proof.
  intros Hq. unfold PoolMain.handle_event.
  assert (Hclose : forall x a b, on_close x a = Ok b -> PoolMain.queue b = PoolMain.queue a).
  { intros x a b H. unfold on_close in H. apply bind_ok_inv in H as (c & _ & H).
    destruct (close_conn true c (sw a)). by injection H as <-. }
  case_decide; [|case_decide; [|case_decide; [|case_decide]]].
  - intros E. left. split.
    + unfold on_listen in E. repeat case_decide; try (by injection E as <-).
      apply bind_ok_inv in E as (c & _ & E). destruct (init_conn _ _ _ _). by injection E as <-.
    + intros q h l. by rewrite on_listen_pool, E.
  - intros E. left. split; [by rewrite (Hclose _ _ _ E)|].
    intros q h l. by rewrite on_close_pool, E.
  - unfold on_readable. intros (h0 & Hu & E)%bind_ok_inv.
    apply bind_ok_inv in E as ([h [|]] & Hr & E); cbn [negb] in E.
    + right. injection E as <-. split; [done|split; [done|split; [done|]]]. by exists h0, h.
    + left. split; [by rewrite (Hclose _ _ _ E)|]. intros q h' l.
      change (user_at (with_pool q h' l s) (ev_fd ev)) with (user_at s (ev_fd ev)).
      rewrite (bind_ok _ _ _ Hu), (bind_ok _ _ _ Hr). cbn [negb].
      change (store (ev_fd ev) h (sw (with_pool q h' l s)) (with_pool q h' l s)) with
        (with_pool q h' l (store (ev_fd ev) h (sw s) s)).
      by rewrite on_close_pool, E.
  - intros E. left. split.
    + unfold on_writable in E. apply bind_ok_inv in E as (c & _ & E).
      apply bind_ok_inv in E as ([[c' w'] [|]] & _ & E); cbn [negb] in E;
        [by injection E as <-|by rewrite (Hclose _ _ _ E)].
    + intros q h l. by rewrite on_writable_pool, E.
  - intros [= <-]. by left.
Qed.

Lemma handle_event_ending max listenfd ev s s' :
  PoolMain.handle_event max listenfd ev s = Ok s' -> ending s' = ending s.
Proof.
  assert (Hclose : forall x a b, on_close x a = Ok b -> ending b = ending a).
  { intros x a b H. unfold on_close in H. apply bind_ok_inv in H as (c & _ & H).
    destruct (close_conn true c (sw a)). by injection H as <-. }
  intros H. unfold PoolMain.handle_event in H. repeat case_decide.
  - unfold on_listen in H. repeat case_decide; try (by injection H as <-).
    apply bind_ok_inv in H as (c & _ & H). destruct (init_conn _ _ _ _). by injection H as <-.
  - by apply Hclose in H.
  - unfold on_readable in H. apply bind_ok_inv in H as (c & _ & H).
    apply bind_ok_inv in H as ([c' []] & _ & H); cbn [negb] in H.
    + injection H as <-. unfold append. by case_decide.
    + by rewrite (Hclose _ _ _ H).
  - unfold on_writable in H. apply bind_ok_inv in H as (c & _ & H).
    apply bind_ok_inv in H as ([[c' w'] []] & _ & H); cbn [negb] in H;
      [by injection H as <-|by rewrite (Hclose _ _ _ H)].
  - by injection H as <-.
Qed.

(** A handler that faults does so whatever the pool holds. *)
Lemma handle_event_err max listenfd ev q h l s f :
  PoolMain.handle_event 0 listenfd ev s = Err f ->
  PoolMain.handle_event max listenfd ev (with_pool q h l s) = Err f.
Proof.
  unfold PoolMain.handle_event. repeat case_decide; try done.
  - rewrite on_listen_pool. by intros ->.
  - rewrite on_close_pool. by intros ->.
  - unfold on_readable. change (user_at (with_pool q h l s) (ev_fd ev)) with (user_at s (ev_fd ev)).
    destruct (user_at s (ev_fd ev)) as [c|]; [|done]. cbn [mbind res_bind].
    destruct (read (ev_reads ev) c) as [[c' []]|]; [done| |done]. cbn [mbind res_bind negb].
    change (store (ev_fd ev) c' (sw (with_pool q h l s)) (with_pool q h l s)) with
      (with_pool q h l (store (ev_fd ev) c' (sw s) s)).
    rewrite on_close_pool. by intros ->.
  - rewrite on_writable_pool. by intros ->.
Qed.

Lemma finish_pool j n q h l s :
  finish j n (with_pool q h l s) = option_map (fun r => with_pool q h l <$> r) (finish j n s).
Proof.
  unfold finish. cbn [ending with_pool]. destruct (ending s !! j) as [[fd []]|]; try done.
  - change (user_at (with_pool q h l s) fd) with (user_at s fd). by destruct (user_at s fd).
  - change (user_at (with_pool q h l s) fd) with (user_at s fd). by destruct (user_at s fd).
Qed.

(** Handling the event that [reading] describes. *)
Lemma reading_event max listenfd ev h s :
  reading listenfd ev h s ->
  let s0 := set_kern (deliver (ev_fd ev) (kern s)) s in
  PoolMain.handle_event max listenfd ev s0 = Ok (append max (ev_fd ev) (store (ev_fd ev) h (sw s) s0)).
Proof.
  intros [Hl _ _ Herr Hin (h0 & Hu & Hr)] s0. unfold PoolMain.handle_event.
  rewrite decide_False by done. rewrite decide_False by (intros Hn; by apply Hn). rewrite decide_True by done.
  unfold on_readable. change (user_at s0 (ev_fd ev)) with (user_at s (ev_fd ev)).
  by rewrite (bind_ok _ _ _ Hu), (bind_ok _ _ _ Hr).
Qed.

Lemma reading_step max listenfd ev h s :
  reading listenfd ev h s ->
  PoolMain.step true max listenfd s
    (append max (ev_fd ev) (store (ev_fd ev) h (sw s) (set_kern (deliver (ev_fd ev) (kern s)) s))).
Proof.
  intros H. eapply step_event; [apply H|apply H|apply (rd_wants _ _ _ _ H)|].
  by apply (reading_event max listenfd ev h s).
Qed.

(** ** Lemmas: a thread's step *)

Lemma run_step_effect i intr w p w' p' e :
  run_step i intr w p = Some (w', p', e) -> (forall l, w <> WRun l) -> (forall f, w' <> WFault f) ->
  (m_workqueue p' = m_workqueue p /\ whand w' = whand w) \/
  (exists r, m_workqueue p = r :: m_workqueue p' /\ whand w = [] /\ w' = WUnlock r).
Proof.
  intros H Hw Hw'. destruct w; step_cases H; try (by destruct (Hw' f)); try (by destruct (Hw' _ eq_refl));
    try (by destruct (Hw _ eq_refl));
    repeat match goal with
    | E : release _ _ = Ok _ |- _ => apply release_inv in E; destruct E as [? ->]
    end; try (by left); try (by destruct (m_stop p); left).
  right. by eexists.
Qed.

Lemma append_step_effect q p q' p' e :
  append_step 0 q p = Some (q', p', e) -> p_ok p q ->
  (undecided q' = undecided q /\ m_workqueue p' = m_workqueue p) \/
  (exists r, undecided q = Some r /\ undecided q' = None /\
     m_workqueue p' = m_workqueue p ++ [r] /\ ~ Z.of_nat (length (m_workqueue p)) > m_max_requests p) \/
  (exists r, undecided q = Some r /\ undecided q' = None /\
     m_workqueue p' = m_workqueue p /\ Z.of_nat (length (m_workqueue p)) > m_max_requests p).
Proof.
  intros H Hok. destruct q; step_cases H; cbn in Hok;
    repeat match goal with
    | E : release _ _ = Ok _ |- _ => apply release_inv in E; destruct E as [? ->]
    end; try (by left).
  - right; right. by eexists.
  - right; left. eexists. split_ands; try done.
Qed.

(** A worker's step and the list of what the workers hold. *)
Lemma hands_step ws i w w' (hs : list loc) :
  ws !! i = Some w -> (ws ≫= whand) ≡ₚ hs ->
  exists rest, hs ≡ₚ whand w ++ rest /\ (<[i := w']> ws ≫= whand) ≡ₚ whand w' ++ rest.
Proof.
  intros Hi Hh. destruct (bind_insert whand ws i w w' Hi) as (rest & H1 & H2).
  exists rest. split; [by rewrite <- Hh|done].
Qed.

(** ** The simulation *)

Lemma store_world fd h s : kern (store fd h (sw s) s) = kern s.
Proof. unfold store. cbn [kern]. by rewrite drop_all. Qed.

Lemma deliver_apply x l k :
  Forall (fun e => ~ about x e) l ->
  foldl apply_sys (deliver x k) l = deliver x (foldl apply_sys k l).
Proof.
  intros Hl. revert k. induction Hl as [|e l He _ IH]; intros k; [done|]. cbn [foldl].
  rewrite <- IH. f_equal. destruct k as [w a].
  destruct e; cbn in He |- *; try done; try case_decide; try done; apply kernel_eq; set_solver.
Qed.

(** Steps that leave the read connection alone leave its event to come. *)
Lemma reading_kept listenfd ev h s s' :
  kept (ev_fd ev) s s' -> reading listenfd ev h s -> reading listenfd ev h s'.
Proof.
  intros Hk [H1 H2 H3 H4 H5 (h0 & Hu & Hr)]. split; try done.
  - by apply (kept_armed _ _ _ Hk).
  - exists h0. split; [|done]. unfold user_at in *. by rewrite (kept_user _ _ _ Hk).
Qed.

(** What a worker's [process] asks of the kernel is not about other connections. *)
Lemma process_others fs h w h' w' closing x fd :
  process_start fs h w = Ok (h', w', closing) -> m_sockfd h = fd -> x <> fd -> x <> -1 ->
  (forall path, fs_open fs path <> x) ->
  exists l, trace w' = trace w ++ l /\ others x l.
Proof.
  intros (Hs' & l & Hl & Hcase)%process_start_effects Hs Hx Hneg Hfs.
  assert (Hol : others x l).
  { destruct Hl as [->|[path ->]]; repeat constructor. apply Hfs. }
  destruct closing; [destruct Hcase as [_ ->]|destruct Hcase as [ev ->]]; eexists; (split; [reflexivity|]);
    cbn [trace]; rewrite ?Forall_app; split_ands; try done; repeat constructor; cbn; congruence.
Qed.

Section Simulation.
Context (max listenfd : Z).

(** The main thread has handled an event. *)
Lemma sim_event k0 ev c s s' :
  producers (tp c) = [PIdle] -> related listenfd c s ->
  PoolMain.handle_event 0 listenfd ev (front k0 c) = Ok s' ->
  (forall s1, PoolMain.handle_event max listenfd ev (set_kern k0 s) = Ok s1 ->
     PoolMain.step true max listenfd s s1) ->
  (ev_fd ev <> listenfd ->
     k0 = deliver (ev_fd ev) (kern s) /\ ev_fd ev ∈ armed (kern s) /\ wants ev /\ 0 <= ev_fd ev) ->
  exists s1, rtc (PoolMain.step true max listenfd) s s1 /\ related listenfd (after_event s' c) s1.
Proof.
  intros Hp [(q & Eq & Hf) Hw Hq Hh He Hcl] E Hstep Hev. rewrite Hp in Eq. injection Eq as <-.
  destruct Hf as [Hu Hk].
  destruct (handle_event_front max listenfd ev (front k0 c) s' eq_refl E) as
    [[Hnil Hall]|(Hl & Herr & Hin & h0 & h & Hu0 & Hr & ->)].
  - exists (with_pool (PoolMain.queue s) (hands s) (lost s) s'). split.
    + apply rtc_once, Hstep. rewrite <- Hall. unfold with_pool, front, set_kern. cbn [users sw kern].
      by rewrite Hu, Hw, He.
    + apply handle_event_ending in E. unfold after_event. rewrite Hnil.
      split; cbn [tp t_sw t_ending with_pool sw PoolMain.queue hands ending]; try done; rewrite ?E; cbn [ending front];
        rewrite <- ?He; try done.
      exists PIdle. by split_ands.
  - exists s. split; [done|]. destruct (Hev Hl) as (-> & Ha & Hwants & H0).
    unfold append. rewrite decide_False by (cbn; lia). unfold after_event.
    cbn [PoolMain.queue front store app]. split; cbn [tp t_sw t_users t_kern producers pool workers].
    + exists (PLock (Some (request_of (ev_fd ev)))). rewrite Hp. split; [done|].
      cbn [undecided front_of]. exists ev, h. split_ands.
      * split; try done. exists h0. split; [|done]. rewrite <- Hu0. unfold user_at, front. cbn [users].
        by rewrite Hu.
      * done.
      * unfold store, front. cbn [users]. by rewrite Hu.
      * rewrite <- Hk. cbn [kern]. by apply (store_world _ _ (front _ c)).
    + cbn. done.
    + done.
    + done.
    + done.
    + done.
Qed.

(** [append] has decided: the event of PoolMain happens now. *)
Lemma sim_commit q0 q' p' e c s ev h :
  let s1 := append max (ev_fd ev)
    (store (ev_fd ev) h (sw s) (set_kern (deliver (ev_fd ev) (kern s)) s)) in
  related listenfd c s -> producers (tp c) = [q0] -> undecided q' = None ->
  t_users c = <[ev_fd ev := h]> (users s) -> t_kern c = deliver (ev_fd ev) (kern s) ->
  m_workqueue p' = (fun fd => Some (request_of fd)) <$> PoolMain.queue s1 ->
  related listenfd
    (set_tp (System p' (workers (tp c)) (<[0%nat := q']> (producers (tp c))) (history (tp c) ++ e)) c) s1.
Proof.
  intros s1 [_ Hw _ Hh He Hcl] Hp Hu Hus Hk Hq.
  assert (Hs1 : users s1 = <[ev_fd ev := h]> (users s) /\ kern s1 = deliver (ev_fd ev) (kern s) /\
            sw s1 = sw s /\ hands s1 = hands s /\ ending s1 = ending s).
  { pose proof (store_world (ev_fd ev) h (set_kern (deliver (ev_fd ev) (kern s)) s)) as Hst.
    unfold s1, append. case_decide; cbn [users kern sw hands ending] in *; by split_ands. }
  destruct Hs1 as (E1 & E2 & E3 & E4 & E5).
  split; cbn [tp set_tp pool workers producers t_sw t_ending];
    [|congruence|exact Hq|by rewrite E4, E5|by rewrite E5|exact Hcl].
  exists q'. rewrite Hp. split; [done|]. rewrite Hu. cbn [front_of t_users t_kern]. by rewrite E1, E2.
Qed.

(** The main thread moves inside [append]. *)
Lemma sim_append q q' p' e c s :
  producers (tp c) !! 0%nat = Some q -> append_step 0 q (pool (tp c)) = Some (q', p', e) ->
  ThreadPool.inv max (tp c) -> related listenfd c s ->
  exists s1, rtc (PoolMain.step true max listenfd) s s1 /\
    related listenfd
      (set_tp (System p' (workers (tp c)) (<[0%nat := q']> (producers (tp c))) (history (tp c) ++ e)) c) s1.
Proof.
  intros Hq0 E Hinv Hrel. pose proof Hrel as [(q1 & Eq & Hf) Hw Hq Hh He Hcl]. rewrite Eq in Hq0. injection Hq0 as ->.
  assert (Hok : p_ok (pool (tp c)) q) by (apply (inv_producers _ _ Hinv 0%nat); by rewrite Eq).
  destruct (append_step_effect _ _ _ _ _ E Hok) as
    [[Hu Hwq]|[(r & Hu & Hu' & Hwq & Hlen)|(r & Hu & Hu' & Hwq & Hlen)]].
  - exists s. split; [done|]. split; cbn [tp set_tp pool workers producers t_sw]; try done.
    + exists q'. rewrite Eq. split; [done|]. by rewrite Hu.
    + by rewrite Hwq.
  - rewrite Hu in Hf. destruct Hf as (ev & h & Hrd & -> & Hus & Hk).
    eexists. split; [by apply rtc_once, (reading_step max listenfd ev h s)|].
    apply (sim_commit q q' p' e c s ev h); try done. unfold append. rewrite decide_False.
    + cbn [PoolMain.queue store set_kern]. by rewrite Hwq, Hq, fmap_app.
    + cbn [PoolMain.queue store set_kern]. rewrite (inv_max _ _ Hinv), Hq, length_fmap in Hlen. lia.
  - rewrite Hu in Hf. destruct Hf as (ev & h & Hrd & -> & Hus & Hk).
    eexists. split; [by apply rtc_once, (reading_step max listenfd ev h s)|].
    apply (sim_commit q q' p' e c s ev h); try done. unfold append. rewrite decide_True.
    + by rewrite Hwq, Hq.
    + cbn [PoolMain.queue store set_kern]. rewrite (inv_max _ _ Hinv), Hq, length_fmap in Hlen. lia.
Qed.

(** A worker moves inside [run], but for its call of [process]. *)
Lemma sim_worker i intr w w' p' e c s :
  workers (tp c) !! i = Some w -> (forall l, w <> WRun l) -> (forall f, w' <> WFault f) ->
  run_step i intr w (pool (tp c)) = Some (w', p', e) -> related listenfd c s ->
  exists s1, rtc (PoolMain.step true max listenfd) s s1 /\
    related listenfd
      (set_tp (System p' (<[i := w']> (workers (tp c))) (producers (tp c)) (history (tp c) ++ e)) c) s1.
Proof.
  intros Hi Hrun Hfault E [(q & Eq & Hf) Hw Hq Hh He Hcl].
  assert (Hcl' : forall i' fd ph, (i', (fd, ph)) ∈ t_ending c ->
            0 <= fd /\ <[i := w']> (workers (tp c)) !! i' = Some (WRun (request_of fd))).
  { intros i' fd ph [H0 Hi']%Hcl. split; [done|]. rewrite list_lookup_insert_ne; [done|].
    intros ->. rewrite Hi in Hi'. injection Hi' as ->. by eapply Hrun. }
  destruct (hands_step _ i w w' _ Hi Hh) as (rest & H1 & H2).
  destruct (run_step_effect _ _ _ _ _ _ _ E Hrun Hfault) as [[Hwq Hwh]|(r & Hwq & Hwh & ->)].
  - exists s. split; [done|]. split; cbn [tp set_tp pool workers producers t_sw]; try done.
    + by exists q.
    + by rewrite Hwq.
    + by rewrite H2, Hwh, H1.
  - rewrite Hq in Hwq. destruct (PoolMain.queue s) as [|fd fds] eqn:Es; [done|].
    injection Hwq as <- Hwq. set (s1 := Server (users s) (sw s) (kern s) fds (fd :: hands s) (lost s) (ending s)).
    assert (Htake : take_request s = Some (fd, s1)) by (unfold take_request; by rewrite Es).
    exists s1. split; [by eapply rtc_once, step_take|].
    split; cbn [tp set_tp pool workers producers t_sw]; try done.
    + exists q. split; [done|]. destruct (undecided q) as [r|]; [|done].
      destruct Hf as (ev & h & Hrd & Hr & Hus & Hk). exists ev, h. split_ands; try done.
      apply (reading_kept _ _ _ s); [by apply (take_kept (ev_fd ev) fd)|done].
    + rewrite H2. cbn [whand app hands s1 fmap list_fmap]. rewrite Hwh in H1. by rewrite <- H1.
Qed.

(** What a worker has in its hands is not the connection an event can come for. *)
Lemma hands_disarmed s j fd fd' :
  PoolMain.inv s -> hands s !! j = Some fd -> fd' ∈ armed (kern s) -> fd' <> fd.
Proof.
  intros Hinv Hj Ha ->. pose proof (NoDup_elements (watched (kern s))) as Hn. rewrite (inv_places _ _ Hinv) in Hn.
  apply NoDup_app in Hn as (_ & _ & Hn). apply NoDup_app in Hn as (_ & Hn & _).
  apply (Hn fd); [by apply elem_of_elements|]. apply list_elem_of_lookup_2 in Hj. set_solver.
Qed.

Lemma inv_held s : PoolMain.inv s -> NoDup (hands s ++ (ending s).*1).
Proof.
  intros H. pose proof (NoDup_elements (watched (kern s))) as Hn. rewrite (inv_places _ _ H) in Hn.
  apply NoDup_app in Hn as (_ & _ & Hn). apply NoDup_app in Hn as (_ & _ & Hn).
  apply NoDup_app in Hn as (_ & _ & Hn). apply NoDup_app in Hn as (Hn & _ & _).
  apply NoDup_app. split_and!; [done| |by apply (inv_once _ _ H)].
  intros fd [k Hk]%list_elem_of_lookup ([x ph] & -> & Hx)%list_elem_of_fmap.
  destruct (inv_ending _ _ H x ph Hx) as [Hnot _]. by apply Hnot, (inv_hands _ _ _ H Hk).
Qed.

(** The server after a worker has processed the connection [fd], or has closed it. *)
Definition worked (j : nat) (fd : Z) (h' : http_conn) (wd : world) (closing : bool) (s : web_server) : web_server :=
  Server (users (store fd h' wd s)) wd (kern (store fd h' wd s)) (PoolMain.queue s) (delete j (hands s)) (lost s)
    (if closing then (fd, Closed) :: ending s else ending s).

Lemma work_worked fs s j fd h h' wd closing :
  hands s !! j = Some fd -> user_at s fd = Ok h -> process_start fs h (sw s) = Ok (h', wd, closing) ->
  work j fs s = Some (Ok (worked j fd h' wd closing s)).
Proof. intros Hj Hus Ep. unfold work. rewrite Hj, (bind_ok _ _ _ Hus), (bind_ok _ _ _ Ep). done. Qed.

(** What a worker holds, and is not closing, is in the server's hands. *)
Lemma held c s i l :
  PoolMain.inv s -> related listenfd c s -> workers (tp c) !! i = Some (WRun l) -> i ∉ (t_ending c).*1 ->
  exists fd j, l = request_of fd /\ 0 <= fd /\ hands s !! j = Some fd.
Proof.
  intros Hinv [_ _ _ Hh He Hcl] Hi Hnot.
  destruct (hands_step _ i _ WLoop _ Hi Hh) as (rest & H1 & H2). cbn [whand app] in H1, H2.
  assert (Hl : l ∈ request_of <$> hands s ++ (ending s).*1) by (rewrite H1; left).
  apply list_elem_of_fmap in Hl as (fd & -> & [Hfd|Hfd]%elem_of_app).
  { apply list_elem_of_lookup in Hfd as [j Hj]. exists fd, j. split_and!; [done| |done].
    by destruct (inv_sock _ _ Hinv fd (inv_hands _ _ _ Hinv Hj)). }
  apply list_elem_of_fmap in Hfd as ([x ph] & -> & Hx). rewrite He in Hx.
  apply list_elem_of_fmap in Hx as ([i' [x' ph']] & [= <- <-] & Hx). cbn [fst] in *. destruct (Hcl i' x ph Hx) as [H0 Hi'].
  assert (i' <> i) as Hne by (intros ->; apply Hnot, list_elem_of_fmap; by eexists (i, _)).
  assert (Hin : request_of x ∈ rest).
  { rewrite <- H2. apply list_elem_of_bind. exists (WRun (request_of x)). split; [left|].
    apply list_elem_of_lookup_2 with i'. by rewrite list_lookup_insert_ne. }
  assert (Hn : NoDup (request_of <$> hands s ++ (ending s).*1)).
  { apply NoDup_fmap_2_strong; [|by apply inv_held].
    intros a b Ha Hb. assert (forall z, z ∈ hands s ++ (ending s).*1 -> 0 <= z) as Hpos.
    { intros z [Hz|Hz]%elem_of_app.
      - apply list_elem_of_lookup in Hz as [k Hk]. by destruct (inv_sock _ _ Hinv z (inv_hands _ _ _ Hinv Hk)).
      - rewrite He in Hz. apply list_elem_of_fmap in Hz as ([z' ph'] & -> & Hz).
        apply list_elem_of_fmap in Hz as ([k [y py]] & [= -> ->] & Hz). by apply Hcl in Hz as [? _]. }
    by apply request_inj; apply Hpos. }
  rewrite H1 in Hn. by apply NoDup_cons in Hn as [[] _].
Qed.

(** The server sees what a worker sees when it calls [process]. *)
Lemma held_user c s fd j :
  PoolMain.inv s -> related listenfd c s -> hands s !! j = Some fd ->
  user_at (front (t_kern c) c) fd = user_at s fd.
Proof.
  intros Hinv [(q & _ & Hf) _ _ _ _ _] Hj. unfold user_at, front. cbn [users].
  destruct (undecided q) as [r|]; [|by destruct Hf as [-> _]].
  destruct Hf as (ev & h1 & Hrd & _ & -> & _).
  by rewrite lookup_insert_ne by (by apply (hands_disarmed s j fd _ Hinv Hj), (rd_armed _ _ _ _ Hrd)).
Qed.

Lemma closing_user c s fd :
  PoolMain.inv s -> related listenfd c s -> fd ∉ watched (kern s) ->
  user_at (front (t_kern c) c) fd = user_at s fd.
Proof.
  intros Hinv [(q & _ & Hf) _ _ _ _ _] Hfd. unfold user_at, front. cbn [users].
  destruct (undecided q) as [r|]; [|by destruct Hf as [-> _]].
  destruct Hf as (ev & h & Hrd & _ & -> & _). rewrite lookup_insert_ne; [done|].
  intros Heq. apply Hfd. rewrite <- Heq. by apply (inv_armed_sub _ _ Hinv), Hrd.
Qed.

Lemma fresh_front c s fs :
  related listenfd c s -> (forall path, fs_open fs path ∉ watched (t_kern c)) -> fresh_open fs s.
Proof.
  intros [(q & _ & Hf) _ _ _ _ _] Hfs path. specialize (Hfs path).
  destruct (undecided q) as [r|]; [destruct Hf as (ev & h1 & _ & _ & _ & Hk)|destruct Hf as [_ Hk]];
    by rewrite Hk in Hfs.
Qed.

(** A worker's call of [process], as far as it goes in one step. *)
Lemma sim_start i l fs c c' closing s :
  workers (tp c) !! i = Some (WRun l) -> i ∉ (t_ending c).*1 ->
  (forall path, fs_open fs path ∉ watched (t_kern c)) -> process_at i fs (conn_of l) c = Ok (c', closing) ->
  PoolMain.inv s -> related listenfd c s ->
  exists fd j h' wd, let s1 := worked j fd h' wd closing s in
    l = request_of fd /\ 0 <= fd /\ hands s !! j = Some fd /\ PoolMain.step true max listenfd s s1 /\
    tp c' = tp c /\ t_sw c' = wd /\
    t_ending c' = (if closing then (i, (fd, Closed)) :: t_ending c else t_ending c) /\
    (forall q, front_of listenfd (undecided q) c s -> front_of listenfd (undecided q) c' s1).
Proof.
  intros Hi Hnot Hfs Hpr Hinv Hrel.
  destruct (held c s i l Hinv Hrel Hi Hnot) as (fd & j & -> & H0 & Hj).
  pose proof (held_user c s fd j Hinv Hrel Hj) as Hus.
  pose proof (fresh_front c s fs Hrel Hfs) as Hfo. destruct Hrel as [_ Hw _ _ _ _].
  pose proof (inv_hands s j fd Hinv Hj) as Hwatch. rewrite conn_of_request in Hpr by done.
  unfold process_at in Hpr. rewrite Hus in Hpr. apply bind_ok_inv in Hpr as (h & Hu & Hpr).
  apply bind_ok_inv in Hpr as ([[h' wd] cl] & Ep & Hpr). injection Hpr as <- <-.
  rewrite Hw in Ep. pose proof (work_worked fs s j fd h h' wd cl Hj Hu Ep) as Hgo.
  exists fd, j, h', wd. set (s1 := worked j fd h' wd cl s) in *. cbn [t_ending tp t_sw].
  split_and!; try done; [by eapply step_work|].
  intros q Hf. destruct (undecided q) as [r|].
  - destruct Hf as (ev & h1 & Hrd & -> & Hus' & Hk).
    pose proof (hands_disarmed s j fd _ Hinv Hj (rd_armed _ _ _ _ Hrd)) as Hne.
    assert (Hev : ev_fd ev ∈ watched (kern s)) by by apply (inv_armed_sub _ _ Hinv), Hrd.
    exists ev, h1.
    assert (Hoth : exists l, trace wd = trace (sw s) ++ l /\ others (ev_fd ev) l).
    { eapply process_others; [exact Ep|by apply (inv_home s fd Hinv Hwatch)|exact Hne| |].
      - destruct (inv_sock _ _ Hinv _ Hev). lia.
      - intros path Heq. apply (Hfo path). by rewrite Heq. }
    destruct Hoth as (l & Ht & Hl). split_ands; [|done| |].
    + eapply reading_kept; [|exact Hrd]. eapply (work_kept (ev_fd ev) j fs s s1 Hinv Hev); [|done|exact Hgo].
      rewrite Hj. congruence.
    + cbn [t_users users s1]. unfold s1, worked, store, front. cbn [users]. rewrite Hus'. by apply insert_insert_ne.
    + cbn [t_kern kern s1]. unfold s1, worked, store, front. cbn [kern sw]. rewrite Hk, Hw, Ht, since_app.
      by apply deliver_apply.
  - destruct Hf as [Hus' Hk]. cbn [front_of t_users t_kern users kern s1].
    unfold s1, worked, store, front. cbn [users kern sw]. by rewrite Hus', Hk, Hw.
Qed.

Lemma sim_process i intr l w' p' e fs c c' s :
  workers (tp c) !! i = Some (WRun l) -> i ∉ (t_ending c).*1 ->
  (forall path, fs_open fs path ∉ watched (t_kern c)) -> process_at i fs (conn_of l) c = Ok (c', false) ->
  run_step i intr (WRun l) (pool (tp c)) = Some (w', p', e) ->
  PoolMain.inv s -> related listenfd c s ->
  exists s1, rtc (PoolMain.step true max listenfd) s s1 /\
    related listenfd
      (set_tp (System p' (<[i := w']> (workers (tp c))) (producers (tp c)) (history (tp c) ++ e)) c') s1.
Proof.
  intros Hi Hnot Hfs Hpr E Hinv Hrel. cbn in E. injection E as <- <- <-.
  destruct (sim_start i l fs c c' false s Hi Hnot Hfs Hpr Hinv Hrel)
    as (fd & j & h' & wd & -> & H0 & Hj & Hst & Htp & Hsw & Hend & Hfront).
  exists (worked j fd h' wd false s). split; [by apply rtc_once|].
  destruct Hrel as [(q & Eq & Hf) Hw Hq Hh He Hcl].
  destruct (hands_step _ i _ WLoop _ Hi Hh) as (rest & H1 & H2). cbn [whand app] in H1, H2.
  split; cbn [tp set_tp pool workers producers t_sw t_ending worked sw hands PoolMain.queue ending]; try congruence.
  - exists q. split; [done|]. exact (Hfront q Hf).
  - rewrite H2. rewrite (delete_Permutation _ _ _ Hj) in H1. cbn in H1. by apply Permutation_cons_inv in H1.
  - rewrite Hend. intros i' x ph Hx. destruct (Hcl i' x ph Hx) as [Hx0 Hi']. split; [done|].
    rewrite list_lookup_insert_ne; [done|]. intros ->. apply Hnot, list_elem_of_fmap. by eexists (i', _).
Qed.

(** A worker's [process] closes the connection's descriptor. *)
Lemma sim_close i l fs c c' s :
  workers (tp c) !! i = Some (WRun l) -> i ∉ (t_ending c).*1 ->
  (forall path, fs_open fs path ∉ watched (t_kern c)) -> process_at i fs (conn_of l) c = Ok (c', true) ->
  PoolMain.inv s -> related listenfd c s ->
  exists s1, rtc (PoolMain.step true max listenfd) s s1 /\ related listenfd c' s1.
Proof.
  intros Hi Hnot Hfs Hpr Hinv Hrel.
  destruct (sim_start i l fs c c' true s Hi Hnot Hfs Hpr Hinv Hrel)
    as (fd & j & h' & wd & -> & H0 & Hj & Hst & Htp & Hsw & Hend & Hfront).
  exists (worked j fd h' wd true s). split; [by apply rtc_once|].
  destruct Hrel as [(q & Eq & Hf) Hw Hq Hh He Hcl]. split; rewrite ?Htp; try done.
  - exists q. split; [done|]. exact (Hfront q Hf).
  - cbn [worked hands ending fmap list_fmap fst]. rewrite Hh, <- Permutation_middle.
    apply fmap_Permutation. rewrite app_comm_cons. by apply Permutation_app_tail, delete_Permutation.
  - rewrite Hend. cbn. by rewrite He.
  - rewrite Hend. intros i' x ph [[= -> -> ->]|Hx]%elem_of_cons; [done|by apply (Hcl i' x ph)].
Qed.

(** The next statement of a [close_conn], as the server with a main thread ahead of it and
    as the one without see it. *)
Lemma finish_front j fd ph c s s' :
  (t_ending c).*2 !! j = Some (fd, ph) ->
  finish j (m_user_count (t_sw c) - 1) (front (t_kern c) c) = Some (Ok s') ->
  PoolMain.inv s -> related listenfd c s ->
  exists s1, finish j (m_user_count (sw s) - 1) s = Some (Ok s1) /\
    sw s' = sw s1 /\ PoolMain.queue s1 = PoolMain.queue s /\ hands s1 = hands s /\
    ending s1 = match ph with
                | Closed => <[j := (fd, Cleared)]> (ending s)
                | Cleared => <[j := (fd, Counted)]> (ending s)
                | Counted => delete j (ending s)
                end /\
    (forall o, front_of listenfd o c s ->
       match o with
       | None => users s' = users s1 /\ kern s' = kern s1
       | Some r => forall ev h, t_users c = <[ev_fd ev := h]> (users s) ->
           t_kern c = deliver (ev_fd ev) (kern s) -> ev_fd ev ∈ watched (kern s) ->
           users s' = <[ev_fd ev := h]> (users s1) /\ kern s' = deliver (ev_fd ev) (kern s1)
       end).
Proof.
  intros Hj E Hinv Hrel. pose proof Hrel as [_ Hw _ _ He _].
  assert (Hjs : ending s !! j = Some (fd, ph)) by (by rewrite He).
  destruct (inv_ending _ _ Hinv fd ph) as [Hfd Hph]; [by eapply list_elem_of_lookup_2|].
  pose proof (closing_user _ _ _ Hinv Hrel Hfd) as Hu.
  unfold finish in *. cbn [front ending] in E. rewrite Hj in E. rewrite Hjs. rewrite Hw in E.
  destruct ph; injection E as E.
  - rewrite Hu in E. apply bind_ok_inv in E as (c0 & Ec & E). injection E as <-. rewrite (bind_ok _ _ _ Ec).
    eexists. split; [reflexivity|]. unfold store, front. cbn [set_ending users kern sw PoolMain.queue hands ending].
    rewrite Hw, !drop_all. split_and!; try done. intros [r|].
    + intros _ ev h -> -> Hev. split; [|done]. apply insert_insert_ne. congruence.
    + by intros [-> ->].
  - subst s'. eexists. split; [reflexivity|].
    unfold set_world, front. cbn [set_ending users kern sw PoolMain.queue hands ending set_user_count trace].
    rewrite Hw, !drop_all. split_and!; try done. intros [r|]; [by intros _ ev h -> ->|by intros [-> ->]].
  - rewrite Hu in E. apply bind_ok_inv in E as (c0 & Ec & E). injection E as <-. rewrite (bind_ok _ _ _ Ec).
    assert (m_sockfd c0 = -1) as Hsock.
    { specialize (Hph ltac:(done)). unfold user_at in Ec. case_decide; [|done]. by injection Ec as <-. }
    eexists. split; [reflexivity|].
    unfold set_world, front. cbn [set_ending users kern sw PoolMain.queue hands ending].
    unfold modfd, emit. cbn [trace]. rewrite Hw, Hsock, !since_app. split_and!; try done.
    intros [r|]; [|by intros [-> ->]]. intros _ ev h -> -> Hev. split; [done|].
    apply deliver_apply. pose proof (inv_sock _ _ Hinv _ Hev). repeat constructor. cbn. lia.
Qed.

(** A worker goes on closing a connection. *)
Lemma sim_finish j i fd ph e c c' s :
  t_ending c !! j = Some (i, (fd, ph)) -> finish_at j e c = Some (Ok c') ->
  PoolMain.inv s -> related listenfd c s ->
  exists s1, PoolMain.step true max listenfd s s1 /\ tp c' = tp c /\ t_sw c' = sw s1 /\ t_ending c' = e /\
    PoolMain.queue s1 = PoolMain.queue s /\ hands s1 = hands s /\
    ending s1 = match ph with
                | Closed => <[j := (fd, Cleared)]> (ending s)
                | Cleared => <[j := (fd, Counted)]> (ending s)
                | Counted => delete j (ending s)
                end /\
    (forall q, front_of listenfd (undecided q) c s -> front_of listenfd (undecided q) c' s1).
Proof.
  intros Hj Hfin Hinv Hrel. unfold finish_at in Hfin.
  destruct (finish j _ _) as [[s'|]|] eqn:E; [|done|done]. injection Hfin as <-.
  pose proof Hrel as [(q0 & Eq & Hf) Hw Hq Hh He Hcl].
  destruct (finish_front j fd ph c s s' ltac:(by rewrite list_lookup_fmap, Hj) E Hinv Hrel) as (s1 & E1 & H1 & H2 & H3 & H4 & H5).
  assert (Hkeep : forall ev h, reading listenfd ev h s -> kept (ev_fd ev) s s1).
  { intros ev h Hrd. eapply finish_kept; [exact Hinv| |exact E1]. by apply (inv_armed_sub _ _ Hinv), Hrd. }
  exists s1. cbn [tp t_sw t_ending]. split_and!; try done; [by eapply step_finish|].
  intros q Hq'. specialize (H5 _ Hq'). destruct (undecided q) as [r|]; [|exact H5].
  destruct Hq' as (ev & h & Hrd & -> & Hus & Hk).
  destruct (H5 ev h Hus Hk) as [H6 H7]; [by apply (inv_armed_sub _ _ Hinv), Hrd|].
  exists ev, h. split_and!; [|done|done|done]. eapply reading_kept; [by eapply Hkeep|done].
Qed.

(** A worker sets [m_sockfd] to -1, or counts [m_user_count] down. *)
Lemma sim_go_on j i fd ph ph' c c' s :
  t_ending c !! j = Some (i, (fd, ph)) ->
  finish_at j (<[j := (i, (fd, ph'))]> (t_ending c)) c = Some (Ok c') ->
  ph = Closed /\ ph' = Cleared \/ ph = Cleared /\ ph' = Counted ->
  PoolMain.inv s -> related listenfd c s ->
  exists s1, rtc (PoolMain.step true max listenfd) s s1 /\ related listenfd c' s1.
Proof.
  intros Hj Hfin Hph Hinv Hrel.
  destruct (sim_finish j i fd ph _ c c' s Hj Hfin Hinv Hrel) as (s1 & Hst & Htp & Hsw & Hte & Hq1 & Hh1 & He1 & Hfront).
  exists s1. split; [by apply rtc_once|]. destruct Hrel as [(q & Eq & Hf) Hw Hq Hh He Hcl].
  assert (Hjs : ending s !! j = Some (fd, ph)) by (by rewrite He, list_lookup_fmap, Hj).
  assert (He1' : ending s1 = <[j := (fd, ph')]> (ending s))
    by (rewrite He1; destruct Hph as [[-> ->]|[-> ->]]; done).
  split; rewrite ?Htp; try done.
  - exists q. split; [done|]. by apply Hfront.
  - by rewrite Hq1.
  - by rewrite Hh1, He1', (fmap_insert_fst _ _ _ _ _ Hjs).
  - rewrite He1', Hte, He. by rewrite list_fmap_insert.
  - rewrite Hte. intros i' x ph2 [[= -> -> ->]|Hx]%list_elem_of_insert_cases.
    + apply (Hcl i fd ph). by eapply list_elem_of_lookup_2.
    + by apply (Hcl i' x ph2).
Qed.

(** The worker's last statement of [process], and its return to [run]. *)
Lemma sim_return i intr j l fd w' p' e c c' s :
  t_ending c !! j = Some (i, (fd, Counted)) -> workers (tp c) !! i = Some (WRun l) ->
  finish_at j (delete j (t_ending c)) c = Some (Ok c') ->
  run_step i intr (WRun l) (pool (tp c)) = Some (w', p', e) ->
  PoolMain.inv s -> related listenfd c s ->
  exists s1, rtc (PoolMain.step true max listenfd) s s1 /\
    related listenfd
      (set_tp (System p' (<[i := w']> (workers (tp c))) (producers (tp c)) (history (tp c) ++ e)) c') s1.
Proof.
  intros Hj Hi Hfin E Hinv Hrel. cbn in E. injection E as <- <- <-.
  destruct (sim_finish j i fd Counted _ c c' s Hj Hfin Hinv Hrel)
    as (s1 & Hst & Htp & Hsw & Hte & Hq1 & Hh1 & He1 & Hfront). cbn in He1.
  exists s1. split; [by apply rtc_once|]. destruct Hrel as [(q & Eq & Hf) Hw Hq Hh He Hcl].
  assert (Hjs : ending s !! j = Some (fd, Counted)) by (by rewrite He, list_lookup_fmap, Hj).
  destruct (Hcl i fd Counted) as [H0 Hi']; [by eapply list_elem_of_lookup_2|].
  rewrite Hi in Hi'. injection Hi' as ->.
  pose proof (delete_Permutation _ _ _ Hjs) as Hperm. pose proof (inv_once _ _ Hinv) as Hn.
  destruct (hands_step _ i _ WLoop _ Hi Hh) as (rest & H1 & H2). cbn [whand app] in H1, H2.
  split; cbn [tp set_tp pool workers producers t_sw t_ending]; try congruence.
  - exists q. split; [done|]. by apply Hfront.
  - rewrite H2, Hh1, He1. rewrite Hperm in H1. cbn [fmap list_fmap fst] in H1.
    rewrite <- Permutation_middle in H1. cbn in H1. by apply Permutation_cons_inv in H1.
  - rewrite He1, Hte, He. symmetry. apply list_fmap_delete.
  - rewrite Hte. intros i' x ph Hx.
    assert (Hx' : (i', (x, ph)) ∈ t_ending c).
    { rewrite (delete_Permutation _ _ _ Hj). by right. }
    destruct (Hcl i' x ph Hx') as [Hx0 Hi']. split; [done|]. rewrite list_lookup_insert_ne; [done|].
    intros <-. rewrite Hi in Hi'. injection Hi' as Hreq. apply request_inj in Hreq as ->; [|done..].
    rewrite Hperm in Hn. cbn in Hn. apply NoDup_cons in Hn as [Hn _]. apply Hn.
    rewrite He. change (fun p : nat * (Z * phase) => p.2) with (@snd nat (Z * phase)).
    apply list_elem_of_fmap. exists (x, ph). split; [done|].
    rewrite <- list_fmap_delete. apply list_elem_of_fmap. by exists (i, (x, ph)).
Qed.

End Simulation.

(** ** The refinement *)

(** Each step of a thread is a step, or none, of the pool alone. *)
Lemma process_at_tp i fs fd c c' closing : process_at i fs fd c = Ok (c', closing) -> tp c' = tp c.
Proof.
  unfold process_at. intros (h & _ & H)%bind_ok_inv.
  apply bind_ok_inv in H as ([[h' w] cl] & _ & H). by injection H as <- _.
Qed.

Lemma finish_at_tp j e c c' : finish_at j e c = Some (Ok c') -> tp c' = tp c.
Proof. unfold finish_at. destruct (finish _ _ _) as [[]|]; [by intros [= <-]|done..]. Qed.

Lemma thread_step_pool listenfd c c' :
  thread_step listenfd c c' -> rtc ThreadPool.step (tp c) (tp c').
Proof.
  assert (Hafter : forall s', producers (tp c) !! 0%nat = Some PIdle ->
            rtc ThreadPool.step (tp c) (tp (after_event s' c))).
  { intros s' Hp. unfold after_event. cbn [tp]. destruct (PoolMain.queue s') as [|fd q]; [done|].
    by apply rtc_once, step_call. }
  assert (Hrun : forall i intr w w' p' e c1, workers (tp c) !! i = Some w ->
            run_step i intr w (pool (tp c)) = Some (w', p', e) ->
            rtc ThreadPool.step (tp c) (tp (set_tp (System p' (<[i := w']> (workers (tp c)))
              (producers (tp c)) (history (tp c) ++ e)) c1))).
  { intros i intr w w' p' e c1 Hi E. by eapply rtc_once, step_thread, tstep_worker. }
  intros [ev s' Hp _ _ _ _|ev s' Hp _ _ _ _|q q' p' e Hq E|i intr w w' p' e Hi _ E
    |i intr l w' p' e fs c1 Hi _ _ _ E|i l fs c1 _ _ _ E|i j fd c1 _ E|i j fd c1 _ E
    |i intr j l fd w' p' e c1 _ Hi _ E].
  - by apply Hafter.
  - by apply Hafter.
  - eapply rtc_once, (step_thread _ false), (tstep_producer _ _ 0%nat); [exact Hq|exact E].
  - by eapply Hrun.
  - by eapply Hrun.
  - by rewrite (process_at_tp _ _ _ _ _ _ E).
  - by rewrite (finish_at_tp _ _ _ _ E).
  - by rewrite (finish_at_tp _ _ _ _ E).
  - by eapply Hrun.
Qed.

Lemma sim_step max listenfd c c' s :
  ThreadPool.inv max (tp c) -> PoolMain.inv s -> related listenfd c s -> thread_step listenfd c c' ->
  exists s', rtc (PoolMain.step true max listenfd) s s' /\ related listenfd c' s'.
Proof.
  intros Hpool Hinv Hrel Hst.
  assert (Hpool' : ThreadPool.inv max (tp c')).
  { apply (rtc_invariant ThreadPool.step (ThreadPool.inv max) (tp c)); [|done|by eapply thread_step_pool].
    intros a b. apply ThreadPool.inv_step. }
  destruct Hst as [ev s' Hp Hl Hf Hfe E|ev s' Hp Hl Ha Hw E|q q' p' e Hq E|i intr w w' p' e Hi Hrun E
    |i intr l w' p' e fs c1 Hi Hnot Hfs Hpr E|i l fs c1 Hi Hnot Hfs Hpr|i j fd c1 Hj E|i j fd c1 Hj E
    |i intr j l fd w' p' e c1 Hj Hi Hfin E].
  - destruct (rel_front _ _ _ Hrel) as (q & Eq & Hfr). rewrite Eq in Hp. injection Hp as ->.
    destruct Hfr as [_ Hk].
    apply (sim_event max listenfd (t_kern c) ev c s s' Eq Hrel E); [|by intros].
    rewrite Hk. intros s1 E1. apply (step_listen _ _ _ _ ev); [done|by rewrite <- Hk| |].
    + intros _. by rewrite (rel_ending _ _ _ Hrel).
    + rewrite <- E1. by destruct s.
  - destruct (rel_front _ _ _ Hrel) as (q & Eq & Hfr). rewrite Eq in Hp. injection Hp as ->.
    destruct Hfr as [_ Hk]. rewrite Hk in Ha, E.
    apply (sim_event max listenfd _ ev c s s' Eq Hrel E).
    + intros s1 E1. by apply (step_event _ _ _ _ ev).
    + intros _. split_ands; [done|done|done|].
      by apply (inv_sock _ _ Hinv), (inv_armed_sub _ _ Hinv).
  - by eapply sim_append.
  - eapply sim_worker; [exact Hi|exact Hrun| |exact E|exact Hrel].
    intros f ->. apply (inv_workers _ _ Hpool' i (WFault f)). cbn [tp set_tp workers].
    apply list_lookup_insert_eq. by eapply lookup_lt_Some.
  - by eapply sim_process.
  - by eapply sim_close.
  - eapply sim_go_on; [exact Hj|exact E|by left|done..].
  - eapply sim_go_on; [exact Hj|exact E|by right|done..].
  - by eapply sim_return.
Qed.

(** A thread that faults does so in a handler or in [process], and the server's step faults
    in the same way. *)
Lemma sim_fault max listenfd c s f :
  ThreadPool.inv max (tp c) -> PoolMain.inv s -> related listenfd c s -> thread_fault listenfd c f ->
  PoolMain.step_fault true max listenfd s f.
Proof.
  intros Hpool Hinv Hrel. pose proof Hrel as [(q & Eq & Hf) Hw Hq Hh He Hcl].
  assert (Hidle : producers (tp c) !! 0%nat = Some PIdle -> t_users c = users s /\ t_kern c = kern s).
  { rewrite Eq. intros [= ->]. exact Hf. }
  assert (Hsee : forall k0, t_users c = users s ->
    set_kern k0 s = with_pool (PoolMain.queue s) (hands s) (lost s) (front k0 c)).
  { intros k0 Hu. unfold with_pool, front, set_kern. cbn [users sw kern ending]. by rewrite Hu, Hw, He. }
  intros [i Hi|j Hj|ev Hp Hl Hac Hae E|ev Hp Hl Ha Hwa E|i l fs Hi Hnot Hfs E|j e E].
  - by apply (inv_workers _ _ Hpool) in Hi.
  - by apply (inv_producers _ _ Hpool) in Hj.
  - destruct (Hidle Hp) as [Hu Hk]. rewrite Hk in *.
    apply (fault_listen _ _ _ _ _ ev); [done|done|by rewrite He|].
    apply (handle_event_err max _ _ (PoolMain.queue s) (hands s) (lost s)) in E.
    rewrite <- E, <- Hsee by done. by destruct s.
  - destruct (Hidle Hp) as [Hu Hk]. rewrite Hk in *.
    apply (fault_event _ _ _ _ _ ev); [done..|].
    apply (handle_event_err max _ _ (PoolMain.queue s) (hands s) (lost s)) in E. by rewrite <- E, <- Hsee.
  - destruct (held _ _ _ _ _ Hinv Hrel Hi Hnot) as (fd & j & -> & H0 & Hj).
    apply (fault_work _ _ _ _ _ j fs); [by eapply fresh_front|].
    unfold process_at in E. rewrite conn_of_request in E by done.
    erewrite held_user in E; [|done..].
    unfold work. rewrite Hj. f_equal. destruct (user_at s fd) as [h|]; [|by injection E as ->].
    cbn [mbind res_bind] in *. rewrite Hw in E.
    destruct (process_start fs h (sw s)) as [[[h' w] cl]|]; [done|by injection E as ->].
  - apply (fault_finish _ _ _ _ _ j (m_user_count (sw s) - 1)); [done|]. unfold finish_at in E.
    destruct (finish j _ (front _ _)) as [[s'|f']|] eqn:E'; [done| |done]. injection E as ->.
    revert E'. unfold finish. cbn [front ending]. rewrite Hw, <- He.
    destruct (ending s !! j) as [[fd ph]|] eqn:Ej; [|done].
    destruct (inv_ending _ _ Hinv fd ph) as [Hfd _]; [by eapply list_elem_of_lookup_2|].
    rewrite (closing_user _ _ _ _ Hinv Hrel Hfd).
    destruct ph; try done; by destruct (user_at s fd).
Qed.

(** The connection the main thread is handing over. *)
Definition main_has (c : threads) : list loc :=
  producers (tp c) ≫= (fun q => match undecided q with Some (Some l) => [l] | _ => [] end).

(** The requests in a thread's hands or in the queue. *)
Definition in_pool (c : threads) : list loc :=
  main_has c ++ (workers (tp c) ≫= whand) ++ omap id (m_workqueue (pool (tp c))).

(** What is in the pool, or with the main thread on its way there, or being closed, in terms
    of the server that hands over in one step. *)
Lemma related_in_pool listenfd c s :
  PoolMain.inv s -> related listenfd c s ->
  exists o, in_pool c ≡ₚ request_of <$> (o ++ hands s ++ PoolMain.queue s) ++ (ending s).*1 /\
    (forall fd, fd ∈ o ++ hands s ++ PoolMain.queue s -> fd ∈ watched (t_kern c) /\ fd ∉ armed (t_kern c) /\
       m_sockfd (default new_conn (t_users c !! fd)) = fd /\ 0 <= fd) /\
    NoDup (o ++ hands s ++ PoolMain.queue s).
Proof.
  intros Hinv [(q & Eq & Hf) Hw Hq Hh He Hcl].
  assert (Hplaces : elements (watched (kern s)) ≡ₚ
    elements (armed (kern s)) ++ PoolMain.queue s ++ hands s ++ lost s) by exact (inv_places _ _ Hinv).
  pose proof (NoDup_elements (watched (kern s))) as Hn. rewrite Hplaces in Hn.
  assert (Homap : omap id (m_workqueue (pool (tp c))) = request_of <$> PoolMain.queue s).
  { rewrite Hq. generalize (PoolMain.queue s). intros l. induction l as [|x l IH]; [done|]. cbn. by rewrite IH. }
  assert (Hpl : forall fd, fd ∈ hands s ++ PoolMain.queue s ->
            fd ∈ watched (kern s) /\ fd ∉ armed (kern s) /\ sock_of s fd = fd /\ 0 <= fd).
  { intros fd Hfd.
    assert (Hwat : fd ∈ watched (kern s)).
    { apply elem_of_elements. rewrite Hplaces. apply elem_of_app. right. revert Hfd. rewrite !elem_of_app. tauto. }
    destruct (inv_sock _ _ Hinv fd Hwat) as [H0 Hs]. split_ands; try done.
    intros Ha. apply NoDup_app in Hn as (_ & Hn & _).
    apply (Hn fd); [by apply elem_of_elements|]. revert Hfd. rewrite !elem_of_app. tauto. }
  assert (Hnd : NoDup (hands s ++ PoolMain.queue s)).
  { apply NoDup_app in Hn as (_ & _ & Hn). rewrite !(assoc_L (++)) in Hn.
    apply NoDup_app in Hn as (Hn & _ & _). by rewrite (Permutation_app_comm (hands s)). }
  unfold in_pool, main_has. rewrite Eq, Homap. cbn [mbind list_bind].
  destruct (undecided q) as [r|]; cbn [front_of] in Hf.
  - destruct Hf as (ev & h & Hrd & -> & Hus & Hk). pose proof (rd_armed _ _ _ _ Hrd) as Ha.
    assert (Hfresh : ev_fd ev ∉ hands s ++ PoolMain.queue s) by (intros Hx; by apply Hpl in Hx as (_ & Hx & _)).
    exists [ev_fd ev]. cbn [app]. split; [rewrite Hh, fmap_cons, !fmap_app; cbn; solve_Permutation|]. split.
    + intros fd [->|Hfd]%elem_of_cons.
      * pose proof (inv_armed_sub _ _ Hinv _ Ha) as Hwat.
        destruct (inv_sock _ _ Hinv _ Hwat) as [H0 _]. rewrite Hk, Hus, lookup_insert_eq.
        split_ands; [done|cbn; set_solver| |done]. cbn [default].
        destruct (rd_user _ _ _ _ Hrd) as (h0 & Hu0 & Hr). apply read_sock in Hr.
        cbn. rewrite Hr. by destruct (user_sock None s _ h0 Hinv Hwat Hu0).
      * assert (Hne : ev_fd ev <> fd) by (intros Heq; apply Hfresh; by rewrite Heq).
        apply Hpl in Hfd as (H1 & H2 & H3 & H4). rewrite Hk, Hus, lookup_insert_ne by done.
        split_ands; [done|cbn; set_solver|done|done].
    + by constructor.
  - destruct Hf as [Hus Hk]. exists []. cbn [app]. rewrite Hus, Hk. split; [rewrite Hh, !fmap_app; cbn; solve_Permutation|].
    split; [exact Hpl|exact Hnd].
Qed.

(** What is known of a connection in the pool: a worker has closed it, or it is open, its
    object holds its descriptor, and no event of it can be reported. *)
Definition pooled (c : threads) (fd : Z) : Prop :=
  fd ∉ armed (t_kern c) /\
  if decide (fd ∈ (t_ending c).*2.*1) then fd ∉ watched (t_kern c)
  else fd ∈ watched (t_kern c) /\ m_sockfd (default new_conn (t_users c !! fd)) = fd.

Lemma related_exclusive listenfd c s :
  PoolMain.inv s -> related listenfd c s ->
  NoDup (in_pool c) /\ (forall l, l ∈ in_pool c -> pooled c (conn_of l)).
Proof.
  intros Hinv Hrel. destruct (related_in_pool listenfd c s Hinv Hrel) as (o & Hperm & Hall & Hnd).
  pose proof (rel_ending _ _ _ Hrel) as He.
  assert (Hend : forall fd, fd ∈ (ending s).*1 -> 0 <= fd /\ fd ∉ watched (t_kern c) /\ fd ∉ armed (t_kern c)).
  { intros fd ([x ph] & -> & Hx)%list_elem_of_fmap. destruct (inv_ending _ _ Hinv x ph Hx) as [Hn _].
    assert (x ∉ armed (kern s)) as Ha by (intros Ha; by apply Hn, (inv_armed_sub _ _ Hinv)).
    split; [|destruct Hrel as [(q & _ & Hf) _ _ _ _ _]; destruct (undecided q) as [r|];
      [destruct Hf as (ev & h & _ & _ & _ & ->); cbn; set_solver|by destruct Hf as [_ ->]]].
    rewrite He in Hx. apply list_elem_of_fmap in Hx as ([i [y py]] & [= -> ->] & Hx).
    by apply (rel_closing _ _ _ Hrel) in Hx as [? _]. }
  split.
  - rewrite Hperm. apply NoDup_fmap_2_strong.
    + intros x y [Hx|Hx]%elem_of_app [Hy|Hy]%elem_of_app; apply request_inj;
        first [by apply Hall in Hx as (_ & _ & _ & ?)|by apply Hend in Hx as [? _]
              |by apply Hall in Hy as (_ & _ & _ & ?)|by apply Hend in Hy as [? _]].
    + apply NoDup_app. split_and!; [done| |by apply (inv_once _ _ Hinv)].
      intros fd Hx Hy. apply Hall in Hx as [Hx _]. by apply Hend in Hy as (_ & Hy & _).
  - intros l. rewrite Hperm. intros (fd & -> & Hfd)%list_elem_of_fmap. unfold pooled. rewrite <- He.
    apply elem_of_app in Hfd as [Hfd|Hfd].
    + apply Hall in Hfd as (H1 & H2 & H3 & H4). rewrite conn_of_request by done. split; [done|].
      case_decide as Hx; [|done]. by apply Hend in Hx as (_ & Hx & _).
    + pose proof (Hend fd Hfd) as (H0 & H1 & H2). rewrite conn_of_request by done. split; [done|].
      by rewrite decide_True.
Qed.

Lemma setup_pool argc k listenfd p s0 :
  setup argc k = Ok (inr (listenfd, p, s0)) ->
  new_threadpool 8 10000 (r_pool k) = ((new_threadpool 8 10000 (r_pool k)).1, Ok p).
Proof.
  unfold setup. case_decide; [done|]. intros (? & _ & Hs)%bind_ok_inv.
  destruct (new_threadpool 8 10000 (r_pool k)) as [n [q|]]; [|done]. cbn [snd fst] in *.
  do 4 apply bind_ok_inv in Hs as (? & _ & Hs). by injection Hs as <- <- <-.
Qed.

Lemma boot_related argc k listenfd p s0 :
  setup argc k = Ok (inr (listenfd, p, s0)) -> related listenfd (boot p s0) s0.
Proof.
  intros H0. pose proof (setup_pool _ _ _ _ _ H0) as Hnew.
  apply new_threadpool_ok in Hnew as (_ & _ & _ & ->).
  unfold setup in H0. case_decide; [done|]. apply bind_ok_inv in H0 as (? & _ & H0).
  destruct (new_threadpool 8 10000 (r_pool k)).2; [|done].
  do 4 apply bind_ok_inv in H0 as (? & _ & H0). injection H0 as _ _ <-.
  split; cbn [tp boot start pool workers producers t_sw m_workqueue t_ending]; try done.
  - exists PIdle. by split.
  - intros i fd ph Hx. by apply not_elem_of_nil in Hx.
Qed.

(** [C6] threads_refine: the server's threads, with the lock, the semaphore and
    the queue of the pool, statement by statement, and a worker's [close_conn] too, in any
    interleaving, do only what PoolMain's server does, which hands a request over in
    one step: every state they reach is related to one that server reaches by the same
    calls to the kernel.  No thread faults in the pool's code; when a handler of the
    main thread or a worker's [process] faults, the server's step faults in the same
    way, in a related state.  A connection is in the main thread's
    call of [append], in the queue or in a worker's hands, in one of these at most
    and there once; no event of it can then be reported, and it is open and its object
    holds its own descriptor, unless the worker is closing it.

    As in PoolMain's server, [accept] never returns a descriptor whose closing
    a worker has not finished, and no update of [m_user_count] is lost; the rest of
    [process] is one step, since the connection is then the worker's alone. *)
Theorem threads_refine argc k listenfd p s0 c :
  setup argc k = Ok (inr (listenfd, p, s0)) -> rtc (thread_step listenfd) (boot p s0) c ->
  (exists s, rtc (PoolMain.step true 10000 listenfd) s0 s /\ related listenfd c s /\ t_sw c = sw s /\
     forall f, thread_fault listenfd c f -> PoolMain.step_fault true 10000 listenfd s f) /\
  (forall i f, workers (tp c) !! i <> Some (WFault f)) /\
  (forall j f, producers (tp c) !! j <> Some (PFault f)) /\
  NoDup (in_pool c) /\ (forall l, l ∈ in_pool c -> pooled c (conn_of l)).
Proof.
  intros H0 Hr. pose proof (setup_inv _ _ _ _ _ H0) as Hinv0.
  pose proof (setup_pool _ _ _ _ _ H0) as Hnew.
  assert (H : ThreadPool.inv 10000 (tp c) /\
    exists s, rtc (PoolMain.step true 10000 listenfd) s0 s /\ related listenfd c s).
  { apply (rtc_invariant (thread_step listenfd) (fun c => ThreadPool.inv 10000 (tp c) /\
      exists s, rtc (PoolMain.step true 10000 listenfd) s0 s /\ related listenfd c s) (boot p s0)); [| |done].
    - intros a b [Hpool (s & Hs & Hrel)] Hst. split.
      + apply (rtc_invariant ThreadPool.step (ThreadPool.inv 10000) (tp a)); [|done|by eapply thread_step_pool].
        intros x y. apply ThreadPool.inv_step.
      + destruct (sim_step 10000 listenfd a b s Hpool (PoolMain.inv_run _ _ _ _ Hinv0 Hs) Hrel Hst)
          as (s' & Hs' & Hrel'). exists s'. split; [by etrans|done].
    - split; [by eapply (inv_reachable _ _ _ _ _ 1); [exact Hnew|]|]. exists s0. split; [done|].
      by eapply boot_related. }
  destruct H as [Hpool (s & Hs & Hrel)]. pose proof (PoolMain.inv_run _ _ _ _ Hinv0 Hs) as Hinv.
  split; [exists s; split_and!; [done|done|apply Hrel|by intros f; apply sim_fault]|]. split.
  { intros i f Hi. by apply (inv_workers _ _ Hpool) in Hi. }
  split; [intros j f Hj; by apply (inv_producers _ _ Hpool) in Hj|].
  by apply (related_exclusive listenfd c s).
Qed.

(** ** An example run *)

(** Scheduling: an event for the main thread, a step of it inside [append], a
    step of a worker (when the file it is asked for is empty, or not), the next statement
    of a [close_conn]. *)
Inductive move := MEvent (ev : PoolMain.event) | MAppend | MWorker (empty : bool) (i : nat) | MFinish (j : nat).

(** A file system whose files are empty; like [w_fs] it opens every file as descriptor 9. *)
Definition e_fs : fsys := Fsys (fun _ => Some (Stat 33188 0)) (fun _ => 9) (fun _ _ => MapFailed).
Definition move_once (listenfd : Z) (m : move) (c : threads) : option threads :=
  match m with
  | MEvent ev =>
      match producers (tp c) !! 0%nat with
      | Some PIdle =>
          if decide (ev_fd ev = listenfd) then
            if decide ((ev_accept ev).1 ∉ watched (t_kern c) /\ (ev_accept ev).1 ∉ (t_ending c).*2.*1) then
              match PoolMain.handle_event 0 listenfd ev (front (t_kern c) c) with
              | Ok s => Some (after_event s c) | Err _ => None
              end
            else None
          else if decide (ev_fd ev ∈ armed (t_kern c) /\ wants ev) then
            match PoolMain.handle_event 0 listenfd ev (front (deliver (ev_fd ev) (t_kern c)) c) with
            | Ok s => Some (after_event s c) | Err _ => None
            end
          else None
      | _ => None
      end
  | MAppend =>
      q ← producers (tp c) !! 0%nat;
      '(q', p', e) ← append_step 0 q (pool (tp c));
      Some (set_tp (System p' (workers (tp c)) (<[0%nat := q']> (producers (tp c))) (history (tp c) ++ e)) c)
  | MWorker empty i =>
      w ← workers (tp c) !! i;
      '(w', p', e) ← run_step i false w (pool (tp c));
      let t := System p' (<[i := w']> (workers (tp c))) (producers (tp c)) (history (tp c) ++ e) in
      match w with
      | WRun l =>
          if decide (9 ∉ watched (t_kern c) /\ i ∉ (t_ending c).*1) then
            match process_at i (if empty : bool then e_fs else w_fs) (conn_of l) c with
            | Ok (c', closing) => Some (if (closing : bool) then c' else set_tp t c')
            | Err _ => None
            end
          else None
      | _ => Some (set_tp t c)
      end
  | MFinish j =>
      '(i, (fd, ph)) ← t_ending c !! j;
      match ph with
      | Closed => finish_at j (<[j := (i, (fd, Cleared))]> (t_ending c)) c
      | Cleared => finish_at j (<[j := (i, (fd, Counted))]> (t_ending c)) c
      | Counted => None
      end ≫= (fun r => match r with Ok c' => Some c' | Err _ => None end)
  end.

Definition moves (listenfd : Z) (ms : list move) (c : threads) : option threads :=
  foldl (fun o m => o ≫= move_once listenfd m) (Some c) ms.

Lemma move_sound listenfd m c c' : move_once listenfd m c = Some c' -> thread_step listenfd c c'.
Proof.
  destruct m as [ev| |empty i|j]; cbn [move_once].
  - destruct (producers (tp c) !! 0%nat) as [[]|] eqn:Ep; try done.
    case_decide as Hl; [|case_decide as Ha; [|done]].
    + case_decide as Hf; [|done]. destruct Hf as [Hf Hfe]. destruct (PoolMain.handle_event _ _ _ _) as [s'|] eqn:E; [|done].
      intros [= <-]. by apply (main_accepts _ _ ev).
    + destruct Ha as [Ha Hw]. destruct (PoolMain.handle_event _ _ _ _) as [s'|] eqn:E; [|done].
      intros [= <-]. by apply (main_event _ _ ev).
  - intros (q & Hq & H)%bind_Some. apply bind_Some in H as ([[q' p'] e] & E & H).
    injection H as <-. by eapply main_appends.
  - intros (w & Hw & H)%bind_Some. apply bind_Some in H as ([[w' p'] e] & E & H).
    assert (Hw' : (exists l, w = WRun l) \/ forall l, w <> WRun l)
      by (destruct w as [| | | | | | | |l| |]; try (by right); left; by exists l).
    destruct Hw' as [[l ->]|Hr].
    + case_decide as H9; [|done]. destruct H9 as [H9 Hnot].
      destruct (process_at i _ _ _) as [[c1 closing]|] eqn:Ep; [|done].
      assert (Hfs : forall path, fs_open (if empty then e_fs else w_fs) path ∉ watched (t_kern c))
        by (intros path; by destruct empty).
      destruct closing; injection H as <-; [by eapply worker_closes|].
      by eapply (worker_processes _ _ i false l).
    + assert (Some (set_tp (System p' (<[i := w']> (workers (tp c))) (producers (tp c))
        (history (tp c) ++ e)) c) = Some c') as [= <-]
        by (destruct w as [| | | | | | | |l| |]; try exact H; by destruct (Hr l)).
      by eapply (worker_runs _ _ i false w).
  - intros ([i [fd ph]] & Hj & H)%bind_Some. apply bind_Some in H as ([c1|] & E & [= <-]).
    destruct ph; [by eapply worker_clears|by eapply worker_counts|done].
Qed.

Lemma moves_sound listenfd ms c c' : moves listenfd ms c = Some c' -> rtc (thread_step listenfd) c c'.
Proof.
  unfold moves. revert c. induction ms as [|m ms IH]; intros c H; cbn [foldl] in H; [by injection H as <-|].
  cbn [mbind option_bind] in H. destruct (move_once listenfd m c) as [c1|] eqn:E.
  - eapply rtc_l; [by eapply move_sound|by apply IH].
  - exfalso. clear -H. induction ms; [done|]. by apply IHms.
Qed.

(** A client connects and asks for a file that is empty; a worker takes the request and
    begins to close the connection, while the main thread accepts another client and hands
    over its request. *)
Definition request0 : bytes := rq_bytes w_first.
Definition schedule0 : list move :=
  [MEvent (Event 3 EPOLLIN (5, 0) [] []); MWorker true 0;
   MEvent (Event 5 EPOLLIN (0, 0) [Received request0; Again] []); MAppend; MAppend; MAppend; MAppend;
   MAppend; MWorker true 0; MAppend; MEvent (Event 3 EPOLLIN (6, 0) [] []);
   MWorker true 0; MWorker true 0; MWorker true 0; MWorker true 0; MWorker true 0; MWorker true 0;
   MEvent (Event 6 EPOLLIN (0, 0) [Received request0; Again] []); MAppend; MFinish 0; MAppend].
Definition pool1 : threadpool := ThreadPool 8 10000 true [] (Locker None) (Sem 0) false.
Definition served0 : threads := default (boot pool1 start0) (moves 3 schedule0 (boot pool1 start0)).

(** The worker has closed 5 and set its object's [m_sockfd] to -1; the main thread is inside
    [append] with 6. *)
Example served0_state :
  match producers (tp served0) with [q] => undecided q | _ => None end = Some (Some (request_of 6)) /\
  t_ending served0 = [(0%nat, (5, Cleared))] /\ bool_decide (5 ∈ watched (t_kern served0)) = false /\
  (m_sockfd <$> t_users served0 !! 5) = Some (-1).
Proof. vm_compute. by split_ands. Qed.

Lemma threads_refine_witness :
  setup 3 setup0 = Ok (inr (3, pool1, start0)) /\ rtc (thread_step 3) (boot pool1 start0) served0 /\
  (exists s, rtc (PoolMain.step true 10000 3) start0 s /\ related 3 served0 s /\ t_sw served0 = sw s /\
     forall f, thread_fault 3 served0 f -> PoolMain.step_fault true 10000 3 s f) /\
  (forall i f, workers (tp served0) !! i <> Some (WFault f)) /\
  (forall j f, producers (tp served0) !! j <> Some (PFault f)) /\
  NoDup (in_pool served0) /\ (forall l, l ∈ in_pool served0 -> pooled served0 (conn_of l)).
Proof.
  assert (E : setup 3 setup0 = Ok (inr (3, pool1, start0))) by reflexivity.
  assert (Hr : rtc (thread_step 3) (boot pool1 start0) served0).
  { apply (moves_sound 3 schedule0). vm_compute. reflexivity. }
  split; [exact E|]. split; [exact Hr|].
  apply (threads_refine 3 setup0 3 pool1 start0 served0 E Hr).
Defined.
