(* ===== verification/CloseRace.v ===== *)
(** * Closing a connection while its descriptor is used again

    socket/pool/http_conn.cpp's [close_conn], called by a worker from [process], closes
    the descriptor before it sets [m_sockfd] to -1, and the main thread may [accept] the
    same descriptor, and with it the same element of [users], in between.  Here are two
    runs of PoolMain's server: one in which it does not, as connection_owned assumes, and
    one in which it does, after which connection_owned does not hold. *)

From S2P Require Import Prelude CString HttpConn HttpParse HttpServe HttpStream Locker ThreadPool PoolMain WebServer PoolThreads.

(** ** Runs of the server *)

Inductive turn := Reports (ev : PoolMain.event) | Takes | Works (i : nat) | Finishes (j : nat).

(** A turn that [PoolMain.step sync] allows; workers find empty files ([e_fs]), and no
    update of [m_user_count] is lost. *)
Definition turn_once (sync : bool) (max listenfd : Z) (t : turn) (s : web_server) : option web_server :=
  match t with
  | Reports ev =>
      match
        (if decide (ev_fd ev = listenfd) then
           if decide ((ev_accept ev).1 ∉ watched (kern s) /\ (sync = true -> (ev_accept ev).1 ∉ (ending s).*1)) then PoolMain.handle_event max listenfd ev s else Err AssertFail
         else if decide (ev_fd ev ∈ armed (kern s) /\ wants ev)
         then PoolMain.handle_event max listenfd ev (set_kern (deliver (ev_fd ev) (kern s)) s)
         else Err AssertFail)
      with Ok s => Some s | Err _ => None end
  | Takes => snd <$> take_request s
  | Works i =>
      if decide (9 ∉ watched (kern s)) then
        work i e_fs s ≫= (fun r => match r with Ok s => Some s | Err _ => None end)
      else None
  | Finishes j =>
      finish j (m_user_count (sw s) - 1) s ≫= (fun r => match r with Ok s => Some s | Err _ => None end)
  end.

Fixpoint turns (sync : bool) (max listenfd : Z) (ts : list turn) (s : web_server) : option web_server :=
  match ts with
  | [] => Some s
  | t :: ts => turn_once sync max listenfd t s ≫= turns sync max listenfd ts
  end.

Lemma turn_step sync max listenfd t s s' :
  turn_once sync max listenfd t s = Some s' -> PoolMain.step sync max listenfd s s'.
Proof.
  destruct t as [ev| |i|j]; cbn [turn_once].
  - repeat case_decide; try done.
    + destruct (PoolMain.handle_event _ _ _ _) eqn:E; [|done]. intros [= <-]. eapply step_listen; [done| | |exact E]; tauto.
    + destruct (PoolMain.handle_event _ _ _ _) eqn:E; [|done]. intros [= <-].
      eapply step_event; [done| | |exact E]; tauto.
  - destruct (take_request s) as [[fd s1]|] eqn:E; [|done]. intros [= <-]. by eapply step_take.
  - case_decide; [|done]. intros ([s1|] & E & [= <-])%bind_Some. eapply (step_work _ _ _ _ i e_fs); [|done].
    by intros path.
  - intros ([s1|] & E & [= <-])%bind_Some. by eapply step_finish.
Qed.

Lemma turns_steps sync max listenfd ts s s' :
  turns sync max listenfd ts s = Some s' -> rtc (PoolMain.step sync max listenfd) s s'.
Proof.
  revert s. induction ts as [|t ts IH]; intros s; cbn [turns]; [by intros [= <-]|].
  intros (s1 & E & H)%bind_Some. eapply rtc_l; [by eapply turn_step|by apply IH].
Qed.

(** ** A run in which the descriptor is not used again *)

(** A client on descriptor 5 asks for an empty file; a worker has closed the descriptor and
    set [m_sockfd] to -1 when the main thread accepts a client on descriptor 6. *)
Definition closing_turns : list turn :=
  [Reports (Event 3 EPOLLIN (5, 0) [] []);
   Reports (Event 5 EPOLLIN (0, 0) [Received request0; Again] []); Takes; Works 0; Finishes 0;
   Reports (Event 3 EPOLLIN (6, 0) [] [])].
Definition closing0 : web_server := default start0 (turns true 10000 3 closing_turns start0).

Example closing0_state : ending closing0 = [(5, Cleared)] /\ m_user_count (sw closing0) = 2.
Proof. vm_compute. by split. Qed.

Lemma connection_owned_witness :
  setup 3 setup0 = Ok (inr (3, pool1, start0)) /\ rtc (PoolMain.step true 10000 3) start0 closing0 /\
  NoDup (elements (armed (kern closing0)) ++ queue closing0 ++ hands closing0 ++ lost closing0) /\
  (forall fd, fd ∈ watched (kern closing0) <->
     fd ∈ elements (armed (kern closing0)) ++ queue closing0 ++ hands closing0 ++ lost closing0) /\
  (forall fd, fd ∈ watched (kern closing0) -> m_sockfd (default new_conn (users closing0 !! fd)) = fd) /\
  (forall fd ph, (fd, ph) ∈ ending closing0 -> fd ∉ watched (kern closing0)) /\
  m_user_count (sw closing0) = Z.of_nat (size (watched (kern closing0)) + uncounted closing0).
Proof.
  assert (E : setup 3 setup0 = Ok (inr (3, pool1, start0))) by reflexivity.
  assert (Hr : rtc (PoolMain.step true 10000 3) start0 closing0).
  { apply (turns_steps true 10000 3 closing_turns). vm_compute. reflexivity. }
  split; [exact E|]. split; [exact Hr|]. exact (connection_owned 10000 _ _ _ _ _ _ E Hr).
Defined.

(** ** The race *)

(** A client on descriptor 5 asks for an empty file and a worker closes the descriptor;
    the main thread accepts a second client, on descriptor 5; the worker goes on. *)
Definition race0 : list turn :=
  [Reports (Event 3 EPOLLIN (5, 0) [] []);
   Reports (Event 5 EPOLLIN (0, 0) [Received request0; Again] []); Takes; Works 0;
   Reports (Event 3 EPOLLIN (5, 0) [] []); Finishes 0; Finishes 0; Finishes 0].
Definition raced : web_server := default start0 (turns false 10000 3 race0 start0).

(** The second client hangs up. *)
Definition hung_up : PoolMain.event := Event 5 (Z.lor EPOLLIN EPOLLRDHUP) (0, 0) [] [].

(** close_race: the server can reach a state in which a connection that has just been
    accepted, and that nobody has closed, is in an object whose [m_sockfd] is -1.  When
    that client hangs up, [close_conn] does nothing: the descriptor stays open for
    good, with its event disabled and in nobody's hands. *)
Theorem close_race :
  rtc (PoolMain.step false 10000 3) start0 raced /\
  5 ∈ armed (kern raced) /\ sock_of raced 5 = -1 /\
  exists s, PoolMain.handle_event 10000 3 hung_up (set_kern (deliver 5 (kern raced)) raced) = Ok s /\
    5 ∈ watched (kern s) /\ 5 ∉ elements (armed (kern s)) ++ queue s ++ hands s ++ lost s.
Proof.
  split; [apply (turns_steps false 10000 3 race0); vm_compute; reflexivity|].
  split; [decided|]. split; [vm_compute; reflexivity|].
  destruct (PoolMain.handle_event 10000 3 hung_up (set_kern (deliver 5 (kern raced)) raced)) as [s|] eqn:E;
    [|vm_compute in E; discriminate E].
  exists s. split; [done|]. vm_compute in E. injection E as <-. split; decided.
Qed.
