(* ===== verification/Explore.v ===== *)
(** * Reachable states by computation

    A transition system with finitely many reachable states: they are computed,
    breadth first, and the computation is proved complete, so that a property of
    every run is a check of a list. *)

From S2P Require Import Prelude.

Section explore.
Context {A : Type} `{EqDecision A} (succ : A -> list A).

Definition step (s s' : A) : Prop := s' ∈ succ s.

(** ** The reachable states, computed *)

(** Breadth first: [todo] are the states to expand, [seen] those already met. *)
Fixpoint explore (fuel : nat) (seen todo : list A) : list A :=
  match fuel, todo with
  | S fuel, s :: todo =>
      let new := remove_dups (filter (fun s' => s' ∉ seen) (succ s)) in
      explore fuel (new ++ seen) (todo ++ new)
  | _, _ => seen
  end.

Definition closed (l : list A) : bool :=
  forallb (fun s => forallb (fun s' => bool_decide (s' ∈ l)) (succ s)) l.

(** Everything computed is reachable. *)
Lemma explore_reachable fuel s0 s :
  s ∈ explore fuel [s0] [s0] -> rtc step s0 s.
Proof.
  assert (forall seen todo, (forall a, a ∈ seen \/ a ∈ todo -> rtc step s0 a) ->
    s ∈ explore fuel seen todo -> rtc step s0 s) as H.
  { induction fuel as [|fuel IH]; intros seen todo Ha Hs; [by apply Ha; left|].
    destruct todo as [|b todo]; [by apply Ha; left|]. cbn [explore] in Hs.
    revert Hs. apply IH. intros a Hin.
    destruct (decide (a ∈ succ b)) as [Hb|Hb].
    { apply rtc_r with b; [apply Ha; right; left | exact Hb]. }
    apply Ha. rewrite !elem_of_app, elem_of_remove_dups, list_elem_of_filter in Hin.
    rewrite elem_of_cons. tauto. }
  apply H. intros a. rewrite !list_elem_of_singleton. intros [->| ->]; apply rtc_refl.
Qed.

(** If the set is closed, every run stays in it. *)
Lemma closed_sound l s0 s :
  closed l = true -> s0 ∈ l -> rtc step s0 s -> s ∈ l.
Proof.
  intros Hc H0 Hr. refine (rtc_invariant step (fun a => a ∈ l) s0 s _ H0 Hr).
  intros a b Ha Hab. unfold closed in Hc.
  rewrite forallb_forall in Hc. specialize (Hc a). rewrite forallb_forall in Hc.
  eapply bool_decide_eq_true, Hc; by apply list_elem_of_In.
Qed.

(** A check of all the states of [explore] is a check of all reachable states. *)
Lemma explore_sound fuel s0 (P : A -> bool) s :
  let l := explore fuel [s0] [s0] in
  closed l && bool_decide (s0 ∈ l) && forallb P l = true ->
  rtc step s0 s -> P s = true.
Proof.
  cbv zeta. rewrite !andb_true_iff. intros [[Hc H0] Hp] Hr.
  rewrite forallb_forall in Hp. apply Hp, list_elem_of_In.
  eapply closed_sound; [done| |done]. by apply bool_decide_eq_true in H0.
Qed.

(** ** Runs that end *)

(** If every step of reachable states raises [rank], no run is longer than
    the rank can rise. *)
Lemma bounded_runs fuel s0 (rank : A -> Z) N n s :
  let l := explore fuel [s0] [s0] in
  closed l && bool_decide (s0 ∈ l) &&
    forallb (fun s => (rank s <=? N) && forallb (fun s' => rank s <? rank s') (succ s)) l = true ->
  nsteps step n s0 s -> Z.of_nat n <= N - rank s0.
Proof.
  cbv zeta. intros H Hn.
  assert (forall a, rtc step s0 a ->
    rank a <= N /\ forall b, step a b -> rank a < rank b) as Hr.
  { intros a Ha. pose proof (explore_sound _ _ _ _ H Ha) as [H1 H2]%andb_true_iff.
    split; [lia|]. intros b Hb. rewrite forallb_forall in H2.
    specialize (H2 b). apply Z.ltb_lt, H2. by apply list_elem_of_In. }
  clear H. assert (forall a, rtc step s0 a -> nsteps step n a s ->
    rank a + Z.of_nat n <= rank s /\ rank s <= N) as Hgo.
  { clear Hn. induction n as [|n IH]; intros a Ha Hn; inversion Hn; subst.
    - destruct (Hr s Ha). lia.
    - destruct (Hr a Ha) as [_ Hlt]. specialize (Hlt y ltac:(done)).
      destruct (IH y); [by eapply rtc_r|done|lia]. }
  destruct (Hgo s0); [apply rtc_refl|done|lia].
Qed.

End explore.

(** ** What can be observed in some run *)

Lemma observed {A B} `{EqDecision A, EqDecision B} (succ : A -> list A) (f : A -> option B)
    fuel s0 (l : list B) x :
  (let r := explore succ fuel [s0] [s0] in
   closed succ r && bool_decide (s0 ∈ r) &&
     forallb (fun a => match f a with Some y => bool_decide (y ∈ l) | None => true end) r &&
     bool_decide (Forall (fun y => y ∈ omap f r) l)) = true ->
  (exists s, rtc (step succ) s0 s /\ f s = Some x) <-> x ∈ l.
Proof.
  cbv zeta. rewrite !andb_true_iff. intros [[Hc Hf] Hl]. split.
  - intros (s & Hr & Hs). rewrite forallb_forall in Hf. specialize (Hf s).
    rewrite Hs in Hf. eapply bool_decide_eq_true, Hf, list_elem_of_In.
    destruct Hc as [Hc H0]. apply bool_decide_eq_true in H0. by eapply closed_sound.
  - intros Hx. apply bool_decide_eq_true in Hl. rewrite Forall_forall in Hl.
    destruct (proj1 (list_elem_of_omap _ _ _) (Hl x Hx)) as (s & Hin & Hs).
    exists s. split; [by eapply explore_reachable|done].
Qed.

(** ** The states in which a run can end *)

Section finals.
Context {A : Type} `{EqDecision A} (succ : A -> list A) (stuck : A -> bool).

(** The states [stuck] selects: those in which a run ends, say. *)
Definition finals (fuel : nat) (s0 : A) : list A :=
  filter (fun s => stuck s = true) (explore succ fuel [s0] [s0]).

(** They are exactly those that were computed. *)
Lemma finals_sound fuel s0 (l : list A) s :
  (let r := explore succ fuel [s0] [s0] in
   closed succ r && bool_decide (s0 ∈ r) &&
     bool_decide (Forall (fun a => stuck a = true -> a ∈ l) r) &&
     bool_decide (Forall (fun a => a ∈ r /\ stuck a = true) l)) = true ->
  rtc (step succ) s0 s /\ stuck s = true <-> s ∈ l.
Proof.
  cbv zeta. rewrite !andb_true_iff, !bool_decide_eq_true, !Forall_forall.
  intros [[[Hc H0] H1] H2]. split.
  - intros [Hr Hs]. apply H1; [|done]. by eapply closed_sound.
  - intros Hs. destruct (H2 s Hs) as [Hin ?]. split; [by eapply explore_reachable|done].
Qed.

End finals.

(** [explored fuel]: a boolean property of every reachable state, by computing
    the reachable states. *)
Ltac explored fuel :=
  match goal with
  | |- rtc (step ?f0) ?s0 ?s -> ?b = true =>
      let P := eval pattern s in b in
      match P with
      | ?f s => apply (explore_sound f0 fuel s0 f s); vm_compute; reflexivity
      end
  end.
