(* ===== verification/Threads.v ===== *)
(** * A machine for small concurrent programs

    The demonstrations of threads, processes and their synchronisation
    (socket/thread, socket/ipc/sem.c, apue) are straight-line programs over mutexes,
    semaphores, condition variables and signals.  A thread is a list of
    commands, one per statement; the machine interleaves them in every way.
    Explore.v computes the states a program can reach; ThreadDemos.v holds the
    programs. *)

From S2P Require Import Prelude.
From S2P Require Export Explore.

(** ** Commands *)

Inductive cmd :=
  | Create (t : nat)                (** pthread_create of thread [t] *)
  | Fork (t : nat) (copy : list (nat * nat)) (failed : nat)
      (** fork: process [t] gets copies of the mutexes; continue at [failed] if it fails *)
  | Lock (m : nat)                  (** pthread_mutex_lock *)
  | Unlock (m : nat)                (** pthread_mutex_unlock *)
  | Semop (n : Z)                   (** semop on semaphore 0 with SEM_UNDO *)
  | SemWait                         (** sem_wait on semaphore 0 *)
  | SemPost                         (** sem_post on semaphore 0 *)
  | CondWait (m : nat)              (** pthread_cond_wait with mutex [m] *)
  | CondSignal                      (** pthread_cond_signal *)
  | Sigwait (v : nat)               (** sigwait, the signal into variable [v] *)
  | Do (f : list Z -> list Z)       (** an assignment to the variables *)
  | If (c : list Z -> bool) (pc : nat)   (** continue at [pc] if [c] holds *)
  | Join (t : nat)                  (** pthread_join, waitpid, wait *)
  | Printf (s : string)
  | Sleep (n : Z)
  | Exit (ts : list nat).           (** the threads [ts] end: exit, return of main *)

(** ** States *)

Inductive status :=
  | Idle                  (** not created yet *)
  | At (pc : nat)         (** about to execute the command [pc] *)
  | Waiting (m pc : nat)  (** in pthread_cond_wait, the mutex released *)
  | Retake (m pc : nat)   (** woken in pthread_cond_wait, taking the mutex again *)
  | Over                  (** ended *)
  | Crashed.              (** undefined behaviour *)

#[export] Instance status_eq_dec : EqDecision status.
Proof. solve_decision. Defined.

(** [owners]: who holds each mutex; [semval]: the semaphore; [semadj]: what
    SEM_UNDO gives back when the thread ends; [pend]: pending signals. *)
Record machine := Machine {
  threads : list status;
  owners : list (option nat);
  semval : Z;
  semadj : list Z;
  vars : list Z;
  pend : list Z }.

#[export] Instance machine_eq_dec : EqDecision machine.
Proof. solve_decision. Defined.

Definition set_thread (t : nat) (x : status) (s : machine) : machine :=
  Machine (<[t := x]> (threads s)) (owners s) (semval s) (semadj s) (vars s) (pend s).
Definition set_owner (m : nat) (o : option nat) (s : machine) : machine :=
  Machine (threads s) (<[m := o]> (owners s)) (semval s) (semadj s) (vars s) (pend s).
Definition set_sem (v : Z) (adj : list Z) (s : machine) : machine :=
  Machine (threads s) (owners s) v adj (vars s) (pend s).
Definition set_vars (x : list Z) (s : machine) : machine :=
  Machine (threads s) (owners s) (semval s) (semadj s) x (pend s).
Definition set_pend (x : list Z) (s : machine) : machine :=
  Machine (threads s) (owners s) (semval s) (semadj s) (vars s) x.

Definition owner_of (m : nat) (s : machine) : option nat := mjoin (owners s !! m).
Definition adj_of (t : nat) (s : machine) : Z := default 0 (semadj s !! t).
Definition var (v : nat) (x : list Z) : Z := default 0 (x !! v).

(** The thread ends: SEM_UNDO gives back what it took. *)
Definition end_thread (t : nat) (s : machine) : machine :=
  set_thread t Over (set_sem (semval s + adj_of t s) (<[t := 0]> (semadj s)) s).

(** ** Steps *)

(** What the command of thread [t] at [pc] can do; no element: it blocks. *)
Definition exec (t pc : nat) (c : cmd) (s : machine) : list machine :=
  let next := set_thread t (At (S pc)) in
  match c with
  | Create u => [next (set_thread u (At 0) s)]
  | Fork u copy failed =>
      [next (set_thread u (At 0)
         (foldl (fun s '(m, m') => set_owner m' (owner_of m s) s) s copy));
       set_thread t (At failed) s]
  | Lock m =>
      match owner_of m s with
      | None => [next (set_owner m (Some t) s)]
      | Some _ => []
      end
  | Unlock m =>
      if decide (owner_of m s = Some t) then [next (set_owner m None s)]
      else [set_thread t Crashed s]
  | Semop n =>
      if decide (0 <= semval s + n) then
        [next (set_sem (semval s + n) (<[t := adj_of t s - n]> (semadj s)) s)]
      else []
  | SemWait =>
      if decide (0 < semval s) then [next (set_sem (semval s - 1) (semadj s) s)] else []
  | SemPost => [next (set_sem (semval s + 1) (semadj s) s)]
  | CondWait m =>
      if decide (owner_of m s = Some t) then
        [set_thread t (Waiting m (S pc)) (set_owner m None s)]
      else [set_thread t Crashed s]
  | CondSignal =>
      (* at least one of the waiting threads is woken, if there are any *)
      let ws := omap (fun '(u, x) => match x with Waiting m pc' => Some (u, Retake m pc') | _ => None end)
                     (imap (fun u x => (u, x)) (threads s)) in
      match ws with
      | [] => [next s]
      | _ => (fun '(u, x) => next (set_thread u x s)) <$> ws
      end
  | Sigwait v => (fun g => next (set_vars (<[v := g]> (vars s))
                                (set_pend (filter (fun h => h <> g) (pend s)) s))) <$> pend s
  | Do f => [next (set_vars (f (vars s)) s)]
  | If c pc' => [if c (vars s) then set_thread t (At pc') s else next s]
  | Join u => match threads s !! u with Some Over => [next s] | _ => [] end
  | Printf _ | Sleep _ => [next s]
  | Exit ts => [foldl (fun s u => end_thread u s) s ts]
  end.

(** One step of thread [t]. *)
Definition thread_step (code : list cmd) (t : nat) (s : machine) : list machine :=
  match threads s !! t with
  | Some (At pc) =>
      match code !! pc with
      | Some c => exec t pc c s
      | None => [end_thread t s]
      end
  | Some (Retake m pc) =>
      match owner_of m s with
      | None => [set_thread t (At pc) (set_owner m (Some t) s)]
      | Some _ => []
      end
  | _ => []
  end.

(** A program: the code of its threads, and what the environment may do. *)
Record program := Program {
  code : list (list cmd);
  env : machine -> list machine }.

(** The steps of the threads, and all steps. *)
Definition moves (p : program) (s : machine) : list machine :=
  concat (imap (fun t c => thread_step c t s) (code p)).

Definition succ (p : program) (s : machine) : list machine := moves p s ++ env p s.

(** No thread can move. *)
Definition stuck (p : program) (s : machine) : bool :=
  match moves p s with [] => true | _ => false end.

(** ** What the environment may do *)

Definition still (s : machine) : list machine := [].

(** A process that has not ended is killed. *)
Definition kill (ts : list nat) (s : machine) : list machine :=
  omap (fun t => match threads s !! t with
                 | Some (At _) => Some (end_thread t s)
                 | _ => None
                 end) ts.

(** pthread_cond_wait returns without a signal. *)
Definition spurious (s : machine) : list machine :=
  omap (fun '(u, x) => match x with
                       | Waiting m pc => Some (set_thread u (Retake m pc) s)
                       | _ => None
                       end) (imap (fun u x => (u, x)) (threads s)).

(** A signal becomes pending. *)
Definition raise_ (gs : list Z) (s : machine) : list machine :=
  omap (fun g => if decide (g ∈ pend s) then None else Some (set_pend (g :: pend s) s)) gs.

(** ** Progress *)

(** The commands executed so far, with an ended thread beyond all of its own. *)
Definition progress (p : program) (s : machine) : Z :=
  foldr Z.add 0 (imap (fun t x =>
    match x with
    | Idle => 0
    | At pc | Waiting _ pc | Retake _ pc => 1 + Z.of_nat pc
    | Over | Crashed => 2 + Z.of_nat (length (default [] (code p !! t)))
    end) (threads s)).
