(* ===== verification/ThreadDemos.v ===== *)
(** * Threads and processes that synchronise (socket/thread, socket/ipc, apue)

    dead_lock.c, fork_thread.c, sem.c, apue's test_sem.c, test_sem2.c, test_sem3.c
    and pthread_sig.c, and the class [cond] of locker.h, as programs of the
    machine of Threads.v, with every way their runs can end. *)

From S2P Require Import Prelude Threads.
Open Scope string_scope.
Open Scope Z_scope.

(** ** Two mutexes in opposite orders (socket/thread/dead_lock.c)

    Thread 0 is [main], thread 1 [another]; variable 0 is [a], variable 1 [b];
    mutex 0 is [mutex_a], mutex 1 [mutex_b]. *)
Module DeadLock.

Definition incr (v : nat) (x : list Z) : list Z := <[v := var v x + 1]> x.
(** [v += w++] *)
Definition add_incr (v w : nat) (x : list Z) : list Z :=
  <[w := var w x + 1]> (<[v := var v x + var w x]> x).

Definition another : list cmd :=
  [ Lock 1;
    Printf "in child thread, got mutext b, waiting for mutex a";
    Sleep 5;
    Do (incr 1);
    Lock 0;
    Do (add_incr 1 0);
    Unlock 0;
    Unlock 1;
    Exit [1%nat] ].

Definition main : list cmd :=
  [ Create 1;
    Lock 0;
    Printf "in parent thread, got mutex a, waiting for mutex b";
    Sleep 5;
    Do (incr 0);
    Lock 1;
    Do (add_incr 0 1);
    Unlock 1;
    Unlock 0;
    Join 1;
    Exit [0%nat] ].

Definition dead_lock : program := Program [main; another] still.
Definition dead_lock_start : machine := Machine [At 0; Idle] [None; None] 0 [0; 0] [0; 0] [].

Definition ended (a b : Z) : machine := Machine [Over; Over] [None; None] 0 [0; 0] [a; b] [].
(** [main] holds [mutex_a] and waits for [mutex_b], [another] the other way round. *)
Definition deadlocked : machine :=
  Machine [At 5; At 4] [Some 0%nat; Some 1%nat] 0 [0; 0] [1; 1] [].

(** No run is longer than twenty-three steps, and there are exactly three ways for
    one to end: the two threads one after the other, in either order, or
    the deadlock. *)
Theorem dead_lock_runs :
  (forall n s, nsteps (step (succ dead_lock)) n dead_lock_start s -> (n <= 23)%nat) /\
  (forall s, rtc (step (succ dead_lock)) dead_lock_start s /\ stuck dead_lock s = true <->
     s ∈ [ended 2 3; ended 3 2; deadlocked]).
Proof.
  split.
  - intros n s Hn.
    enough (Z.of_nat n <= 24 - 1) by lia.
    apply (bounded_runs (succ dead_lock) 200 dead_lock_start (progress dead_lock) 24 n s); [|done].
    vm_compute. reflexivity.
  - intros s. apply (finals_sound _ _ 200). vm_compute. reflexivity.
Qed.

End DeadLock.

(** ** A semaphore between parent and child (socket/ipc/sem.c)

    Thread 0 is the parent, thread 1 the child; variable 0 tells whether the
    semaphore set exists, semaphore 0 starts at 1 ([SETVAL]).  Either process
    may be killed at any time. *)
Module Sem.

Definition pv (op : Z) : cmd := Semop op.
(** semctl(sem_id, 0, IPC_RMID, sem_un) *)
Definition rmid : cmd := Do (fun x => <[0%nat := 0]> x).

Definition sem_child : list cmd :=
  [ Printf "child try to get binary sem";
    pv (-1);
    Printf "child get the sem and would release it after 5 seconds";
    Sleep 5;
    pv 1;
    Exit [1%nat] ].

Definition sem_parent : list cmd :=
  [ Fork 1 [] 9;
    Printf "parent try to get binary sem";
    pv (-1);
    Printf "parent get the sem and would release if after 5 seconds";
    Sleep 5;
    pv 1;
    Join 1;
    rmid;
    Exit [0%nat];
    Exit [0%nat] ].

Definition sem_program : program := Program [sem_parent; sem_child] (kill [0; 1]%nat).
Definition sem_start : machine := Machine [At 0; Idle] [] 1 [0; 0] [1] [].

(** The process has the semaphore. *)
Definition has_sem (lo hi : nat) (x : option status) : bool :=
  match x with Some (At pc) => (lo <=? pc)%nat && (pc <=? hi)%nat | _ => false end.

Definition over (x : status) : bool :=
  match x with Over | Idle => true | _ => false end.

(** apue/ipc/test_sem.c, with fewer messages; the set is created in the same state. *)
Definition test_sem_child : list cmd :=
  [ pv (-1); Printf "child get this sem"; Sleep 5; pv 1; Exit [1%nat] ].

Definition test_sem_parent : list cmd :=
  [ Fork 1 [] 8;
    pv (-1); Printf "parent get this sem"; Sleep 5; pv 1;
    Join 1;
    rmid;
    Exit [0%nat];
    Exit [0%nat] ].

Definition test_sem_program : program := Program [test_sem_parent; test_sem_child] (kill [0; 1]%nat).

(** Whoever is killed and whenever: never both have the semaphore, and when no
    process can move both have ended. *)
Theorem sem_survives_kill s :
  rtc (step (succ sem_program)) sem_start s ->
  ~ (has_sem 3 5 (threads s !! 0%nat) = true /\ has_sem 2 4 (threads s !! 1%nat) = true) /\
  (stuck sem_program s = true -> forallb over (threads s) = true).
Proof.
  intros Hr.
  assert (negb (has_sem 3 5 (threads s !! 0%nat) && has_sem 2 4 (threads s !! 1%nat)) &&
    implb (stuck sem_program s) (forallb over (threads s)) = true) as H.
  { revert Hr. explored 400%nat. }
  revert H. destruct (has_sem 3 5 _), (has_sem 2 4 _), (stuck _ _), (forallb _ _); naive_solver.
Qed.

Theorem sem_survives_kill_witness :
  ~ (has_sem 3 5 (threads sem_start !! 0%nat) = true /\
     has_sem 2 4 (threads sem_start !! 1%nat) = true) /\
  (stuck sem_program sem_start = true -> forallb over (threads sem_start) = true).
Proof. apply sem_survives_kill. apply rtc_refl. Defined.

Theorem test_sem_survives_kill s :
  rtc (step (succ test_sem_program)) sem_start s ->
  ~ (has_sem 2 4 (threads s !! 0%nat) = true /\ has_sem 1 3 (threads s !! 1%nat) = true) /\
  (stuck test_sem_program s = true -> forallb over (threads s) = true).
Proof.
  intros Hr.
  assert (negb (has_sem 2 4 (threads s !! 0%nat) && has_sem 1 3 (threads s !! 1%nat)) &&
    implb (stuck test_sem_program s) (forallb over (threads s)) = true) as H.
  { revert Hr. explored 400%nat. }
  revert H. destruct (has_sem 2 4 _), (has_sem 1 3 _), (stuck _ _), (forallb _ _); naive_solver.
Qed.

(** The set is removed only by a parent that lives to the end: a failed fork or
    the death of the parent leaves it behind. *)
Theorem sem_set_left_behind :
  Machine [Over; Idle] [] 1 [0; 0] [1] [] ∈ finals (succ sem_program) (stuck sem_program) 400 sem_start.
Proof. decided. Qed.

End Sem.

(** ** POSIX semaphores, which nobody undoes (apue/ipc/test_sem2.c) *)
Module Sem2.

Definition sem2_child : list cmd :=
  [ SemWait; Printf "child get this sem"; Sleep 5; SemPost; Exit [1%nat] ].

Definition sem2_parent : list cmd :=
  [ Fork 1 [] 8;
    SemWait; Printf "parent get this sem"; Sleep 5; SemPost;
    Join 1;
    Do (fun x => <[0%nat := 0]> x);   (* sem_close, sem_unlink *)
    Exit [0%nat];
    Exit [0%nat] ].

Definition sem2_program : program := Program [sem2_parent; sem2_child] (kill [0; 1]%nat).
Definition sem2_safe : program := Program [sem2_parent; sem2_child] still.
Definition sem2_start : machine := Machine [At 0; Idle] [] 1 [0; 0] [1] [].

(** Undisturbed, every run ends with the semaphore at 1. *)
Theorem sem2_undisturbed s :
  rtc (step (succ sem2_safe)) sem2_start s /\ stuck sem2_safe s = true <->
  s ∈ [ Machine [Over; Over] [] 1 [0; 0] [0] [];      (* both had it *)
        Machine [Over; Idle] [] 1 [0; 0] [1] [] ].    (* fork failed *)
Proof. apply (finals_sound _ _ 400). vm_compute. reflexivity. Qed.

(** A process killed while it has the semaphore keeps it for ever: the other one
    waits for it, or, when the parent died, a later run starts at 0. *)
Theorem sem2_killed_keeps :
  (forall x, x ∈ [Machine [At 1; Over] [] 0 [0; 0] [1] [];
                  Machine [Over; At 0] [] 0 [0; 0] [1] [];
                  Machine [Over; Over] [] 0 [0; 0] [1] []] ->
     rtc (step (succ sem2_program)) sem2_start x /\ stuck sem2_program x = true) /\
  (forall s, rtc (step (succ sem2_safe)) (set_sem 0 [0; 0] sem2_start) s /\ stuck sem2_safe s = true <->
     s ∈ [ Machine [At 1; At 0] [] 0 [0; 0] [1] [];
           Machine [Over; Idle] [] 0 [0; 0] [1] [] ]).
Proof.
  split.
  - intros x Hx. assert (x ∈ finals (succ sem2_program) (stuck sem2_program) 400 sem2_start) as H.
    { revert x Hx. apply Forall_forall. decided. }
    apply list_elem_of_filter in H as [? H]. split; [by eapply explore_reachable|done].
  - intros s. apply (finals_sound _ _ 400). vm_compute. reflexivity.
Qed.

End Sem2.

(** ** Threads and an anonymous semaphore (apue/ipc/test_sem3.c)

    Both threads run the same function. *)
Module Sem3.

Definition threadFunc (arg : string) : list cmd :=
  [ Sleep 1; SemWait; Printf arg; Sleep 3; SemPost ].

Definition sem3_child : list cmd := threadFunc "child thread get this sem".

Definition sem3_main : list cmd :=
  (Create 1 :: threadFunc "parent thread get this sem" ++ [ Join 1; Exit [0; 1]%nat ])%list.

(** [sem_init(&sp, 0, 1)] *)
Definition sem3_program : program := Program [sem3_main; sem3_child] still.
Definition sem3_start : machine := Machine [At 0; Idle] [] 1 [0; 0] [] [].

(** Every run ends with both threads done and the semaphore free. *)
Theorem sem3_runs s :
  rtc (step (succ sem3_program)) sem3_start s /\ stuck sem3_program s = true <->
  s ∈ [ Machine [Over; Over] [] 1 [0; 0] [] [] ].
Proof. apply (finals_sound _ _ 400). vm_compute. reflexivity. Qed.

End Sem3.

(** ** fork in a program with threads (socket/thread/fork_thread.c)

    Thread 0 is [main], thread 1 [another], thread 2 the only thread of the
    child; mutex 0 is the parent's, mutex 1 the child's copy of it. *)
Module ForkThread.

Definition another_forked : list cmd :=
  [ Printf "in child thread, lock the mutex"; Lock 0; Sleep 5; Unlock 0 ].

Definition fork_main : list cmd :=
  [ Create 1;
    Sleep 1;
    Fork 2 [(0, 1)%nat] 6;
    Join 2;
    Join 1;
    Exit [0; 1]%nat;
    Join 1;
    Exit [0; 1]%nat ].

Definition fork_child : list cmd :=
  [ Printf "I am in the child, want to get the lock";
    Lock 1;
    Printf "I can not run to here, oop..";
    Unlock 1;
    Exit [2%nat] ].

Definition fork_thread : program := Program [fork_main; another_forked; fork_child] still.
Definition fork_start : machine :=
  Machine [At 0; Idle; Idle] [None; None] 0 [0; 0; 0] [] [].

(** A run ends in one of three ways: all done; all done without a child, because
    fork failed; or the child waits for a mutex whose owner was not copied with
    it, and the parent waits for the child. *)
Theorem fork_thread_runs s :
  rtc (step (succ fork_thread)) fork_start s /\ stuck fork_thread s = true <->
  s ∈ [ Machine [Over; Over; Over] [None; None] 0 [0; 0; 0] [] [];
        Machine [Over; Over; Idle] [None; None] 0 [0; 0; 0] [] [];
        Machine [At 3; Over; At 1] [None; Some 1%nat] 0 [0; 0; 0] [] [] ].
Proof. apply (finals_sound _ _ 400). vm_compute. reflexivity. Qed.

End ForkThread.

(** ** A thread that waits for signals (apue/pthread_sig.c)

    Variable 0 is [quitflag], variable 1 [signo]; mutex 0 is [lock]. *)
Module PthreadSig.

Definition SIGINT : Z := 2.
Definition SIGQUIT : Z := 3.
Definition otherwise (x : list Z) : bool := true.

Definition thr_fn : list cmd :=
  [ Sigwait 1;
    If (fun x => var 1 x =? SIGINT) 5;
    If (fun x => var 1 x =? SIGQUIT) 7;
    Printf "unexpected signal";
    Exit [0; 1]%nat;
    Printf "interrupt";
    If otherwise 0;
    Lock 0;
    Do (fun x => <[0%nat := 1]> x);
    Unlock 0;
    CondSignal;
    Exit [1%nat] ].

Definition sig_main : list cmd :=
  [ Create 1;
    Lock 0;
    If (fun x => negb (var 0 x =? 0)) 5;
    CondWait 0;
    If otherwise 2;
    Unlock 0;
    Do (fun x => <[0%nat := 0]> x);
    Exit [0; 1]%nat ].

(** SIGINT and SIGQUIT come at any time, [pthread_cond_wait] may return without
    a signal. *)
Definition pthread_sig : program :=
  Program [sig_main; thr_fn] (fun s => (raise_ [SIGINT; SIGQUIT] s ++ spurious s)%list).
Definition sig_start : machine := Machine [At 0; Idle] [None] 0 [0; 0] [0; 0] [].

(** The only waits without end are for signals: when no thread can move, either
    the program has ended, or [thr_fn] is in sigwait with no signal pending,
    [quitflag] is 0 and [main] waits for the condition; a SIGQUIT then always
    gets through to [main]. *)
Theorem sig_no_lost_wakeup s :
  rtc (step (succ pthread_sig)) sig_start s -> stuck pthread_sig s = true ->
  threads s = [Over; Over] \/
  (threads s = [Waiting 0 4; At 0] /\ pend s = [] /\ var 0 (vars s) = 0).
Proof.
  intros Hr.
  assert (implb (stuck pthread_sig s) (bool_decide (threads s = [Over; Over] \/
    (threads s = [Waiting 0 4; At 0] /\ pend s = [] /\ var 0 (vars s) = 0))) = true) as H.
  { revert Hr. explored 3000%nat. }
  intros Hs. rewrite Hs in H. by apply bool_decide_eq_true in H.
Qed.

Theorem sig_no_lost_wakeup_witness :
  let s := Machine [Waiting 0 4; At 0] [None] 0 [0; 0] [0; 0] [] in
  threads s = [Over; Over] \/
  (threads s = [Waiting 0 4; At 0] /\ pend s = [] /\ var 0 (vars s) = 0).
Proof.
  apply sig_no_lost_wakeup; [|reflexivity].
  apply (explore_reachable _ 3000). decided.
Defined.

End PthreadSig.

(** ** The class [cond] of socket/thread/locker.h: one thread waits, one signals *)
Module Cond.

Definition cond_wait : list cmd := [ Lock 0; CondWait 0; Unlock 0 ].
Definition cond_signal : list cmd := [ CondSignal ].

Definition cond_program : program := Program [cond_wait; cond_signal] still.
Definition cond_start : machine := Machine [At 0; At 0] [None] 0 [0; 0] [] [].

(** A signal that comes before the wait is lost: [wait] has no predicate to
    look at and [signal] does not take the mutex. *)
Theorem cond_signal_lost s :
  rtc (step (succ cond_program)) cond_start s /\ stuck cond_program s = true <->
  s ∈ [ Machine [Over; Over] [None] 0 [0; 0] [] [];
        Machine [Waiting 0 2; Over] [None] 0 [0; 0] [] [] ].
Proof. apply (finals_sound _ _ 400). vm_compute. reflexivity. Qed.

End Cond.
