(* ===== verification/Signals.v ===== *)
(** * Signals: masks, handlers and non-local jumps (apue)

    sigpending.c, sigsuspend.c, sigsetjmp.c and signal.c of apue and the loop of
    socket/others/listen_backlog.c.  A process has a signal mask, a set of pending
    signals, a disposition for each signal and a stack of frames: the main
    program and the handlers that interrupted it and each other.  Signals arrive
    at any time.  The states a program can reach are computed with Explore.v. *)

From S2P Require Import Prelude Explore.
Open Scope string_scope.
Open Scope list_scope.
Open Scope Z_scope.

Inductive signo := SIGINT | SIGQUIT | SIGUSR1 | SIGUSR2 | SIGALRM | SIGTERM.

#[export] Instance signo_eq_dec : EqDecision signo.
Proof. solve_decision. Defined.

(** Sets of signals are lists in the order of [signals]. *)
Definition signals : list signo := [SIGINT; SIGQUIT; SIGUSR1; SIGUSR2; SIGALRM; SIGTERM].
Definition sigset (gs : list signo) : list signo := filter (fun g => g ∈ gs) signals.
Definition sigadd (g : signo) (gs : list signo) : list signo := sigset (g :: gs).
Definition sigdel (g : signo) (gs : list signo) : list signo := filter (fun h => h <> g) gs.

(** ** Commands, one per statement that matters to signals *)

Inductive scmd :=
  | Signal (g : signo) (h : option nat)  (** signal(g, h); [None] is SIG_DFL *)
  | Block (gs : list signo)              (** sigprocmask(SIG_BLOCK, gs, &oldmask) *)
  | Setmask                              (** sigprocmask(SIG_SETMASK, &oldmask, NULL) *)
  | Sigsuspend (gs : list signo)
  | Pause
  | Sigsetjmp (pc : nat)                 (** a jump back continues at [pc] *)
  | Siglongjmp
  | SetFlag (v : Z)                      (** the program's flag variable *)
  | IfFlag (v : Z) (pc : nat)            (** continue at [pc] if the flag is [v] *)
  | IfPending (g : signo) (pc : nat)     (** sigpending and sigismember *)
  | PrMask (str : string)
  | Printf (str : string)
  | Spend (seconds : Z)                  (** sleep, or a loop that waits for the time *)
  | Goto (pc : nat)
  | Return.

(** ** Processes *)

(** A frame executes, or waits in pause, or in sigsuspend, which will put the
    mask [old] back. *)
Inductive activity := Executes | InPause | InSigsuspend (old : list signo).

Record frame := Frame {
  fn : nat;               (** which function: 0 is main *)
  fpc : nat;
  act : activity;
  fmask : list signo }.   (** the mask to restore when the frame returns *)

Inductive pstatus := Running | Exited | Killed (g : signo) | Undefined.

Record process := Process {
  stat : pstatus;
  frames : list frame;             (** innermost first *)
  mask : list signo;
  pending : list signo;
  disp : list (signo * nat);       (** the handlers; no entry: SIG_DFL *)
  oldmask : list signo;
  jmpbuf : option (nat * list signo);
  flag : Z }.

#[export] Instance activity_eq_dec : EqDecision activity.
Proof. solve_decision. Defined.
#[export] Instance frame_eq_dec : EqDecision frame.
Proof. solve_decision. Defined.
#[export] Instance pstatus_eq_dec : EqDecision pstatus.
Proof. solve_decision. Defined.
#[export] Instance process_eq_dec : EqDecision process.
Proof. solve_decision. Defined.

Definition with_stat x p := Process x [] (mask p) (pending p) (disp p) (oldmask p) (jmpbuf p) (flag p).
Definition with_frames x p := Process (stat p) x (mask p) (pending p) (disp p) (oldmask p) (jmpbuf p) (flag p).
Definition with_mask x p := Process (stat p) (frames p) x (pending p) (disp p) (oldmask p) (jmpbuf p) (flag p).
Definition with_pending x p := Process (stat p) (frames p) (mask p) x (disp p) (oldmask p) (jmpbuf p) (flag p).
Definition with_disp x p := Process (stat p) (frames p) (mask p) (pending p) x (oldmask p) (jmpbuf p) (flag p).
Definition with_oldmask x p := Process (stat p) (frames p) (mask p) (pending p) (disp p) x (jmpbuf p) (flag p).
Definition with_jmpbuf x p := Process (stat p) (frames p) (mask p) (pending p) (disp p) (oldmask p) x (flag p).
Definition with_flag x p := Process (stat p) (frames p) (mask p) (pending p) (disp p) (oldmask p) (jmpbuf p) x.

Definition handler (g : signo) (p : process) : option nat :=
  snd <$> find (fun '(h, _) => bool_decide (h = g)) (disp p).

Definition set_handler (g : signo) (h : option nat) (p : process) : process :=
  let others := filter (fun '(k, _) => k <> g) (disp p) in
  with_disp (match h with Some f => (g, f) :: others | None => others end) p.

(** ** Delivery *)

(** [g] is delivered: its handler starts with [g] blocked, and the mask comes
    back when it returns; without a handler the process is killed.  After the
    handler, sigsuspend returns with the mask it was called with, and pause
    returns. *)
Definition deliver (g : signo) (p : process) : process :=
  let p := with_pending (sigdel g (pending p)) p in
  match handler g p, frames p with
  | Some f, Frame n pc a m :: fs =>
      let '(pc, saved) := match a with
                          | Executes => (pc, mask p)
                          | InPause => (S pc, mask p)
                          | InSigsuspend old => (S pc, old)
                          end in
      with_mask (sigadd g (mask p))
        (with_frames (Frame f 0 Executes saved :: Frame n pc Executes m :: fs) p)
  | _, _ => with_stat (Killed g) p
  end.

(** The pending signals that are not blocked. *)
Definition deliverable (p : process) : list signo := filter (fun g => g ∉ mask p) (pending p).

(** ** Execution *)

Definition exec (c : scmd) (p : process) : process :=
  match frames p with
  | Frame n pc a m :: fs =>
      let at_ pc := with_frames (Frame n pc Executes m :: fs) in
      let wait a := with_frames (Frame n pc a m :: fs) in
      let next := at_ (S pc) in
      match c with
      | Signal g h => next (set_handler g h p)
      | Block gs => next (with_oldmask (mask p) (with_mask (sigset (gs ++ mask p)) p))
      | Setmask => next (with_mask (oldmask p) p)
      | Sigsuspend gs => wait (InSigsuspend (mask p)) (with_mask (sigset gs) p)
      | Pause => wait InPause p
      | Sigsetjmp pc' => next (with_jmpbuf (Some (pc', mask p)) p)
      | Siglongjmp =>
          match jmpbuf p with
          | Some (pc', m') =>
              (* every handler is left; the frame of main continues *)
              with_mask m' (with_frames [Frame 0 pc' Executes []] p)
          | None => with_stat Undefined p
          end
      | SetFlag v => next (with_flag v p)
      | IfFlag v pc' => if decide (flag p = v) then at_ pc' p else next p
      | IfPending g pc' => if decide (g ∈ pending p) then at_ pc' p else next p
      | PrMask _ | Printf _ | Spend _ => next p
      | Goto pc' => at_ pc' p
      | Return =>
          match fs with
          | [] => with_stat Exited p
          | _ => with_mask m (with_frames fs p)
          end
      end
  | [] => p
  end.

(** A program: its functions, [main] first, and the signals sent to it. *)
Record sprogram := SProgram { codes : list (list scmd); sent : list signo }.

(** The command about to be executed. *)
Definition current (q : sprogram) (p : process) : option scmd :=
  match frames p with
  | Frame n pc Executes _ :: _ => codes q !! n ≫= (.!! pc)
  | _ => None
  end.

(** A signal that can be delivered is delivered before anything else happens;
    otherwise the next command is executed or a signal arrives. *)
Definition moves (q : sprogram) (p : process) : list process :=
  match stat p with
  | Running =>
      match deliverable p with
      | [] => match current q p with Some c => [exec c p] | None => [] end
      | gs => (fun g => deliver g p) <$> gs
      end
  | _ => []
  end.

Definition arrivals (q : sprogram) (p : process) : list process :=
  match stat p, deliverable p with
  | Running, [] => (fun g => with_pending (sigadd g (pending p)) p) <$> sent q
  | _, _ => []
  end.

Definition succ (q : sprogram) (p : process) : list process := moves q p ++ arrivals q p.

Definition stuck (q : sprogram) (p : process) : bool :=
  match moves q p with [] => true | _ => false end.

(** Before the first statement of [main]. *)
Definition start : process := Process Running [Frame 0 0 Executes []] [] [] [] [] None 0.

(** ** pr_mask (sigsuspend.c, sigsetjmp.c): what it prints under the mask [m] *)

Definition nl : string := String "010"%char "".

Definition pr_mask (str : string) (m : list signo) : string :=
  String.concat ""
    ([str] ++
     (if decide (SIGINT ∈ m) then [" SIGINT"] else []) ++
     (if decide (SIGQUIT ∈ m) then [" SIGQUIT"] else []) ++
     (if decide (SIGUSR1 ∈ m) then [" SIGUSR1"] else []) ++
     (if decide (SIGALRM ∈ m) then [" SIGALRM"] else []) ++ [nl]).

(** The line a process is about to print, if its next command prints a mask. *)
Definition line (q : sprogram) (p : process) : option string :=
  match stat p, deliverable p, current q p with
  | Running, [], Some (PrMask str) => Some (pr_mask str (mask p))
  | _, _, _ => None
  end.

(** ** sigsuspend.c *)
Module Suspend.

Definition suspend_main : list scmd :=
  [ PrMask "program start: ";
    Signal SIGINT (Some 1%nat);
    Block [SIGINT];
    PrMask "in critical region: ";
    Sigsuspend [SIGUSR1];
    PrMask "after return from sigsuspend: ";
    Setmask;
    PrMask "program exit: ";
    Return ].

Definition sig_int : list scmd := [ PrMask (nl +:+ "in sig_int: "); Return ].

Definition sigsuspend : sprogram := SProgram [suspend_main; sig_int] [SIGINT; SIGUSR1].

(** The lines the program prints, in all its runs, are these. *)
Theorem suspend_lines l :
  (exists p, rtc (step (succ sigsuspend)) start p /\ line sigsuspend p = Some l) <->
  l ∈ [ "program start: " +:+ nl;
        "in critical region:  SIGINT" +:+ nl;
        nl +:+ "in sig_int:  SIGINT" +:+ nl;
        nl +:+ "in sig_int:  SIGINT SIGUSR1" +:+ nl;
        "after return from sigsuspend:  SIGINT" +:+ nl;
        "program exit: " +:+ nl ].
Proof. apply (observed _ _ 300). vm_compute. reflexivity. Qed.

(** The critical region is not interrupted: while the handler runs, [main] is
    before the region, in the return from sigsuspend, or behind the region; and a
    SIGINT that came in the region is not missed by the sigsuspend at its end. *)
Theorem suspend_region p :
  rtc (step (succ sigsuspend)) start p ->
  (forall h n pc a m, frames p = [h; Frame n pc a m] -> ~ (pc = 3 \/ pc = 4 \/ pc = 6)%nat) /\
  (stuck sigsuspend p = true -> stat p = Running -> SIGINT ∉ pending p).
Proof.
  intros Hr.
  assert (match frames p with
          | [_; Frame _ pc _ _] => negb ((pc =? 3) || (pc =? 4) || (pc =? 6))%nat
          | _ => true
          end && implb (stuck sigsuspend p && bool_decide (stat p = Running))
                       (bool_decide (SIGINT ∉ pending p)) = true) as H.
  { revert Hr. explored 300%nat. }
  apply andb_true_iff in H as [H1 H2]. split.
  - intros h n pc a m E. rewrite E in H1. intros [->|[->| ->]]; discriminate.
  - intros Hs Hst. rewrite Hs, bool_decide_true in H2 by done. by apply bool_decide_eq_true in H2.
Qed.

Theorem suspend_region_witness :
  let p := Process Running [Frame 0 4 (InSigsuspend [SIGINT]) []] [SIGUSR1] [] [(SIGINT, 1%nat)]
             [] None 0 in
  (forall h n pc a m, frames p = [h; Frame n pc a m] -> ~ (pc = 3 \/ pc = 4 \/ pc = 6)%nat) /\
  (stuck sigsuspend p = true -> stat p = Running -> SIGINT ∉ pending p).
Proof. apply suspend_region. apply (explore_reachable _ 300). decided. Defined.

End Suspend.

(** ** sigpending.c *)
Module Pending.

Definition pending_main : list scmd :=
  [ Signal SIGQUIT (Some 1%nat);
    Block [SIGQUIT];
    Spend 5;
    IfPending SIGQUIT 5;
    Goto 6;
    Printf "SIGQUIT pending";
    Setmask;
    Printf "SIGQUIT unblocked";
    Spend 5;
    Return ].

Definition sig_quit : list scmd :=
  [ Printf "caught SIGQUIT"; Signal SIGQUIT None; Return ].

Definition sigpending : sprogram := SProgram [pending_main; sig_quit] [SIGQUIT].

(** While SIGQUIT is blocked, no handler runs and nothing kills the process;
    behind the unblocking nothing is pending; and the process is killed only
    after the handler has given the signal its default action back. *)
Theorem pending_blocked p :
  rtc (step (succ sigpending)) start p ->
  (forall n pc a m fs, frames p = Frame n pc a m :: fs -> n = 0%nat -> (2 <= pc <= 6)%nat ->
     fs = [] /\ deliverable p = []) /\
  (forall a m, frames p = [Frame 0 7 a m] -> deliverable p = [] -> pending p = []) /\
  (forall g, stat p = Killed g -> disp p = []).
Proof.
  intros Hr.
  assert (match frames p with
          | Frame 0 pc _ _ :: fs => implb ((2 <=? pc) && (pc <=? 6))%nat
              (bool_decide (fs = [] /\ deliverable p = []))
          | _ => true
          end &&
          match frames p with
          | [Frame 0 7 _ _] => implb (bool_decide (deliverable p = [])) (bool_decide (pending p = []))
          | _ => true
          end &&
          match stat p with Killed _ => bool_decide (disp p = []) | _ => true end = true) as H.
  { revert Hr. explored 300%nat. }
  apply andb_true_iff in H as [[H1 H2]%andb_true_iff H3]. split_and!.
  - intros n pc a m fs E -> Hpc. rewrite E in H1.
    assert ((2 <=? pc) && (pc <=? 6) = true)%nat as Hb
      by (apply andb_true_iff; rewrite !Nat.leb_le; lia).
    rewrite Hb in H1. by apply bool_decide_eq_true in H1.
  - intros a m E Hd. rewrite E, bool_decide_true in H2 by done. by apply bool_decide_eq_true in H2.
  - intros g E. rewrite E in H3. by apply bool_decide_eq_true in H3.
Qed.

End Pending.

(** ** sigsetjmp.c: the flag is [canjump] *)
Module Jump.

Definition jump_main : list scmd :=
  [ Signal SIGUSR1 (Some 1%nat);
    Signal SIGALRM (Some 2%nat);
    PrMask "starting main: ";
    Sigsetjmp 7;
    SetFlag 1;
    Pause;
    Goto 5;
    PrMask "ending main: ";
    Return ].

Definition sig_usr1 : list scmd :=
  [ IfFlag 0 6;
    PrMask "starting sig_usr1: ";
    Spend 5;                       (* alarm(3), and a loop for five seconds *)
    PrMask "finishing sig_usr1: ";
    SetFlag 0;
    Siglongjmp;
    Return ].

Definition sig_alrm : list scmd := [ PrMask "in sig_alrm: "; Return ].

Definition sigsetjmp : sprogram := SProgram [jump_main; sig_usr1; sig_alrm] [SIGUSR1; SIGALRM].

(** The jump is taken only when there is somewhere to jump to, it leaves every
    handler, and it brings back the empty mask, from whatever handlers and
    under whatever mask it was taken. *)
Theorem jump_lines l :
  (exists p, rtc (step (succ sigsetjmp)) start p /\ line sigsetjmp p = Some l) <->
  l ∈ [ "starting main: " +:+ nl;
        "in sig_alrm:  SIGALRM" +:+ nl;
        "in sig_alrm:  SIGUSR1 SIGALRM" +:+ nl;
        "starting sig_usr1:  SIGUSR1" +:+ nl;
        "starting sig_usr1:  SIGUSR1 SIGALRM" +:+ nl;
        "finishing sig_usr1:  SIGUSR1" +:+ nl;
        "finishing sig_usr1:  SIGUSR1 SIGALRM" +:+ nl;
        "ending main: " +:+ nl ].
Proof. apply (observed _ _ 1000). vm_compute. reflexivity. Qed.

Theorem jump_safe p :
  rtc (step (succ sigsetjmp)) start p ->
  stat p <> Undefined /\
  (stat p = Exited -> mask p = [] /\ flag p = 0) /\
  (forall n a m fs, frames p = Frame n 7 a m :: fs -> n = 0%nat -> fs = [] /\ mask p = []).
Proof.
  intros Hr.
  assert (bool_decide (stat p <> Undefined) &&
          implb (bool_decide (stat p = Exited)) (bool_decide (mask p = [] /\ flag p = 0)) &&
          match frames p with
          | Frame 0 7 _ _ :: fs => bool_decide (fs = [] /\ mask p = [])
          | _ => true
          end = true) as H.
  { revert Hr. explored 1000%nat. }
  apply andb_true_iff in H as [[H1 H2]%andb_true_iff H3]. split_and!.
  - by apply bool_decide_eq_true in H1.
  - intros E. rewrite bool_decide_true in H2 by done. by apply bool_decide_eq_true in H2.
  - intros n a m fs E ->. rewrite E in H3. by apply bool_decide_eq_true in H3.
Qed.

End Jump.

(** ** signal.c *)
Module Usr.

Definition usr_main : list scmd :=
  [ Signal SIGUSR1 (Some 1%nat);
    Signal SIGUSR2 (Some 2%nat);
    Pause;
    Goto 2 ].

Definition sig_usr (g : signo) : list scmd :=
  [ Printf (match g with
            | SIGUSR1 => "received SIGUSR1"
            | SIGUSR2 => "received SIGUSR2"
            | _ => "received signal"
            end);
    Return ].

Definition signal_c : sprogram :=
  SProgram [usr_main; sig_usr SIGUSR1; sig_usr SIGUSR2] [SIGUSR1; SIGUSR2].

(** The process is killed only by a signal whose handler is not installed yet. *)
Theorem usr_killed_early p g :
  rtc (step (succ signal_c)) start p -> stat p = Killed g -> handler g p = None.
Proof.
  intros Hr.
  assert (match stat p with Killed g => bool_decide (handler g p = None) | _ => true end = true) as H.
  { revert Hr. explored 300%nat. }
  intros E. rewrite E in H. by apply bool_decide_eq_true in H.
Qed.

End Usr.

(** ** socket/others/listen_backlog.c: the flag is [stop] *)
Module Backlog.

Definition backlog_main : list scmd :=
  [ Signal SIGTERM (Some 1%nat);
    Printf "socket, bind, listen";
    IfFlag 1 5;
    Spend 1;
    Goto 2;
    Return ].

Definition handle_term : list scmd := [ Printf "ending"; SetFlag 1; Return ].

Definition listen_backlog : sprogram := SProgram [backlog_main; handle_term] [SIGTERM].

(** The program never waits: it ends, by the handler's flag, or killed before the
    handler was installed. *)
Theorem backlog_ends p :
  rtc (step (succ listen_backlog)) start p -> stuck listen_backlog p = true ->
  (stat p = Exited /\ flag p = 1) \/ (stat p = Killed SIGTERM /\ disp p = []).
Proof.
  intros Hr.
  assert (implb (stuck listen_backlog p)
    (bool_decide ((stat p = Exited /\ flag p = 1) \/ (stat p = Killed SIGTERM /\ disp p = [])))
    = true) as H.
  { revert Hr. explored 300%nat. }
  intros Hs. rewrite Hs in H. by apply bool_decide_eq_true in H.
Qed.

End Backlog.
