(* ===== verification/TcpUdp.v ===== *)
(** * One port for TCP and UDP (socket/io_multiplexing/io_tcp_udp.c)

    The echo server that watches a listening socket, a UDP socket and its TCP
    connections with one epoll table, all edge-triggered.  The kernel's side is
    what has arrived: bytes on the connections, datagrams, connections to
    accept, and how much each [send] on a non-blocking connection takes. *)

From S2P Require Import Prelude CString.

Definition TCP_BUFFER_SIZE : nat := 512.
Definition UDP_BUFFER_SIZE : nat := 1024.
#[global] Arguments TCP_BUFFER_SIZE : simpl never.
#[global] Arguments UDP_BUFFER_SIZE : simpl never.

(** ** The kernel *)

Record sock := Sock { inbox : bytes; fin : bool }.

Inductive out :=
  | Send (fd : Z) (data : bytes) (taken : nat)    (** what was offered, and how many bytes the kernel took *)
  | SendTo (addr : Z) (data : bytes)
  | Close (fd : Z)
  | Other.    (** "something else happened" *)

(** [datagrams]: with the address of the sender; [backlog]: the connections that
    wait, with the descriptor [accept] will give them; [takes]: the room the next
    [send]s find in the connection's buffer, none at all for EAGAIN or an error; when
    it has ended there is room for everything. *)
Record kern := Kern {
  socks : gmap Z sock;
  datagrams : list (bytes * Z);
  backlog : list (Z * sock);
  interest : gset Z;
  nonblock : gset Z;
  log : list out;
  takes : list nat }.

Definition emit (o : out) (k : kern) : kern :=
  Kern (socks k) (datagrams k) (backlog k) (interest k) (nonblock k) (log k ++ [o]) (takes k).

Definition set_sock (fd : Z) (s : sock) (k : kern) : kern :=
  Kern (<[fd := s]> (socks k)) (datagrams k) (backlog k) (interest k) (nonblock k) (log k) (takes k).

Definition recv (fd : Z) (n : nat) (k : kern) : recv_t * kern :=
  match socks k !! fd with
  | None => (RecvError, k)
  | Some s =>
      if decide (inbox s = []) then (if fin s then Received [] else Again, k)
      else (Received (take n (inbox s)), set_sock fd (Sock (drop n (inbox s)) (fin s)) k)
  end.

(** A [send] that does not wait takes what there is room for; what it takes not is
    the caller's to keep. *)
Definition room (rooms : list nat) (d : bytes) : nat :=
  match rooms with [] => length d | n :: _ => min n (length d) end.

Definition send (fd : Z) (d : bytes) (k : kern) : kern :=
  Kern (socks k) (datagrams k) (backlog k) (interest k) (nonblock k)
    (log k ++ [Send fd d (room (takes k) d)]) (tail (takes k)).

(** [recvfrom] takes one datagram, and loses what does not fit. *)
Definition recvfrom (n : nat) (k : kern) : option (bytes * Z) * kern :=
  match datagrams k with
  | [] => (None, k)
  | (d, a) :: ds => (Some (take n d, a), Kern (socks k) ds (backlog k) (interest k) (nonblock k) (log k) (takes k))
  end.

Definition close (fd : Z) (k : kern) : kern :=
  emit (Close fd) (Kern (delete fd (socks k)) (datagrams k) (backlog k) (interest k ∖ {[fd]})
                     (nonblock k ∖ {[fd]}) (log k) (takes k)).

Definition accept (k : kern) : Z * kern :=
  match backlog k with
  | [] => (-1, k)
  | (c, s) :: l => (c, Kern (<[c := s]> (socks k)) (datagrams k) l (interest k) (nonblock k) (log k) (takes k))
  end.

(** ** The program *)

Definition setnonblocking (fd : Z) (k : kern) : kern :=
  Kern (socks k) (datagrams k) (backlog k) (interest k) ({[fd]} ∪ nonblock k) (log k) (takes k).

Definition addfd (fd : Z) (k : kern) : kern :=
  setnonblocking fd
    (Kern (socks k) (datagrams k) (backlog k) ({[fd]} ∪ interest k) (nonblock k) (log k) (takes k)).

(** The TCP loop; after the close at the end of the file it goes on, and the result of
    [send] is not looked at. *)
Fixpoint tcp_loop (fuel : nat) (sockfd : Z) (k : kern) : res kern :=
  match fuel with
  | O => Err OutOfFuel
  | S fuel =>
      match recv sockfd (TCP_BUFFER_SIZE - 1) k with
      | (Again, k) => Ok k
      | (RecvError, k) => Ok (close sockfd k)
      | (Received data, k) =>
          tcp_loop fuel sockfd
            (if decide (data = []) then close sockfd k else send sockfd data k)
      end
  end.

(** The buffer is zeroed, filled by one [recvfrom], and sent up to its last
    byte but one. *)
Definition udp_answer (k : kern) : res kern :=
  let buf := replicate UDP_BUFFER_SIZE NUL in
  match recvfrom (UDP_BUFFER_SIZE - 1) k with
  | (None, k) => Ok k
  | (Some (d, client_address), k) =>
      buf ← awrite buf 0 d;
      if decide (0 < length d)%nat
      then Ok (emit (SendTo client_address (take (UDP_BUFFER_SIZE - 1) buf)) k)
      else Ok k
  end.

(** A bound on the iterations: what the socket holds, and three more. *)
Definition tcp_fuel (sockfd : Z) (k : kern) : nat :=
  match socks k !! sockfd with Some s => length (inbox s) + 3 | None => 1 end.

(** One event: the descriptor, and whether EPOLLIN is set. *)
Definition handle_event (listenfd udpfd : Z) (ev : Z * bool) (k : kern) : res kern :=
  let '(sockfd, epollin) := ev in
  if decide (sockfd = listenfd) then
    let '(connfd, k) := accept k in
    _ ← assert_that (connfd >= 0);
    Ok (addfd connfd k)
  else if decide (sockfd = udpfd) then udp_answer k
  else if epollin : bool then tcp_loop (tcp_fuel sockfd k) sockfd k
  else Ok (emit Other k).

Fixpoint handle_events (listenfd udpfd : Z) (evs : list (Z * bool)) (k : kern) : res kern :=
  match evs with
  | [] => Ok k
  | ev :: evs => k ← handle_event listenfd udpfd ev k; handle_events listenfd udpfd evs k
  end.

(** What happens between two waits. *)
Inductive arrival :=
  | Data (fd : Z) (d : bytes)
  | Fin (fd : Z)
  | Datagram (d : bytes) (addr : Z)
  | Connect (fd : Z).

#[export] Instance arrival_eq_dec : EqDecision arrival.
Proof. solve_decision. Defined.

Definition arrive (k : kern) (a : arrival) : kern :=
  match a with
  | Data fd d => match socks k !! fd with
                 | Some s => set_sock fd (Sock (inbox s ++ d) (fin s)) k
                 | None => k
                 end
  | Fin fd => match socks k !! fd with
              | Some s => set_sock fd (Sock (inbox s) true) k
              | None => k
              end
  | Datagram d addr =>
      Kern (socks k) (datagrams k ++ [(d, addr)]) (backlog k) (interest k) (nonblock k) (log k) (takes k)
  | Connect fd =>
      Kern (socks k) (datagrams k) (backlog k ++ [(fd, Sock [] false)]) (interest k) (nonblock k) (log k) (takes k)
  end.

(** [epoll_wait]: what arrived in the meantime, and the events it reports;
    [None] is its failure, which ends the program. *)
Definition wait_t : Type := option (list arrival * list (Z * bool)).

Fixpoint main_loop (listenfd udpfd : Z) (waits : list wait_t) (k : kern) : res kern :=
  match waits with
  | [] => Ok k
  | None :: _ => Ok (close udpfd (close listenfd k))
  | Some (arrivals, evs) :: waits =>
      k ← handle_events listenfd udpfd evs (foldl arrive k arrivals);
      main_loop listenfd udpfd waits k
  end.

(** Before the loop: the results of the calls, and the registrations. *)
Definition setup (argc listenfd bnd lst udpfd bnd_udp epollfd : Z) (rooms : list nat) : res (Z + kern) :=
  if decide (argc <> 2) then Ok (inl 1)
  else
    _ ← assert_that (listenfd >= 0);
    _ ← assert_that (bnd <> -1);
    _ ← assert_that (lst <> -1);
    _ ← assert_that (udpfd >= 0);
    _ ← assert_that (bnd_udp <> -1);
    _ ← assert_that (epollfd <> -1);
    Ok (inr (addfd udpfd (addfd listenfd (Kern ∅ [] [] ∅ ∅ [] rooms)))).

(** ** TCP *)

(** The calls of [send] for the pieces [ds]. *)
Fixpoint sends (fd : Z) (rooms : list nat) (ds : list bytes) : list out :=
  match ds with
  | [] => []
  | d :: ds => Send fd d (room rooms d) :: sends fd (tail rooms) ds
  end.

(** The kernel after everything in the socket was read and offered. *)
Definition drained (fd : Z) (f : bool) (ds : list bytes) (k : kern) : kern :=
  Kern (<[fd := Sock [] f]> (socks k)) (datagrams k) (backlog k) (interest k) (nonblock k)
    (log k ++ sends fd (takes k) ds) (drop (length ds) (takes k)).

Lemma tcp_loop_reads fd f fuel d : forall k,
  socks k !! fd = Some (Sock d f) -> (length d < fuel)%nat ->
  exists fuel', (fuel - length d <= fuel')%nat /\
  tcp_loop fuel fd k = tcp_loop fuel' fd (drained fd f (chunks 511 d) k).
Proof.
  revert fuel. apply (pieces_ind 511 (fun d => forall fuel k, socks k !! fd = Some (Sock d f) ->
    (length d < fuel)%nat -> exists fuel', (fuel - length d <= fuel')%nat /\
    tcp_loop fuel fd k = tcp_loop fuel' fd (drained fd f (chunks 511 d) k))); [lia| |].
  - intros fuel k Hk _. exists fuel. split; [lia|]. f_equal. unfold drained. rewrite insert_id by done.
    cbn. rewrite app_nil_r, drop_0. by destruct k.
  - clear d. intros d Hd IH [|fuel] k Hk Hf; [lia|].
    pose proof (drop_shorter 511 d ltac:(lia) Hd) as Hs. cbn [tcp_loop]. unfold recv. rewrite Hk.
    cbn [inbox fin]. rewrite decide_False by done. change (TCP_BUFFER_SIZE - 1)%nat with 511%nat.
    rewrite decide_False by by destruct d.
    edestruct (IH fuel (send fd (take 511 d) (set_sock fd (Sock (drop 511 d) f) k)))
      as (fuel' & Hf' & ->); [cbn; by rewrite lookup_insert_eq|lia|].
    exists fuel'. split; [lia|]. f_equal. unfold drained, send, set_sock.
    cbn [socks datagrams backlog interest nonblock log takes]. rewrite insert_insert_eq.
    rewrite (chunks_cons 511 d) by (lia || done). cbn [sends length]. rewrite <- app_assoc.
    destruct (takes k); cbn [drop tail]; by rewrite ?drop_nil.
Qed.

Lemma tcp_event_reads l u fd s k :
  socks k !! fd = Some s -> fd <> l -> fd <> u ->
  exists k', handle_event l u (fd, true) k = Ok k' /\
    log k' = log k ++ sends fd (takes k) (chunks 511 (inbox s)) ++
             (if fin s then [Close fd; Close fd] else []) /\
    socks k' = (if fin s then delete fd (socks k) else <[fd := Sock [] false]> (socks k)).
Proof.
  intros Hk Hl Hu. destruct s as [d f]. unfold handle_event. rewrite !decide_False by done.
  unfold tcp_fuel. rewrite Hk. cbn [inbox fin].
  destruct (tcp_loop_reads fd f (length d + 3) d k Hk) as (fuel & Hf & ->); [lia|].
  destruct fuel as [|[|[|fuel]]]; [lia..|].
  cbn [tcp_loop]. unfold recv at 1. cbn [drained socks]. rewrite lookup_insert_eq.
  cbn [inbox fin]. rewrite decide_True by done. destruct f.
  - rewrite decide_True by done. unfold recv at 1. cbn [close emit socks].
    rewrite lookup_delete_eq. eexists. split; [reflexivity|].
    cbn [close drained emit log socks].
    split; [by rewrite <- !app_assoc|by rewrite delete_delete_eq, delete_insert_eq].
  - eexists. split; [reflexivity|]. cbn [drained log socks]. by rewrite app_nil_r.
Qed.

(** ** UDP *)

(** udp_padded: a datagram is answered, to its sender, with its first 1023 bytes
    followed by as many zeros as make 1023, however short it was; only an empty
    one is not answered.  One datagram is taken per event. *)
Theorem udp_padded l u d a ds e k :
  datagrams k = (d, a) :: ds -> l <> u ->
  exists k', handle_event l u (u, e) k = Ok k' /\
    datagrams k' = ds /\ socks k' = socks k /\
    log k' = log k ++ (if decide (d = []) then []
                       else [SendTo a (take 1023 (d ++ replicate 1023 NUL))]).
Proof.
  intros Hd Hu. unfold handle_event. rewrite decide_False, decide_True by done.
  unfold udp_answer, recvfrom. rewrite Hd. change (UDP_BUFFER_SIZE - 1)%nat with 1023%nat.
  rewrite (bind_ok _ _ (take 1023 d ++ replicate (UDP_BUFFER_SIZE - length (take 1023 d)) NUL)).
  2:{ rewrite awrite_ok by (rewrite ?length_replicate, ?length_take; unfold UDP_BUFFER_SIZE; lia).
      cbn [Z.to_nat take app]. by rewrite drop_replicate, Nat.add_0_l. }
  destruct d as [|c d].
  { rewrite decide_False by (cbn; lia). eexists. split_and!; [reflexivity|done..|].
    cbn [log]. by rewrite decide_True, app_nil_r. }
  rewrite decide_True by (rewrite length_take; cbn [length]; lia).
  eexists. split_and!; [reflexivity|done..|]. rewrite decide_False by done. cbn [emit log].
  do 3 f_equal. set (x := c :: d). destruct (decide (length x <= 1023)%nat).
  - rewrite (take_ge x 1023), !take_app, take_ge by lia. f_equal.
    rewrite !take_replicate. f_equal. unfold UDP_BUFFER_SIZE. lia.
  - rewrite take_app_le by (rewrite length_take; lia). rewrite take_take, Nat.min_id.
    by rewrite take_app_le by lia.
Qed.

(** ** What is received is sent back *)

(** The bytes given to [send] for [fd], and those the kernel took. *)
Definition offered (fd : Z) (os : list out) : bytes :=
  concat (omap (fun o => match o with
                         | Send fd' data _ => if decide (fd' = fd) then Some data else None
                         | _ => None
                         end) os).

Definition echoed (fd : Z) (os : list out) : bytes :=
  concat (omap (fun o => match o with
                         | Send fd' data n => if decide (fd' = fd) then Some (take n data) else None
                         | _ => None
                         end) os).

(** Every [send] took all it was offered. *)
Definition whole (os : list out) : Prop :=
  Forall (fun o => match o with Send _ d n => n = length d | _ => True end) os.

Lemma offered_app fd o1 o2 : offered fd (o1 ++ o2) = offered fd o1 ++ offered fd o2.
Proof. unfold offered. by rewrite omap_app, concat_app. Qed.

Lemma echoed_offered fd os : echoed fd os `sublist_of` offered fd os.
Proof.
  induction os as [|[fd' d n|a d|fd'|] os IH]; [done| |done..].
  unfold echoed, offered in *. cbn [omap list_omap]. case_decide; [|done]. cbn [concat].
  apply sublist_app; [apply sublist_take|done].
Qed.

Lemma echoed_whole fd os : whole os -> echoed fd os = offered fd os.
Proof.
  induction 1 as [|[fd' d n|a d|fd'|] os Ho _ IH]; [done| |done..].
  unfold echoed, offered in *. cbn [omap list_omap]. case_decide; [|done]. cbn [concat].
  by rewrite Ho, take_ge, IH.
Qed.

(** The bytes that arrived on [fd]. *)
Definition came (fd : Z) (arrivals : list arrival) : bytes :=
  concat (omap (fun a => match a with
                         | Data fd' d => if decide (fd' = fd) then Some d else None
                         | _ => None
                         end) arrivals).

(** From [k] to [k'], with [extra] arriving for [fd], what was read from [fd] was offered
    to [fd], once and in order, unless [fd] was closed. *)
Definition conserves (fd : Z) (extra : bytes) (k k' : kern) : Prop :=
  exists new, log k' = log k ++ new /\ (takes k = [] -> takes k' = [] /\ whole new) /\
    (fd ∉ (backlog k).*1 -> fd ∉ (backlog k').*1 /\
     (Close fd ∉ new -> forall s, socks k !! fd = Some s ->
        exists s', socks k' !! fd = Some s' /\ offered fd new ++ inbox s' = inbox s ++ extra)).

Lemma conserves_refl fd k : conserves fd [] k k.
Proof.
  exists []. rewrite app_nil_r. split_and!; [done|by intros ->; split; [|apply Forall_nil]|]. intros Hb. split; [done|].
  intros _ s Hs. exists s. by rewrite app_nil_r.
Qed.

Lemma conserves_trans fd x y k1 k2 k3 :
  conserves fd x k1 k2 -> conserves fd y k2 k3 -> conserves fd (x ++ y) k1 k3.
Proof.
  intros (n1 & E1 & W1 & H1) (n2 & E2 & W2 & H2). exists (n1 ++ n2). rewrite E2, E1, <- app_assoc.
  split; [done|]. split.
  { intros [H W]%W1. apply W2 in H as [? W']. split; [done|by apply Forall_app]. }
  intros Hb. destruct (H1 Hb) as [Hb2 H1']. destruct (H2 Hb2) as [Hb3 H2'].
  split; [done|]. rewrite elem_of_app. intros Hc s Hs.
  destruct (H1' ltac:(tauto) s Hs) as (s2 & Hs2 & E). destruct (H2' ltac:(tauto) s2 Hs2) as (s3 & Hs3 & E').
  exists s3. split; [done|]. rewrite offered_app, <- app_assoc, E', app_assoc, E. by rewrite <- app_assoc.
Qed.

Lemma conserves_nil fd k1 k2 k3 :
  conserves fd [] k1 k2 -> conserves fd [] k2 k3 -> conserves fd [] k1 k3.
Proof. apply conserves_trans. Qed.

Lemma close_conserves fd fd' k : conserves fd [] k (close fd' k).
Proof.
  exists [Close fd']. split; [done|]. split; [by intros H; split; [|repeat constructor]|]. intros Hb. split; [done|]. rewrite list_elem_of_singleton.
  intros Hc s Hs. exists s. cbn [close emit socks]. rewrite lookup_delete_ne by congruence.
  by rewrite app_nil_r.
Qed.

(** Data taken from a socket and sent to it. *)
Lemma echo_conserves fd fd' n s k :
  socks k !! fd' = Some s ->
  conserves fd [] k (send fd' (take n (inbox s)) (set_sock fd' (Sock (drop n (inbox s)) (fin s)) k)).
Proof.
  intros Hk. eexists. split; [reflexivity|]. cbn [set_sock takes]. split.
  { intros E. cbn [send set_sock takes]. rewrite E. split; [done|by apply Forall_singleton]. }
  intros Hb. split; [done|].
  intros _ s0 Hs0. cbn [send set_sock socks]. unfold offered. cbn [omap list_omap].
  destruct (decide (fd' = fd)) as [->|Hne].
  - rewrite lookup_insert_eq. eexists. split; [done|]. cbn [concat inbox].
    rewrite !app_nil_r, take_drop. congruence.
  - rewrite lookup_insert_ne by done. exists s0. by rewrite app_nil_r.
Qed.

Lemma tcp_loop_conserves fd fd' fuel : forall k k',
  tcp_loop fuel fd' k = Ok k' -> conserves fd [] k k'.
Proof.
  induction fuel as [|fuel IH]; intros k k'; [done|]. cbn [tcp_loop]. unfold recv.
  destruct (socks k !! fd') as [s|] eqn:Hk.
  2:{ intros [= <-]. apply close_conserves. }
  destruct (decide (inbox s = [])) as [Hd|Hd].
  - destruct (fin s); [|intros [= <-]; apply conserves_refl].
    rewrite decide_True by done. intros H%IH. eapply conserves_nil; [apply close_conserves|done].
  - rewrite decide_False by (destruct (inbox s); done). intros H%IH.
    eapply conserves_nil; [by apply echo_conserves|done].
Qed.

(** A change that leaves the sockets and the log. *)
Lemma same_conserves fd k k' :
  log k' = log k -> takes k' = takes k -> socks k' = socks k -> ((backlog k').*1 ⊆ (backlog k).*1) ->
  conserves fd [] k k'.
Proof.
  intros El Et Es Hb. exists []. rewrite El, Et, Es, app_nil_r. split; [done|].
  split; [by intros ->; split; [|apply Forall_nil]|].
  intros Hn. split; [set_solver|]. intros _ s Hs. exists s. by rewrite app_nil_r.
Qed.

Lemma emit_conserves fd o k :
  (forall fd' d n, o <> Send fd' d n) -> conserves fd [] k (emit o k).
Proof.
  intros Ho. exists [o]. split; [done|].
  split; [intros H; split; [done|repeat constructor; by destruct o; [destruct (Ho fd0 data taken)|..]]|]. intros Hb. split; [done|]. intros _ s Hs. exists s.
  split; [done|]. rewrite app_nil_r. destruct o; try done. by edestruct Ho.
Qed.

Lemma handle_event_conserves l u fd ev k k' :
  handle_event l u ev k = Ok k' -> conserves fd [] k k'.
Proof.
  destruct ev as [sockfd e]. unfold handle_event. case_decide.
  { unfold accept. destruct (backlog k) as [|[c s] bl] eqn:Eb; cbn; [done|].
    intros H'. apply bind_ok_inv in H' as (? & _ & [= <-]).
    exists []. cbn. rewrite app_nil_r. split; [done|].
    split; [by intros ->; split; [|apply Forall_nil]|]. rewrite Eb. cbn. intros Hn.
    split; [set_solver|]. intros _ s0 Hs0. exists s0. rewrite app_nil_r.
    rewrite lookup_insert_ne by set_solver. done. }
  case_decide.
  { unfold udp_answer, recvfrom. destruct (datagrams k) as [|[d a] ds]; cbn.
    { intros [= <-]. apply conserves_refl. }
    intros H'. apply bind_ok_inv in H' as (buf & _ & H').
    assert (conserves fd [] k (Kern (socks k) ds (backlog k) (interest k) (nonblock k) (log k) (takes k)))
      by by apply same_conserves.
    case_decide; injection H' as <-; [|done].
    eapply conserves_nil; [done|by apply emit_conserves]. }
  destruct e; [apply tcp_loop_conserves|]. intros [= <-]. by apply emit_conserves.
Qed.

Lemma arrive_conserves fd k a :
  a <> Connect fd -> conserves fd (came fd [a]) k (arrive k a).
Proof.
  intros Ha. destruct a as [fd' d|fd'|d a|c]; unfold came; cbn [omap list_omap concat arrive].
  - destruct (socks k !! fd') as [s|] eqn:Hk.
    2:{ exists []. rewrite app_nil_r. split; [done|].
        split; [by intros ->; split; [|apply Forall_nil]|]. intros Hb. split; [done|]. intros _ s Hs.
        exists s. split; [done|]. case_decide; [congruence|]. cbn. by rewrite app_nil_r. }
    exists []. rewrite app_nil_r. split; [done|].
    split; [by intros H; split; [|apply Forall_nil]|]. intros Hb. split; [done|]. intros _ s0 Hs0.
    cbn [set_sock socks]. case_decide as Hfd.
    + subst. rewrite lookup_insert_eq. eexists. split; [done|]. cbn. rewrite app_nil_r. congruence.
    + rewrite lookup_insert_ne by done. exists s0. by rewrite app_nil_r.
  - destruct (socks k !! fd') as [s|] eqn:Hk; [|apply conserves_refl].
    exists []. rewrite app_nil_r. split; [done|].
    split; [by intros H; split; [|apply Forall_nil]|]. intros Hb. split; [done|]. intros _ s0 Hs0.
    cbn [set_sock socks]. rewrite app_nil_r. destruct (decide (fd' = fd)) as [->|].
    + rewrite lookup_insert_eq. eexists. split; [done|]. cbn. congruence.
    + rewrite lookup_insert_ne by done. by exists s0.
  - by apply same_conserves.
  - exists []. cbn. rewrite app_nil_r. split; [done|].
    split; [by intros ->; split; [|apply Forall_nil]|]. rewrite fmap_app. cbn. intros Hb. split.
    + rewrite elem_of_app, list_elem_of_singleton. intros [?| ->]; [done|]. by apply Ha.
    + intros _ s Hs. exists s. by rewrite app_nil_r.
Qed.

Lemma came_cons fd a l : came fd (a :: l) = came fd [a] ++ came fd l.
Proof. unfold came. rewrite <- concat_app, <- omap_app. done. Qed.

Lemma came_app fd l1 l2 : came fd (l1 ++ l2) = came fd l1 ++ came fd l2.
Proof. unfold came. by rewrite omap_app, concat_app. Qed.

Lemma arrivals_conserve fd l : forall k,
  Connect fd ∉ l -> conserves fd (came fd l) k (foldl arrive k l).
Proof.
  induction l as [|a l IH]; intros k Hl; [apply conserves_refl|].
  rewrite not_elem_of_cons in Hl. rewrite came_cons. cbn [foldl].
  eapply conserves_trans; [apply arrive_conserves|apply IH]; intuition.
Qed.

Lemma handle_events_conserves l u fd evs : forall k k',
  handle_events l u evs k = Ok k' -> conserves fd [] k k'.
Proof.
  induction evs as [|ev evs IH]; intros k k'; cbn [handle_events].
  - intros [= <-]. apply conserves_refl.
  - intros (k1 & H1 & H2)%bind_ok_inv. eapply conserves_nil; eauto using handle_event_conserves.
Qed.

(** All that arrives during a run. *)
Definition arrivals (waits : list wait_t) : list arrival :=
  concat (omap (fun w => fst <$> w) waits).

Lemma arrivals_cons arr evs waits : arrivals (Some (arr, evs) :: waits) = arr ++ arrivals waits.
Proof. done. Qed.

Lemma main_loop_conserves l u fd waits : forall k k',
  None ∉ waits -> Connect fd ∉ arrivals waits ->
  main_loop l u waits k = Ok k' -> conserves fd (came fd (arrivals waits)) k k'.
Proof.
  induction waits as [|[[arr evs]|] waits IH]; intros k k' Hn Hc H.
  - injection H as <-. apply conserves_refl.
  - rewrite not_elem_of_cons in Hn. rewrite arrivals_cons in *. rewrite not_elem_of_app in Hc.
    cbn [main_loop] in H. apply bind_ok_inv in H as (k1 & H1 & H2). rewrite came_app.
    rewrite <- (app_nil_l (came fd (arrivals waits))).
    eapply conserves_trans; [apply arrivals_conserve; tauto|].
    eapply conserves_trans; [by eapply handle_events_conserves|]. apply IH; tauto.
  - set_solver.
Qed.

(** ** The loop does not fail *)

Lemma handle_event_returns l u ev k :
  (exists k', handle_event l u ev k = Ok k') \/ handle_event l u ev k = Err AssertFail.
Proof.
  destruct ev as [fd e]. destruct (decide (fd = l)) as [->|Hl].
  { unfold handle_event. rewrite decide_True by done. destruct (accept k) as [c k'].
    unfold assert_that. case_decide; cbn; eauto. }
  left. destruct (decide (fd = u)) as [->|Hu].
  { destruct (datagrams k) as [|[d a] ds] eqn:Ed.
    - unfold handle_event, udp_answer, recvfrom. rewrite Ed, decide_False, decide_True by done. eauto.
    - destruct (udp_padded l u d a ds e k Ed) as (k' & ? & _); [congruence|eauto]. }
  destruct e.
  2:{ unfold handle_event. rewrite !decide_False by done. eauto. }
  destruct (socks k !! fd) as [s|] eqn:Hk.
  - destruct (tcp_event_reads l u fd s k Hk Hl Hu) as (k' & ? & _). eauto.
  - unfold handle_event. rewrite !decide_False by done. unfold tcp_fuel, tcp_loop, recv.
    rewrite !Hk. eauto.
Qed.

Lemma main_loop_returns l u waits : forall k,
  (exists k', main_loop l u waits k = Ok k') \/ main_loop l u waits k = Err AssertFail.
Proof.
  assert (forall evs k, (exists k', handle_events l u evs k = Ok k') \/
    handle_events l u evs k = Err AssertFail) as Hevs.
  { induction evs as [|ev evs IH]; intros k; cbn; [eauto|].
    destruct (handle_event_returns l u ev k) as [[k' ->]| ->]; cbn; eauto. }
  induction waits as [|[[arr evs]|] waits IH]; intros k; cbn; [eauto| |eauto].
  destruct (Hevs evs (foldl arrive k arr)) as [[k' ->]| ->]; cbn; eauto.
Qed.

(** [C37] tcp_conserves: the loop never faults but by the assertion on [accept]; and
    whatever connections, data and datagrams arrive, in whatever pieces, whatever events
    are reported and however much the [send]s take, as long as a connection is open
    exactly what came on it has been given to [send] on it, once and in order, or is
    still waiting to be read.  The peer is sent what the [send]s took of it: everything
    when each has room, else what is missing is lost, since the result is not looked at
    (see [tcp_short_send]). *)
Theorem tcp_conserves l u fd waits k s :
  socks k !! fd = Some s -> fd ∉ (backlog k).*1 ->
  None ∉ waits -> Connect fd ∉ arrivals waits ->
  main_loop l u waits k = Err AssertFail \/
  exists k' new, main_loop l u waits k = Ok k' /\ log k' = log k ++ new /\
    (Close fd ∉ new -> exists s', socks k' !! fd = Some s' /\
       offered fd new ++ inbox s' = inbox s ++ came fd (arrivals waits)) /\
    echoed fd new `sublist_of` offered fd new /\
    (takes k = [] \/ whole new -> echoed fd new = offered fd new).
Proof.
  intros Hs Hb Hn Hc. destruct (main_loop_returns l u waits k) as [[k' H]|]; [|by left].
  right. destruct (main_loop_conserves l u fd waits k k' Hn Hc H) as (new & El & Ew & Hnew).
  exists k', new. split_and!; [done..| | |].
  - intros Hcl. by apply (proj2 (Hnew Hb)).
  - apply echoed_offered.
  - intros Hw. apply echoed_whole. destruct Hw as [Hw|]; [by apply Ew|done].
Qed.

(** tcp_closed_twice: when the peer has closed, the handler sends back what there
    was, closes the descriptor, reads from it once more and closes it again. *)
Theorem tcp_closed_twice l u fd d k :
  socks k !! fd = Some (Sock d true) -> fd <> l -> fd <> u ->
  exists k', handle_event l u (fd, true) k = Ok k' /\
    log k' = log k ++ sends fd (takes k) (chunks 511 d) ++ [Close fd; Close fd] /\
    concat (chunks 511 d) = d /\ socks k' !! fd = None.
Proof.
  intros Hk Hl Hu. destruct (tcp_event_reads l u fd _ k Hk Hl Hu) as (k' & H & El & Es).
  exists k'. split_and!; [done|done|apply chunks_concat; lia|]. rewrite Es. apply lookup_delete_eq.
Qed.

(** ** Concrete runs *)

Definition k0 : kern := Kern {[5 := Sock [] false]} [] [] {[3; 4; 5]} {[3; 4; 5]} [] [].
Definition waits0 : list wait_t :=
  [ Some ([Data 5 (lit "ab"); Datagram (lit "x") 7], [(4, true); (5, true)]);
    Some ([Data 5 (lit "c"); Connect 6], [(3, true)]) ].

Lemma tcp_conserves_witness :
  main_loop 3 4 waits0 k0 = Err AssertFail \/
  exists k' new, main_loop 3 4 waits0 k0 = Ok k' /\ log k' = log k0 ++ new /\
    (Close 5 ∉ new -> exists s', socks k' !! 5 = Some s' /\
       offered 5 new ++ inbox s' = inbox (Sock [] false) ++ came 5 (arrivals waits0)) /\
    echoed 5 new `sublist_of` offered 5 new /\
    (takes k0 = [] \/ whole new -> echoed 5 new = offered 5 new).
Proof.
  apply tcp_conserves; [reflexivity|decided| |decided].
  unfold waits0. rewrite !not_elem_of_cons. split_and!; [done..|apply not_elem_of_nil].
Defined.

(** tcp_short_send: when a [send] takes a part only, the rest is gone: it is neither sent
    back nor left to be read, and the next data follows the gap. *)
Theorem tcp_short_send :
  let k := Kern {[5 := Sock (lit "abc") false]} [] [] {[3; 4; 5]} {[3; 4; 5]} [] [1%nat] in
  exists k', main_loop 3 4 [Some ([], [(5, true)]); Some ([Data 5 (lit "de")], [(5, true)])] k = Ok k' /\
    log k' = [Send 5 (lit "abc") 1; Send 5 (lit "de") 2] /\ echoed 5 (log k') = lit "ade" /\
    socks k' !! 5 = Some (Sock [] false).
Proof. eexists. split; [vm_compute; reflexivity|]. by split_and!. Qed.

Definition k1 : kern := Kern {[5 := Sock (lit "ab") true]} [(lit "x", 7)] [] ∅ ∅ [] [].

Lemma udp_padded_witness :
  exists k', handle_event 3 4 (4, true) k1 = Ok k' /\
    datagrams k' = [] /\ socks k' = socks k1 /\
    log k' = log k1 ++ (if decide (lit "x" = []) then []
                        else [SendTo 7 (take 1023 (lit "x" ++ replicate 1023 NUL))]).
Proof. apply udp_padded; [reflexivity|decided]. Defined.

Lemma tcp_closed_twice_witness :
  exists k', handle_event 3 4 (5, true) k1 = Ok k' /\
    log k' = log k1 ++ sends 5 (takes k1) (chunks 511 (lit "ab")) ++ [Close 5; Close 5] /\
    concat (chunks 511 (lit "ab")) = lit "ab" /\ socks k' !! 5 = None.
Proof. apply tcp_closed_twice; [reflexivity|decided|decided]. Defined.
