(* ===== verification/RawEcho.v ===== *)
(** * Copying with plain read and write (socket/echo, apue/rw.c, apue/ipc/test_pipe.c)

    echoserver.c and echoclient.c of socket/echo and the copying loop of rw.c, over
    the kernel of Rio.v; and the two processes of test_pipe.c, whose
    interleavings are computed with Explore.v. *)

From S2P Require Import Prelude CString Rio Explore.

(** A stream without errors, interruptions and empty pieces. *)
Definition plain (s : list item) : Prop :=
  Forall (fun i => match i with Chunk d => d <> [] | _ => False end) s.

#[export] Instance plain_dec s : Decision (plain s).
Proof. refine (Forall_dec _ _). intros []; apply _. Defined.

(** No empty pieces; errors and interruptions may come. *)
Definition solid (s : list item) : Prop :=
  Forall (fun i => match i with Chunk d => d <> [] | _ => True end) s.

(** Enough turns for a loop that reads at least a byte, or an error, each time. *)
Definition turns (s : list item) : nat := S (length (bytes_of s) + length s).

Lemma plain_solid s : plain s -> solid s.
Proof. intros H. eapply Forall_impl; [exact H|]. by intros []. Qed.

Lemma sys_read_chunk n d s :
  (0 < n)%nat -> d <> [] -> solid s ->
  exists d1 s', sys_read n (Chunk d :: s) = (RData d1, s') /\ d1 <> [] /\ (length d1 <= n)%nat /\
    bytes_of (Chunk d :: s) = d1 ++ bytes_of s' /\ (turns s' < turns (Chunk d :: s))%nat /\
    solid s' /\ (plain s' <-> plain (Chunk d :: s)).
Proof.
  intros Hn Hd Hs. unfold sys_read. case_decide.
  - exists d, s. split_and!; try done.
    + unfold turns. cbn [bytes_of length]. rewrite length_app. destruct d; [done|]. cbn. lia.
    + unfold plain. rewrite Forall_cons. tauto.
  - pose proof (drop_shorter n d Hn Hd) as Hlt.
    assert (drop n d <> []) as Hne by (destruct (drop n d) eqn:E; [apply (f_equal length) in E;
      rewrite length_drop in E; cbn in E; lia|done]).
    exists (take n d), (Chunk (drop n d) :: s). split_and!; [done| | | | | |].
    + destruct d, n; done || lia.
    + rewrite length_take. lia.
    + cbn [bytes_of]. by rewrite app_assoc, take_drop.
    + unfold turns. cbn [bytes_of length]. rewrite !length_app. lia.
    + by constructor.
    + unfold plain. rewrite !Forall_cons. tauto.
Qed.

(** ** rw.c: standard input to standard output *)
Module Rw.

Definition BUFFSISE : nat := 4096.

Inductive verdict := Copied | WriteError | ReadError.

(** [took i d]: the result of the [i]-th [write], of [d]; -1 or the number of
    bytes taken. *)
Fixpoint rw_loop (fuel i : nat) (took : nat -> bytes -> Z) (s : list item) : res (verdict * bytes) :=
  match fuel with
  | O => Err OutOfFuel
  | S fuel =>
      match sys_read BUFFSISE s with
      | (REof, _) => Ok (Copied, [])
      | (RIntr, _) | (RFail, _) => Ok (ReadError, [])
      | (RData d, s) =>
          if decide (d = []) then Ok (Copied, [])
          else if decide (took i d <> Z.of_nat (length d)) then
            Ok (WriteError, take (Z.to_nat (took i d)) d)
          else
            '(v, out) ← rw_loop fuel (S i) took s;
            Ok (v, d ++ out)
      end
  end.

Definition rw (took : nat -> bytes -> Z) (s : list item) : res (verdict * bytes) :=
  rw_loop (turns s) 0 took s.

Lemma rw_loop_spec took fuel : forall i s,
  solid s -> (turns s <= fuel)%nat ->
  exists v out, rw_loop fuel i took s = Ok (v, out) /\ out `prefix_of` bytes_of s /\
    (v = Copied -> out = bytes_of s /\ plain s) /\
    (plain s -> (forall j d, took j d = Z.of_nat (length d)) -> v = Copied).
Proof.
  induction fuel as [|fuel IH]; intros i s Hs Hf; [unfold turns in Hf; lia|].
  cbn [rw_loop]. destruct s as [|[d| |] s].
  - exists Copied, []. split_and!; [done|done| |done]. intros _. split; [done|by constructor].
  - apply Forall_cons in Hs as [Hd Hs].
    destruct (sys_read_chunk BUFFSISE d s) as (d1 & s' & -> & Hne & _ & Eb & Ht & Hs' & Hp);
      [unfold BUFFSISE; lia|done..|].
    rewrite decide_False by done. case_decide as Hw.
    + eexists _, _. split; [done|]. rewrite Eb. split_and!; [|done|].
      * apply prefix_app_r, prefix_take.
      * intros _ Ha. by rewrite Ha in Hw.
    + destruct (IH (S i) s' Hs') as (v & out & E & Hpre & Hv & Ha); [lia|].
      rewrite (bind_ok _ _ _ E). exists v, (d1 ++ out). split_and!; [done| | |].
      * rewrite Eb. by apply prefix_app.
      * intros ->. destruct (Hv eq_refl) as [-> Hp']. split; [done|]. by apply Hp.
      * intros Hpl. apply Ha. by apply Hp.
  - eexists _, _. split_and!; [done|apply prefix_nil|done|]. by intros [[] _]%Forall_cons.
  - eexists _, _. split_and!; [done|apply prefix_nil|done|]. by intros [[] _]%Forall_cons.
Qed.

(** rw_copies: whatever the reads and writes return, the loop ends; what came out is
    a prefix of what went in, and all of it unless an error is reported; and no
    error is reported if the reads give none and the writes take everything. *)
Theorem rw_copies took s :
  solid s ->
  exists v out, rw took s = Ok (v, out) /\ out `prefix_of` bytes_of s /\
    (v = Copied -> out = bytes_of s /\ plain s) /\
    (plain s -> (forall j d, took j d = Z.of_nat (length d)) -> v = Copied).
Proof. intros Hs. by apply rw_loop_spec. Qed.

Lemma rw_copies_witness :
  let s := [Chunk (lit "ab"); Chunk (lit "c"); Intr] in
  let took i d := if decide (i = 1%nat) then 0 else Z.of_nat (length d) in
  exists v out, rw took s = Ok (v, out) /\ out `prefix_of` bytes_of s /\
    (v = Copied -> out = bytes_of s /\ plain s) /\
    (plain s -> (forall j d, took j d = Z.of_nat (length d)) -> v = Copied).
Proof. apply rw_copies. by repeat constructor. Defined.

End Rw.

(** ** echoserver.c: one client after the other *)
Module Server.

Definition BUFFER : nat := 1024.

(** What the program writes: to standard output, and to the client; a [write]
    takes the first bytes of its data, as many as [took] says. *)
Record written := Written { to_stdout : bytes; to_client : bytes }.

(** The loop for one client.  A failed [read] makes [count] -1, which is not 0,
    and [write] of [(size_t) -1] bytes reads outside [buf]. *)
Fixpoint serve (fuel : nat) (took : bytes -> nat) (s : list item) : res written :=
  match fuel with
  | O => Err OutOfFuel
  | S fuel =>
      match sys_read BUFFER s with
      | (REof, _) => Ok (Written [] [])
      | (RIntr, _) | (RFail, _) => Err OutOfBounds
      | (RData d, s) =>
          if decide (d = []) then Ok (Written [] [])
          else
            w ← serve fuel took s;
            Ok (Written (d ++ to_stdout w) (take (took d) d ++ to_client w))
      end
  end.

(** The loop of [main]: [accept] must not fail, and the client is closed before
    the next one is accepted. *)
Inductive action := Echoed (fd : Z) (w : written) | Closed (fd : Z).

Fixpoint main_loop (took : bytes -> nat) (clients : list (Z * list item)) : res (list action) :=
  match clients with
  | [] => Ok []
  | (clientsock, s) :: clients =>
      _ ← assert_that (clientsock >= 0);
      w ← serve (turns s) took s;
      acts ← main_loop took clients;
      Ok (Echoed clientsock w :: Closed clientsock :: acts)
  end.

(** A write that takes everything. *)
Definition full (took : bytes -> nat) : Prop := forall d, took d = length d.

Lemma serve_spec took fuel : forall s,
  full took -> solid s -> (turns s <= fuel)%nat ->
  (plain s -> serve fuel took s = Ok (Written (bytes_of s) (bytes_of s))) /\
  (~ plain s -> serve fuel took s = Err OutOfBounds).
Proof.
  induction fuel as [|fuel IH]; intros s Hfu Hs Hf; [unfold turns in Hf; lia|].
  cbn [serve]. destruct s as [|[d| |] s].
  - split; [done|]. intros H. destruct H. constructor.
  - apply Forall_cons in Hs as [Hd Hs].
    destruct (sys_read_chunk BUFFER d s) as (d1 & s' & -> & Hne & _ & Eb & Ht & Hs' & Hp);
      [unfold BUFFER; lia|done..|].
    rewrite decide_False by done. destruct (IH s' Hfu Hs') as [H1 H2]; [lia|].
    split; intros Hpl; [rewrite H1 by tauto|by rewrite H2 by tauto].
    cbn [mbind res_bind to_stdout to_client]. by rewrite Hfu, take_ge, Eb by done.
  - split; [by intros [[] _]%Forall_cons|done].
  - split; [by intros [[] _]%Forall_cons|done].
Qed.

(** A client served without an accident. *)
Definition good_client (c : Z * list item) : Prop := c.1 >= 0 /\ plain c.2.

(** What the program does for it. *)
Definition served (c : Z * list item) : list action :=
  [Echoed c.1 (Written (bytes_of c.2) (bytes_of c.2)); Closed c.1].

(** clients_served: one after the other, each client gets back exactly what it
    sent, standard output gets the same, and the client is closed; the first failed
    [accept], or the first error or interruption of a [read], is fatal. *)
Theorem clients_served took clients :
  full took -> Forall (fun c => solid c.2) clients ->
  (Forall good_client clients -> main_loop took clients = Ok (clients ≫= served)) /\
  (~ Forall good_client clients ->
     main_loop took clients = Err AssertFail \/ main_loop took clients = Err OutOfBounds).
Proof.
  intros Hfu. induction clients as [|[fd s] clients IH]; intros Hs.
  { split; [done|]. intros H. by destruct H. }
  apply Forall_cons in Hs as [Hs1 Hs2]. cbn [fst snd] in Hs1. destruct (IH Hs2) as [IH1 IH2].
  destruct (serve_spec took (turns s) s Hfu Hs1 ltac:(done)) as [H1 H2]. cbn [main_loop].
  split; rewrite Forall_cons; unfold good_client at 1; cbn [fst snd].
  - intros [[Hfd Hp] Hg]. unfold assert_that. rewrite decide_True by done.
    cbn [mbind res_bind]. rewrite H1 by done. cbn [mbind res_bind]. by rewrite IH1.
  - intros Hn. unfold assert_that. case_decide as Hfd; [|by left]. cbn [mbind res_bind].
    destruct (decide (plain s)) as [Hp|Hp].
    + rewrite H1 by done. cbn [mbind res_bind]. destruct IH2 as [-> | ->]; [tauto|by left|by right].
    + rewrite H2 by done. by right.
Qed.

Lemma clients_served_witness :
  let clients := [(5, [Chunk (lit "ab")]); (6, [])] in
  (Forall good_client clients -> main_loop length clients = Ok (clients ≫= served)) /\
  (~ Forall good_client clients ->
     main_loop length clients = Err AssertFail \/ main_loop length clients = Err OutOfBounds).
Proof. apply clients_served; [done|repeat constructor; discriminate]. Defined.

End Server.

(** ** echoclient.c *)
Module Client.

Definition BUFFER : nat := 1024.

(** The loop of [main] over what [read] gives from the terminal; [reply i d] is what
    the [i]-th [recv], which waits for as many bytes as were sent ([MSG_WAITALL]),
    leaves at the start of [buf] after [d] was sent: less than [d] if the server
    closes the connection.  The result of [recv] is not looked at. *)
Fixpoint client (fuel i : nat) (reply : nat -> bytes -> bytes) (buf : bytes) (s : list item)
    : res (bytes * bytes) :=
  match fuel with
  | O => Err OutOfFuel
  | S fuel =>
      match sys_read BUFFER s with
      | (REof, _) => Ok ([], [])
      | (RIntr, _) | (RFail, _) => Err OutOfBounds
      | (RData d, s) =>
          if decide (d = []) then Ok ([], [])
          else
            buf ← awrite buf 0 d;
            buf ← awrite buf 0 (take (length d) (reply i d));
            '(sent, shown) ← client fuel (S i) reply buf s;
            Ok (d ++ sent, take (length d) buf ++ shown)
      end
  end.

Lemma client_spec reply fuel : forall i buf s,
  (forall j d, reply j d `prefix_of` d) -> plain s -> (turns s <= fuel)%nat -> length buf = BUFFER ->
  client fuel i reply buf s = Ok (bytes_of s, bytes_of s).
Proof.
  induction fuel as [|fuel IH]; intros i buf s Hr Hs Hf Hb; [unfold turns in Hf; lia|].
  cbn [client]. destruct s as [|[d| |] s]; [done| |by apply Forall_cons in Hs as [[] _]..].
  pose proof (plain_solid _ Hs) as [Hd Hsol]%Forall_cons.
  destruct (sys_read_chunk BUFFER d s) as (d1 & s' & -> & Hne & Hle & Eb & Ht & Hs' & Hp);
    [unfold BUFFER; lia|done..|].
  rewrite decide_False by done. rewrite awrite_front by lia. cbn [mbind res_bind].
  destruct (Hr i d1) as [t Et].
  assert (length (reply i d1) <= length d1)%nat as Hrl
    by (apply (f_equal length) in Et; rewrite length_app in Et; lia).
  rewrite (take_ge (reply i d1)) by done. rewrite awrite_front by (rewrite length_app, length_drop; lia).
  cbn [mbind res_bind]. rewrite IH; [|done|by apply Hp|lia|].
  2:{ rewrite !length_app, !length_drop, length_app, length_drop. lia. }
  cbn [mbind res_bind]. rewrite Eb. do 3 f_equal.
  set (x := drop (length d1) buf). set (r := reply i d1) in *. clearbody r.
  assert (drop (length r) (d1 ++ x) = t ++ x) as ->
    by by rewrite Et, <- app_assoc, drop_app_length.
  by rewrite app_assoc, <- Et, take_app_length.
Qed.

(** echo_client_blind: the program shows exactly what was typed, whatever the
    server sends back of it: a reply that was cut short, or never came, is filled
    up with what was sent. *)
Theorem echo_client_blind reply buf s :
  (forall j d, reply j d `prefix_of` d) -> plain s -> length buf = BUFFER ->
  client (turns s) 0 reply buf s = Ok (bytes_of s, bytes_of s).
Proof. intros. by apply client_spec. Qed.

Lemma echo_client_blind_witness :
  client (turns [Chunk (lit "ab")]) 0 (fun _ _ => []) (replicate BUFFER NUL) [Chunk (lit "ab")] =
  Ok (lit "ab", lit "ab").
Proof.
  apply (echo_client_blind (fun _ _ => []) (replicate BUFFER NUL) [Chunk (lit "ab")]);
    [intros; apply prefix_nil|by repeat constructor|apply length_replicate].
Defined.

End Client.

(** ** test_pipe.c: the parent writes a line into a pipe, the child copies it *)
Module Pipe.

(** Where the processes are.  The parent: before fork, then closing its read end,
    writing, closing its write end, waiting, gone.  The child: closing its write
    end, reading, writing [buf], closing its read end, gone. *)
Inductive parent := PFork | PCloseRead | PWrite | PCloseWrite | PWait | PGone (code : Z).
Inductive child := CNone | CCloseWrite | CRead | CWrite (c : ascii) | CCloseRead | CGone.

(** [readers], [writers]: how many descriptors of each end are open. *)
Record state := State {
  par : parent; chi : child;
  pipe : bytes; readers : nat; writers : nat;
  stdout : bytes }.

#[export] Instance parent_eq_dec : EqDecision parent.
Proof. solve_decision. Defined.
#[export] Instance child_eq_dec : EqDecision child.
Proof. solve_decision. Defined.
#[export] Instance state_eq_dec : EqDecision state.
Proof. solve_decision. Defined.

Definition message : bytes := lit "hello wrold" ++ [LF].

(** pipe(pipefd) has been called. *)
Definition start : state := State PFork CNone [] 1 1 [].

(** fork doubles the descriptors, or fails; the pipe holds the whole message, so
    the write does not block; exit closes what is open. *)
Definition parent_step (s : state) : list state :=
  let '(State p c b r w o) := s in
  match p with
  | PFork => [State PCloseRead CCloseWrite b (2 * r) (2 * w) o; State (PGone 1) c b 0 0 o]
  | PCloseRead => [State PWrite c b (r - 1) w o]
  | PWrite => [State PCloseWrite c (b ++ message) r w o]
  | PCloseWrite => [State PWait c b r (w - 1) o]
  | PWait => match c with CGone => [State (PGone 0) c b r w o] | _ => [] end
  | PGone _ => []
  end.

(** A [read] blocks while the pipe is empty and somebody may still write. *)
Definition child_step (s : state) : list state :=
  let '(State p c b r w o) := s in
  match c with
  | CCloseWrite => [State p CRead b r (w - 1) o]
  | CRead =>
      match b, w with
      | x :: b, _ => [State p (CWrite x) b r w o]
      | [], O => [State p CCloseRead b r w o]
      | [], S _ => []
      end
  | CWrite x => [State p CRead b r w (o ++ [x])]
  | CCloseRead => [State p CGone b (r - 1) w o]
  | CNone | CGone => []
  end.

Definition succ (s : state) : list state := parent_step s ++ child_step s.
Definition stuck (s : state) : bool := match succ s with [] => true | _ => false end.

(** pipe_copied: however the two processes are scheduled, the run ends with the
    message on standard output, nothing left in the pipe and no descriptor of it
    open; only a failed fork ends it otherwise. *)
Theorem pipe_copied s :
  rtc (step succ) start s /\ stuck s = true <->
  s ∈ [ State (PGone 0) CGone [] 0 0 message; State (PGone 1) CNone [] 0 0 [] ].
Proof. apply (finals_sound _ _ 300). vm_compute. reflexivity. Qed.

(** The child reads the end of the file only after the whole message. *)
Theorem pipe_write_end s :
  rtc (step succ) start s -> chi s = CRead -> pipe s = [] -> writers s = 0%nat ->
  stdout s = message.
Proof.
  intros Hr.
  assert (implb (bool_decide (chi s = CRead /\ pipe s = [] /\ writers s = 0%nat))
    (bool_decide (stdout s = message)) = true) as H.
  { revert Hr. explored 300%nat. }
  intros. rewrite bool_decide_true in H by done. by apply bool_decide_eq_true in H.
Qed.

End Pipe.
