(* ===== verification/EchoPrograms.v ===== *)
(** * Concurrent echo servers (socket/csapp)

    What echoserver.c, echoserver_thread.c, echoserver_process.c and echoserver_select.c put
    around the function [echo] of EchoServers.v, and the client echoclient.c. *)

From S2P Require Import Prelude CString Rio TinyWeb EchoServers.

(** ** echoserver_thread.c: a thread per connection

    The descriptor is handed to the thread in an object of its own, which the
    thread frees. *)
Module Threaded.

Inductive worker :=
  | Created (vargp : loc)    (** the thread exists; its argument is not read yet *)
  | Serving (connfd : Z)
  | Finished (connfd : Z).

(** [lost]: descriptors whose thread could not be created. *)
Record state := State {
  heap : gmap loc Z;
  workers : list worker;
  accepted : list Z;
  lost : list (loc * Z) }.

Definition start : state := State ∅ [] [] [].

(** One turn of [main]: malloc gives [connfdp], accept [fd], pthread_create [err]. *)
Definition main_turn (connfdp : loc) (fd err : Z) (s : state) : state :=
  if decide (err = 0) then
    State (<[connfdp := fd]> (heap s)) (workers s ++ [Created connfdp]) (accepted s ++ [fd]) (lost s)
  else State (<[connfdp := fd]> (heap s)) (workers s) (accepted s) (lost s ++ [(connfdp, fd)]).

(** [thread] up to the call of [echo]: it reads its argument and frees it. *)
Definition thread_start (i : nat) (vargp : loc) (s : state) : res state :=
  '(_, connfd) ← deref (heap s) (Some vargp);
  Ok (State (delete vargp (heap s)) (<[i := Serving connfd]> (workers s)) (accepted s) (lost s)).

(** [echo] has returned: [close(connfd)]. *)
Definition thread_end (i : nat) (connfd : Z) (s : state) : state :=
  State (heap s) (<[i := Finished connfd]> (workers s)) (accepted s) (lost s).

Inductive step : state -> state -> Prop :=
  | Turn p fd err s :
      heap s !! p = None ->     (* malloc *)
      step s (main_turn p fd err s)
  | Start i p s s' :
      workers s !! i = Some (Created p) -> thread_start i p s = Ok s' -> step s s'
  | End i fd s :
      workers s !! i = Some (Serving fd) -> step s (thread_end i fd s).

(** The argument of a thread holds its own connection, and no two threads, and no
    lost connection, share an object. *)
Record inv (s : state) : Prop := {
  inv_len : length (workers s) = length (accepted s);
  inv_created i p : workers s !! i = Some (Created p) ->
    heap s !! p = accepted s !! i;
  inv_served i fd : workers s !! i = Some (Serving fd) \/ workers s !! i = Some (Finished fd) ->
    accepted s !! i = Some fd;
  inv_distinct i j p : workers s !! i = Some (Created p) -> workers s !! j = Some (Created p) -> i = j;
  inv_lost i p fd : (p, fd) ∈ lost s -> heap s !! p = Some fd /\ workers s !! i <> Some (Created p);
  inv_heap p : is_Some (heap s !! p) ->
    (exists i, workers s !! i = Some (Created p)) \/ (exists fd, (p, fd) ∈ lost s) }.

Lemma inv_created_some s i p :
  inv s -> workers s !! i = Some (Created p) ->
  exists fd, heap s !! p = Some fd /\ accepted s !! i = Some fd.
Proof.
  intros H Hw. rewrite (inv_created s H i p Hw).
  apply lookup_lt_Some in Hw. rewrite (inv_len s H) in Hw.
  destruct (lookup_lt_is_Some_2 (accepted s) i Hw) as [fd E]. by exists fd.
Qed.

Section Turn.
Context (p : loc) (fd : Z) (s : state) (Hp : heap s !! p = None) (H : inv s).

Lemma created_old i q : workers s !! i = Some (Created q) -> q <> p.
Proof. intros Hi ->. destruct (inv_created_some s i p H Hi) as (x & Hx & _). congruence. Qed.

Lemma lost_old q x : (q, x) ∈ lost s -> q <> p.
Proof. intros Hq ->. destruct (inv_lost s H 0%nat p x Hq). congruence. Qed.

(** The thread has been created, or not. *)
Lemma inv_turn_created :
  inv (State (<[p := fd]> (heap s)) (workers s ++ [Created p]) (accepted s ++ [fd]) (lost s)).
Proof.
  split; cbn [heap workers accepted lost].
  - rewrite !length_app. by rewrite (inv_len s H).
  - intros i q. rewrite !lookup_app, (inv_len s H). intros Hi. destruct (workers s !! i) as [w|] eqn:E.
    + injection Hi as ->. rewrite lookup_insert_ne by by eapply not_eq_sym, created_old.
      rewrite (inv_created s H i q E). apply lookup_lt_Some in E. rewrite (inv_len s H) in E.
      by destruct (lookup_lt_is_Some_2 (accepted s) i E) as [y ->].
    + apply lookup_ge_None in E. rewrite (inv_len s H) in E.
      rewrite (lookup_ge_None_2 (accepted s)) by done.
      destruct (i - length (accepted s))%nat as [|n]; [|done]. injection Hi as <-. apply lookup_insert_eq.
  - intros i x. rewrite !lookup_app, (inv_len s H). intros Hi. destruct (workers s !! i) as [w|] eqn:E.
    + rewrite (inv_served s H i x); [done|]. destruct Hi as [Hi|Hi]; injection Hi as ->; auto.
    + destruct (i - length (accepted s))%nat as [|n]; destruct Hi; discriminate.
  - intros i j q. rewrite !lookup_app, (inv_len s H). intros Hi Hj.
    assert (Hnew : forall n, ([Created p] : list worker) !! n = Some (Created q) -> q = p /\ n = 0%nat).
    { intros [|[|n]]; try done. by intros [= ->]. }
    destruct (workers s !! i) as [wi|] eqn:Ei; destruct (workers s !! j) as [wj|] eqn:Ej.
    + injection Hi as ->. injection Hj as ->. by apply (inv_distinct s H i j q).
    + injection Hi as ->. apply Hnew in Hj as [-> _]. by destruct (created_old i p Ei).
    + injection Hj as ->. apply Hnew in Hi as [-> _]. by destruct (created_old j p Ej).
    + apply Hnew in Hi as [_ Hi]. apply Hnew in Hj as [_ Hj].
      apply lookup_ge_None in Ei, Ej. rewrite (inv_len s H) in Ei, Ej. lia.
  - intros i q x Hq. destruct (inv_lost s H i q x Hq) as [H1 H2].
    rewrite lookup_insert_ne by by eapply not_eq_sym, lost_old. split; [done|].
    rewrite lookup_app. case_match; [congruence|].
    destruct (i - length (workers s))%nat as [|n]; [|done]. intros [= E]. by destruct (lost_old q x Hq).
  - intros q [x Hq]. destruct (decide (q = p)) as [->|Hne].
    + left. exists (length (workers s)). by rewrite lookup_app_r, Nat.sub_diag by done.
    + rewrite lookup_insert_ne in Hq by done. destruct (inv_heap s H q) as [[i Hi]|?]; [eauto| |auto].
      left. exists i. by apply lookup_app_l_Some.
Qed.

Lemma inv_turn_lost : inv (State (<[p := fd]> (heap s)) (workers s) (accepted s) (lost s ++ [(p, fd)])).
Proof.
  split; cbn [heap workers accepted lost].
  - apply (inv_len s H).
  - intros i q Hi. rewrite lookup_insert_ne by by eapply not_eq_sym, created_old. by apply (inv_created s H).
  - apply (inv_served s H).
  - apply (inv_distinct s H).
  - intros i q x. rewrite elem_of_app, list_elem_of_singleton. intros [Hq|[= -> ->]].
    + rewrite lookup_insert_ne by by eapply not_eq_sym, lost_old. by apply (inv_lost s H).
    + rewrite lookup_insert_eq. split; [done|]. intros Hi. by destruct (created_old i p Hi).
  - intros q [x Hq]. destruct (decide (q = p)) as [->|Hne].
    + right. exists fd. set_solver.
    + rewrite lookup_insert_ne in Hq by done.
      destruct (inv_heap s H q) as [?|[y Hy]]; [eauto|by left|]. right. exists y. set_solver.
Qed.
End Turn.

Lemma inv_turn p fd err s : heap s !! p = None -> inv s -> inv (main_turn p fd err s).
Proof. intros Hp H. unfold main_turn. case_decide; [by apply inv_turn_created|by apply inv_turn_lost]. Qed.

Lemma inv_started i p s s' :
  workers s !! i = Some (Created p) -> thread_start i p s = Ok s' -> inv s -> inv s'.
Proof.
  intros Hi E H. unfold thread_start in E. apply bind_ok_inv in E as ([q fd] & Hd & [= <-]).
  apply deref_ok_inv in Hd as [[= <-] Hp].
  pose proof (lookup_lt_Some _ _ _ Hi) as Hlt.
  assert (Hother : forall j q, j <> i -> workers s !! j = Some (Created q) -> p <> q).
  { intros j q Hj Hw ->. apply Hj. by apply (inv_distinct s H j i q). }
  split; cbn [heap workers accepted lost].
  - rewrite length_insert. apply (inv_len s H).
  - intros j q. destruct (decide (i = j)) as [<-|Hj]; [by rewrite list_lookup_insert_eq|].
    rewrite list_lookup_insert_ne by done. intros Hw. rewrite lookup_delete_ne by eauto.
    by apply (inv_created s H).
  - intros j x. destruct (decide (i = j)) as [<-|Hj].
    + rewrite list_lookup_insert_eq by done. intros [[= <-]|[=]].
      by rewrite <- (inv_created s H i p Hi).
    + rewrite list_lookup_insert_ne by done. apply (inv_served s H).
  - intros j k q. destruct (decide (i = j)) as [<-|Hj]; [by rewrite list_lookup_insert_eq|].
    rewrite list_lookup_insert_ne by done. destruct (decide (i = k)) as [<-|Hk];
      [by rewrite list_lookup_insert_eq|]. rewrite list_lookup_insert_ne by done.
    apply (inv_distinct s H).
  - intros j q x Hq. destruct (inv_lost s H j q x Hq) as [H1 H2]. split.
    + rewrite lookup_delete_ne; [done|]. intros ->. by destruct (inv_lost s H i q x Hq).
    + destruct (decide (i = j)) as [<-|Hj]; [by rewrite list_lookup_insert_eq|].
      by rewrite list_lookup_insert_ne.
  - intros q [x Hq]. destruct (decide (p = q)) as [->|Hne]; [by rewrite lookup_delete_eq in Hq|].
    rewrite lookup_delete_ne in Hq by done.
    destruct (inv_heap s H q) as [[j Hj]|?]; [eauto| |by right]. left. exists j.
    rewrite list_lookup_insert_ne; [done|]. intros <-. congruence.
Qed.

Lemma inv_ended i fd s : workers s !! i = Some (Serving fd) -> inv s -> inv (thread_end i fd s).
Proof.
  intros Hi H. pose proof (lookup_lt_Some _ _ _ Hi) as Hlt.
  assert (Hc : forall j q, <[i := Finished fd]> (workers s) !! j = Some (Created q) ->
    workers s !! j = Some (Created q)).
  { intros j q. destruct (decide (i = j)) as [<-|Hj]; [by rewrite list_lookup_insert_eq|].
    by rewrite list_lookup_insert_ne. }
  split; cbn [thread_end heap workers accepted lost].
  - rewrite length_insert. apply (inv_len s H).
  - intros j q Hj%Hc. by apply (inv_created s H).
  - intros j x. destruct (decide (i = j)) as [<-|Hj].
    + rewrite list_lookup_insert_eq by done. intros [[=]|[= <-]]. apply (inv_served s H). auto.
    + rewrite list_lookup_insert_ne by done. apply (inv_served s H).
  - intros j k q Hj%Hc Hk%Hc. by apply (inv_distinct s H j k q).
  - intros j q x Hq. destruct (inv_lost s H j q x Hq) as [H1 H2]. split; [done|]. by intros ?%Hc.
  - intros q Hq. destruct (inv_heap s H q Hq) as [[j Hj]|?]; [|by right]. left. exists j.
    rewrite list_lookup_insert_ne; [done|]. intros <-. congruence.
Qed.

Lemma threads_inv s : rtc step start s -> inv s.
Proof.
  apply rtc_invariant.
  - intros a b Ha Hab. inversion Hab; subst; eauto using inv_turn, inv_started, inv_ended.
  - split; cbn; try done.
    + intros i fd [[=]|[=]].
    + intros i p fd Hin. by apply elem_of_nil in Hin.
    + intros p [x Hx]. by rewrite lookup_empty in Hx.
Qed.

(** thread_per_connection: however the threads are scheduled, the [i]-th thread that
    could be created serves the [i]-th connection accepted for one, its argument is
    there when it reads it, and when all threads have started nothing is
    left on the heap; only the arguments whose thread could not be created stay there,
    with connections that nobody serves or closes. *)
Theorem thread_per_connection s :
  rtc step start s ->
  length (workers s) = length (accepted s) /\
  (forall i p, workers s !! i = Some (Created p) ->
     exists fd s', accepted s !! i = Some fd /\ thread_start i p s = Ok s' /\
       workers s' !! i = Some (Serving fd) /\ heap s' !! p = None) /\
  (forall i fd, workers s !! i = Some (Serving fd) \/ workers s !! i = Some (Finished fd) ->
     accepted s !! i = Some fd) /\
  ((forall i p, workers s !! i <> Some (Created p)) ->
     forall p fd, heap s !! p = Some fd <-> (p, fd) ∈ lost s).
Proof.
  intros H%threads_inv. split_and!; [apply (inv_len s H)| |apply (inv_served s H)|].
  - intros i p Hi. destruct (inv_created_some s i p H Hi) as (fd & Hp & Ha). unfold thread_start.
    rewrite (deref_Some _ _ _ Hp). cbn [mbind res_bind]. eexists fd, _. split_and!; [done|reflexivity|..].
    + cbn [workers]. rewrite list_lookup_insert_eq; [done|]. by eapply lookup_lt_Some.
    + cbn [heap]. apply lookup_delete_eq.
  - intros Hn p fd. split.
    + intros Hp. destruct (inv_heap s H p) as [[i Hi]|[x Hx]]; [eauto|by destruct (Hn i p)|].
      destruct (inv_lost s H 0%nat p x Hx) as [Hp' _]. congruence.
    + intros Hx. by destruct (inv_lost s H 0%nat p fd Hx).
Qed.

(** Two connections, the first served while the second is accepted. *)
Definition state1 : state := State {[1%positive := 5]} [Created 1%positive] [5] [].
Definition state2 : state :=
  State {[2%positive := 6]} [Serving 5; Created 2%positive] [5; 6] [].

Lemma thread_per_connection_witness :
  length (workers state2) = length (accepted state2) /\
  (forall i p, workers state2 !! i = Some (Created p) ->
     exists fd s', accepted state2 !! i = Some fd /\ thread_start i p state2 = Ok s' /\
       workers s' !! i = Some (Serving fd) /\ heap s' !! p = None) /\
  (forall i fd, workers state2 !! i = Some (Serving fd) \/ workers state2 !! i = Some (Finished fd) ->
     accepted state2 !! i = Some fd) /\
  ((forall i p, workers state2 !! i <> Some (Created p)) ->
     forall p fd, heap state2 !! p = Some fd <-> (p, fd) ∈ lost state2).
Proof.
  apply thread_per_connection.
  apply rtc_l with state1; [exact (Turn 1%positive 5 0 start eq_refl)|].
  apply rtc_l with (State ∅ [Serving 5] [5] []);
    [exact (Start 0%nat 1%positive state1 _ eq_refl eq_refl)|].
  apply rtc_once. exact (Turn 2%positive 6 0 (State ∅ [Serving 5] [5] []) eq_refl).
Defined.

End Threaded.

(** ** echoserver_process.c: a process per connection *)
Module Forked.

(** A child with the descriptors it has open, or one that has ended. *)
Inductive kid := Echoing (fds : gset Z) (connfd : Z) | Zombie | Reaped.

(** The parent's descriptors; whether SIGCHLD is pending. *)
Record state := State { fds : gset Z; kids : list kid; sigchld : bool }.

#[export] Instance kid_eq_dec : EqDecision kid.
Proof. solve_decision. Defined.
#[export] Instance state_eq_dec : EqDecision state.
Proof. solve_decision. Defined.

Definition start (listenfd : Z) : state := State {[listenfd]} [] false.

(** One turn of [main]: [accept] gives [connfd], [fork] gives [pid]; the child
    closes the listening descriptor, the parent the connection. *)
Definition parent_turn (listenfd connfd pid : Z) (s : state) : state :=
  let open_ := {[connfd]} ∪ fds s in
  let kids' := if decide (pid < 0) then kids s
               else kids s ++ [Echoing (open_ ∖ {[listenfd]}) connfd] in
  State (open_ ∖ {[connfd]}) kids' (sigchld s).

(** A child's [echo] has returned: it closes the connection and exits. *)
Definition kid_exit (i : nat) (s : state) : state :=
  State (fds s) (<[i := Zombie]> (kids s)) true.

(** [sigchld_handler]: waitpid as long as there is a child that has ended. *)
Definition reap (k : kid) : kid := match k with Zombie => Reaped | _ => k end.
Definition sigchld_handler (s : state) : state := State (fds s) (reap <$> kids s) false.

Inductive step (listenfd : Z) : state -> state -> Prop :=
  | Turn connfd pid s :
      connfd ∉ fds s ->       (* accept gives a descriptor that is not in use *)
      step listenfd s (parent_turn listenfd connfd pid s)
  | Exit i fs c s : kids s !! i = Some (Echoing fs c) -> step listenfd s (kid_exit i s)
  | Handler s : sigchld s = true -> step listenfd s (sigchld_handler s).

Record inv (listenfd : Z) (s : state) : Prop := {
  inv_fds : fds s = {[listenfd]};
  inv_kids i fs c : kids s !! i = Some (Echoing fs c) -> fs = {[c]} /\ c <> listenfd;
  inv_zombie : Zombie ∈ kids s -> sigchld s = true }.

Lemma kids_inv listenfd s : rtc (step listenfd) (start listenfd) s -> inv listenfd s.
Proof.
  apply rtc_invariant; [|split; cbn; [done|done|by intros ?%elem_of_nil]].
  intros a b [Hf Hk Hz] Hab. inversion Hab; subst; clear Hab.
  - rewrite Hf in H. split; cbn [parent_turn fds kids sigchld].
    + rewrite Hf. set_solver.
    + intros i fs c. case_decide; [apply Hk|]. rewrite lookup_app.
      destruct (kids a !! i) as [k|] eqn:E; [intros [= ->]; by apply (Hk i)|].
      destruct (i - length (kids a))%nat as [|n]; [|done]. intros [= <- <-]. rewrite Hf. set_solver.
    + case_decide; [done|]. rewrite elem_of_app, list_elem_of_singleton. intros [?|[=]]; auto.
  - split; cbn [kid_exit fds kids sigchld]; [done| |done].
    intros j fs' c'. destruct (decide (i = j)) as [<-|Hj].
    + rewrite list_lookup_insert_eq; [done|]. by eapply lookup_lt_Some.
    + rewrite list_lookup_insert_ne by done. apply Hk.
  - split; cbn [sigchld_handler fds kids sigchld]; [done| |].
    + intros i fs c. rewrite list_lookup_fmap. destruct (kids a !! i) as [[| |]|] eqn:E; try done.
      intros [= -> ->]. by apply (Hk i).
    + intros [k [E _]]%list_elem_of_fmap. by destruct k.
Qed.

(** process_per_connection: between two turns the parent has only its listening
    descriptor open and every running child only its connection, so a connection ends
    when its child closes it; and a child that has ended is not forgotten: SIGCHLD
    is pending as long as there is one, and the handler takes them all, however
    many of their signals were merged into one. *)
Theorem process_per_connection listenfd s :
  rtc (step listenfd) (start listenfd) s ->
  fds s = {[listenfd]} /\
  (forall i fs c, kids s !! i = Some (Echoing fs c) -> fs = {[c]} /\ c <> listenfd) /\
  (sigchld s = false -> Zombie ∉ kids s) /\
  Zombie ∉ kids (sigchld_handler s).
Proof.
  intros [Hf Hk Hz]%kids_inv. split_and!; [done..| |].
  - intros Hs Hin. rewrite Hz in Hs by done. done.
  - cbn. intros [k [E _]]%list_elem_of_fmap. by destruct k.
Qed.

Lemma process_per_connection_witness :
  let s := State {[3]} [Zombie; Echoing {[5]} 5] true in
  fds s = {[3]} /\
  (forall i fs c, kids s !! i = Some (Echoing fs c) -> fs = {[c]} /\ c <> 3) /\
  (sigchld s = false -> Zombie ∉ kids s) /\
  Zombie ∉ kids (sigchld_handler s).
Proof.
  apply process_per_connection.
  apply rtc_l with (State {[3]} [Echoing {[4]} 4] false).
  { replace (State {[3]} [Echoing {[4]} 4] false) with (parent_turn 3 4 100 (start 3)) by decided.
    apply Turn. decided. }
  apply rtc_l with (State {[3]} [Zombie] true); [by apply (Exit 3 0 {[4]} 4)|].
  apply rtc_once.
  replace (State {[3]} [Zombie; Echoing {[5]} 5] true)
    with (parent_turn 3 5 101 (State {[3]} [Zombie] true)) by decided.
  apply Turn. decided.
Defined.

End Forked.

(** ** echoserver_select.c: commands and one client at a time *)
Module Selecting.

(** What one [select] reports: standard input with the line [fgets] then gets
    ([None] at the end of the file), and a connection with what its client sends. *)
Record turn := MkTurn { on_stdin : option (option bytes); on_listen : option (Z * list item) }.

Inductive action := Command (line : bytes) | Echoed (fd : Z) (data : bytes) | Closed (fd : Z).

(** [commmand]: [None] is exit(0). *)
Definition commmand (line : option bytes) : option (list action) :=
  match line with Some l => Some [Command l] | None => None end.

(** [buf] and [rio] are what the locals of [echo] happen to hold. *)
Fixpoint main_loop (wr : writes) (buf : bytes) (rio : rio_t) (turns : list turn) : res (list action) :=
  match turns with
  | [] => Ok []
  | t :: turns =>
      match (match on_stdin t with Some l => commmand l | None => Some [] end) with
      | None => Ok []
      | Some acts =>
          served ← (match on_listen t with
                    | Some (connfd, s) =>
                        '(out, _) ← echo wr buf rio connfd s;
                        Ok [Echoed connfd out; Closed connfd]
                    | None => Ok []
                    end);
          rest ← main_loop wr buf rio turns;
          Ok (acts ++ served ++ rest)
      end
  end.

(** What a turn asks for. *)
Definition wanted (t : turn) : list action :=
  (match on_stdin t with Some (Some l) => [Command l] | _ => [] end) ++
  (match on_listen t with
   | Some (connfd, s) => [Echoed connfd (bytes_of s); Closed connfd]
   | None => []
   end).

(** The turns before the end of standard input. *)
Fixpoint until_eof (turns : list turn) : list turn :=
  match turns with
  | t :: turns => match on_stdin t with Some None => [] | _ => t :: until_eof turns end
  | [] => []
  end.

(** select_serves: every command is shown and every client gets its bytes back and is
    closed before anything else is looked at, up to the end of standard input,
    which ends the program, a connection reported at the same time included. *)
Theorem select_serves wr buf rio turns :
  takes_all wr -> length buf = MAXLINE -> length (rio_buf rio) = RIO_BUFSIZE ->
  Forall (fun t => match on_listen t with Some (_, s) => clean s | None => True end) turns ->
  main_loop wr buf rio turns = Ok (until_eof turns ≫= wanted).
Proof.
  intros Hw Hb Hr. induction turns as [|[sin lst] turns IH]; intros Hc; [done|].
  apply Forall_cons in Hc as [Hc Hcs]. cbn [main_loop until_eof on_stdin on_listen] in *.
  assert (Hs : (match lst with
    | Some (connfd, s) => '(out, _) ← echo wr buf rio connfd s; Ok [Echoed connfd out; Closed connfd]
    | None => Ok [] end) = Ok (match lst with
      | Some (connfd, s) => [Echoed connfd (bytes_of s); Closed connfd] | None => [] end)).
  { destruct lst as [[fd s]|]; [|done]. by destruct (echo_all wr buf rio fd s Hw Hc Hb Hr) as [s' ->]. }
  destruct sin as [[l|]|]; cbn [commmand]; [|done|];
    rewrite Hs; cbn [mbind res_bind]; rewrite IH by done; cbn; by rewrite <- ?app_assoc.
Qed.

Lemma select_serves_witness :
  let turns := [MkTurn (Some (Some (lit "ls"))) (Some (5, [Chunk (lit "hi")]));
                MkTurn (Some None) (Some (6, []))] in
  main_loop wr0 (replicate MAXLINE NUL) new_rio turns = Ok (until_eof turns ≫= wanted).
Proof.
  apply select_serves; [exact wr0_takes_all|apply length_replicate|apply length_replicate|].
  repeat constructor. discriminate.
Defined.

End Selecting.

(** ** echoclient.c *)
Module LineClient.

(** The loop of [main] over what is typed; [s] is what the server will send.  The
    result is what was sent and what was shown. *)
Fixpoint client (k : nat) (wr : writes) (buf : bytes) (rio : rio_t) (typed : bytes) (s : list item)
    : res (bytes * bytes) :=
  match typed with
  | [] => Ok ([], [])
  | _ =>
      match k with
      | O => Err OutOfFuel
      | S k =>
          let line := line_prefix (MAXLINE - 1) typed in       (* fgets *)
          buf ← awrite buf 0 (line ++ [NUL]);
          str ← cstr buf 0;
          sent ← write_back wr buf (Z.of_nat (length str));
          '(_, buf, rio, s) ← rio_readlineb rio buf MAXLINE s;
          shown ← cstr buf 0;                                  (* fputs *)
          '(sents, showns) ← client k wr buf rio (drop (length line) typed) s;
          Ok (sent ++ sents, shown ++ showns)
      end
  end.

(** The lines [fgets] cuts the input into. *)
Fixpoint lines (k : nat) (typed : bytes) : list bytes :=
  match k, typed with
  | S k, _ :: _ =>
      let line := line_prefix (MAXLINE - 1) typed in line :: lines k (drop (length line) typed)
  | _, _ => []
  end.

Lemma line_prefix_of_prefix m : forall l p,
  line_prefix m l `prefix_of` p -> p `prefix_of` l -> line_prefix m p = line_prefix m l.
Proof.
  induction m as [|m IH]; intros l p H1 H2; [by destruct l, p|].
  destruct l as [|c l]; [by apply prefix_nil_inv in H2 as ->|].
  cbn [line_prefix] in *. destruct p as [|c' p].
  { case_decide; by apply prefix_nil_inv in H1. }
  pose proof (prefix_cons_inv_1 _ _ _ _ H2) as ->. apply prefix_cons_inv_2 in H2.
  cbn [line_prefix]. case_decide; [done|]. f_equal. apply IH; [|done].
  by apply prefix_cons_inv_2 in H1.
Qed.

Lemma lines_prefix k : forall typed j, concat (take j (lines k typed)) `prefix_of` typed.
Proof.
  induction k as [|k IH]; intros typed j; cbn [lines].
  { rewrite take_nil. apply prefix_nil. }
  destruct typed as [|c typed]; [rewrite take_nil; apply prefix_nil|].
  set (t := c :: typed). destruct j as [|j]; [apply prefix_nil|]. cbn [take concat].
  destruct (line_prefix_prefix (MAXLINE - 1) t) as [r Hr].
  set (l := line_prefix (MAXLINE - 1) t) in *. clearbody l. rewrite Hr, drop_app_length.
  by apply prefix_app.
Qed.

(** The start of a buffer that holds a string. *)
(** The line the client reads after it has sent [line], which is in its buffer: that line,
    or nothing, and then the buffer is as it was. *)
Lemma next_answer line r tl k j rio s :
  let t := line ++ r in let buf := line ++ NUL :: tl in
  line = line_prefix (MAXLINE - 1) t -> line <> [] -> NUL ∉ line -> length buf = MAXLINE ->
  rio_wf rio -> clean s -> rest rio s = concat (take j (line :: lines k r)) ->
  concat (take j (line :: lines k r)) `prefix_of` t ->
  exists n buf2 rio2 s2 j', rio_readlineb rio buf MAXLINE s = Ok (n, buf2, rio2, s2) /\
    rio_wf rio2 /\ clean s2 /\ length buf2 = MAXLINE /\ cstr buf2 0 = Ok line /\
    rest rio2 s2 = concat (take j' (lines k r)).
Proof.
  intros t buf Hline Hne Hln Hb Hwf Hc Hrest Hpre. pose proof maxline_gt as Hm.
  assert (Hl : (length line <= MAXLINE - 1)%nat) by (rewrite Hline; apply line_prefix_length).
  destruct (readline_loop_spec MAXLINE 1 MAXLINE buf rio s Hwf Hc)
    as (buf2 & rio2 & s2 & E2 & Hw1 & Hw2 & Hwf2 & Hc2 & Hr2); [lia|lia|lia|].
  unfold rio_readlineb. rewrite E2. eexists _, buf2, rio2, s2.
  assert (exists j', buf2 = buf /\ rest rio2 s2 = concat (take j' (lines k r))) as (j' & -> & Hr').
  { destruct j as [|j].
    - cbn in Hrest. rewrite Hrest in Hw1, Hw2, Hr2.
      replace (line_prefix (MAXLINE - 1) []) with (@nil ascii) in * by by destruct (MAXLINE - 1)%nat.
      exists 0%nat. rewrite Hw2 by (done || lia). done.
    - cbn [take concat] in Hrest, Hpre. rewrite <- Hrest in Hpre.
      assert (El : line_prefix (MAXLINE - 1) (rest rio s) = line).
      { rewrite Hline. apply line_prefix_of_prefix; [|exact Hpre]. rewrite <- Hline, Hrest. by eexists. }
      exists j. rewrite El in *. rewrite Hw1 by auto. split.
      + unfold written_at, buf. cbn [Nat.sub take app Nat.add].
        rewrite take_0. cbn [app]. do 2 f_equal.
        rewrite cons_middle, app_assoc. apply drop_app_length'. rewrite length_app. cbn. lia.
      + rewrite Hr2, Hrest. apply drop_app_length. }
  exists j'. split_and!; try done. by apply cstr_front.
Qed.

Lemma line_client_spec wr k : forall j buf rio typed s,
  takes_all wr -> NUL ∉ typed -> (length typed <= k)%nat -> length buf = MAXLINE ->
  rio_wf rio -> clean s -> rest rio s = concat (take j (lines k typed)) ->
  client k wr buf rio typed s = Ok (typed, typed).
Proof.
  induction k as [|k IH]; intros j buf rio typed s Hw Hnul Hk Hb Hwf Hc Hrest.
  { by destruct typed; [|cbn in Hk; lia]. }
  destruct typed as [|c typed]; [done|]. set (t := c :: typed) in *.
  pose proof maxline_gt as Hm.
  change (client (S k) wr buf rio t s) with
    (let line := line_prefix (MAXLINE - 1) t in
     buf ← awrite buf 0 (line ++ [NUL]);
     str ← cstr buf 0;
     sent ← write_back wr buf (Z.of_nat (length str));
     '(_, buf, rio, s) ← rio_readlineb rio buf MAXLINE s;
     shown ← cstr buf 0;
     '(sents, showns) ← client k wr buf rio (drop (length line) t) s;
     Ok (sent ++ sents, shown ++ showns)).
  cbv zeta. pose proof (line_prefix_length (MAXLINE - 1) t) as Hl.
  pose proof (line_prefix_prefix (MAXLINE - 1) t) as [r Hr].
  assert (Hne : line_prefix (MAXLINE - 1) t <> []).
  { intros E. replace (MAXLINE - 1)%nat with (S (MAXLINE - 2)) in E by lia.
    by apply line_prefix_nil in E. }
  change (lines (S k) t) with
    (line_prefix (MAXLINE - 1) t :: lines k (drop (length (line_prefix (MAXLINE - 1) t)) t)) in Hrest.
  pose proof (lines_prefix (S k) t j) as Hpre.
  change (lines (S k) t) with
    (line_prefix (MAXLINE - 1) t :: lines k (drop (length (line_prefix (MAXLINE - 1) t)) t)) in Hpre.
  set (line := line_prefix (MAXLINE - 1) t) in *.
  assert (Hln : NUL ∉ line) by (intros Hin; apply Hnul; rewrite Hr; apply elem_of_app; by left).
  rewrite awrite_front by (rewrite length_app; cbn [length]; lia).
  cbn [mbind res_bind]. rewrite <- app_assoc. cbn [app].
  set (buf1 := line ++ NUL :: drop _ buf).
  assert (Hb1 : length buf1 = MAXLINE).
  { unfold buf1. rewrite length_app. cbn [length]. rewrite length_drop, length_app. cbn [length]. lia. }
  assert (E1 : cstr buf1 0 = Ok line) by by apply cstr_front.
  rewrite E1. cbn [mbind res_bind].
  rewrite write_all by (rewrite ?Nat2Z.id; done || lia). rewrite Nat2Z.id.
  assert (take (length line) buf1 = line) as -> by apply take_app_length. cbn [mbind res_bind].
  assert (Hd : drop (length line) t = r) by (rewrite Hr; apply drop_app_length). rewrite Hd in *.
  destruct (next_answer line r (drop (length (line ++ [NUL])) buf) k j rio s)
    as (n & buf2 & rio2 & s2 & j' & E2 & Hwf2 & Hc2 & Hb2 & E3 & Hr'); rewrite <- ?Hr; try done.
  fold buf1 in E2. rewrite (bind_ok _ _ _ E2), (bind_ok _ _ _ E3).
  rewrite (IH j'); [cbn [mbind res_bind]; by rewrite <- Hr|done| | |done..].
  - intros Hin. apply Hnul. rewrite Hr. apply elem_of_app. by right.
  - apply (f_equal length) in Hr. rewrite length_app in Hr. destruct line; [done|]. cbn in *. lia.
Qed.

(** line_client_blind: if the server sends back the first lines it gets, all or some
    or none, and then closes the connection, the client shows exactly what
    was typed: at the end of the file [rio_readlineb] leaves the line that was
    sent in the buffer, and the client shows it as if it had come back. *)
Theorem line_client_blind wr j buf rio fd typed s :
  takes_all wr -> NUL ∉ typed -> length buf = MAXLINE -> length (rio_buf rio) = RIO_BUFSIZE ->
  clean s -> bytes_of s = concat (take j (lines (length typed) typed)) ->
  client (length typed) wr buf (rio_readinitb rio fd) typed s = Ok (typed, typed).
Proof.
  intros Hw Hn Hb Hr Hc Hs. apply (line_client_spec wr (length typed) j);
    [exact Hw|exact Hn|lia|exact Hb|split; cbn; [exact Hr|lia|lia]|exact Hc|].
  rewrite rest_empty by (cbn; lia). exact Hs.
Qed.

Lemma line_client_blind_witness :
  let typed := lit "one" ++ [LF] ++ lit "two" ++ [LF] in
  client (length typed) wr0 (replicate MAXLINE NUL) (rio_readinitb new_rio 3) typed
    [Chunk (lit "on"); Chunk (lit "e" ++ [LF])] = Ok (typed, typed).
Proof.
  apply (line_client_blind wr0 1);
    [exact wr0_takes_all|decided|apply length_replicate|apply length_replicate
    |repeat constructor; discriminate|vm_compute; reflexivity].
Defined.

End LineClient.

(** ** echoserver.c *)
Module Sequential.

(** The loop of [main]: the clients in the order they are accepted; [echo] has a buffer and
    an [rio_t] of its own each time.  The result is what each was sent. *)
Fixpoint serve_conns (wr : writes) (conns : list (Z * list item * bytes * rio_t)) : res (list (Z * bytes)) :=
  match conns with
  | [] => Ok []
  | (connfd, s, buf, rio) :: conns =>
      '(out, _) ← echo wr buf rio connfd s;
      rest ← serve_conns wr conns;
      Ok ((connfd, out) :: rest)
  end.

(** clients_in_turn: every client gets back exactly what it has sent, after the ones before it. *)
Theorem clients_in_turn wr conns :
  takes_all wr ->
  Forall (fun '(_, s, buf, rio) => clean s /\ length buf = MAXLINE /\ length (rio_buf rio) = RIO_BUFSIZE) conns ->
  serve_conns wr conns = Ok ((fun '(connfd, s, _, _) => (connfd, bytes_of s)) <$> conns).
Proof.
  intros Hw H. induction H as [|[[[connfd s] buf] rio] conns (Hc & Hb & Hr) _ IH]; [done|]. cbn [serve_conns fmap list_fmap].
  destruct (echo_returns wr buf rio connfd s Hw Hc Hb Hr) as [s' ->]. cbn [mbind res_bind].
  setoid_rewrite IH. done.
Qed.

Lemma clients_in_turn_witness :
  serve_conns wr0 [(4, [Chunk (lit "a")], replicate MAXLINE NUL, new_rio); (4, [Chunk (lit "b" ++ [LF])], replicate MAXLINE NUL, new_rio)] =
    Ok [(4, lit "a"); (4, lit "b" ++ [LF])].
Proof.
  apply (clients_in_turn wr0 [(4, [Chunk (lit "a")], replicate MAXLINE NUL, new_rio);
    (4, [Chunk (lit "b" ++ [LF])], replicate MAXLINE NUL, new_rio)]); [exact wr0_takes_all|].
  constructor; [|constructor; [|constructor]]; (split; [repeat constructor; discriminate|]); split; apply length_replicate.
Defined.

End Sequential.
