(* ===== verification/Splice.v ===== *)
(** * Data moved inside the kernel (socket/zero_copy, io_chatroom_client.c)

    The programs that use splice, tee and sendfile: zc_splice.c, zc_tee.c,
    zc_sendfile.c and the client of the chat room.  A pipe is the bytes in it; every
    program keeps both ends of its pipes open, so that moving out of an empty
    pipe waits for ever. *)

From S2P Require Import Prelude CString Rio.

(** A call that returns, or waits for what will never come. *)
Inductive call (A : Type) := Returns (x : A) | Hangs.
Arguments Returns {A} x.
Arguments Hangs {A}.

Definition LEN : nat := Z.to_nat 32768.

Lemma LEN_pos : (0 < LEN)%nat.
Proof. apply Nat.ltb_lt. reflexivity. Qed.

#[global] Opaque LEN.

(** [splice(fd, NULL, pipe, NULL, LEN, ...)] from what can be read on [fd]: the
    result, and what went into the pipe. *)
Definition splice_in (s : list item) (p : bytes) : Z * bytes * list item :=
  match sys_read LEN s with
  | (RData d, s) => (Z.of_nat (length d), p ++ d, s)
  | (REof, s) => (0, p, s)
  | (RIntr, s) | (RFail, s) => (-1, p, s)
  end.

(** [splice(pipe, NULL, fd, NULL, LEN, ...)]: [room] is how much the destination
    takes; 0 is an error of it.  The result, what left the pipe, and what stays. *)
Definition splice_out (room : nat) (p : bytes) : call (Z * bytes * bytes) :=
  match p, room with
  | [], _ => Hangs
  | _, O => Returns (-1, [], p)
  | _, _ => let n := Nat.min LEN room in
            Returns (Z.of_nat (length (take n p)), take n p, drop n p)
  end.

(** [tee(pipe1, pipe2, LEN, SPLICE_F_NONBLOCK)]: an empty pipe is an error. *)
Definition tee (room : nat) (p1 p2 : bytes) : Z * bytes :=
  match p1, room with
  | [], _ | _, O => (-1, p2)
  | _, _ => let n := Nat.min LEN room in (Z.of_nat (length (take n p1)), p2 ++ take n p1)
  end.

(** ** Lemmas *)

Lemma splice_in_spec s p r p' s' :
  splice_in s p = (r, p', s') -> exists d, p' = p ++ d /\ bytes_of s = d ++ bytes_of s' /\
    (0 <= r -> r = Z.of_nat (length d)).
Proof.
  unfold splice_in, sys_read. destruct s as [|[d| |] s].
  - intros [= <- <- <-]. exists []. by rewrite app_nil_r.
  - case_decide; intros [= <- <- <-]; [by exists d|]. exists (take LEN d). split_and!; [done| |done].
    cbn [bytes_of]. by rewrite app_assoc, take_drop.
  - intros [= <- <- <-]. exists []. by rewrite app_nil_r.
  - intros [= <- <- <-]. exists []. by rewrite app_nil_r.
Qed.

Lemma splice_out_spec room p r d p' :
  splice_out room p = Returns (r, d, p') -> p = d ++ p' /\ p <> [] /\ (0 <= r -> r = Z.of_nat (length d)).
Proof.
  unfold splice_out. destruct p as [|c p]; [done|]. destruct room as [|room].
  - intros [= <- <- <-]. split_and!; done.
  - intros [= <- <- <-]. by rewrite take_drop.
Qed.

Lemma splice_out_all p : p <> [] -> (length p <= LEN)%nat ->
  splice_out (length p) p = Returns (Z.of_nat (length p), p, []).
Proof.
  intros Hp Hl. unfold splice_out. rewrite (Nat.min_r LEN) by done.
  destruct p as [|c p]; [done|]. cbn [length]. by rewrite take_ge, drop_ge by done.
Qed.

(** ** io_chatroom_client.c *)
Module ChatClient.

Definition BUFFER_SIZE : nat := 64.

(** What one [poll] reports: [rdhup] and [input] of the socket, with what [recv]
    then gets; [typed] for standard input; [room]: what the socket takes of the
    second splice. *)
Record turn := MkTurn { rdhup : bool; input : option bytes; typed : bool; room : nat }.

(** [stdin]: what can still be read; [piped]: what is in the pipe; [sent]: what
    went to the server; [shown]: what was printed. *)
Record state := State { stdin : list item; piped : bytes; sent : bytes; shown : list bytes }.

Inductive outcome :=
  | Left_ (s : state)      (** the program ended *)
  | Waits (s : state)      (** in poll *)
  | Stuck (s : state).     (** in splice, for ever *)

(** [recv] of at most [BUFFER_SIZE - 1] bytes into a zeroed buffer, printed up to
    the first NUL. *)
Definition show (d : bytes) : bytes :=
  let d := take (BUFFER_SIZE - 1) d in default d (upto_nul d).

(** One turn of the loop; [None]: [poll] failed. *)
Definition turn_step (t : option turn) (s : state) : res outcome :=
  match t with
  | None => Ok (Left_ s)
  | Some t =>
      if rdhup t then Ok (Left_ s)
      else
        let s := match input t with
                 | Some d => State (stdin s) (piped s) (sent s) (shown s ++ [show d])
                 | None => s
                 end in
        if typed t then
          let '(ret, p, s') := splice_in (stdin s) (piped s) in
          let s := State s' p (sent s) (shown s) in
          _ ← assert_that (ret <> -1);
          match splice_out (room t) p with
          | Hangs => Ok (Stuck s)
          | Returns (ret, d, p) =>
              _ ← assert_that (ret <> -1);
              Ok (Waits (State (stdin s) p (sent s ++ d) (shown s)))
          end
        else Ok (Waits s)
  end.

Fixpoint main_loop (turns : list (option turn)) (s : state) : res outcome :=
  match turns with
  | [] => Ok (Waits s)
  | t :: turns =>
      o ← turn_step t s;
      match o with
      | Waits s => main_loop turns s
      | _ => Ok o
      end
  end.

Definition state_of (o : outcome) : state :=
  match o with Left_ s | Waits s | Stuck s => s end.

(** Everything typed that has not been read, or is in the pipe, or was sent. *)
Definition flow (s : state) : bytes := sent s ++ piped s ++ bytes_of (stdin s).

Lemma turn_step_flow t s o :
  turn_step t s = Ok o -> flow (state_of o) = flow s /\
  match o with Stuck s' => piped s' = [] | _ => True end.
Proof.
  destruct t as [[rd i ty rm]|]; [|by intros [= <-]]. cbn [turn_step rdhup input typed room].
  destruct rd; [by intros [= <-]|].
  set (s1 := match i with Some d => State (stdin s) (piped s) (sent s) (shown s ++ [show d]) | None => s end).
  assert (Hs1 : flow s1 = flow s) by by destruct i. clearbody s1.
  destruct ty; [|by intros [= <-]].
  destruct (splice_in (stdin s1) (piped s1)) as [[r p] s'] eqn:E.
  apply splice_in_spec in E as (d & -> & Eb & _).
  intros (? & _ & H)%bind_ok_inv. cbn [stdin sent shown] in H.
  destruct (splice_out rm (piped s1 ++ d)) as [[[r2 d2] p2]|] eqn:E2.
  - apply splice_out_spec in E2 as (Ep & _ & _). apply bind_ok_inv in H as (? & _ & [= <-]).
    split; [|done]. cbn. rewrite <- Hs1. unfold flow. cbn. rewrite Eb, <- app_assoc. f_equal.
    rewrite !app_assoc. f_equal. by rewrite Ep.
  - injection H as <-. split.
    + cbn. rewrite <- Hs1. unfold flow. cbn. by rewrite Eb, <- !app_assoc.
    + cbn. unfold splice_out in E2. destruct (piped s1 ++ d); [done|]. by destruct rm.
Qed.

(** client_forwards: whatever poll reports and however much the calls move, what is
    typed goes to the server in order and nothing of it is lost or repeated; and the
    client can get stuck in the second splice only with everything sent that it
    took. *)
Theorem client_forwards turns s o :
  main_loop turns s = Ok o ->
  flow (state_of o) = flow s /\ match o with Stuck s' => piped s' = [] | _ => True end.
Proof.
  revert s. induction turns as [|t turns IH]; intros s; cbn [main_loop].
  { by intros [= <-]. }
  intros (o1 & H1 & H2)%bind_ok_inv. apply turn_step_flow in H1 as [E1 E1'].
  destruct o1 as [s1|s1|s1].
  - injection H2 as <-. done.
  - apply IH in H2 as [E2 E2']. split; [by etrans; [exact E2|exact E1]|done].
  - injection H2 as <-. done.
Qed.

(** client_stuck_at_eof: at the end of standard input poll reports it readable, and
    the client, which has nothing in its pipe, never comes back: it shows nothing
    of the room any more. *)
Theorem client_stuck_at_eof t turns s :
  rdhup t = false -> typed t = true -> stdin s = [] -> piped s = [] ->
  exists s', main_loop (Some t :: turns) s = Ok (Stuck s') /\ sent s' = sent s.
Proof.
  intros H1 H2 H3 H4. cbn [main_loop turn_step]. rewrite H1, H2.
  destruct (input t); cbn [stdin piped sent shown]; rewrite H3, H4; cbn; eauto.
Qed.

Lemma client_forwards_witness :
  let s := State [Chunk (lit "hi"); Chunk (lit "ho")] [] [] [] in
  let turns := [Some (MkTurn false (Some (lit "yo")) true 1); Some (MkTurn false None true 9)] in
  let o := Waits (State [] [] (lit "hiho") [lit "yo"]) in
  flow (state_of o) = flow s /\ match o with Stuck s' => piped s' = [] | _ => True end.
Proof.
  apply (client_forwards [Some (MkTurn false (Some (lit "yo")) true 1); Some (MkTurn false None true 9)]).
  vm_compute. reflexivity.
Defined.

Lemma client_stuck_at_eof_witness :
  exists s', main_loop [Some (MkTurn false None true 9)] (State [] [] (lit "hi") []) = Ok (Stuck s') /\
    sent s' = lit "hi".
Proof. by apply client_stuck_at_eof. Defined.

End ChatClient.

(** ** zc_splice.c *)
Module ZcSplice.

Inductive outcome := Ended (echoed : bytes) (closed : list Z) | Waiting.

(** From [socket] to the end; the arguments are the results of the calls, [s] what
    the client sends and [room] what the connection takes. *)
Definition zc_splice (sock bnd lst connfd pip : Z) (s : list item) (room : nat) : res outcome :=
  _ ← assert_that (sock >= 0);
  _ ← assert_that (bnd <> -1);
  _ ← assert_that (lst <> -1);
  if decide (connfd < 0) then Ok (Ended [] [sock])
  else
    _ ← assert_that (pip <> -1);
    let '(ret, p, _) := splice_in s [] in
    _ ← assert_that (ret <> -1);
    match splice_out room p with
    | Hangs => Ok Waiting
    | Returns (ret, d, _) =>
        _ ← assert_that (ret <> -1);
        Ok (Ended d [connfd; sock])
    end.

(** splice_echoes: of a client that sends something, the first piece comes back, as
    far as it fits; a client that sends nothing and closes its side makes the program
    wait for ever. *)
Theorem splice_echoes sock bnd lst connfd pip s room :
  sock >= 0 -> bnd <> -1 -> lst <> -1 -> connfd >= 0 -> pip <> -1 ->
  (forall d s', s = Chunk d :: s' -> d <> [] -> (0 < room)%nat ->
     exists e, zc_splice sock bnd lst connfd pip s room = Ok (Ended e [connfd; sock]) /\
       e `prefix_of` d /\ length e = Nat.min (length d) (Nat.min LEN room)) /\
  (s = [] -> zc_splice sock bnd lst connfd pip s room = Ok Waiting).
Proof.
  intros H1 H2 H3 H4 H5. unfold zc_splice.
  rewrite (assert_that_ok (sock >= 0)), (assert_that_ok (bnd <> -1)), (assert_that_ok (lst <> -1)) by done.
  cbn [mbind res_bind]. rewrite decide_False by lia. rewrite assert_that_ok by done.
  cbn [mbind res_bind]. split.
  - intros d s' -> Hd Hr. destruct (splice_in (Chunk d :: s') []) as [[r p] s2] eqn:E.
    assert (Hp : p = take LEN d /\ r <> -1).
    { unfold splice_in, sys_read in E. case_decide; injection E as <- <- _; cbn;
        (split; [|lia]); [by rewrite take_ge|done]. }
    destruct Hp as [-> Hr1]. rewrite assert_that_ok by done. cbn [mbind res_bind].
    unfold splice_out. destruct (take LEN d) as [|c q] eqn:Eq.
    { apply (f_equal length) in Eq. rewrite length_take in Eq. destruct d; [done|].
      pose proof LEN_pos. cbn [length] in Eq. lia. }
    destruct room as [|room]; [lia|]. rewrite <- Eq. clear c q Eq E.
    rewrite assert_that_ok by lia. cbn [mbind res_bind]. eexists. split; [done|].
    rewrite take_take. split; [apply prefix_take|]. rewrite length_take. lia.
  - intros ->. done.
Qed.

Lemma splice_echoes_witness :
  let s := [Chunk (lit "ab")] in
  (forall d s', s = Chunk d :: s' -> d <> [] -> (0 < 9)%nat ->
     exists e, zc_splice 3 0 0 4 0 s 9 = Ok (Ended e [4; 3]) /\
       e `prefix_of` d /\ length e = Nat.min (length d) (Nat.min LEN 9)) /\
  (s = [] -> zc_splice 3 0 0 4 0 s 9 = Ok Waiting).
Proof. by apply splice_echoes. Defined.

End ZcSplice.

(** ** zc_tee.c *)
Module ZcTee.

(** What the program leaves: the file, and standard output. *)
Definition zc_tee (filefd pip1 pip2 : Z) (s : list item) (room2 room_file room_out : nat)
    : res (call (bytes * bytes)) :=
  _ ← assert_that (filefd > 0);
  _ ← assert_that (pip1 <> -1);
  _ ← assert_that (pip2 <> -1);
  let '(ret, p1, _) := splice_in s [] in
  _ ← assert_that (ret <> -1);
  let '(ret, p2) := tee room2 p1 [] in
  _ ← assert_that (ret <> -1);
  match splice_out room_file p2 with
  | Hangs => Ok Hangs
  | Returns (ret, file, _) =>
      _ ← assert_that (ret <> -1);
      match splice_out room_out p1 with
      | Hangs => Ok Hangs
      | Returns (ret, out, _) =>
          _ ← assert_that (ret <> -1);
          Ok (Returns (file, out))
      end
  end.

(** tee_copies: the program never hangs; when it returns, the file and standard
    output hold the start of the input, as far as each call moved it, hence
    one a prefix of the other; and without any input an assertion fails. *)
Theorem tee_copies filefd pip1 pip2 s r2 rf ro :
  zc_tee filefd pip1 pip2 s r2 rf ro = Err AssertFail \/
  exists file out, zc_tee filefd pip1 pip2 s r2 rf ro = Ok (Returns (file, out)) /\
    file `prefix_of` bytes_of s /\ out `prefix_of` bytes_of s /\
    file <> [] /\ out <> [] /\ (length file <= LEN)%nat /\ (length out <= LEN)%nat.
Proof.
  unfold zc_tee. do 3 assert_step.
  destruct (splice_in s []) as [[r p1] s'] eqn:E. apply splice_in_spec in E as (d & -> & Eb & _).
  cbn [app] in *. assert_step.
  destruct d as [|c d]; [by left|]. set (p1 := c :: d) in *.
  destruct r2 as [|r2]; [by left|].
  change (tee (S r2) p1 []) with (Z.of_nat (length (take (Nat.min LEN (S r2)) p1)), take (Nat.min LEN (S r2)) p1).
  cbv beta iota. assert_step.
  destruct (splice_out rf (take (Nat.min LEN (S r2)) p1)) as [[[r3 file] q]|] eqn:E3.
  2:{ exfalso. revert E3. destruct (Nat.min LEN (S r2)) eqn:Em; [pose proof LEN_pos; lia|].
      unfold p1, splice_out. cbn [take]. by destruct rf. }
  destruct (splice_out ro p1) as [[[r4 out] q']|] eqn:E4.
  2:{ exfalso. revert E4. unfold p1, splice_out. by destruct ro. }
  assert (Hout : forall rm x r e q, splice_out rm x = Returns (r, e, q) -> r <> -1 ->
    e `prefix_of` x /\ e <> [] /\ (length e <= LEN)%nat).
  { intros rm x r' e q0 Hs Hr. unfold splice_out in Hs. destruct x as [|c0 x]; [done|].
    destruct rm as [|rm]; injection Hs as <- <- <-; [done|]. split; [apply prefix_take|].
    split; [|rewrite length_take; lia]. destruct (Nat.min LEN (S rm)) eqn:Em; [pose proof LEN_pos; lia|done]. }
  cbv beta iota. do 2 assert_step. right. apply Hout in E3 as (Hf & Hf1 & Hf2); [|done]. apply Hout in E4 as (Ho & Ho1 & Ho2); [|done].
  exists file, out. rewrite Eb. split_and!; try done.
  - etrans; [exact Hf|]. apply prefix_app_r, prefix_take.
  - by apply prefix_app_r.
Qed.

End ZcTee.

(** ** zc_sendfile.c *)
Module ZcSendfile.

(** [file]: the content, [st_size] what [fstat] says of it; [took]: how much one
    [sendfile] moves at most.  The result: what was sent, and the descriptors
    closed. *)
Definition zc_sendfile (filefd st_size sock bnd lst connfd : Z) (file : bytes) (took : nat)
    : res (bytes * list Z) :=
  _ ← assert_that (filefd >= 0);
  _ ← assert_that (sock >= 0);
  _ ← assert_that (bnd <> -1);
  _ ← assert_that (lst <> -1);
  if decide (connfd < 0) then Ok ([], [sock])
  else Ok (take (Nat.min took (Z.to_nat st_size)) file, [connfd; sock]).

(** sendfile_once: one call sends the file as far as it goes; the rest is not sent, and
    the descriptor of the file is never closed. *)
Theorem sendfile_once filefd st_size sock bnd lst connfd file took :
  filefd >= 0 -> sock >= 0 -> bnd <> -1 -> lst <> -1 -> connfd >= 0 ->
  st_size = Z.of_nat (length file) ->
  exists d, zc_sendfile filefd st_size sock bnd lst connfd file took = Ok (d, [connfd; sock]) /\
    d `prefix_of` file /\ (d = file <-> (length file <= took)%nat).
Proof.
  intros H1 H2 H3 H4 H5 ->. unfold zc_sendfile. rewrite !assert_that_ok by done.
  cbn [mbind res_bind]. rewrite decide_False by lia. eexists. split; [done|]. rewrite Nat2Z.id.
  split; [apply prefix_take|]. split.
  - intros E. apply (f_equal length) in E. rewrite length_take in E. lia.
  - intros Hl. rewrite Nat.min_r by done. by apply take_ge.
Qed.

Lemma sendfile_once_witness :
  exists d, zc_sendfile 3 2 4 0 0 5 (lit "ab") 1 = Ok (d, [5; 4]) /\
    d `prefix_of` lit "ab" /\ (d = lit "ab" <-> (length (lit "ab") <= 1)%nat).
Proof. by apply sendfile_once. Defined.

End ZcSendfile.
