(* ===== verification/StressTest.v ===== *)
(** * The stress test (socket/test/stress_test.c)

    A client that keeps many connections to a server busy: each sends the request,
    waits for a response, and sends the request again.  The program keeps no state
    of its own for a connection; what it is waiting for is the mask in the
    epoll table. *)

From S2P Require Import Prelude CString.

Definition request : bytes :=
  lit "GET http://localhost/index.html HTTP/1.1" ++ CRLF ++
  lit "Connection: keep-alive" ++ CRLF ++ CRLF ++ lit "xxxxxxxxxxxx".

(** ** The epoll table and the trace *)

(** EPOLLOUT or EPOLLIN, both with EPOLLET and EPOLLERR. *)
Inductive want := WantOut | WantIn.

Inductive act :=
  | Sent (data : bytes) (all : bool)   (** [write_nbytes] and its result *)
  | Got (shown : bytes)                (** [read_once] with data *)
  | NoData                             (** [read_once] without *)
  | Closed.

Record client := Client {
  interest : gmap Z want;
  nonblock : gset Z;
  trace : list (Z * act) }.

Definition note (fd : Z) (a : act) (c : client) : client :=
  Client (interest c) (nonblock c) (trace c ++ [(fd, a)]).

(** EPOLL_CTL_MOD of a descriptor that is not in the table fails. *)
Definition epoll_mod (fd : Z) (w : want) (c : client) : client :=
  match interest c !! fd with
  | Some _ => Client (<[fd := w]> (interest c)) (nonblock c) (trace c)
  | None => c
  end.

(** ** The functions of the program *)

Definition setnonblocking (fd : Z) (c : client) : client :=
  Client (interest c) ({[fd]} ∪ nonblock c) (trace c).

Definition addfd (fd : Z) (c : client) : client :=
  setnonblocking fd (Client (<[fd := WantOut]> (interest c)) (nonblock c) (trace c)).

(** [sends]: the results of [send].  The result, and what was sent. *)
Fixpoint write_nbytes (sends : list Z) (buffer : bytes) : res (bool * bytes) :=
  match sends with
  | [] => Err OutOfFuel
  | bytes_write :: sends =>
      if decide (bytes_write <= 0) then Ok (false, [])
      else
        let out := take (Z.to_nat bytes_write) buffer in
        let left := drop (Z.to_nat bytes_write) buffer in
        if decide (Z.of_nat (length left) <= 0) then Ok (true, out)
        else
          '(ok, rest) ← write_nbytes sends left;
          Ok (ok, out ++ rest)
  end.

(** [received]: what [recv] puts into the zeroed buffer; [None] is -1.  The content is
    printed as a string, which has to end inside the buffer. *)
Definition read_once (len : nat) (received : option bytes) : res (bool * bytes) :=
  match received with
  | None | Some [] => Ok (false, [])
  | Some d =>
      buffer ← awrite (replicate len NUL) 0 (take len d);
      shown ← cstr buffer 0;
      Ok (true, shown)
  end.

(** One turn of [start_conn]: the results of [socket] and [connect]. *)
Definition start_one (c : client) (r : Z * Z) : client :=
  let '(sockfd, conn) := r in
  if decide (sockfd < 0) then c
  else if decide (conn = 0) then addfd sockfd c
  else c.

(** The loop of [start_conn]: [num] turns. *)
Definition start_conn (num : nat) (results : list (Z * Z)) (c : client) : client :=
  foldl start_one c (take num results).

Definition close_conn (sockfd : Z) (c : client) : client :=
  note sockfd Closed (Client (delete sockfd (interest c)) (nonblock c ∖ {[sockfd]}) (trace c)).

(** An event, and the answers of the calls its handling makes. *)
Record event := Event {
  efd : Z;
  epollin : bool; epollout : bool; epollerr : bool;
  sends : list Z;
  received : option bytes }.

Definition handle_event (e : event) (c : client) : res client :=
  let sockfd := efd e in
  if epollin e then
    '(ok, shown) ← read_once 2048 (received e);
    let c := if ok : bool then note sockfd (Got shown) c
             else close_conn sockfd (note sockfd NoData c) in
    Ok (epoll_mod sockfd WantOut c)
  else if epollout e then
    '(ok, out) ← write_nbytes (sends e) request;
    let c := note sockfd (Sent out ok) c in
    let c := if ok : bool then c else close_conn sockfd c in
    Ok (epoll_mod sockfd WantIn c)
  else if epollerr e then Ok (close_conn sockfd c)
  else Ok c.

Fixpoint handle_events (es : list event) (c : client) : res client :=
  match es with
  | [] => Ok c
  | e :: es => c ← handle_event e c; handle_events es c
  end.

(** The loop of [main]: one list of events per [epoll_wait]. *)
Fixpoint main_loop (waits : list (list event)) (c : client) : res client :=
  match waits with
  | [] => Ok c
  | es :: waits => c ← handle_events es c; main_loop waits c
  end.

(** ** Sending *)

(** write_nbytes_whole: [write_nbytes] says true exactly when the whole buffer was
    sent, and otherwise a proper prefix of it was. *)
Theorem write_nbytes_whole rs : forall buffer ok out,
  buffer <> [] -> write_nbytes rs buffer = Ok (ok, out) ->
  out `prefix_of` buffer /\ (ok = true <-> out = buffer).
Proof.
  induction rs as [|r rs IH]; intros buffer ok out Hb; [done|]. cbn [write_nbytes].
  case_decide as Hr.
  { intros [= <- <-]. split; [apply prefix_nil|]. split; [done|]. by intros <-. }
  case_decide as Hl.
  - intros [= <- <-]. split; [apply prefix_take|]. split; [|done]. intros _.
    rewrite length_drop in Hl. apply take_ge. lia.
  - intros ([ok' rest] & H & [= <- <-])%bind_ok_inv.
    apply IH in H as [Hp Hiff]; [|intros E; rewrite E in Hl; cbn in Hl; lia].
    pose proof (take_drop (Z.to_nat r) buffer) as E.
    set (t := take _ buffer) in *. set (d := drop _ buffer) in *. clearbody t d. subst buffer.
    split; [by apply prefix_app|]. rewrite Hiff. split; [by intros ->|apply app_inv_head].
Qed.

(** ** The protocol of a connection *)

(** Where a connection is: about to send, waiting for the response, about to be
    closed, closed. *)
Inductive phase := Writing | Reading | Closing | Dead.

#[export] Instance phase_eq_dec : EqDecision phase.
Proof. solve_decision. Defined.
#[export] Instance want_eq_dec : EqDecision want.
Proof. solve_decision. Defined.
#[export] Instance act_eq_dec : EqDecision act.
Proof. solve_decision. Defined.

(** A whole request, then a response, and so on; a request cut short or a
    missing response is followed by the close. *)
Definition next (p : phase) (a : act) : option phase :=
  match p, a with
  | Writing, Sent d true => if decide (d = request) then Some Reading else None
  | Writing, Sent d false => if decide (d `prefix_of` request) then Some Closing else None
  | Reading, Got _ => Some Writing
  | Reading, NoData => Some Closing
  | (Writing | Reading | Closing), Closed => Some Dead
  | _, _ => None
  end.

Fixpoint phase_after (p : phase) (h : list act) : option phase :=
  match h with
  | [] => Some p
  | a :: h => p ← next p a; phase_after p h
  end.

(** What happened on one descriptor. *)
Definition history (fd : Z) (t : list (Z * act)) : list act :=
  omap (fun '(g, a) => if decide (g = fd) then Some a else None) t.

(** The phase the table shows. *)
Definition table_phase (w : option want) : phase :=
  match w with Some WantOut => Writing | Some WantIn => Reading | None => Dead end.

(** epoll reports a descriptor only for what its entry asks for, or an error. *)
Definition allowed (c : client) (e : event) : Prop :=
  match interest c !! efd e with
  | Some WantOut => epollin e = false
  | Some WantIn => epollin e = true \/ epollout e = false
  | None => False
  end.

(** Every descriptor in a batch is reported once. *)
Definition batch_ok (c : client) (es : list event) : Prop :=
  NoDup (efd <$> es) /\ Forall (allowed c) es.

Lemma phase_after_app h1 h2 : forall p,
  phase_after p (h1 ++ h2) = phase_after p h1 ≫= fun q => phase_after q h2.
Proof.
  induction h1 as [|a h1 IH]; intros p; [done|]. cbn. destruct (next p a); cbn; [apply IH|done].
Qed.

Lemma history_app fd t1 t2 : history fd (t1 ++ t2) = history fd t1 ++ history fd t2.
Proof. apply omap_app. Qed.

Lemma history_other fd g a : g <> fd -> history fd [(g, a)] = [].
Proof. intros. cbn. by rewrite decide_False. Qed.

Lemma history_same fd a : history fd [(fd, a)] = [a].
Proof. cbn. by rewrite decide_True. Qed.

(** One event adds to the history of its descriptor what the protocol allows, and the
    table shows the phase that follows. *)
Lemma handle_event_protocol e c c' :
  allowed c e -> handle_event e c = Ok c' ->
  exists h, trace c' = trace c ++ ((fun a => (efd e, a)) <$> h) /\
    phase_after (table_phase (interest c !! efd e)) h = Some (table_phase (interest c' !! efd e)) /\
    forall fd, fd <> efd e -> interest c' !! fd = interest c !! fd.
Proof.
  unfold allowed, handle_event. destruct e as [fd i o er sn rc]. cbn [efd epollin epollout epollerr sends received].
  destruct (interest c !! fd) as [w|] eqn:Hw; [|done]. intros Ha.
  destruct i.
  { destruct w; [done|]. intros ([ok shown] & _ & [= <-])%bind_ok_inv. destruct ok.
    - exists [Got shown]. unfold epoll_mod, note. cbn [interest trace]. rewrite Hw. cbn [interest trace].
      rewrite lookup_insert_eq. split_and!; [done|done|]. intros g Hg. by rewrite lookup_insert_ne.
    - exists [NoData; Closed]. unfold epoll_mod, close_conn, note. cbn [interest trace].
      rewrite lookup_delete_eq. cbn [interest trace]. rewrite lookup_delete_eq.
      split_and!; [by rewrite <- app_assoc|done|]. intros g Hg. by rewrite lookup_delete_ne. }
  destruct o.
  { destruct w; [|naive_solver]. intros ([ok out] & Hwr & [= <-])%bind_ok_inv.
    apply write_nbytes_whole in Hwr as [Hp Hiff]; [|done]. destruct ok.
    - exists [Sent out true]. unfold epoll_mod, note. cbn [interest trace]. rewrite Hw. cbn [interest trace].
      rewrite lookup_insert_eq. split_and!; [done| |].
      + cbn. by rewrite decide_True by by apply Hiff.
      + intros g Hg. by rewrite lookup_insert_ne.
    - exists [Sent out false; Closed]. unfold epoll_mod, close_conn, note. cbn [interest trace].
      rewrite lookup_delete_eq. cbn [interest trace]. rewrite lookup_delete_eq.
      split_and!; [by rewrite <- app_assoc| |].
      + cbn. by rewrite decide_True.
      + intros g Hg. by rewrite lookup_delete_ne. }
  destruct er.
  - intros [= <-]. exists [Closed]. unfold close_conn, note. cbn [interest trace].
    rewrite lookup_delete_eq. split_and!; [done|by destruct w|]. intros g Hg. by rewrite lookup_delete_ne.
  - intros [= <-]. exists []. rewrite Hw. cbn. by rewrite app_nil_r.
Qed.

(** The whole client follows the protocol. *)
Definition follows (p0 : Z -> phase) (c : client) : Prop :=
  forall fd, phase_after (p0 fd) (history fd (trace c)) = Some (table_phase (interest c !! fd)).

Lemma history_map fd g h : history fd ((fun a => (g, a)) <$> h) = if decide (g = fd) then h else [].
Proof.
  induction h as [|a h IH]; cbn; [by case_decide|]. unfold history in IH. rewrite IH. by case_decide.
Qed.

Lemma handle_event_follows p0 e c c' :
  allowed c e -> handle_event e c = Ok c' -> follows p0 c -> follows p0 c'.
Proof.
  intros Ha H Hf fd. destruct (handle_event_protocol e c c' Ha H) as (h & -> & Hp & Ho).
  rewrite history_app, history_map, phase_after_app, (Hf fd). cbn. case_decide as E.
  - by subst.
  - cbn. by rewrite Ho.
Qed.

Lemma handle_events_follow p0 es : forall c c',
  batch_ok c es -> handle_events es c = Ok c' -> follows p0 c -> follows p0 c'.
Proof.
  induction es as [|e es IH]; intros c c' [Hn Ha] H Hf; [by injection H as <-|].
  cbn [handle_events] in H. apply bind_ok_inv in H as (c1 & H1 & H2).
  cbn [fmap list_fmap] in Hn. apply NoDup_cons in Hn as [Hn1 Hn2]. apply Forall_cons in Ha as [Ha1 Ha2].
  apply (IH c1); [split; [done|]|done|by eapply handle_event_follows].
  destruct (handle_event_protocol e c c1 Ha1 H1) as (_ & _ & _ & Ho).
  rewrite Forall_forall in Ha2 |- *. intros x Hx. specialize (Ha2 x Hx). unfold allowed in *.
  rewrite Ho; [done|]. intros E. apply Hn1. rewrite <- E. by apply list_elem_of_fmap_2.
Qed.

(** Every batch is one that epoll may report when it is asked. *)
Fixpoint waits_ok (waits : list (list event)) (c : client) : Prop :=
  match waits with
  | [] => True
  | es :: waits => batch_ok c es /\ forall c', handle_events es c = Ok c' -> waits_ok waits c'
  end.

(** Right after [start_conn] each connected socket waits to send. *)
Lemma start_conn_follows num results c :
  follows (fun fd => table_phase (interest (start_conn num results c) !! fd))
    (Client (interest (start_conn num results c)) (nonblock (start_conn num results c)) []).
Proof. intros fd. done. Qed.

Lemma start_one_out c r :
  (forall fd w, interest c !! fd = Some w -> w = WantOut) ->
  forall fd w, interest (start_one c r) !! fd = Some w -> w = WantOut.
Proof.
  intros H. destruct r as [s k]. unfold start_one. repeat case_decide; try done.
  intros fd w. cbn. destruct (decide (s = fd)) as [->|]; [rewrite lookup_insert_eq; congruence|].
  rewrite lookup_insert_ne by done. apply H.
Qed.

Lemma start_one_trace c r : trace (start_one c r) = trace c.
Proof. destruct r. unfold start_one. by repeat case_decide. Qed.

(** [C18] stress_protocol: from the connections that could be made, whatever events epoll
    reports and however sends and receives go, on every connection a whole request
    is followed by a response, by a whole request, and so on; a connection on which a
    request could not be sent whole, or no response came, is closed and never
    used again; and the epoll table always says which of the two comes next. *)
Theorem stress_protocol num results waits c' :
  let c := start_conn num results (Client ∅ ∅ []) in
  waits_ok waits c -> main_loop waits c = Ok c' ->
  forall fd, exists p,
    phase_after (if decide (is_Some (interest c !! fd)) then Writing else Dead) (history fd (trace c')) = Some p /\
    p = table_phase (interest c' !! fd).
Proof.
  intros c Hw Hm fd.
  assert (Hout : forall fd w, interest c !! fd = Some w -> w = WantOut).
  { unfold c, start_conn. generalize (take num results). intros l.
    enough (forall c0, (forall fd w, interest c0 !! fd = Some w -> w = WantOut) ->
      forall fd w, interest (foldl start_one c0 l) !! fd = Some w -> w = WantOut) as Hg
      by (apply Hg; cbn; intros ? ?; by rewrite lookup_empty).
    induction l as [|r l IH]; intros c0 H0; [done|]. cbn. apply IH. by apply start_one_out. }
  assert (Ht : trace c = []).
  { unfold c, start_conn. generalize (take num results). intros l.
    enough (forall c0, trace (foldl start_one c0 l) = trace c0) as -> by done.
    induction l as [|r l IH]; intros c0; [done|]. cbn. by rewrite IH, start_one_trace. }
  set (p0 := fun fd => if decide (is_Some (interest c !! fd)) then Writing else Dead).
  assert (Hf : follows p0 c).
  { intros g. rewrite Ht. cbn. unfold p0. case_decide as Hg.
    - destruct Hg as [w Hg]. by rewrite Hg, (Hout g w Hg).
    - destruct (interest c !! g) eqn:E; [|done]. destruct Hg. eauto. }
  assert (Hf' : follows p0 c').
  { clearbody p0. clear Hout Ht. clearbody c. revert c Hw Hm Hf. induction waits as [|es waits IH]; intros c Hw Hm Hf; [by injection Hm as <-|].
    destruct Hw as [Hb Hw]. cbn [main_loop] in Hm. apply bind_ok_inv in Hm as (c1 & H1 & H2).
    eapply IH; [by apply Hw|done|by eapply handle_events_follow]. }
  eexists. split; [exact (Hf' fd)|done].
Qed.

(** Two connections: one sends, gets a response and fails, the other sends in two
    pieces. *)
Definition wait1 : list event :=
  [Event 5 false true false [Z.of_nat (length request)] None;
   Event 6 false true false [10; 1000] None].
Definition wait2 : list event := [Event 5 true false false [] (Some (lit "ok"))].
Definition wait3 : list event := [Event 5 false true false [10; -1] None].

Lemma stress_protocol_witness :
  let c := start_conn 2 [(5, 0); (6, 0)] (Client ∅ ∅ []) in
  exists c', main_loop [wait1; wait2; wait3] c = Ok c' /\
  exists p,
    phase_after (if decide (is_Some (interest c !! 5)) then Writing else Dead) (history 5 (trace c')) = Some p /\
    p = table_phase (interest c' !! 5).
Proof.
  intros c. eexists. split; [vm_compute; reflexivity|].
  refine (stress_protocol 2 [(5, 0); (6, 0)] [wait1; wait2; wait3] _ _ _ 5).
  - assert (Hd : forall es c, bool_decide (NoDup (efd <$> es)) &&
      forallb (fun e => match interest c !! efd e with
        | Some WantOut => negb (epollin e) | Some WantIn => epollin e | None => false end) es = true ->
      batch_ok c es).
    { intros es c0 [Hn Hf]%andb_true_iff. split; [by apply bool_decide_eq_true in Hn|].
      rewrite Forall_forall. intros e He. rewrite forallb_forall in Hf.
      apply list_elem_of_In in He. specialize (Hf e He). unfold allowed.
      destruct (interest c0 !! efd e) as [[]|]; [by apply negb_true_iff in Hf|by left|done]. }
    cbn [waits_ok]. split; [apply Hd; vm_compute; reflexivity|]. intros c1 H1.
    vm_compute in H1. injection H1 as <-.
    split; [apply Hd; vm_compute; reflexivity|]. intros c2 H2. vm_compute in H2. injection H2 as <-.
    split; [apply Hd; vm_compute; reflexivity|]. done.
  - vm_compute. reflexivity.
Defined.

Lemma write_nbytes_whole_witness :
  lit "ab" `prefix_of` lit "ab" /\ (true = true <-> lit "ab" = lit "ab").
Proof. apply (write_nbytes_whole [1; 1] (lit "ab") true (lit "ab")); [done|reflexivity]. Defined.

(** read_once_overrun: a response that fills the buffer is printed without an end. *)
Theorem read_once_overrun d :
  length d = 2048%nat -> NUL ∉ d -> read_once 2048 (Some d) = Err OutOfBounds.
Proof.
  intros Hl Hn. unfold read_once. destruct d as [|x d]; [done|]. set (y := x :: d) in *.
  rewrite take_ge by lia. rewrite awrite_front by (rewrite length_replicate; lia). cbn [mbind res_bind].
  rewrite drop_ge by (rewrite length_replicate; lia). rewrite app_nil_r.
  unfold cstr. rewrite decide_True by done. cbn [Z.to_nat drop].
  assert (forall l, NUL ∉ l -> upto_nul l = None) as ->; [|done|done].
  clear. induction l as [|c l IH]; intros Hn; [done|]. apply not_elem_of_cons in Hn as [H1 H2].
  cbn. rewrite decide_False by done. by rewrite IH.
Qed.

Lemma read_once_overrun_witness :
  length (replicate 2048 "a"%char) = 2048%nat /\ read_once 2048 (Some (replicate 2048 "a"%char)) = Err OutOfBounds.
Proof.
  assert (length (replicate 2048 "a"%char) = 2048%nat) as Hl by (apply length_replicate).
  split; [exact Hl|]. apply (read_once_overrun _ Hl). apply (bool_decide_unpack _). vm_compute. exact I.
Defined.
