(* ===== verification/Oob.v ===== *)
(** * Out-of-band data (socket/rw_flag_oob, io_select.c, sigurg_oob.c)

    A TCP connection as the receiving program sees it: the bytes that have arrived,
    one of which may be marked as urgent, the urgent byte as long as it can be
    read with MSG_OOB, and whether the peer has closed.  A normal [recv] stops
    before the mark; it skips the marked byte when it starts there, and then the
    urgent byte is gone.  Only the last byte of an urgent [send] is urgent; a new
    urgent byte makes one whose mark has not been reached a normal one. *)

From S2P Require Import Prelude CString.

(** ** The connection *)

Record tcp := Tcp {
  data : list (ascii * bool);     (** the flag is the mark *)
  urg : option ascii;
  fin : bool }.

Definition connected : tcp := Tcp [] None false.

Definition demote (l : list (ascii * bool)) : list (ascii * bool) := (fun x => (x.1, false)) <$> l.
Definition plain (d : bytes) : list (ascii * bool) := (fun c => (c, false)) <$> d.

Definition skip_mark (l : list (ascii * bool)) : list (ascii * bool) :=
  match l with (_, true) :: l => l | _ => l end.

Definition at_mark (l : list (ascii * bool)) : bool :=
  match l with (_, m) :: _ => m | [] => false end.

Fixpoint before_mark (l : list (ascii * bool)) : bytes :=
  match l with (c, false) :: l => c :: before_mark l | _ => [] end.

(** What one [send] of the peer does when it arrives. *)
Inductive arrival := Data (d : bytes) | Urgent (d : bytes) | Fin.

Definition arrive (t : tcp) (a : arrival) : tcp :=
  match a with
  | Data d => Tcp (data t ++ plain d) (urg t) (fin t)
  | Urgent d =>
      match last d with
      | Some c =>
          Tcp (demote (skip_mark (data t)) ++ plain (take (length d - 1) d) ++ [(c, true)]) (Some c) (fin t)
      | None => t
      end
  | Fin => Tcp (data t) (urg t) true
  end.

(** [recv(fd, buf, n, 0)]; [Again] is a call that waits. *)
Definition recv (n : nat) (t : tcp) : recv_t * tcp :=
  match skip_mark (data t) with
  | [] => (if fin t then Received [] else Again, t)
  | l => let d := take n (before_mark l) in
         (Received d, Tcp (drop (length d) l) (if at_mark (data t) then None else urg t) (fin t))
  end.

(** [recv(fd, buf, n, MSG_OOB)] with [n > 0]. *)
Definition recv_oob (t : tcp) : recv_t * tcp :=
  match urg t with
  | Some c => (Received [c], Tcp (data t) None (fin t))
  | None => (RecvError, t)
  end.

(** What select says of the connection. *)
Definition readable (t : tcp) : bool :=
  match skip_mark (data t) with [] => fin t | _ => true end.
Definition exceptional (t : tcp) : bool :=
  match urg t with Some _ => true | None => false end.

(** What the programs print: the result of [recv], and the zeroed buffer as a string. *)
Inductive out := Normal (d : bytes) | NormalError | OobData (d : bytes) | OobError.

Definition text_of (d : bytes) : bytes := default d (upto_nul d).

Definition shown (o : out) : Z * bytes :=
  match o with
  | Normal d | OobData d => (Z.of_nat (length d), text_of d)
  | NormalError | OobError => (-1, [])
  end.

(** ** testoobsend.c and testoobrecv.c *)

(** The three [send]s. *)
Definition oob_send : list arrival := [Data (lit "123"); Urgent (lit "abc"); Data (lit "123")].

Definition print_normal (r : recv_t) : option out :=
  match r with
  | Received d => Some (Normal d)
  | RecvError => Some NormalError
  | Again => None
  end.

(** The three [recv]s of the server, all printed as normal data; [None]: it waits. *)
Definition oob_recv (BUFSIZ : nat) (t : tcp) : option (list out) :=
  let '(r1, t) := recv (BUFSIZ - 1) t in
  o1 ← print_normal r1;
  let '(r2, t) := recv_oob t in
  o2 ← print_normal r2;
  let '(r3, t) := recv (BUFSIZ - 1) t in
  o3 ← print_normal r3;
  Some [o1; o2; o3].

(** ** io_select.c *)

Inductive turn := Blocked | Broke | Printed (o : out) (t : tcp).

(** One turn of the loop, in which select waits until there is something. *)
Definition select_turn (t : tcp) : turn :=
  if readable t then
    match recv 1023 t with
    | (Received d, t) => Printed (Normal d) t
    | (RecvError, _) => Broke
    | (Again, _) => Blocked
    end
  else if exceptional t then
    match recv_oob t with
    | (Received d, t) => if (0 <? length d)%nat then Printed (OobData d) t else Broke
    | (_, _) => Broke
    end
  else Blocked.

(** A run: what arrives, and the turns of the loop, in any order. *)
Inductive event := Arrives (a : arrival) | Turn.

Fixpoint select_run (t : tcp) (es : list event) : option (list out * tcp) :=
  match es with
  | [] => Some ([], t)
  | Arrives a :: es => select_run (arrive t a) es
  | Turn :: es =>
      match select_turn t with
      | Blocked => select_run t es
      | Broke => None
      | Printed o t => '(os, t') ← select_run t es; Some (o :: os, t')
      end
  end.

(** ** sigurg_oob.c *)

(** The handler. *)
Definition sig_urg (t : tcp) : out * tcp :=
  match recv_oob t with
  | (Received d, t) => (OobData d, t)
  | (_, t) => (OobError, t)
  end.

(** One turn of the loop of [main]; [Blocked]: recv waits, [Broke]: the loop ends. *)
Definition urg_turn (t : tcp) : turn :=
  match recv 1023 t with
  | (Received d, t) => if (0 <? length d)%nat then Printed (Normal d) t else Broke
  | (RecvError, _) => Broke
  | (Again, _) => Blocked
  end.

(** The process: its connection, whether the handler is installed and the process made
    the socket's owner (lines 65 to 67), and whether SIGURG is pending.  A signal does
    not queue: urgent data that arrives while it is pending adds nothing; urgent data
    that arrives before line 67 raises no signal that is handled. *)
Record process := Process { conn : tcp; ready : bool; pending : bool }.

(** What happens: something arrives, lines 65 to 67 are executed, the pending signal is
    delivered, the loop makes a turn. *)
Inductive urg_event := Comes (a : arrival) | Ready | Handle | Loop.

Definition urg_arrive (p : process) (a : arrival) : process :=
  Process (arrive (conn p) a) (ready p)
    (match a with Urgent (_ :: _) => ready p || pending p | _ => pending p end).

Definition urg_handle (p : process) : list out * process :=
  if pending p then let '(o, t) := sig_urg (conn p) in ([o], Process t (ready p) false) else ([], p).

(** A run, and whether the loop has ended. *)
Fixpoint urg_run (p : process) (es : list urg_event) : list out * process * bool :=
  match es with
  | [] => ([], p, false)
  | Comes a :: es => urg_run (urg_arrive p a) es
  | Ready :: es => urg_run (Process (conn p) true (pending p)) es
  | Handle :: es =>
      let '(os, p) := urg_handle p in
      let '(os', p', e) := urg_run p es in (os ++ os', p', e)
  | Loop :: es =>
      if ready p then
        match urg_turn (conn p) with
        | Blocked => urg_run p es
        | Broke => ([], p, true)
        | Printed o t => let '(os', p', e) := urg_run (Process t true (pending p)) es in (o :: os', p', e)
        end
      else urg_run p es
  end.

(** [main] after accept. *)
Definition accepted : process := Process connected false false.

(** ** What was sent, and what came out *)

(** All the bytes, and the bytes without the urgent ones. *)
Definition sent1 (a : arrival) : bytes := match a with Data d | Urgent d => d | Fin => [] end.
Definition kept1 (a : arrival) : bytes :=
  match a with Data d => d | Urgent d => take (length d - 1) d | Fin => [] end.
Definition urgent1 (a : arrival) : bytes :=
  match a with Urgent d => drop (length d - 1) d | _ => [] end.

Definition arrivals (es : list event) : list arrival :=
  omap (fun e => match e with Arrives a => Some a | Turn => None end) es.
Definition comes (es : list urg_event) : list arrival :=
  omap (fun e => match e with Comes a => Some a | _ => None end) es.

Definition normal_out (os : list out) : bytes :=
  mjoin ((fun o => match o with Normal d => d | _ => [] end) <$> os).
Definition oob_out (os : list out) : bytes :=
  mjoin ((fun o => match o with OobData d => d | _ => [] end) <$> os).

(** The urgent bytes that arrive when the handler is installed, and whose signal is
    delivered before another urgent byte arrives and before the loop reads on; [u] is
    the last one, if it still counts. *)
Fixpoint heard (ready : bool) (u : bytes) (es : list urg_event) : bytes :=
  match es with
  | [] => []
  | Comes (Urgent (c :: d)) :: es => heard ready (if ready then urgent1 (Urgent (c :: d)) else []) es
  | Comes _ :: es => heard ready u es
  | Ready :: es => heard true u es
  | Handle :: es => u ++ heard ready [] es
  | Loop :: es => heard ready (if ready then [] else u) es
  end.

(** The bytes that are not marked. *)
Definition normal (l : list (ascii * bool)) : bytes := omap (fun x : ascii * bool => if x.2 then None else Some x.1) l.

(** The normal data [o] that was read and the bytes still there have everything of
    [a] but the urgent bytes, and nothing else than what was sent, in its order. *)
Definition stream (a : list arrival) (o : bytes) (t : tcp) : Prop :=
  mjoin (kept1 <$> a) `sublist_of` o ++ normal (data t) /\
  o ++ (fst <$> data t) `sublist_of` mjoin (sent1 <$> a).

(** ** Lemmas *)

Lemma normal_app l1 l2 : normal (l1 ++ l2) = normal l1 ++ normal l2.
Proof. apply omap_app. Qed.
Lemma normal_plain d : normal (plain d) = d.
Proof. induction d as [|c d IH]; [done|]. cbn. by f_equal. Qed.
Lemma fst_plain d : fst <$> plain d = d.
Proof. induction d as [|c d IH]; [done|]. cbn. by f_equal. Qed.
Lemma fst_demote l : fst <$> demote l = fst <$> l.
Proof. induction l as [|x l IH]; [done|]. cbn. f_equal. exact IH. Qed.
Lemma normal_demote l : normal (demote l) = fst <$> l.
Proof. induction l as [|x l IH]; [done|]. cbn. f_equal. exact IH. Qed.
Lemma normal_skip l : normal (skip_mark l) = normal l.
Proof. by destruct l as [|[c []] l]. Qed.
Lemma normal_sublist l : normal l `sublist_of` (fst <$> l).
Proof. induction l as [|[c []] l IH]; [done| |]; cbn; by constructor. Qed.
Lemma fst_skip l : (fst <$> skip_mark l) `sublist_of` (fst <$> l).
Proof. destruct l as [|[c []] l]; try done. cbn. by constructor. Qed.

Lemma before_mark_split l n :
  let d := take n (before_mark l) in l = plain d ++ drop (length d) l.
Proof.
  cbn. revert n. induction l as [|[c []] l IH]; intros n; cbn [before_mark].
  - by rewrite take_nil.
  - by rewrite take_nil.
  - destruct n as [|n]; [done|]. cbn [take length drop plain fmap list_fmap app]. f_equal. apply IH.
Qed.

Lemma stream_arrive A o t a : stream A o t -> stream (A ++ [a]) o (arrive t a).
Proof.
  unfold stream. rewrite !fmap_app, !join_app. cbn [fmap list_fmap mjoin list_join].
  rewrite !app_nil_r. intros [Hk Hs]. destruct a as [d|d|]; cbn [kept1 sent1 arrive].
  - cbn [data]. rewrite normal_app, normal_plain, fmap_app, fst_plain, !app_assoc.
    split; by apply sublist_app.
  - destruct (last d) as [c|] eqn:Ed.
    + cbn [data]. apply last_Some in Ed as [d' ->].
      replace (length (d' ++ [c]) - 1)%nat with (length d') by (rewrite length_app; cbn; lia).
      rewrite take_app_length, !normal_app, normal_demote, normal_plain, !fmap_app, fst_demote, fst_plain.
      cbn [normal omap list_omap fmap list_fmap fst snd]. rewrite app_nil_r, !app_assoc. split.
      * apply sublist_app; [|done]. etrans; [exact Hk|]. rewrite <- normal_skip.
        apply sublist_app; [done|apply normal_sublist].
      * do 2 (apply sublist_app; [|done]). etrans; [|exact Hs].
        apply sublist_app; [done|apply fst_skip].
    + apply last_None in Ed as ->. cbn [take length]. rewrite !app_nil_r. by split.
  - cbn [data]. rewrite !app_nil_r. by split.
Qed.

Lemma recv_cases n t :
  recv n t = (if fin t then Received [] else Again, t) /\ skip_mark (data t) = [] \/
  exists d t', recv n t = (Received d, t') /\ skip_mark (data t) <> [] /\
    skip_mark (data t) = plain d ++ data t' /\ fin t' = fin t /\
    (urg t' = None \/ urg t' = urg t /\ at_mark (data t) = false).
Proof.
  unfold recv. destruct (skip_mark (data t)) as [|x l] eqn:E; [by left|right].
  eexists _, _. split; [reflexivity|]. cbn [data fin urg]. split_and!; [done|apply before_mark_split|done|].
  destruct (at_mark _); [by left|by right].
Qed.

Lemma stream_recv A o t d t' :
  stream A o t -> skip_mark (data t) = plain d ++ data t' -> stream A (o ++ d) t'.
Proof.
  intros [Hk Hs] E. unfold stream. rewrite <- !(assoc_L (++)). split.
  - rewrite <- (normal_plain d) at 1. by rewrite <- normal_app, <- E, normal_skip.
  - rewrite <- (fst_plain d) at 1. rewrite <- fmap_app, <- E. etrans; [|exact Hs].
    apply sublist_app; [done|apply fst_skip].
Qed.

Lemma stream_recv_oob A o t c t' : stream A o t -> recv_oob t = (c, t') -> stream A o t'.
Proof. unfold recv_oob. destruct (urg t); by intros ? [= _ <-]. Qed.

Lemma normal_out_cons o os : normal_out (o :: os) = normal_out [o] ++ normal_out os.
Proof. unfold normal_out. cbn. by rewrite app_nil_r. Qed.
Lemma normal_out_app os1 os2 : normal_out (os1 ++ os2) = normal_out os1 ++ normal_out os2.
Proof. unfold normal_out. by rewrite fmap_app, join_app. Qed.
Lemma oob_out_app os1 os2 : oob_out (os1 ++ os2) = oob_out os1 ++ oob_out os2.
Proof. unfold oob_out. by rewrite fmap_app, join_app. Qed.

Lemma stream_connected : stream [] [] connected.
Proof. by split. Qed.

(** ** The demonstration *)

(** oob_demo: if everything has arrived, the server prints the data up to the mark, the
    last byte of the urgent send, and the rest; if it is faster than the urgent send
    it prints -1 instead of the urgent byte. *)
Theorem oob_demo BUFSIZ :
  (6 <= BUFSIZ)%nat ->
  fmap (map shown) (oob_recv BUFSIZ (foldl arrive connected oob_send)) =
    Some [(5, lit "123ab"); (1, lit "c"); (3, lit "123")] /\
  fmap (map shown) (oob_recv BUFSIZ (foldl arrive connected [Data (lit "123"); Fin])) =
    Some [(3, lit "123"); (-1, []); (0, [])].
Proof.
  intros Hn. do 6 (destruct BUFSIZ as [|BUFSIZ]; [lia|]). destruct BUFSIZ; split; reflexivity.
Qed.

Lemma oob_demo_witness :
  (6 <= 8192)%nat /\
  fmap (map shown) (oob_recv 8192 (foldl arrive connected oob_send)) =
    Some [(5, lit "123ab"); (1, lit "c"); (3, lit "123")].
Proof.
  assert (6 <= 8192)%nat as H by (apply Nat.leb_le; reflexivity).
  split; [exact H|]. exact (proj1 (oob_demo 8192 H)).
Defined.

(** ** io_select.c *)

Lemma select_turn_cases t :
  (select_turn t = Blocked /\ exceptional t = false) \/
  (select_turn t = Printed (Normal []) t /\ fin t = true /\ skip_mark (data t) = []) \/
  (exists d t', select_turn t = Printed (Normal d) t' /\ skip_mark (data t) = plain d ++ data t') \/
  (exists c, select_turn t = Printed (OobData [c]) (Tcp (data t) None (fin t)) /\ urg t = Some c).
Proof.
  unfold select_turn. destruct (readable t) eqn:Er.
  - unfold readable in Er. destruct (recv_cases 1023 t) as [[E Es]|(d & t' & E & Hn & Es & _)]; rewrite E.
    + rewrite Es in Er. rewrite Er. right. by left.
    + right. right. left. eauto.
  - unfold exceptional, recv_oob. destruct (urg t) as [c|]; [|by left]. right. right. right. cbn. eauto.
Qed.

Lemma select_run_stream es : forall A o t, stream A o t ->
  exists os t', select_run t es = Some (os, t') /\ stream (A ++ arrivals es) (o ++ normal_out os) t'.
Proof.
  induction es as [|[a|] es IH]; intros A o t H; cbn [select_run arrivals omap list_omap].
  - exists [], t. cbn. by rewrite !app_nil_r.
  - destruct (IH (A ++ [a]) o (arrive t a)) as (os & t' & E & Hs); [by apply stream_arrive|].
    exists os, t'. split; [done|]. by rewrite <- (assoc_L (++)) in Hs.
  - destruct (select_turn_cases t) as [[E _]|[(E & _)|[(d & t1 & E & Es)|(c & E & _)]]]; rewrite E.
    + by apply IH.
    + destruct (IH A o t H) as (os & t' & -> & Hs). exists (Normal [] :: os), t'. by split.
    + destruct (IH A (o ++ d) t1) as (os & t' & -> & Hs); [by eapply stream_recv|].
      exists (Normal d :: os), t'. split; [done|].
      rewrite normal_out_cons. unfold normal_out at 1. cbn. by rewrite app_nil_r, (assoc_L (++)).
    + destruct (IH A o (Tcp (data t) None (fin t))) as (os & t' & -> & Hs); [exact H|].
      exists (OobData [c] :: os), t'. by split.
Qed.

(** select_serves_stream: whatever arrives and whenever the loop turns, the program does not leave
    its loop, and the normal data it has printed, with what is still to be read,
    is what was sent, in order, but for urgent bytes. *)
Theorem select_serves_stream es :
  exists os t, select_run connected es = Some (os, t) /\ stream (arrivals es) (normal_out os) t.
Proof. apply (select_run_stream es [] []), stream_connected. Qed.

Lemma turns_of_nothing n t :
  fin t = true -> skip_mark (data t) = [] ->
  select_run t (replicate n Turn) = Some (replicate n (Normal []), t).
Proof.
  intros Hf Hs. induction n as [|n IH]; [done|]. cbn [replicate select_run].
  unfold select_turn, readable, recv. by rewrite Hs, Hf, IH.
Qed.

(** select_eof: once the peer has closed and everything has been read the loop prints
    "get 0 bytes of normal data" in every turn, for ever: the connection is never
    closed, and an urgent byte that is left is never read. *)
Theorem select_eof n t :
  fin t = true -> skip_mark (data t) = [] ->
  exists os, select_run t (replicate n Turn) = Some (os, t) /\
    (shown <$> os) = replicate n (0, []).
Proof.
  intros Hf Hs. exists (replicate n (Normal [])). split; [by apply turns_of_nothing|].
  by rewrite fmap_replicate.
Qed.

Lemma select_eof_witness :
  fin (arrive connected Fin) = true /\
  exists os, select_run (arrive connected Fin) (replicate 3 Turn) = Some (os, arrive connected Fin) /\
    (shown <$> os) = replicate 3 (0, []).
Proof. split; [reflexivity|]. exact (select_eof 3 (arrive connected Fin) eq_refl eq_refl). Defined.

(** select_loses_urgent: an urgent byte that has been followed by normal data before the loop
    comes to the mark is lost: the loop reads on, and the byte cannot be read any more. *)
Theorem select_loses_urgent t c x l :
  data t = (c, true) :: x :: l ->
  exists d t', select_turn t = Printed (Normal d) t' /\ urg t' = None /\ c :: d ++ (fst <$> data t') = (fst <$> data t).
Proof.
  intros E. unfold select_turn, readable, recv. rewrite E. cbn [skip_mark at_mark].
  eexists _, _. split; [reflexivity|]. split; [done|]. cbn [data].
  pose proof (before_mark_split (x :: l) 1023) as Hs. cbn zeta in Hs. rewrite Hs at 4.
  cbn [fmap list_fmap fst]. f_equal. change (list_fmap ?A ?B ?f) with (fmap (M := list) (A := A) (B := B) f).
  by rewrite fmap_app, fst_plain.
Qed.

(** What it prints of the three sends of testoobsend.c when they arrive together. *)
Lemma select_loses_urgent_witness :
  (exists os t, select_run connected (map Arrives oob_send ++ replicate 5 Turn) = Some (os, t) /\
    map shown os = [(5, lit "123ab"); (3, lit "123")]) /\
  let t := foldl arrive connected [Urgent (lit "c"); Data (lit "123")] in
  exists d t', select_turn t = Printed (Normal d) t' /\ urg t' = None /\ "c"%char :: d ++ (fst <$> data t') = (fst <$> data t).
Proof.
  split; [do 2 eexists; split; reflexivity|].
  exact (select_loses_urgent (foldl arrive connected [Urgent (lit "c"); Data (lit "123")]) "c" _ _ eq_refl).
Defined.

(** ** sigurg_oob.c *)

Lemma urg_turn_cases t :
  (urg_turn t = Blocked /\ fin t = false /\ skip_mark (data t) = []) \/
  (urg_turn t = Broke /\ fin t = true /\ normal (data t) = []) \/
  (exists d t', urg_turn t = Printed (Normal d) t' /\ skip_mark (data t) = plain d ++ data t') \/
  (exists t', urg_turn t = Broke /\ at_mark (skip_mark (data t)) = true /\ recv 1023 t = (Received [], t')).
Proof.
  unfold urg_turn. destruct (recv_cases 1023 t) as [[E Es]|(d & t' & E & Hn & Es & _)]; rewrite E.
  - destruct (fin t); [|by left]. right. left. split_and!; try done. by rewrite <- normal_skip, Es.
  - destruct d as [|c d]; cbn [length Nat.ltb Nat.leb].
    + right. right. right. exists t'. split_and!; try done.
      unfold recv in E. destruct (skip_mark (data t)) as [|[c []] l] eqn:El; [done|done|].
      destruct l; discriminate E.
    + right. right. left. eauto.
Qed.

(** At most one byte is marked. *)
Definition one_mark (l : list (ascii * bool)) : Prop := (length (filter (fun x => x.2 = true) l) <= 1)%nat.

Lemma filter_plain d : filter (fun x : ascii * bool => x.2 = true) (plain d) = [].
Proof. induction d as [|c d IH]; [done|]. unfold plain in *. cbn [fmap list_fmap]. by rewrite filter_cons, decide_False. Qed.

Lemma demote_plain l : demote l = plain (fst <$> l).
Proof. unfold demote, plain. by rewrite <- list_fmap_compose. Qed.

Lemma one_mark_plain d l : one_mark (plain d ++ l) <-> one_mark l.
Proof. unfold one_mark. by rewrite filter_app, filter_plain. Qed.

Lemma arrive_one_mark t a : one_mark (data t) -> one_mark (data (arrive t a)).
Proof.
  destruct a as [d|d|]; cbn [arrive data]; [| |done].
  - unfold one_mark. by rewrite filter_app, filter_plain, app_nil_r.
  - destruct (last d) as [c|]; [|done]. intros _. cbn [data].
    rewrite demote_plain, !one_mark_plain. apply Nat.leb_le. reflexivity.
Qed.

Lemma skip_one_mark l : one_mark l -> at_mark (skip_mark l) = false /\ one_mark (skip_mark l).
Proof.
  unfold one_mark. destruct l as [|[c []] l]; [done| |done]. rewrite filter_cons, decide_True by done.
  cbn [length skip_mark]. intros H. split; [|lia]. destruct l as [|[c' []] l]; try done.
  rewrite filter_cons, decide_True in H by done. cbn [length] in H. lia.
Qed.

Lemma last_urgent c d : exists u, last (c :: d) = Some u /\ urgent1 (Urgent (c :: d)) = [u].
Proof.
  destruct (@last_is_Some _ (c :: d)) as [_ [u Eu]]; [done|]. exists u. split; [done|].
  apply last_Some in Eu as [d' ->]. cbn [urgent1].
  replace (length (d' ++ [u]) - 1)%nat with (length d') by (rewrite length_app; cbn; lia).
  by rewrite drop_app_length.
Qed.

(** The urgent byte that can be read with MSG_OOB. *)
Definition current (p : process) : bytes := option_list (urg (conn p)).

(** [b] is what the handler has printed; [u] the byte that is still to be heard. *)
Definition urg_inv (A : list arrival) (o b u : bytes) (p : process) : Prop :=
  stream A o (conn p) /\ one_mark (data (conn p)) /\
  b ++ current p `sublist_of` mjoin (urgent1 <$> A) /\
  (u = [] \/ u = current p /\ pending p = true).

Lemma urg_arrive_inv A o b u p a :
  urg_inv A o b u p ->
  urg_inv (A ++ [a]) o b
    (match a with Urgent (_ :: _) => if ready p then urgent1 a else [] | _ => u end) (urg_arrive p a).
Proof.
  intros (Hs & Hm & Hb & Hu). split_and!.
  - by apply stream_arrive.
  - by apply arrive_one_mark.
  - rewrite fmap_app, join_app. cbn [fmap list_fmap mjoin list_join]. rewrite app_nil_r.
    unfold current in *. destruct a as [d|[|c d]|]; cbn [urg_arrive conn arrive last urg urgent1 drop];
      rewrite ?drop_nil, ?app_nil_r; try done.
    destruct (last_urgent c d) as (x & -> & E). cbn [urgent1] in E. rewrite E. cbn [urg option_list].
    apply sublist_app; [|done]. etrans; [|exact Hb]. by apply sublist_inserts_r.
  - destruct a as [d|[|c d]|]; try exact Hu. destruct (ready p) eqn:Er; [right|by left].
    destruct (last_urgent c d) as (x & E & ->). unfold current, urg_arrive, arrive. rewrite E, Er. by split.
Qed.

Lemma urg_handle_inv A o b u p :
  urg_inv A o b u p ->
  exists os p', urg_handle p = (os, p') /\ urg_inv A o (b ++ oob_out os) [] p' /\ ready p' = ready p /\
    normal_out os = [] /\ u `sublist_of` oob_out os.
Proof.
  intros (Hs & Hm & Hb & Hu). unfold urg_handle. destruct (pending p) eqn:Ep.
  - unfold sig_urg, recv_oob. destruct (urg (conn p)) as [c|] eqn:Ec.
    + eexists _, _. split; [reflexivity|]. unfold urg_inv, current in *. cbn [conn data urg option_list].
      rewrite Ec in Hb, Hu. rewrite app_nil_r. split_and!; try done; [by left|].
      by destruct Hu as [->|[-> _]]; [apply sublist_nil_l|].
    + eexists _, _. split; [reflexivity|]. unfold urg_inv, current in *. cbn [conn].
      rewrite Ec in *. change (oob_out [OobError]) with (@nil ascii). rewrite app_nil_r.
      split_and!; try done; [by left|]. destruct Hu as [->|[-> _]]; done.
  - exists [], p. change (oob_out []) with (@nil ascii). rewrite app_nil_r.
    destruct Hu as [->|[_ Hu]]; [|done]. split_and!; try done. split_and!; try done. by left.
Qed.

Lemma urg_loop_inv A o b u p d t' :
  urg_inv A o b u p -> ready p = true -> urg_turn (conn p) = Printed (Normal d) t' ->
  skip_mark (data (conn p)) = plain d ++ data t' ->
  urg_inv A (o ++ d) b [] (Process t' true (pending p)).
Proof.
  intros (Hs & Hm & Hb & Hu) Hr Et Es. split_and!.
  - by eapply stream_recv.
  - apply skip_one_mark in Hm as [_ Hm]. by rewrite Es, one_mark_plain in Hm.
  - unfold urg_turn in Et. destruct (recv_cases 1023 (conn p)) as [[E _]|(d' & t & E & _ & _ & _ & Hg)];
      rewrite E in Et; [by destruct (fin _)|]. destruct (0 <? length d')%nat; [|done].
    injection Et as -> ->. unfold current in *. cbn [conn]. destruct Hg as [->|[-> _]]; [|done].
    etrans; [|exact Hb]. cbn [option_list]. rewrite app_nil_r. by apply sublist_inserts_r.
  - by left.
Qed.

Lemma urg_run_spec es : forall A o b u p os p' ended,
  urg_inv A o b u p -> urg_run p es = (os, p', ended) ->
  exists es1 es2, es = es1 ++ es2 /\
    (if ended then fin (conn p') = true /\ normal (data (conn p')) = [] else es2 = []) /\
    stream (A ++ comes es1) (o ++ normal_out os) (conn p') /\
    b ++ oob_out os `sublist_of` mjoin (urgent1 <$> (A ++ comes es1)) /\
    heard (ready p) u es1 `sublist_of` oob_out os.
Proof.
  induction es as [|[a| | |] es IH]; intros A o b u p os p' ended H; cbn [urg_run].
  - intros [= <- <- <-]. exists [], []. destruct H as (Hs & Hm & Hb & Hu). cbn. rewrite !app_nil_r.
    split_and!; try done. etrans; [|exact Hb]. by apply sublist_inserts_r.
  - intros E. eapply IH in E as (es1 & es2 & -> & He & Hs & Hb & Hh); [|by apply urg_arrive_inv].
    exists (Comes a :: es1), es2. change (comes (Comes a :: es1)) with ([a] ++ comes es1).
    rewrite (assoc_L (++)). split_and!; try done. by destruct a as [d|[|c d]|].
  - intros E. eapply IH in E as (es1 & es2 & -> & He & Hs & Hb & Hh); [|exact H].
    by exists (Ready :: es1), es2.
  - destruct (urg_handle_inv A o b u p H) as (os1 & p1 & -> & H1 & Er & En & Eu).
    destruct (urg_run p1 es) as [[os2 p2] e] eqn:E. intros [= <- <- <-].
    eapply IH in E as (es1 & es2 & -> & He & Hs & Hb & Hh); [|exact H1].
    exists (Handle :: es1), es2. rewrite normal_out_app, oob_out_app, En, (assoc_L (++) b).
    split_and!; try done. cbn [heard]. apply sublist_app; [done|]. by rewrite <- Er.
  - destruct (ready p) eqn:Er.
    2:{ intros E. eapply IH in E as (es1 & es2 & -> & He & Hs & Hb & Hh); [|exact H].
        exists (Loop :: es1), es2. rewrite Er in Hh. by split_and!. }
    destruct (urg_turn_cases (conn p)) as [(-> & _)|[(-> & Hf & Hn)|[(d & t1 & Et & Es)|(t1 & _ & Hmk & _)]]].
    + intros E. eapply IH with (u := []) in E as (es1 & es2 & -> & He & Hs & Hb & Hh).
      * exists (Loop :: es1), es2. rewrite Er in Hh. by split_and!.
      * destruct H as (? & ? & ? & _). split_and!; try done. by left.
    + intros [= <- <- <-]. exists [], (Loop :: es). destruct H as (Hs & Hm & Hb & Hu). cbn.
      rewrite !app_nil_r. split_and!; try done. etrans; [|exact Hb]. by apply sublist_inserts_r.
    + rewrite Et. destruct (urg_run _ es) as [[os2 t2] e] eqn:E. intros [= <- <- <-].
      eapply IH in E as (es1 & es2 & -> & He & Hs & Hb & Hh); [|by eapply urg_loop_inv].
      exists (Loop :: es1), es2. split_and!; try done.
      unfold normal_out in *. cbn [fmap list_fmap mjoin list_join]. by rewrite (assoc_L (++)).
    + destruct H as (_ & Hm & _). apply skip_one_mark in Hm as [Hm _]. congruence.
Qed.

(** [C38] urg_delivers: whatever arrives, whenever SIGURG is delivered and whenever the
    loop turns, the handler prints urgent bytes only, in their order and none of them
    twice, and it prints every urgent byte that arrives after [F_SETOWN] and whose signal
    is delivered before another urgent byte arrives and before the loop reads on; signals
    do not queue, so of the others some are not printed as urgent (see [urg_lost]).  The
    loop prints the rest of what was sent, in order, but for what is still to be read, and
    it ends only when the peer has closed and everything has been read. *)
Theorem urg_delivers es os p ended :
  urg_run accepted es = (os, p, ended) ->
  exists es1 es2, es = es1 ++ es2 /\
    (if ended then fin (conn p) = true /\ normal (data (conn p)) = [] else es2 = []) /\
    oob_out os `sublist_of` mjoin (urgent1 <$> comes es1) /\
    heard false [] es1 `sublist_of` oob_out os /\
    stream (comes es1) (normal_out os) (conn p).
Proof.
  intros E. destruct (urg_run_spec es [] [] [] [] accepted os p ended)
    as (es1 & es2 & ? & ? & ? & ? & ?); try done.
  { split_and!; try done; [apply Nat.leb_le; reflexivity|by left]. }
  exists es1, es2. by split_and!.
Qed.

(** The three sends, with the handler in time, and the end of the connection. *)
Definition urg_events : list urg_event :=
  [Ready; Comes (Data (lit "123")); Comes (Urgent (lit "abc")); Handle; Comes (Data (lit "123")); Comes Fin;
   Loop; Loop; Loop].

Lemma urg_delivers_witness :
  exists os p, urg_run accepted urg_events = (os, p, true) /\
    map shown os = [(1, lit "c"); (5, lit "123ab"); (3, lit "123")] /\ heard false [] urg_events = lit "c" /\
  exists es1 es2, urg_events = es1 ++ es2 /\ (fin (conn p) = true /\ normal (data (conn p)) = []) /\
    oob_out os `sublist_of` mjoin (urgent1 <$> comes es1) /\
    heard false [] es1 `sublist_of` oob_out os /\ stream (comes es1) (normal_out os) (conn p).
Proof.
  do 2 eexists. split; [reflexivity|]. split; [reflexivity|]. split; [reflexivity|].
  exact (urg_delivers urg_events _ _ true eq_refl).
Defined.

(** Two urgent bytes and one signal: the handler prints the second one only, and the
    first is printed as normal data. *)
Example urg_lost :
  exists os p, urg_run accepted
      [Ready; Comes (Urgent (lit "ab")); Comes (Urgent (lit "c")); Handle; Handle; Loop] = (os, p, false) /\
    map shown os = [(1, lit "c"); (2, lit "ab")].
Proof. do 2 eexists. split; reflexivity. Qed.

(** An urgent byte that arrives before the handler is installed is not printed at all
    when data follows it. *)
Example urg_early :
  exists os p, urg_run accepted
      [Comes (Urgent (lit "c")); Ready; Handle; Comes (Data (lit "123")); Loop] = (os, p, false) /\
    map shown os = [(3, lit "123")].
Proof. do 2 eexists. split; reflexivity. Qed.

(** An urgent byte whose mark has not been reached when the next one comes is
    delivered twice: to the handler, and again as normal data. *)
Example urg_twice :
  exists os p, urg_run accepted
      [Ready; Comes (Urgent (lit "ab")); Handle; Comes (Urgent (lit "c")); Handle; Loop] = (os, p, false) /\
    map shown os = [(1, lit "b"); (1, lit "c"); (2, lit "ab")].
Proof. do 2 eexists. split; reflexivity. Qed.
