(* ===== verification/Kernel.v ===== *)
(** * System calls as a program sees them

    A language of programs that make system calls, for code that is a sequence of calls
    with their checks: the start of the servers, daemons, redirections.  A call can
    always fail; a program either checks that it did not ([Do]) or does not ([Trust]).
    The kernel behind it has a descriptor table, open file descriptions shared by
    descriptors, and signal dispositions.  Programs are run by [exec] on a list that says
    which calls fail, and reasoned about with [wp]. *)

From S2P Require Import Prelude CString.

(** ** Files, descriptors, signals *)

(** A TCP socket knows its port once bound and its backlog once listening; an
    epoll instance has the masks of the descriptors in it. *)
Inductive file :=
  | Sock (port backlog : option Z)
  | Conn
  | EpollFile (interest : gmap Z Z)
  | PairEnd
  | PipeEnd
  | ShmFile (name : string) (len : option Z)   (** the length once it is set *)
  | PathFile (path : string).

(** An open file description: the file and the status flags. *)
Record desc := Desc { kind : file; status : Z }.

Inductive handler := SigIgn | Handler (f : string).

Record kernel := Kernel {
  tab : gmap Z positive;           (** the descriptor table *)
  descs : gmap positive desc;
  acts : gmap Z (handler * bool) }. (** the flag is SA_RESTART *)

Definition O_ACCMODE : Z := 3.
Definition O_RDONLY : Z := 0.
Definition O_WRONLY : Z := 1.
Definition O_RDWR : Z := 2.
Definition O_APPEND : Z := 1024.
Definition O_NONBLOCK : Z := 2048.
(** What F_SETFL can change: O_APPEND, O_NONBLOCK, O_ASYNC, O_DIRECT, O_NOATIME. *)
Definition SETTABLE : Z := 1024 + 2048 + 8192 + 16384 + 262144.

Definition EPOLLIN : Z := 1.
Definition EPOLLOUT : Z := 4.
Definition EPOLLET : Z := 2 ^ 31.
Definition EPOLLONESHOT : Z := 2 ^ 30.

(** The lowest descriptor that is not in use. *)
Definition lowest (t : gmap Z positive) : Z :=
  match find (fun n => bool_decide (t !! Z.of_nat n = None)) (seq 0 (S (size t))) with
  | Some n => Z.of_nat n
  | None => 0
  end.

Definition alloc (d : desc) (k : kernel) : Z * kernel :=
  let n := lowest (tab k) in
  let p := fresh (dom (descs k) ∪ list_to_set (map snd (map_to_list (tab k)))) in
  (n, Kernel (<[n := p]> (tab k)) (<[p := d]> (descs k)) (acts k)).

Definition desc_at (k : kernel) (fd : Z) : option desc := p ← tab k !! fd; descs k !! p.

(** Change the description behind a descriptor. *)
Definition set_desc (fd : Z) (d : desc) (k : kernel) : option kernel :=
  p ← tab k !! fd; _ ← descs k !! p; Some (Kernel (tab k) (<[p := d]> (descs k)) (acts k)).

Definition with_flags (old new : Z) : Z :=
  Z.lor (Z.land old (Z.lnot SETTABLE)) (Z.land new SETTABLE).

(** ** The calls *)

Inductive call : Type -> Type :=
  | CSocket : call Z
  | CBind (fd port : Z) : call Z
  | CListen (fd backlog : Z) : call Z
  | CAccept (fd : Z) : call Z
  | CConnect (fd port : Z) : call Z
  | CPipe : call (option (Z * Z))
  | CSetOwn (fd : Z) : call Z
  | CEpollCreate : call Z
  | CEpollAdd (epfd fd mask : Z) : call Z
  | CGetFl (fd : Z) : call Z
  | CSetFl (fd flags : Z) : call Z
  | CSocketPair : call (option (Z * Z))
  | CSigaction (sig : Z) (h : handler) (restart : bool) : call Z
  | CShmOpen (name : string) : call Z
  | CFtruncate (fd len : Z) : call Z
  | CMmap (fd len : Z) : call (option Z)      (** [None]: MAP_FAILED; the length mapped *)
  | COpen (path : string) (mode : Z) : call Z
  | CDup (fd : Z) : call Z
  | CClose (fd : Z) : call Z.

(** What a call answers when it fails. *)
Definition failure {X} (c : call X) : X :=
  match c in call X return X with
  | CSocketPair | CPipe | CMmap _ _ => None
  | CConnect _ _ | CSetOwn _ | CSocket | CBind _ _ | CListen _ _ | CAccept _ | CEpollCreate | CEpollAdd _ _ _ | CGetFl _
  | CSetFl _ _ | CSigaction _ _ _ | CShmOpen _ | CFtruncate _ _ | COpen _ _ | CDup _ | CClose _ => -1
  end.

(** What it does when it succeeds; [None]: it cannot succeed. *)
Definition run {X} (c : call X) (k : kernel) : option (X * kernel) :=
  match c in call X return option (X * kernel) with
  | CSocket => Some (alloc (Desc (Sock None None) O_RDWR) k)
  | CBind fd port =>
      match desc_at k fd with
      | Some (Desc (Sock None None) f) => pair 0 <$> set_desc fd (Desc (Sock (Some port) None) f) k
      | _ => None
      end
  | CListen fd backlog =>
      match desc_at k fd with
      | Some (Desc (Sock (Some port) _) f) => pair 0 <$> set_desc fd (Desc (Sock (Some port) (Some backlog)) f) k
      | _ => None
      end
  | CAccept fd =>
      match desc_at k fd with
      | Some (Desc (Sock (Some _) (Some _)) _) => Some (alloc (Desc Conn O_RDWR) k)
      | _ => None
      end
  | CConnect fd port =>
      match desc_at k fd with
      | Some (Desc (Sock None None) f) => pair 0 <$> set_desc fd (Desc Conn f) k
      | _ => None
      end
  | CPipe =>
      let '(n1, k) := alloc (Desc PipeEnd O_RDONLY) k in
      let '(n2, k) := alloc (Desc PipeEnd O_WRONLY) k in
      Some (Some (n1, n2), k)
  | CSetOwn fd => _ ← tab k !! fd; Some (0, k)
  | CEpollCreate => Some (alloc (Desc (EpollFile ∅) O_RDWR) k)
  | CEpollAdd epfd fd mask =>
      match desc_at k epfd, tab k !! fd with
      | Some (Desc (EpollFile i) f), Some _ =>
          match i !! fd with
          | None => pair 0 <$> set_desc epfd (Desc (EpollFile (<[fd := mask]> i)) f) k
          | Some _ => None
          end
      | _, _ => None
      end
  | CGetFl fd => d ← desc_at k fd; Some (status d, k)
  | CSetFl fd flags => d ← desc_at k fd; pair 0 <$> set_desc fd (Desc (kind d) (with_flags (status d) flags)) k
  | CSocketPair =>
      let '(n1, k) := alloc (Desc PairEnd O_RDWR) k in
      let '(n2, k) := alloc (Desc PairEnd O_RDWR) k in
      Some (Some (n1, n2), k)
  | CSigaction sig h restart => Some (0, Kernel (tab k) (descs k) (<[sig := (h, restart)]> (acts k)))
  | CShmOpen name => Some (alloc (Desc (ShmFile name None) O_RDWR) k)
  | CFtruncate fd len =>
      match desc_at k fd with
      | Some (Desc (ShmFile name _) f) => pair 0 <$> set_desc fd (Desc (ShmFile name (Some len)) f) k
      | _ => None
      end
  | CMmap fd len => _ ← desc_at k fd; Some (Some len, k)
  | COpen path mode => Some (alloc (Desc (PathFile path) mode) k)
  | CDup fd =>
      p ← tab k !! fd;
      let n := lowest (tab k) in
      Some (n, Kernel (<[n := p]> (tab k)) (descs k) (acts k))
  | CClose fd => _ ← tab k !! fd; Some (0, Kernel (delete fd (tab k)) (descs k) (acts k))
  end.

(** ** Programs *)

Inductive prog (A : Type) : Type :=
  | Ret (a : A)
  | Do {X} (c : call X) (p : X -> prog A)
  | Trust {X} (c : call X) (p : X -> prog A)
  | AssertF.
Arguments Ret {A} a.
Arguments Do {A X} c p.
Arguments Trust {A X} c p.
Arguments AssertF {A}.

Fixpoint prog_bind {A B} (f : A -> prog B) (p : prog A) : prog B :=
  match p with
  | Ret a => f a
  | Do c p => Do c (fun x => prog_bind f (p x))
  | Trust c p => Trust c (fun x => prog_bind f (p x))
  | AssertF => AssertF
  end.

#[export] Instance prog_mret : MRet prog := @Ret.
#[export] Instance prog_mbind : MBind prog := @prog_bind.

(** A call whose answer is checked, and one that is taken to succeed. *)
Definition sys {X} (c : call X) : prog X := Do c Ret.
Definition trust {X} (c : call X) : prog X := Trust c Ret.
Definition assert (P : Prop) `{Decision P} : prog unit := if decide P then Ret tt else AssertF.

(** ** Running *)

Inductive outcome (A : Type) := Done (a : A) | Aborted.
Arguments Done {A} a.
Arguments Aborted {A}.

(** [quiet]: no call failed without the program checking it; [legal]:
    every call could have succeeded. *)
Record result (A : Type) := Result { value : outcome A; after : kernel; quiet : bool; legal : bool }.
Arguments Result {A} _ _ _ _.
Arguments value {A} _.
Arguments after {A} _.
Arguments quiet {A} _.
Arguments legal {A} _.

Definition spoil {A} (q l : bool) (r : result A) : result A :=
  Result (value r) (after r) (q && quiet r) (l && legal r).

(** The list says of the calls, in order, whether they succeed when they can; when it
    is used up they do. *)
Fixpoint exec {A} (p : prog A) (bs : list bool) (k : kernel) : result A :=
  match p with
  | Ret a => Result (Done a) k true true
  | AssertF => Result Aborted k true true
  | Do c p =>
      match run c k with
      | Some (x, k') => if hd true bs then exec (p x) (tl bs) k' else exec (p (failure c)) (tl bs) k
      | None => spoil true false (exec (p (failure c)) (tl bs) k)
      end
  | Trust c p =>
      match run c k with
      | Some (x, k') =>
          if hd true bs then exec (p x) (tl bs) k' else spoil false true (exec (p (failure c)) (tl bs) k)
      | None => spoil false false (exec (p (failure c)) (tl bs) k)
      end
  end.

(** What holds of the result of every run in which no trusted call fails; it also
    says that every call can succeed. *)
Fixpoint wp {A} (p : prog A) (Q : A -> kernel -> Prop) (k : kernel) : Prop :=
  match p with
  | Ret a => Q a k
  | AssertF => True
  | Do c p =>
      match run c k with
      | Some (x, k') => wp (p x) Q k' /\ wp (p (failure c)) Q k
      | None => False
      end
  | Trust c p => match run c k with Some (x, k') => wp (p x) Q k' | None => False end
  end.

Lemma wp_exec {A} (p : prog A) Q : forall k bs,
  wp p Q k -> quiet (exec p bs k) = true ->
  legal (exec p bs k) = true /\ forall a, value (exec p bs k) = Done a -> Q a (after (exec p bs k)).
Proof.
  induction p as [a|X c p IH|X c p IH|]; intros k bs; cbn [wp exec].
  - intros HQ _. split; [done|]. by intros a' [= <-].
  - destruct (run c k) as [[x k']|]; [|done]. intros [H1 H2].
    destruct (hd true bs); [by apply IH|by apply IH].
  - destruct (run c k) as [[x k']|]; [|done]. intros H.
    destruct (hd true bs); [by apply IH|done].
  - done.
Qed.

Lemma wp_bind {A B} (p : prog A) (f : A -> prog B) Q : forall k,
  wp p (fun a => wp (f a) Q) k -> wp (p ≫= f) Q k.
Proof.
  change (p ≫= f) with (prog_bind f p).
  induction p as [a|X c p IH|X c p IH|]; intros k; cbn [wp prog_bind]; [done| | |done].
  - destruct (run c k) as [[x k']|]; [|done]. intros [H1 H2]. split; by apply IH.
  - destruct (run c k) as [[x k']|]; [|done]. apply IH.
Qed.

Lemma wp_mono {A} (p : prog A) (Q Q' : A -> kernel -> Prop) : (forall a k, Q a k -> Q' a k) ->
  forall k, wp p Q k -> wp p Q' k.
Proof.
  intros HQ. induction p as [a|X c p IH|X c p IH|]; intros k; cbn [wp]; [apply HQ| | |done].
  - destruct (run c k) as [[x k']|]; [|done]. intros [H1 H2]. split; by apply IH.
  - destruct (run c k) as [[x k']|]; [|done]. apply IH.
Qed.

(** ** The descriptor table *)

Lemma seq_taken (t : gmap Z positive) n :
  (forall m, (m < n)%nat -> is_Some (t !! Z.of_nat m)) -> (n <= size t)%nat.
Proof.
  intros H. rewrite <- size_dom. rewrite <- (length_seq n 0).
  assert (list_to_set (C := gset Z) (Z.of_nat <$> seq 0 n) ⊆ dom t) as Hs.
  { intros z. rewrite elem_of_list_to_set, list_elem_of_fmap, elem_of_dom.
    intros (m & -> & Hm%elem_of_seq). apply H. lia. }
  apply subseteq_size in Hs. rewrite size_list_to_set in Hs; [by rewrite length_fmap in Hs|].
  apply NoDup_fmap_2; [apply _|apply NoDup_seq].
Qed.

Lemma lowest_spec t :
  0 <= lowest t /\ t !! lowest t = None /\ forall m, 0 <= m < lowest t -> is_Some (t !! m).
Proof.
  unfold lowest. destruct (find _ _) as [n|] eqn:E.
  - assert (E' := E). apply find_some in E as [_ E]. rewrite bool_decide_eq_true in E.
    split_and!; [lia|done|]. intros m Hm.
    destruct (t !! m) as [p|] eqn:Em; [by eexists|exfalso].
    assert (forall l, NoDup l -> StronglySorted lt l -> (Z.to_nat m) ∈ l ->
      find (fun n => bool_decide (t !! Z.of_nat n = None)) l = Some n -> (n <= Z.to_nat m)%nat) as Hf.
    { clear E'. intros l. induction l as [|x l IH]; intros Hd Hs Hin; [by apply elem_of_nil in Hin|].
      cbn. inversion Hd; subst. inversion Hs as [|? ? Hs' Hall]; subst. case_bool_decide as Hx.
      - intros [= ->]. apply elem_of_cons in Hin as [->|Hin]; [done|].
        rewrite Forall_forall in Hall. apply Hall in Hin. lia.
      - apply elem_of_cons in Hin as [<-|Hin]; [|by apply IH]. by rewrite Z2Nat.id in Hx by lia. }
    apply Hf in E'; [lia|apply NoDup_seq| |].
    + clear. generalize 0%nat. induction (S (size t)) as [|k IH]; intros i; constructor; [apply IH|].
      apply Forall_forall. intros x Hx%elem_of_seq. lia.
    + apply elem_of_seq. split; [lia|]. apply find_some in E' as [Hin%in_seq _]. lia.
  - exfalso. assert (S (size t) <= size t)%nat; [|lia]. apply seq_taken. intros m Hm.
    destruct (t !! Z.of_nat m) eqn:Em; [by eexists|].
    assert (In m (seq 0 (S (size t)))) as Hin by (apply in_seq; lia).
    eapply find_none in E; [|exact Hin]. by rewrite bool_decide_eq_false in E.
Qed.

Lemma lowest_unique t n :
  0 <= n -> t !! n = None -> (forall m, 0 <= m < n -> is_Some (t !! m)) -> lowest t = n.
Proof.
  intros Hn Ht Hm. destruct (lowest_spec t) as (H1 & H2 & H3).
  destruct (Z.lt_total (lowest t) n) as [Hl|[->|Hl]]; [|done|].
  - destruct (Hm (lowest t)); [lia|congruence].
  - destruct (H3 n); [lia|congruence].
Qed.

(** [alloc] gives an unused descriptor and an unshared description. *)
Lemma alloc_spec d k : exists n p,
  alloc d k = (n, Kernel (<[n := p]> (tab k)) (<[p := d]> (descs k)) (acts k)) /\
  0 <= n /\ tab k !! n = None /\ descs k !! p = None /\ n = lowest (tab k).
Proof.
  unfold alloc. set (q := fresh _). exists (lowest (tab k)), q.
  assert (q ∉ dom (descs k)) as Hq
    by (pose proof (is_fresh (dom (descs k) ∪ list_to_set (map snd (map_to_list (tab k))))); set_solver).
  destruct (lowest_spec (tab k)) as (? & ? & _). split_and!; try done. by apply not_elem_of_dom.
Qed.

(** ** Stepping through a program *)

Lemma wp_do {A X} (c : call X) (p : X -> prog A) Q k x k' :
  run c k = Some (x, k') -> wp (p x) Q k' -> wp (p (failure c)) Q k -> wp (Do c p) Q k.
Proof. intros E H1 H2. cbn. by rewrite E. Qed.

Lemma wp_trust {A X} (c : call X) (p : X -> prog A) Q k x k' :
  run c k = Some (x, k') -> wp (p x) Q k' -> wp (Trust c p) Q k.
Proof. intros E H. cbn. by rewrite E. Qed.

Lemma insert_fresh_ne {K A} `{Countable K} (m : gmap K A) i j x : <[i := x]> m !! j = None -> j <> i /\ m !! j = None.
Proof. rewrite lookup_insert_None. intros [H1 H2]. by split. Qed.

(** [fresh_ne]: the facts that an allocated number differs from the ones before. *)
Ltac fresh_ne :=
  repeat match goal with
  | H : <[_ := _]> _ !! _ = None |- _ =>
      let H1 := fresh "Hne" in let H2 := fresh "Hnone" in
      apply insert_fresh_ne in H as [H1 H2]
  end.

(** [allocate]: name the descriptor that an [alloc] in the goal gives. *)
Ltac allocate n p :=
  match goal with
  | |- context [alloc ?d ?k] =>
      let E := fresh "E" in let Hn := fresh "Hn" in let Ht := fresh "Ht" in let Hd := fresh "Hd" in let Hl := fresh "Hl" in
      destruct (alloc_spec d k) as (n & p & E & Hn & Ht & Hd & Hl); rewrite E; clear E;
      cbn [tab descs acts] in *; fresh_ne
  end.

(** [klookup]: compute lookups in the maps of the kernel. *)
Ltac ksimpl := cbn [tab descs acts mbind option_bind fmap option_fmap option_map kind status].
Ltac klookup :=
  cbn [run failure]; unfold desc_at, set_desc; ksimpl;
  repeat ((rewrite lookup_insert_eq || rewrite lookup_insert_ne by congruence); ksimpl).
