(* ===== verification/Startup.v ===== *)
(** * How the servers start and stop

    The calls before the loop of [main] in socket/timer/handling_inactive_link.cpp,
    socket/ipc/shm.c, socket/io_multiplexing (io_epoll2.c, io_chatroom_server.c) and
    the functions they share, on the kernel of [Kernel].  [None] as a result is the
    usage message. *)

From S2P Require Import Prelude CString Kernel.

Definition SIGINT : Z := 2.
Definition SIGPIPE : Z := 13.
Definition SIGALRM : Z := 14.
Definition SIGTERM : Z := 15.
Definition SIGCHLD : Z := 17.

(** ** The functions *)

(** [address.sin_port = htons(port)]: the port the kernel sees. *)
Definition sin_port (port : Z) : Z := port mod 65536.

Definition setnonblocking (fd : Z) : prog Z :=
  old_option ← trust (CGetFl fd);
  let new_option := Z.lor old_option O_NONBLOCK in
  _ ← trust (CSetFl fd new_option);
  mret old_option.

Definition addfd (epollfd fd : Z) : prog unit :=
  _ ← trust (CEpollAdd epollfd fd (Z.lor EPOLLIN EPOLLET));
  _ ← setnonblocking fd;
  mret tt.

(** The one of io_epoll2.c. *)
Definition addfd_oneshot (epollfd fd : Z) (oneshot : bool) : prog unit :=
  let events := Z.lor EPOLLIN EPOLLET in
  let events := if oneshot then Z.lor events EPOLLONESHOT else events in
  _ ← trust (CEpollAdd epollfd fd events);
  _ ← setnonblocking fd;
  mret tt.

Definition addsig (sig : Z) (h : handler) (restart : bool) : prog unit :=
  r ← sys (CSigaction sig h restart);
  assert (r <> -1).

(** The socket, its address and its backlog. *)
Definition listen_on (port backlog : Z) : prog Z :=
  listenfd ← sys CSocket;
  _ ← assert (listenfd >= 0);
  ret ← sys (CBind listenfd (sin_port port));
  _ ← assert (ret <> -1);
  ret ← sys (CListen listenfd backlog);
  _ ← assert (ret <> -1);
  mret listenfd.

(** The socketpair; an assertion fails without it. *)
Definition sig_pipe : prog (Z * Z) :=
  ret ← sys CSocketPair;
  match ret with Some pipefd => mret pipefd | None => AssertF end.

(** ** The programs *)

Definition only_arg (args : list bytes) : option Z :=
  match args with [_; port] => Some (atoi port) | _ => None end.

(** What [main] has when its loop begins. *)
Record started := Started { listenfd : Z; epollfd : Z; pipefd : Z * Z }.

(** handling_inactive_link.cpp *)
Definition inactive_start (args : list bytes) : prog (option started) :=
  match only_arg args with
  | None => mret None
  | Some port =>
      listenfd ← listen_on port 5;
      epollfd ← sys CEpollCreate;
      _ ← assert (epollfd <> -1);
      _ ← addfd epollfd listenfd;
      pipefd ← sig_pipe;
      _ ← setnonblocking pipefd.2;
      _ ← addfd epollfd pipefd.1;
      _ ← addsig SIGALRM (Handler "sig_handler") true;
      _ ← addsig SIGTERM (Handler "sig_handler") true;
      mret (Some (Started listenfd epollfd pipefd))
  end.

Definition inactive_stop (s : started) : prog unit :=
  _ ← trust (CClose (listenfd s));
  _ ← trust (CClose (pipefd s).2);
  _ ← trust (CClose (pipefd s).1);
  mret tt.

Section Shm.
Context (USER_LIMIT BUFFER_SIZE : Z).

(** shm.c: the shared memory is mapped, and its descriptor closed. *)
Definition shm_start (args : list bytes) : prog (option (started * Z)) :=
  match only_arg args with
  | None => mret None
  | Some port =>
      listenfd ← listen_on port 5;
      epollfd ← sys CEpollCreate;
      _ ← assert (epollfd <> -1);
      _ ← addfd epollfd listenfd;
      pipefd ← sig_pipe;
      _ ← setnonblocking pipefd.2;
      _ ← addfd epollfd pipefd.1;
      _ ← addsig SIGCHLD (Handler "sig_handler") true;
      _ ← addsig SIGTERM (Handler "sig_handler") true;
      _ ← addsig SIGINT (Handler "sig_handler") true;
      _ ← addsig SIGPIPE SigIgn true;
      shmfd ← sys (CShmOpen "/my_shm");
      _ ← assert (shmfd <> -1);
      ret ← sys (CFtruncate shmfd (USER_LIMIT * BUFFER_SIZE));
      _ ← assert (ret <> -1);
      share_mem ← sys (CMmap shmfd (USER_LIMIT * BUFFER_SIZE));
      match share_mem with
      | None => AssertF
      | Some share_mem =>
          _ ← trust (CClose shmfd);
          mret (Some (Started listenfd epollfd pipefd, share_mem))
      end
  end.
End Shm.

Definition del_resource (s : started) : prog unit :=
  _ ← trust (CClose (pipefd s).1);
  _ ← trust (CClose (pipefd s).2);
  _ ← trust (CClose (listenfd s));
  _ ← trust (CClose (epollfd s));
  mret tt.

(** io_epoll2.c *)
Definition epoll2_start (args : list bytes) : prog (option (Z * Z)) :=
  match only_arg args with
  | None => mret None
  | Some port =>
      listenfd ← listen_on port 5;
      epollfd ← sys CEpollCreate;
      _ ← assert (epollfd <> -1);
      _ ← addfd_oneshot epollfd listenfd false;
      mret (Some (listenfd, epollfd))
  end.

(** io_chatroom_server.c *)
Definition chatroom_start (args : list bytes) : prog (option Z) :=
  match only_arg args with
  | None => mret None
  | Some port => listenfd ← listen_on port 5; mret (Some listenfd)
  end.

(** ** What a server has when it has started *)

Record ready (k0 k : kernel) (port : Z) (masks : gmap Z Z) (s : started) : Prop := Ready {
  ready_listens : desc_at k (listenfd s) = Some (Desc (Sock (Some (sin_port port)) (Some 5)) (Z.lor O_RDWR O_NONBLOCK));
  ready_epoll : desc_at k (epollfd s) = Some (Desc (EpollFile masks) O_RDWR);
  ready_pipe : desc_at k (pipefd s).1 = Some (Desc PairEnd (Z.lor O_RDWR O_NONBLOCK)) /\
               desc_at k (pipefd s).2 = Some (Desc PairEnd (Z.lor O_RDWR O_NONBLOCK));
  ready_new : NoDup [listenfd s; epollfd s; (pipefd s).1; (pipefd s).2];
  ready_table : exists p1 p2 p3 p4,
    tab k = <[(pipefd s).2 := p4]> (<[(pipefd s).1 := p3]> (<[epollfd s := p2]> (<[listenfd s := p1]> (tab k0)))) /\
    tab k0 !! listenfd s = None /\ tab k0 !! epollfd s = None /\
    tab k0 !! (pipefd s).1 = None /\ tab k0 !! (pipefd s).2 = None }.

(** ** Lemmas *)

(** F_SETFL of the old flags with O_NONBLOCK adds O_NONBLOCK, and nothing else. *)
Lemma with_flags_nonblock old : with_flags old (Z.lor old O_NONBLOCK) = Z.lor old O_NONBLOCK.
Proof.
  unfold with_flags. apply Z.bits_inj'. intros i Hi.
  rewrite !Z.lor_spec, !Z.land_spec, Z.lor_spec, Z.lnot_spec by done.
  assert (Z.testbit O_NONBLOCK i = true -> Z.testbit SETTABLE i = true) as H.
  { change O_NONBLOCK with (2 ^ 11). rewrite Z.pow2_bits_eqb by done. intros <-%Z.eqb_eq. done. }
  destruct (Z.testbit old i), (Z.testbit O_NONBLOCK i), (Z.testbit SETTABLE i); cbn in *; try done;
    by specialize (H eq_refl).
Qed.

(** [checked]: the branches of a call: the one where it fails ends in a failed assertion. *)
Ltac psimpl := cbn [prog_bind mbind prog_mbind mret prog_mret sys trust fst snd].

Lemma assert_true P `{Decision P} : P -> assert P = Ret tt.
Proof. intros. unfold assert. by rewrite decide_True. Qed.
Lemma assert_false P `{Decision P} : ~ P -> assert P = AssertF.
Proof. intros. unfold assert. by rewrite decide_False. Qed.

(** The rules for the functions, on a kernel whose maps are known. *)
Lemma wp_setnonblocking fd Q k p d :
  tab k !! fd = Some p -> descs k !! p = Some d ->
  Q (status d) (Kernel (tab k) (<[p := Desc (kind d) (Z.lor (status d) O_NONBLOCK)]> (descs k)) (acts k)) ->
  wp (setnonblocking fd) Q k.
Proof.
  intros Ht Hd HQ. unfold setnonblocking. psimpl. cbn [wp run]. unfold desc_at. rewrite Ht. cbn [mbind option_bind].
  rewrite Hd. cbn [mbind option_bind wp run]. unfold desc_at, set_desc. rewrite Ht. cbn [mbind option_bind].
  rewrite Hd. cbn [mbind option_bind fmap option_fmap option_map wp]. by rewrite with_flags_nonblock.
Qed.

Lemma wp_addfd epfd fd Q k pe p d i f :
  tab k !! epfd = Some pe -> descs k !! pe = Some (Desc (EpollFile i) f) ->
  tab k !! fd = Some p -> descs k !! p = Some d -> p <> pe -> i !! fd = None ->
  Q tt (Kernel (tab k) (<[p := Desc (kind d) (Z.lor (status d) O_NONBLOCK)]>
         (<[pe := Desc (EpollFile (<[fd := Z.lor EPOLLIN EPOLLET]> i)) f]> (descs k))) (acts k)) ->
  wp (addfd epfd fd) Q k.
Proof.
  intros He Hde Ht Hd Hne Hi HQ. unfold addfd. psimpl. cbn [wp run]. unfold desc_at, set_desc.
  rewrite He, Ht. cbn [mbind option_bind]. rewrite Hde, Hi. cbn [fmap option_fmap option_map mbind option_bind].
  apply wp_bind. eapply wp_setnonblocking; [exact Ht| |exact HQ].
  cbn [descs]. by rewrite lookup_insert_ne.
Qed.

Lemma wp_addsig sig h r Q k :
  Q tt (Kernel (tab k) (descs k) (<[sig := (h, r)]> (acts k))) -> wp (addsig sig h r) Q k.
Proof.
  intros HQ. unfold addsig. psimpl. cbn [wp run failure].
  rewrite (assert_true (0 <> -1)), (assert_false (-1 <> -1)) by lia. by split.
Qed.

Lemma wp_listen_on port backlog Q k :
  (forall fd p, 0 <= fd -> tab k !! fd = None -> descs k !! p = None -> fd = lowest (tab k) ->
    Q fd (Kernel (<[fd := p]> (tab k))
           (<[p := Desc (Sock (Some (sin_port port)) (Some backlog)) O_RDWR]> (descs k)) (acts k))) ->
  wp (listen_on port backlog) Q k.
Proof.
  intros HQ. unfold listen_on. psimpl. cbn [wp run failure]. allocate fd p.
  rewrite (assert_true (fd >= 0)), (assert_false (-1 >= 0)) by lia. split; [|done].
  psimpl. cbn [wp]. klookup.
  rewrite (assert_true (0 <> -1)), (assert_false (-1 <> -1)) by lia. split; [|done].
  psimpl. cbn [wp]. rewrite insert_insert_eq. klookup.
  rewrite (assert_true (0 <> -1)) by lia. split; [|done]. psimpl. cbn [wp].
  rewrite !insert_insert_eq. by apply HQ.
Qed.

Lemma wp_epoll_create {A} (f : Z -> prog A) Q k :
  (forall fd p, 0 <= fd -> tab k !! fd = None -> descs k !! p = None ->
    wp (f fd) Q (Kernel (<[fd := p]> (tab k)) (<[p := Desc (EpollFile ∅) O_RDWR]> (descs k)) (acts k))) ->
  wp (f (-1)) Q k -> wp (sys CEpollCreate ≫= f) Q k.
Proof. intros HQ Hf. psimpl. cbn [wp run failure]. allocate fd p. split; [by apply HQ|done]. Qed.

Lemma wp_sig_pipe Q k :
  (forall n1 p1 n2 p2, 0 <= n1 -> 0 <= n2 -> n2 <> n1 -> p2 <> p1 ->
    tab k !! n1 = None -> tab k !! n2 = None -> descs k !! p1 = None -> descs k !! p2 = None ->
    Q (n1, n2) (Kernel (<[n2 := p2]> (<[n1 := p1]> (tab k)))
                 (<[p2 := Desc PairEnd O_RDWR]> (<[p1 := Desc PairEnd O_RDWR]> (descs k))) (acts k))) ->
  wp sig_pipe Q k.
Proof.
  intros HQ. unfold sig_pipe. psimpl. cbn [wp run failure].
  allocate n1 p1. allocate n2 p2. split; [|done]. cbn [wp]. by apply HQ.
Qed.

(** What every server of this kind does first. *)
Lemma wp_event_server {A} port (f : Z -> Z -> Z * Z -> prog A) Q k0 :
  (forall s k, ready k0 k port {[ (pipefd s).1 := Z.lor EPOLLIN EPOLLET; listenfd s := Z.lor EPOLLIN EPOLLET ]} s ->
    acts k = acts k0 -> wp (f (listenfd s) (epollfd s) (pipefd s)) Q k) ->
  wp (listenfd ← listen_on port 5;
      epollfd ← sys CEpollCreate;
      _ ← assert (epollfd <> -1);
      _ ← addfd epollfd listenfd;
      pipefd ← sig_pipe;
      _ ← setnonblocking pipefd.2;
      _ ← addfd epollfd pipefd.1;
      f listenfd epollfd pipefd) Q k0.
Proof.
  intros HQ. apply wp_bind, wp_listen_on. intros fd p Hfd Ht Hd _.
  apply wp_epoll_create; cbn [tab descs acts].
  2: { by rewrite assert_false by lia. }
  intros ep pe He Hte Hde. fresh_ne. rewrite assert_true by lia. psimpl.
  apply wp_bind. eapply wp_addfd; cbn [tab descs acts kind status].
  { by rewrite lookup_insert_eq. } { by rewrite lookup_insert_eq. }
  { by klookup. } { by klookup. } { done. } { done. }
  apply wp_bind, wp_sig_pipe. cbn [tab descs acts]. intros n1 p1 n2 p2 Hn1 Hn2 Hne12 Hpe12 Ht1 Ht2 Hd1 Hd2. fresh_ne.
  psimpl. apply wp_bind. eapply wp_setnonblocking; cbn [tab descs acts kind status].
  { by klookup. } { by klookup. }
  apply wp_bind. eapply wp_addfd; cbn [tab descs acts kind status].
  { by klookup. } { by klookup. } { by klookup. } { by klookup. } { congruence. } { by klookup. }
  apply (HQ (Started fd ep (n1, n2))); [|done]. constructor; cbn [listenfd epollfd pipefd fst snd].
  - by klookup.
  - by klookup.
  - split; by klookup.
  - rewrite !NoDup_cons, !not_elem_of_cons.
    split_and!; first [congruence|apply not_elem_of_nil|apply NoDup_nil_2].
  - exists p, pe, p1, p2. split_and!; try done.
Qed.

(** ** The servers *)

(** Runs of a program from a kernel, in terms of the answers it gets. *)
Definition runs {A} (p : prog A) (k0 : kernel) (Q : A -> kernel -> Prop) : Prop :=
  forall bs, quiet (exec p bs k0) = true ->
    legal (exec p bs k0) = true /\
    forall a, value (exec p bs k0) = Done a -> Q a (after (exec p bs k0)).

Lemma wp_runs {A} (p : prog A) k0 Q : wp p Q k0 -> runs p k0 Q.
Proof. intros H bs. by apply wp_exec. Qed.

Lemma ready_acts k0 k a port masks s :
  ready k0 k port masks s -> ready k0 (Kernel (tab k) (descs k) a) port masks s.
Proof. intros [? ? ? ? ?]. by constructor. Qed.

(** inactive_starts: whatever descriptors are open and whichever calls fail, as long as
    no [fcntl] and no [epoll_ctl] does, every call is one the kernel can carry out,
    and if the program gets to its loop the listening socket and the read end of the
    signal pipe are in the epoll instance, edge-triggered, everything the loop reads or writes
    is non-blocking, the two signals are handled, and the descriptors that were
    open before are as they were. *)
Theorem inactive_starts prog0 port k0 :
  runs (inactive_start [prog0; port]) k0 (fun r k => exists s, r = Some s /\
    ready k0 k (atoi port) {[ (pipefd s).1 := Z.lor EPOLLIN EPOLLET; listenfd s := Z.lor EPOLLIN EPOLLET ]} s /\
    acts k = <[SIGTERM := (Handler "sig_handler", true)]> (<[SIGALRM := (Handler "sig_handler", true)]> (acts k0))).
Proof.
  apply wp_runs. unfold inactive_start. cbn [only_arg]. apply wp_event_server. intros s k Hr Ha.
  apply wp_bind, wp_addsig, wp_bind, wp_addsig. cbn [wp mret prog_mret tab descs acts].
  exists s. split; [by destruct s|]. split; [exact (ready_acts _ _ _ _ _ _ Hr)|].
  rewrite Ha. reflexivity.
Qed.

(** The descriptors of a started server, closed again. *)
Lemma ready_tab_lookup k0 k port masks s : ready k0 k port masks s ->
  is_Some (tab k !! listenfd s) /\ is_Some (tab k !! epollfd s) /\
  is_Some (tab k !! (pipefd s).1) /\ is_Some (tab k !! (pipefd s).2).
Proof.
  intros [_ _ _ _ (p1 & p2 & p3 & p4 & -> & _)]. rewrite !lookup_insert_is_Some'. tauto.
Qed.

Lemma wp_close {A} fd (f : Z -> prog A) Q k :
  is_Some (tab k !! fd) -> wp (f 0) Q (Kernel (delete fd (tab k)) (descs k) (acts k)) ->
  wp (trust (CClose fd) ≫= f) Q k.
Proof. intros [p Hp] H. psimpl. cbn [wp run]. by rewrite Hp. Qed.

(** inactive_leaks: what the program closes at its end leaves one descriptor of its own open,
    the epoll instance. *)
Theorem inactive_leaks k0 k port masks s :
  ready k0 k port masks s ->
  runs (inactive_stop s) k (fun _ k' => exists p, tab k' = <[epollfd s := p]> (tab k0)).
Proof.
  intros Hr. destruct (ready_tab_lookup _ _ _ _ _ Hr) as (H1 & H2 & H3 & H4).
  destruct Hr as [_ _ _ Hn (p1 & p2 & p3 & p4 & Et & T1 & T2 & T3 & T4)].
  rewrite !NoDup_cons, !not_elem_of_cons in Hn.
  destruct Hn as ((N1 & N2 & N3 & _) & (N4 & N5 & _) & (N6 & _) & _ & _).
  apply wp_runs. unfold inactive_stop.
  apply wp_close; [done|]. apply wp_close; cbn [tab]. { rewrite lookup_delete_ne by congruence. done. }
  apply wp_close; cbn [tab]. { rewrite !lookup_delete_ne by congruence. done. }
  cbn [wp mret prog_mret tab]. exists p2. rewrite Et.
  apply map_eq. intros i. destruct (decide (i = (pipefd s).1)) as [->|I1].
  { rewrite lookup_delete_eq. rewrite lookup_insert_ne by congruence. done. }
  rewrite lookup_delete_ne by done. destruct (decide (i = (pipefd s).2)) as [->|I2].
  { rewrite lookup_delete_eq. rewrite lookup_insert_ne by congruence. done. }
  rewrite lookup_delete_ne by done. destruct (decide (i = listenfd s)) as [->|I3].
  { rewrite lookup_delete_eq. rewrite lookup_insert_ne by congruence. done. }
  rewrite lookup_delete_ne by done. rewrite !lookup_insert_ne by done.
  destruct (decide (i = epollfd s)) as [->|I4]; [by rewrite !lookup_insert_eq|].
  by rewrite !lookup_insert_ne.
Qed.

Lemma desc_at_extra k p d a fd d' :
  descs k !! p = None -> desc_at k fd = Some d' ->
  desc_at (Kernel (tab k) (<[p := d]> (descs k)) a) fd = Some d'.
Proof.
  unfold desc_at. cbn [tab descs]. intros Hp. destruct (tab k !! fd) as [q|]; [|done]. cbn.
  intros H. rewrite lookup_insert_ne; [done|]. congruence.
Qed.

Lemma ready_extra k0 k p d a port masks s :
  descs k !! p = None -> ready k0 k port masks s ->
  ready k0 (Kernel (tab k) (<[p := d]> (descs k)) a) port masks s.
Proof. intros Hp [? ? [? ?] ? ?]. constructor; [..|done|done]; try split; by apply desc_at_extra. Qed.

Lemma wp_shm_start USER_LIMIT BUFFER_SIZE prog0 port k0 :
  wp (shm_start USER_LIMIT BUFFER_SIZE [prog0; port]) (fun r k => exists s,
    r = Some (s, USER_LIMIT * BUFFER_SIZE) /\
    ready k0 k (atoi port) {[ (pipefd s).1 := Z.lor EPOLLIN EPOLLET; listenfd s := Z.lor EPOLLIN EPOLLET ]} s /\
    acts k = <[SIGPIPE := (SigIgn, true)]> (<[SIGINT := (Handler "sig_handler", true)]>
             (<[SIGTERM := (Handler "sig_handler", true)]> (<[SIGCHLD := (Handler "sig_handler", true)]> (acts k0))))) k0.
Proof.
  unfold shm_start. cbn [only_arg]. apply wp_event_server. intros s k Hr Ha.
  do 4 apply wp_bind, wp_addsig. psimpl. cbn [tab descs acts].
  cbn [wp run failure]. allocate fd p. rewrite (assert_true (fd <> -1)), (assert_false (-1 <> -1)) by lia.
  split; [|done]. psimpl. cbn [wp]. klookup.
  rewrite (assert_true (0 <> -1)), (assert_false (-1 <> -1)) by lia. split; [|done].
  psimpl. cbn [wp]. rewrite insert_insert_eq. klookup. split; [|done].
  psimpl. cbn [wp]. klookup. cbn [wp mret prog_mret].
  exists s. split; [by destruct s|]. split; [|by rewrite Ha].
  rewrite delete_insert_id by done. by apply ready_extra.
Qed.

(** shm_starts: the chat server has what the other has, handles the signals of its children,
    termination and interrupts, ignores SIGPIPE, and has mapped one buffer for each
    user; the descriptor of the shared memory is closed again. *)
Theorem shm_starts USER_LIMIT BUFFER_SIZE prog0 port k0 :
  runs (shm_start USER_LIMIT BUFFER_SIZE [prog0; port]) k0 (fun r k => exists s,
    r = Some (s, USER_LIMIT * BUFFER_SIZE) /\
    ready k0 k (atoi port) {[ (pipefd s).1 := Z.lor EPOLLIN EPOLLET; listenfd s := Z.lor EPOLLIN EPOLLET ]} s /\
    acts k = <[SIGPIPE := (SigIgn, true)]> (<[SIGINT := (Handler "sig_handler", true)]>
             (<[SIGTERM := (Handler "sig_handler", true)]> (<[SIGCHLD := (Handler "sig_handler", true)]> (acts k0))))).
Proof. apply wp_runs, wp_shm_start. Qed.

(** shm_clean: [del_resource] gives back every descriptor the server has opened. *)
Theorem shm_clean k0 k port masks s :
  ready k0 k port masks s -> runs (del_resource s) k (fun _ k' => tab k' = tab k0).
Proof.
  intros Hr. destruct (ready_tab_lookup _ _ _ _ _ Hr) as (H1 & H2 & H3 & H4).
  destruct Hr as [_ _ _ Hn (p1 & p2 & p3 & p4 & Et & T1 & T2 & T3 & T4)].
  rewrite !NoDup_cons, !not_elem_of_cons in Hn.
  destruct Hn as ((N1 & N2 & N3 & _) & (N4 & N5 & _) & (N6 & _) & _ & _).
  apply wp_runs. unfold del_resource.
  do 4 (apply wp_close; cbn [tab]; [by rewrite ?lookup_delete_ne by congruence|]).
  cbn [wp mret prog_mret tab]. rewrite Et. apply map_eq. intros i.
  destruct (decide (i = epollfd s)) as [->|I1]; [by rewrite lookup_delete_eq|rewrite lookup_delete_ne by done].
  destruct (decide (i = listenfd s)) as [->|I2]; [by rewrite lookup_delete_eq|rewrite lookup_delete_ne by done].
  destruct (decide (i = (pipefd s).2)) as [->|I3]; [by rewrite lookup_delete_eq|rewrite lookup_delete_ne by done].
  destruct (decide (i = (pipefd s).1)) as [->|I4]; [by rewrite lookup_delete_eq|rewrite lookup_delete_ne by done].
  by rewrite !lookup_insert_ne.
Qed.

(** epoll2_starts: in io_epoll2.c the listening socket is in the epoll instance without
    EPOLLONESHOT, as it has to stay. *)
Theorem epoll2_starts prog0 port k0 :
  runs (epoll2_start [prog0; port]) k0 (fun r k => exists listenfd epollfd, r = Some (listenfd, epollfd) /\
    desc_at k listenfd = Some (Desc (Sock (Some (sin_port (atoi port))) (Some 5)) (Z.lor O_RDWR O_NONBLOCK)) /\
    desc_at k epollfd = Some (Desc (EpollFile {[listenfd := Z.lor EPOLLIN EPOLLET]}) O_RDWR)).
Proof.
  apply wp_runs. unfold epoll2_start. cbn [only_arg].
  apply wp_bind, wp_listen_on. intros fd p Hfd Ht Hd _.
  apply wp_epoll_create; cbn [tab descs acts].
  2: { by rewrite assert_false by lia. }
  intros ep pe He Hte Hde. fresh_ne. rewrite assert_true by lia. psimpl.
  change (addfd_oneshot ep fd false) with (addfd ep fd).
  apply wp_bind. eapply wp_addfd; cbn [tab descs acts kind status].
  { by klookup. } { by klookup. } { by klookup. } { by klookup. } { done. } { done. }
  cbn [wp mret prog_mret]. exists fd, ep. split; [done|]. split; by klookup.
Qed.

(** A process with its three standard descriptors. *)
Definition boot : kernel :=
  Kernel {[0 := 1%positive; 1 := 1%positive; 2 := 1%positive]} {[1%positive := Desc (PathFile "tty") O_RDWR]} ∅.

(** [./shm 65616]: the port is 80; the descriptors are 3 to 6. *)
Lemma shm_clean_witness :
  exists k, value (exec (shm_start 5 1024 [lit "shm"; lit "65616"]) [] boot) = Done (Some (Started 3 4 (5, 6), 5120)) /\
    desc_at k 3 = Some (Desc (Sock (Some 80) (Some 5)) 2050) /\
    runs (del_resource (Started 3 4 (5, 6))) k (fun _ k' => tab k' = tab boot).
Proof.
  exists (after (exec (shm_start 5 1024 [lit "shm"; lit "65616"]) [] boot)).
  split; [vm_compute; reflexivity|]. split; [vm_compute; reflexivity|].
  destruct (wp_exec _ _ boot [] (wp_shm_start 5 1024 (lit "shm") (lit "65616") boot)) as [_ H]; [vm_compute; reflexivity|].
  destruct (H (Some (Started 3 4 (5, 6), 5120))) as (s & E & Hr & _); [vm_compute; reflexivity|].
  injection E as <-. eapply shm_clean. exact Hr.
Defined.

(** The same for the other server; afterwards descriptor 4 is left. *)
Lemma inactive_leaks_witness :
  exists k masks, ready boot k 80 masks (Started 3 4 (5, 6)) /\
    runs (inactive_stop (Started 3 4 (5, 6))) k (fun _ k' => exists p, tab k' = <[4 := p]> (tab boot)).
Proof.
  destruct (wp_exec _ _ boot [] (wp_shm_start 5 1024 (lit "shm") (lit "80") boot)) as [_ H]; [vm_compute; reflexivity|].
  destruct (H (Some (Started 3 4 (5, 6), 5120))) as (s & E & Hr & _); [vm_compute; reflexivity|].
  injection E as <-. do 2 eexists. split; [exact Hr|]. eapply inactive_leaks. exact Hr.
Defined.

(** Without [epoll_create] the program aborts; without an argument it says how to use it. *)
Example inactive_aborts :
  value (exec (inactive_start [lit "s"; lit "80"]) [true; true; true; false] boot) = Aborted /\
  value (exec (inactive_start [lit "s"]) [] boot) = Done None.
Proof. split; vm_compute; reflexivity. Qed.

(** If [fcntl] fails the server does not notice, and its listening socket blocks. *)
Example addfd_unchecked :
  let r := exec (epoll2_start [lit "s"; lit "80"]) [true; true; true; true; true; true; false] boot in
  value r = Done (Some (3, 4)) /\ quiet r = false /\ desc_at (after r) 3 = Some (Desc (Sock (Some 80) (Some 5)) O_RDWR).
Proof. split_and!; vm_compute; reflexivity. Qed.
