(* ===== verification/PoolStartup.v ===== *)
(** * How the process pool starts

    What a process of the CGI server (socket/pool/cgi_server.cpp) has open when the
    loop of the pool begins in it: [main], the constructor of the pool with its forks,
    the signal pipe (socket/pool/processpool.h), as programs on the kernel of [Kernel].
    One process is followed: [fork] is answered with 0 where the process followed is
    the child, which has what its parent had open.  [setnonblocking], [addfd] and
    [addsig] are the ones of [Startup]. *)

From S2P Require Import Prelude CString ProcessPool Kernel Startup.

(** ** What a program has opened

    [opened k0 k M]: from [k0] to [k] the descriptors of [M] were opened, each with a
    description of its own, and everything else that is open is as it was. *)
Record opened (k0 k : kernel) (M : gmap Z desc) : Prop := {
  op_rest : forall fd, M !! fd = None -> tab k !! fd = tab k0 !! fd;
  op_new : forall fd, is_Some (M !! fd) -> tab k0 !! fd = None;
  op_at : forall fd d, M !! fd = Some d ->
    exists p, tab k !! fd = Some p /\ descs k !! p = Some d /\ descs k0 !! p = None;
  op_inj : forall fd fd' p, is_Some (M !! fd) -> is_Some (M !! fd') ->
    tab k !! fd = Some p -> tab k !! fd' = Some p -> fd = fd';
  op_descs : descs k0 ⊆ descs k }.

Lemma opened_nothing k : opened k k ∅.
Proof.
  split; try done.
  - intros fd [d E]. by rewrite lookup_empty in E.
  - intros fd fd' p [d E]. by rewrite lookup_empty in E.
Qed.

Lemma opened_none k0 k M fd : opened k0 k M -> tab k !! fd = None -> M !! fd = None /\ tab k0 !! fd = None.
Proof.
  intros H Ht. destruct (M !! fd) as [d|] eqn:E.
  - destruct (op_at _ _ _ H _ _ E) as (p & Hp & _). congruence.
  - split; [done|]. by rewrite <- (op_rest _ _ _ H).
Qed.

(** A descriptor opened, with a new description. *)
Lemma opened_alloc k0 k M fd p d a :
  opened k0 k M -> tab k !! fd = None -> descs k !! p = None ->
  opened k0 (Kernel (<[fd := p]> (tab k)) (<[p := d]> (descs k)) a) (<[fd := d]> M).
Proof.
  intros H Ht Hp. destruct (opened_none _ _ _ _ H Ht) as [Hm Ht0].
  assert (Hat : forall fd' q, is_Some (M !! fd') -> tab k !! fd' = Some q -> q <> p).
  { intros fd' q [d' E] Hq ->. destruct (op_at _ _ _ H _ _ E) as (q & ? & ? & _). congruence. }
  split; cbn [tab descs].
  - intros fd'. rewrite lookup_insert_None. intros [? ?]. rewrite lookup_insert_ne by done. by apply H.
  - intros fd'. destruct (decide (fd' = fd)) as [->|Hne]; [done|]. rewrite lookup_insert_ne by done. apply H.
  - intros fd' d'. destruct (decide (fd' = fd)) as [->|Hne].
    + rewrite !lookup_insert_eq. intros [= <-]. exists p. rewrite lookup_insert_eq. split_and!; try done.
      by eapply lookup_weaken_None; [|apply H].
    + rewrite !lookup_insert_ne by done. intros E. destruct (op_at _ _ _ H _ _ E) as (q & ? & ? & ?).
      exists q. split; [done|]. rewrite lookup_insert_ne; [done|]. intros <-. by eapply (Hat fd').
  - intros fd1 fd2 q. destruct (decide (fd1 = fd)) as [->|N1], (decide (fd2 = fd)) as [->|N2]; [done|..];
      rewrite ?lookup_insert_eq, ?lookup_insert_ne by done; intros H1 H2 E1 E2.
    + injection E1 as <-. by destruct (Hat fd2 p).
    + injection E2 as <-. by destruct (Hat fd1 p).
    + by eapply (op_inj _ _ _ H).
  - apply insert_subseteq_r; [|apply H]. by eapply lookup_weaken_None; [|apply H].
Qed.

(** A description changed. *)
Lemma opened_set k0 k M fd p d a :
  opened k0 k M -> is_Some (M !! fd) -> tab k !! fd = Some p ->
  opened k0 (Kernel (tab k) (<[p := d]> (descs k)) a) (<[fd := d]> M).
Proof.
  intros H Hm Ht. assert (Hp : descs k0 !! p = None).
  { destruct Hm as [d' E]. destruct (op_at _ _ _ H _ _ E) as (q & ? & _ & ?). congruence. }
  split; cbn [tab descs].
  - intros fd'. rewrite lookup_insert_None. intros [? _]. by apply H.
  - intros fd'. rewrite lookup_insert_is_Some'. intros [<-|?]; by apply H.
  - intros fd' d'. destruct (decide (fd' = fd)) as [->|Hne].
    + rewrite lookup_insert_eq. intros [= <-]. exists p. by rewrite lookup_insert_eq.
    + rewrite lookup_insert_ne by done. intros E. destruct (op_at _ _ _ H _ _ E) as (q & Hq & ? & ?).
      exists q. rewrite lookup_insert_ne; [done|]. intros <-. destruct Hne. by eapply (op_inj _ _ _ H).
  - intros fd1 fd2 q. rewrite !lookup_insert_is_Some'.
    intros [<-|?] [<-|?]; try done; by apply (op_inj _ _ _ H).
  - apply insert_subseteq_r; [done|apply H].
Qed.

(** A descriptor closed again. *)
Lemma opened_close k0 k M fd a :
  opened k0 k M -> is_Some (M !! fd) -> opened k0 (Kernel (delete fd (tab k)) (descs k) a) (delete fd M).
Proof.
  intros H Hm. split; cbn [tab descs]; [| | | |apply H].
  - intros fd'. rewrite lookup_delete_None. intros [<-|?].
    + rewrite lookup_delete_eq. symmetry. by apply H.
    + destruct (decide (fd = fd')) as [<-|]; [rewrite lookup_delete_eq; symmetry; by apply H|].
      rewrite lookup_delete_ne by done. by apply H.
  - intros fd' [d E]. apply lookup_delete_Some in E as [_ E]. apply H. by eexists.
  - intros fd' d. rewrite lookup_delete_Some. intros [Hne E]. rewrite lookup_delete_ne by done. by apply H.
  - intros fd1 fd2 q [d1 E1%lookup_delete_Some] [d2 E2%lookup_delete_Some].
    rewrite !lookup_delete_ne by tauto. apply (op_inj _ _ _ H); eexists; [apply E1|apply E2].
Qed.

(** The descriptors opened as a list, in any order. *)
Definition owns (k0 k : kernel) (L : list (Z * desc)) : Prop :=
  NoDup L.*1 /\ opened k0 k (list_to_map L).

Lemma owns_nothing k : owns k k [].
Proof. split; [constructor|apply opened_nothing]. Qed.

Lemma owns_perm k0 k L L' : L ≡ₚ L' -> owns k0 k L -> owns k0 k L'.
Proof.
  intros Hp [Hn Ho]. split; [by rewrite <- Hp|].
  by rewrite <- (list_to_map_proper L L').
Qed.

Lemma owns_at k0 k L fd d : owns k0 k L -> (fd, d) ∈ L -> exists p, tab k !! fd = Some p /\ descs k !! p = Some d.
Proof.
  intros [Hn Ho] Hin. destruct (op_at _ _ _ Ho fd d) as (p & ? & ? & _); [|by exists p].
  by apply elem_of_list_to_map.
Qed.

Lemma owns_desc k0 k L fd d : owns k0 k L -> (fd, d) ∈ L -> desc_at k fd = Some d.
Proof.
  intros H Hin. destruct (owns_at _ _ _ _ _ H Hin) as (p & Ht & Hd).
  unfold desc_at. rewrite Ht. exact Hd.
Qed.

Lemma owns_alloc k0 k L fd p d a :
  owns k0 k L -> tab k !! fd = None -> descs k !! p = None ->
  owns k0 (Kernel (<[fd := p]> (tab k)) (<[p := d]> (descs k)) a) ((fd, d) :: L).
Proof.
  intros [Hn Ho] Ht Hp. split; [|by apply opened_alloc].
  cbn. constructor; [|done]. apply not_elem_of_list_to_map_2. by eapply opened_none.
Qed.

Lemma owns_set k0 k L fd p d d' a :
  owns k0 k ((fd, d) :: L) -> tab k !! fd = Some p ->
  owns k0 (Kernel (tab k) (<[p := d']> (descs k)) a) ((fd, d') :: L).
Proof.
  intros [Hn Ho] Ht. split; [done|]. cbn in *.
  rewrite <- (insert_insert_eq _ fd d' d). apply opened_set; try done. rewrite lookup_insert_eq. by eexists.
Qed.

Lemma owns_close k0 k L fd d a :
  owns k0 k ((fd, d) :: L) -> owns k0 (Kernel (delete fd (tab k)) (descs k) a) L.
Proof.
  intros [Hn Ho]. cbn in *. apply NoDup_cons in Hn as [Hfd Hn]. split; [done|].
  rewrite <- (delete_insert_id (list_to_map L) fd d) by by apply not_elem_of_list_to_map_1.
  apply opened_close; [done|]. rewrite lookup_insert_eq. by eexists.
Qed.

(** ** What the functions do to it *)

Definition plain (f : file) : desc := Desc f O_RDWR.
Definition nonblocking (f : file) : desc := Desc f (Z.lor O_RDWR O_NONBLOCK).

Section Rules.
Context (k0 : kernel).

Lemma owns_listen_on port backlog Q k L :
  owns k0 k L ->
  (forall fd k', owns k0 k' ((fd, plain (Sock (Some (sin_port port)) (Some backlog))) :: L) ->
    acts k' = acts k -> Q fd k') ->
  wp (listen_on port backlog) Q k.
Proof. intros Ho HQ. apply wp_listen_on. intros fd p _ Ht Hd _. apply HQ; [by apply owns_alloc|done]. Qed.

Lemma owns_epoll_create {A} (f : Z -> prog A) Q k L :
  owns k0 k L ->
  (forall fd k', fd <> -1 -> owns k0 k' ((fd, plain (EpollFile ∅)) :: L) -> acts k' = acts k -> wp (f fd) Q k') ->
  wp (epollfd ← sys CEpollCreate; _ ← assert (epollfd <> -1); f epollfd) Q k.
Proof.
  intros Ho HQ. apply wp_epoll_create; [|by rewrite assert_false by lia].
  intros fd p Hfd Ht Hd. rewrite assert_true by lia. psimpl. apply HQ; [lia|by apply owns_alloc|done].
Qed.

Lemma owns_sig_pipe Q k L :
  owns k0 k L ->
  (forall fds k', owns k0 k' ((fds.1, plain PairEnd) :: (fds.2, plain PairEnd) :: L) ->
    acts k' = acts k -> Q fds k') ->
  wp sig_pipe Q k.
Proof.
  intros Ho HQ. apply wp_sig_pipe. intros n1 p1 n2 p2 _ _ Hn Hp Ht1 Ht2 Hd1 Hd2.
  apply HQ; [|done]. eapply owns_perm; [apply perm_swap|]. cbn [fst snd].
  pose proof (owns_alloc _ _ _ _ _ (plain PairEnd) (acts k) Ho Ht1 Hd1) as H1.
  apply (owns_alloc _ _ _ n2 p2 (plain PairEnd) (acts k) H1); cbn [tab descs]; by rewrite lookup_insert_ne.
Qed.

Lemma owns_nonblocking fd Q k L d :
  owns k0 k ((fd, d) :: L) ->
  (forall r k', owns k0 k' ((fd, Desc (kind d) (Z.lor (status d) O_NONBLOCK)) :: L) ->
    acts k' = acts k -> Q r k') ->
  wp (setnonblocking fd) Q k.
Proof.
  intros Ho HQ. destruct (owns_at _ _ _ fd d Ho) as (p & Ht & Hd); [left|].
  eapply wp_setnonblocking; [done..|]. apply HQ; [by eapply owns_set|done].
Qed.

Lemma owns_addfd epfd fd Q k L d i f :
  owns k0 k ((epfd, Desc (EpollFile i) f) :: (fd, d) :: L) -> i !! fd = None ->
  (forall k', owns k0 k' ((epfd, Desc (EpollFile (<[fd := Z.lor EPOLLIN EPOLLET]> i)) f) ::
                          (fd, Desc (kind d) (Z.lor (status d) O_NONBLOCK)) :: L) ->
    acts k' = acts k -> Q tt k') ->
  wp (addfd epfd fd) Q k.
Proof.
  intros Ho Hi HQ. destruct (owns_at _ _ _ epfd (Desc (EpollFile i) f) Ho) as (pe & Hte & Hde); [left|].
  destruct (owns_at _ _ _ fd d Ho) as (p & Ht & Hd); [right; left|].
  assert (Hne : p <> pe).
  { intros ->. destruct Ho as [Hn Ho]. apply NoDup_cons in Hn as [Hn _]. apply Hn. cbn.
    rewrite (op_inj _ _ _ Ho epfd fd pe); [left|..]; try done; cbn; rewrite lookup_insert_is_Some'; [by left|].
    right. rewrite lookup_insert_is_Some'. by left. }
  pose proof (owns_set _ _ _ _ _ _ (Desc (EpollFile (<[fd := Z.lor EPOLLIN EPOLLET]> i)) f) (acts k) Ho Hte) as H1.
  apply (owns_perm _ _ _ _ (perm_swap _ _ _)) in H1.
  apply (owns_set _ _ _ fd p _ (Desc (kind d) (Z.lor (status d) O_NONBLOCK)) (acts k)) in H1; [|done].
  eapply wp_addfd; [done..|]. apply HQ; [|done]. by eapply owns_perm; [apply perm_swap|].
Qed.

Lemma owns_trust_close {A} fd (f : Z -> prog A) Q k L d :
  owns k0 k ((fd, d) :: L) ->
  (forall k', owns k0 k' L -> acts k' = acts k -> wp (f 0) Q k') ->
  wp (trust (CClose fd) ≫= f) Q k.
Proof.
  intros Ho HQ. destruct (owns_at _ _ _ fd d Ho) as (p & Ht & Hd); [left|].
  apply wp_close; [by eexists|]. apply HQ; [by eapply owns_close|done].
Qed.
End Rules.

(** ** The programs *)

Section Start.
Context (fork : nat -> Z).   (** what [fork] answers in each turn of the loop *)

(** The loop of the constructor from turn [i] on, with [n] turns left: [m_idx] and
    the children. *)
Fixpoint fork_loop (i n : nat) (sub : list process) : prog (Z * list process) :=
  match n with
  | O => mret (-1, sub)
  | S n =>
      pipefd ← sig_pipe;
      let m_pid := fork i in
      _ ← assert (m_pid >= 0);
      let sub := <[i := Process m_pid pipefd]> sub in
      if decide (m_pid > 0) then
        _ ← trust (CClose pipefd.2);
        fork_loop (S i) n sub
      else
        _ ← trust (CClose pipefd.1);
        mret (Z.of_nat i, sub)
  end.

Definition fork_pool (listenfd process_number : Z) : prog processpool :=
  _ ← assert (0 < process_number <= MAX_PROCESS_NUMBER);
  let n := Z.to_nat process_number in
  '(m_idx, sub) ← fork_loop 0 n (replicate n new_process);
  mret (ProcessPool process_number m_idx 0 listenfd false sub).

(** [setup_sig_pipe]; the pipe is static. *)
Definition pool_sig_pipe (p : processpool) : prog (processpool * (Z * Z)) :=
  epollfd ← sys CEpollCreate;
  _ ← assert (epollfd <> -1);
  sig_pipefd ← sig_pipe;
  _ ← setnonblocking sig_pipefd.2;
  _ ← addfd epollfd sig_pipefd.1;
  _ ← addsig SIGCHLD (Handler "sig_handler") true;
  _ ← addsig SIGTERM (Handler "sig_handler") true;
  _ ← addsig SIGINT (Handler "sig_handler") true;
  _ ← addsig SIGPIPE (Handler "sig_handler") true;
  mret (set_epollfd epollfd p, sig_pipefd).

(** What [run_child] and [run_parent] wait on besides the signal pipe. *)
Definition work_fd (p : processpool) : prog Z :=
  if decide (m_idx p <> -1) then
    match m_sub_process p !! Z.to_nat (m_idx p) with
    | Some me => mret (m_pipefd me).2
    | None => AssertF
    end
  else mret (m_listenfd p).

(** [main] of cgi_server.cpp up to the loop of [run]. *)
Definition cgi_start (args : list bytes) : prog (option (processpool * (Z * Z))) :=
  match args with
  | _ :: _ :: port :: _ =>
      listenfd ← listen_on (atoi port) 5;
      p ← fork_pool listenfd 8;
      '(p, sig_pipefd) ← pool_sig_pipe p;
      fd ← work_fd p;
      _ ← addfd (m_epollfd p) fd;
      mret (Some (p, sig_pipefd))
  | _ => mret None
  end.
End Start.

Definition argv (port : string) : list bytes := [lit "cgi_server"; lit "127.0.0.1"; lit port].
Definition at_fork (i : nat) (n : nat) : Z := if decide (n = i) then 0 else 100 + Z.of_nat n.

(** ** The forks *)

(** The parent's ends of the pipes to some children. *)
Definition pipe_ends (chs : list process) : list (Z * desc) :=
  (fun ch => ((m_pipefd ch).1, plain PairEnd)) <$> chs.

(** A process has left the forking loop, after it has forked [c] children itself and its
    parents have; [L] is what it had open before.  It is the parent, and has an end
    of the pipe to each child, or the child [c], and has its own end of its own pipe,
    and an end of the pipe to each child before it. *)
Record forked (fork : nat -> Z) (k0 : kernel) (L : list (Z * desc)) (idx : Z) (sub : list process)
    (k : kernel) (c : nat) : Prop := {
  fd_pids : m_pid <$> take c sub = fork <$> seq 0 c;
  fd_live : Forall (fun ch => 0 < m_pid ch) (take c sub);
  fd_owns : (idx = -1 /\ c = length sub /\ owns k0 k (pipe_ends sub ++ L)) \/
    (idx = Z.of_nat c /\ exists r w, sub !! c = Some (Process 0 (r, w)) /\
       owns k0 k ((w, plain PairEnd) :: pipe_ends (take c sub) ++ L)) }.

Lemma wp_fork_loop fork k0 L n : forall i sub k,
  (i + n)%nat = length sub ->
  m_pid <$> take i sub = fork <$> seq 0 i ->
  Forall (fun ch => 0 < m_pid ch) (take i sub) ->
  owns k0 k (pipe_ends (take i sub) ++ L) ->
  wp (fork_loop fork i n sub) (fun r k' => acts k' = acts k /\ length r.2 = length sub /\
    (exists c, forked fork k0 L r.1 r.2 k' c) /\
    exists rets calls, fork_children i n rets sub = Ok (r, calls)) k.
Proof.
  induction n as [|n IH]; intros i sub k Hlen Hpids Hlive Ho; cbn [fork_loop fork_children].
  { cbn. assert (i = length sub) as -> by lia. rewrite firstn_all in *.
    split_and!; [done..| |by exists []; eexists].
    exists (length sub). split; rewrite ?firstn_all; [done..|by left]. }
  apply wp_bind. eapply owns_sig_pipe; [exact Ho|]. intros [r w] k1 H1 Ha1. cbn [fst snd] in *.
  destruct (decide (fork i >= 0)) as [Hf|Hf]; [|by rewrite assert_false].
  rewrite assert_true by done. psimpl.
  set (ch := Process (fork i) (r, w)). set (sub' := <[i := ch]> sub).
  assert (Hch : sub' !! i = Some ch) by (apply list_lookup_insert_eq; lia).
  assert (Htake : take i sub' = take i sub) by (apply take_insert_ge; lia).
  assert (Hlen' : length sub' = length sub) by apply length_insert.
  assert (Hset : aset sub (Z.of_nat i) ch = Ok sub').
  { rewrite aset_ok by lia. by rewrite Nat2Z.id. }
  case_decide as Hpos.
  - eapply owns_trust_close.
    { eapply owns_perm; [|exact H1]. apply perm_swap. }
    intros k2 H2 Ha2. eapply wp_mono; [|apply (IH (S i) sub' k2)].
    + cbn. intros [idx sub2] k3 (Ha3 & Hl3 & Hc & rets & calls & Hr). cbn [fst snd] in *.
      split_and!; [congruence..|done|]. exists ((0, (r, w), fork i) :: rets), (CloseFd w :: calls).
      rewrite !decide_False by lia. rewrite (bind_ok _ _ _ Hset), decide_True by lia. fold ch.
      by rewrite (bind_ok _ _ _ Hr).
    + lia.
    + rewrite (take_S_r _ _ ch) by done. rewrite Htake, fmap_app, Hpids, seq_S, fmap_app. done.
    + rewrite (take_S_r _ _ ch) by done. rewrite Htake. apply Forall_app. split; [done|].
      apply Forall_singleton. cbn. lia.
    + rewrite (take_S_r _ _ ch) by done. rewrite Htake. unfold pipe_ends in *. rewrite fmap_app, <- app_assoc.
      cbn. eapply owns_perm; [apply Permutation_middle|]. exact H2.
  - eapply owns_trust_close; [exact H1|]. intros k2 H2 Ha2. cbn.
    assert (fork i = 0) as Hz by lia.
    split_and!; [congruence|done| |].
    + exists i. rewrite <- Htake in *. split; [done..|]. right. split; [done|]. exists r, w.
      split; [by rewrite Hch; unfold ch; rewrite Hz|done].
    + exists [(0, (r, w), fork i)], [CloseFd r]. rewrite !decide_False by lia.
      rewrite (bind_ok _ _ _ Hset), decide_False by lia. done.
Qed.

(** ** The start *)

Definition pool_acts (a : gmap Z (handler * bool)) : gmap Z (handler * bool) :=
  let h := (Handler "sig_handler", true) in <[SIGPIPE := h]> (<[SIGINT := h]> (<[SIGTERM := h]> (<[SIGCHLD := h]> a))).

Definition waits_on (fds : list Z) : file := EpollFile (list_to_map ((fun fd => (fd, Z.lor EPOLLIN EPOLLET)) <$> fds)).

Lemma wp_pool_sig_pipe k0 k L p Q :
  owns k0 k L ->
  (forall epollfd sigfd k', epollfd <> -1 ->
    owns k0 k' ((epollfd, plain (waits_on [sigfd.1])) :: (sigfd.1, nonblocking PairEnd) ::
                (sigfd.2, nonblocking PairEnd) :: L) ->
    acts k' = pool_acts (acts k) -> Q (set_epollfd epollfd p, sigfd) k') ->
  wp (pool_sig_pipe p) Q k.
Proof.
  intros Ho HQ. unfold pool_sig_pipe.
  eapply owns_epoll_create; [exact Ho|]. intros ep k1 Hep H1 A1.
  apply wp_bind. eapply owns_sig_pipe; [exact H1|]. intros sigfd k2 H2 A2.
  apply wp_bind. eapply owns_nonblocking; [eapply owns_perm; [apply perm_swap|exact H2]|]. intros r k3 H3 A3.
  apply wp_bind. eapply (owns_addfd k0 ep sigfd.1 _ _ ((sigfd.2, nonblocking PairEnd) :: L)).
  { eapply owns_perm; [|exact H3]. cbn [kind status plain]. solve_Permutation. }
  { done. }
  intros k4 H4 A4. do 4 apply wp_bind, wp_addsig. cbn [wp mret prog_mret tab descs acts].
  apply HQ; [done| |by rewrite A4, A3, A2, A1].
  destruct H4 as [Hn [? ? ? ? ?]]. by split.
Qed.

(** A started process of the pool, of [c] children before it (or the parent, after
    all [c]): its pool, and what it has open besides [k0]. *)
Record started_pool (fork : nat -> Z) (k0 k : kernel) (port : Z) (p : processpool) (sigfd : Z * Z)
    (c : nat) : Prop := {
  sp_create : exists rets calls p0,
    create None (m_listenfd p) 8 rets = Ok (p0, calls) /\ p = set_epollfd (m_epollfd p) p0;
  sp_size : m_process_number p = 8 /\ length (m_sub_process p) = 8%nat /\ m_stop p = false;
  sp_epollfd : m_epollfd p <> -1;
  sp_pids : m_pid <$> take c (m_sub_process p) = fork <$> seq 0 c;
  sp_live : Forall (fun ch => 0 < m_pid ch) (take c (m_sub_process p));
  sp_acts : acts k = pool_acts (acts k0);
  sp_open :
    let listening := Sock (Some (sin_port port)) (Some 5) in
    let rest := (sigfd.1, nonblocking PairEnd) :: (sigfd.2, nonblocking PairEnd) ::
                pipe_ends (take c (m_sub_process p)) in
    (m_idx p = -1 /\ c = 8%nat /\
     owns k0 k ((m_epollfd p, plain (waits_on [m_listenfd p; sigfd.1])) ::
                (m_listenfd p, nonblocking listening) :: rest)) \/
    (m_idx p = Z.of_nat c /\ exists r w, m_sub_process p !! c = Some (Process 0 (r, w)) /\
     owns k0 k ((m_epollfd p, plain (waits_on [w; sigfd.1])) :: (w, nonblocking PairEnd) ::
                (m_listenfd p, plain listening) :: rest)) }.

(** The last call: the epoll instance, which has the signal pipe, gets what the process works on. *)
Lemma owns_work_on k0 k ep sigfd fd d L Q :
  owns k0 k ((ep, plain (waits_on [sigfd])) :: (sigfd, nonblocking PairEnd) :: (fd, d) :: L) ->
  (forall k', owns k0 k' ((ep, plain (waits_on [fd; sigfd])) ::
                          (fd, Desc (kind d) (Z.lor (status d) O_NONBLOCK)) ::
                          (sigfd, nonblocking PairEnd) :: L) -> acts k' = acts k -> Q tt k') ->
  wp (addfd ep fd) Q k.
Proof.
  intros Ho HQ. eapply owns_addfd; [eapply owns_perm; [|exact Ho]; apply perm_skip, perm_swap| |exact HQ].
  destruct Ho as [Hn _]. cbn in Hn. rewrite !NoDup_cons, !not_elem_of_cons in Hn.
  apply not_elem_of_list_to_map_1. cbn. rewrite list_elem_of_singleton. intros ->. tauto.
Qed.

Lemma wp_cgi_start fork prog0 ip port args k0 :
  wp (cgi_start fork (prog0 :: ip :: port :: args)) (fun r k => exists p sigfd c,
    r = Some (p, sigfd) /\ started_pool fork k0 k (atoi port) p sigfd c) k0.
Proof.
  unfold cgi_start, fork_pool. apply wp_bind. eapply owns_listen_on; [apply owns_nothing|].
  intros lfd k1 H1 A1. rewrite assert_true by (unfold MAX_PROCESS_NUMBER; lia). psimpl.
  change (Z.to_nat 8) with 8%nat. apply wp_bind, wp_bind.
  eapply wp_mono; [|eapply (wp_fork_loop fork k0 _ 8 0); [done|done|by constructor|exact H1]].
  intros [idx sub] k2 (A2 & Hlen & (c & [Hpids Hlive Ho]) & rets & calls & Hr). cbn [fst snd] in *. cbn [wp mret prog_mret].
  set (p0 := ProcessPool 8 idx 0 lfd false sub).
  assert (Hcreate : create None lfd 8 rets = Ok (p0, calls)).
  { unfold create, new_processpool. rewrite decide_True by (unfold MAX_PROCESS_NUMBER; lia).
    change (Z.to_nat 8) with 8%nat. by rewrite (bind_ok _ _ _ Hr). }
  apply wp_bind. destruct Ho as [(-> & -> & Ho)|(-> & r & w & Hw & Ho)].
  - rewrite firstn_all in *. eapply wp_pool_sig_pipe; [exact Ho|]. intros ep sigfd k3 Hep H3 A3.
    cbn [work_fd]. apply wp_bind. unfold work_fd. rewrite decide_False by (cbn; lia). cbn [wp mret prog_mret].
    apply wp_bind. cbn [m_epollfd m_listenfd set_epollfd p0].
    eapply (owns_work_on k0 k3 ep sigfd.1 lfd (plain (Sock (Some (sin_port (atoi port))) (Some 5)))
      ((sigfd.2, nonblocking PairEnd) :: pipe_ends sub)).
    { eapply owns_perm; [|exact H3]. solve_Permutation. }
    intros k4 H4 A4. cbn [wp mret prog_mret]. exists (set_epollfd ep p0), sigfd, (length sub). split; [done|].
    split; cbn [m_sub_process m_epollfd m_listenfd m_idx set_epollfd p0]; rewrite ?firstn_all; try done.
    + by exists rets, calls, p0.
    + by rewrite A4, A3, A2, A1.
    + left. split; [done|]. split; [by rewrite Hlen|]. eapply owns_perm; [|exact H4]. solve_Permutation.
  - eapply wp_pool_sig_pipe; [exact Ho|]. intros ep sigfd k3 Hep H3 A3.
    apply wp_bind. unfold work_fd. rewrite decide_True by (cbn; lia).
    cbn [m_epollfd m_listenfd m_idx m_sub_process set_epollfd p0]. rewrite Nat2Z.id, Hw. cbn [wp mret prog_mret].
    apply wp_bind. eapply (owns_work_on k0 k3 ep sigfd.1 w (plain PairEnd)
      ((sigfd.2, nonblocking PairEnd) :: pipe_ends (take c sub) ++ [(lfd, _)])).
    { eapply owns_perm; [|exact H3]. solve_Permutation. }
    intros k4 H4 A4. cbn [wp mret prog_mret]. exists (set_epollfd ep p0), sigfd, c. split; [done|].
    split; cbn [m_sub_process m_epollfd m_listenfd m_idx set_epollfd p0]; try done.
    + by exists rets, calls, p0.
    + by rewrite A4, A3, A2, A1.
    + right. split; [done|]. exists r, w. split; [done|]. eapply owns_perm; [|exact H4]. solve_Permutation.
Qed.

(** ** Programs that stop at the first failure *)

(** Every call that is checked ends in a failed assertion when it fails. *)
Fixpoint fail_stop {A} (p : prog A) : Prop :=
  match p with
  | Ret _ | AssertF => True
  | Do c p => p (failure c) = AssertF /\ forall x, fail_stop (p x)
  | Trust c p => forall x, fail_stop (p x)
  end.

Lemma fail_stop_bind {A B} (p : prog A) (f : A -> prog B) :
  fail_stop p -> (forall a, fail_stop (f a)) -> fail_stop (p ≫= f).
Proof.
  intros Hp Hf. change (p ≫= f) with (prog_bind f p). induction p as [a|X c p IH|X c p IH|]; cbn in *; auto.
  destruct Hp as [-> Hp]. split; [done|]. intros x. by apply IH.
Qed.

Lemma fail_stop_assert P `{Decision P} : fail_stop (assert P).
Proof. unfold assert. by case_decide. Qed.

Lemma fail_stop_exec {A} (p : prog A) : fail_stop p -> forall bs k,
  quiet (exec p bs k) = true -> value (exec p bs k) = Aborted \/ exec p bs k = exec p [] k.
Proof.
  induction p as [a|X c p IH|X c p IH|]; intros Hp bs k; cbn [exec fail_stop] in *; [by right| | |by left].
  - destruct Hp as [Hc Hp]. destruct (run c k) as [[x k']|]; rewrite ?Hc; [|by left].
    destruct (hd true bs); [|rewrite ?Hc; by left]. by apply IH.
  - destruct (run c k) as [[x k']|]; [|done]. cbn [hd]. destruct (hd true bs); [|done]. by apply IH.
Qed.

#[local] Hint Resolve fail_stop_assert : core.

Lemma fail_stop_checked {X A} (c : call X) (f : X -> prog A) :
  f (failure c) = AssertF -> (forall x, fail_stop (f x)) -> fail_stop (sys c ≫= f).
Proof. by split. Qed.

Lemma fail_stop_addfd epfd fd : fail_stop (addfd epfd fd).
Proof. by repeat intros ?. Qed.

Lemma fail_stop_addsig sig h r : fail_stop (addsig sig h r).
Proof. apply fail_stop_checked; [reflexivity|auto]. Qed.

Lemma fail_stop_sig_pipe : fail_stop sig_pipe.
Proof. apply fail_stop_checked; [done|]. by intros [?|]. Qed.

Lemma fail_stop_listen_on port backlog : fail_stop (listen_on port backlog).
Proof.
  do 3 (apply fail_stop_checked; [reflexivity|intros ?]; apply fail_stop_bind; [auto|intros ?]).
  exact I.
Qed.

Lemma fail_stop_fork_loop fork n : forall i sub, fail_stop (fork_loop fork i n sub).
Proof.
  induction n as [|n IH]; intros i sub; cbn [fork_loop]; [done|].
  apply fail_stop_bind; [apply fail_stop_sig_pipe|intros pipefd].
  apply fail_stop_bind; [auto|intros _]. case_decide; by apply fail_stop_bind.
Qed.

Lemma fail_stop_pool_sig_pipe p : fail_stop (pool_sig_pipe p).
Proof.
  apply fail_stop_checked; [reflexivity|intros ep].
  apply fail_stop_bind; [auto|intros _]. apply fail_stop_bind; [apply fail_stop_sig_pipe|intros sigfd].
  apply fail_stop_bind; [by repeat intros ?|intros _]. apply fail_stop_bind; [apply fail_stop_addfd|intros _].
  do 4 (apply fail_stop_bind; [apply fail_stop_addsig|intros _]). done.
Qed.

Lemma fail_stop_cgi_start fork args : fail_stop (cgi_start fork args).
Proof.
  destruct args as [|? [|? [|port args]]]; try done. unfold cgi_start, fork_pool.
  apply fail_stop_bind; [apply fail_stop_listen_on|intros lfd]. apply fail_stop_bind.
  - apply fail_stop_bind; [auto|intros _]. apply fail_stop_bind; [apply fail_stop_fork_loop|by intros []].
  - intros p. apply fail_stop_bind; [apply fail_stop_pool_sig_pipe|intros [p' sigfd]].
    apply fail_stop_bind; [|intros fd; apply fail_stop_bind; [apply fail_stop_addfd|done]].
    unfold work_fd. case_decide; [|done]. by destruct (_ !! _).
Qed.

(** ** The CGI server *)

(** [C17] cgi_starts: each process of the CGI server comes to its loop ready, or aborts.
    Whatever descriptors are open, whichever calls fail and whatever [fork] answers, as long
    as no [fcntl], [epoll_ctl] and [close] fails: every call is one the kernel can
    carry out; a failed call ends the process, which otherwise runs as if none could
    fail; and a process that gets to its loop is the parent of eight
    children or the child after [c] others, its pool is what the constructor makes of
    the answers, it handles the four signals, its epoll instance waits for the signal
    pipe and for the listening socket, in the parent, or its own end of its pipe, in a
    child, all of them non-blocking, and besides them and one end of the pipe to each earlier child it
    has opened nothing; what was open before is as it was. *)
Theorem cgi_starts fork prog0 ip port args k0 :
  let start := cgi_start fork (prog0 :: ip :: port :: args) in
  runs start k0 (fun r k => exists p sigfd c,
    r = Some (p, sigfd) /\ started_pool fork k0 k (atoi port) p sigfd c) /\
  forall bs, quiet (exec start bs k0) = true ->
    value (exec start bs k0) = Aborted \/ exec start bs k0 = exec start [] k0.
Proof.
  intros start. split; [apply wp_runs, wp_cgi_start|]. intros bs. apply fail_stop_exec, fail_stop_cgi_start.
Qed.

(** The third child, and a process whose second [socketpair] fails. *)
Lemma cgi_starts_witness :
  let start := cgi_start (at_fork 2) (argv "80") in
  (exists r p sigfd c, value (exec start [] boot) = Done r /\ r = Some (p, sigfd) /\
     started_pool (at_fork 2) boot (after (exec start [] boot)) 80 p sigfd c) /\
  (value (exec start [true; true; true; true; true; false] boot) = Aborted \/
   exec start [true; true; true; true; true; false] boot = exec start [] boot).
Proof.
  intros start. destruct (cgi_starts (at_fork 2) (lit "cgi_server") (lit "127.0.0.1") (lit "80") [] boot) as [Hr Hf].
  split; [|apply Hf; vm_compute; reflexivity].
  destruct (Hr []) as [_ H]; [vm_compute; reflexivity|].
  destruct (value (exec start [] boot)) as [r|] eqn:E; [|exfalso; vm_compute in E; discriminate E].
  destruct (H r E) as (p & sigfd & c & Er & Hs). exists r, p, sigfd, c. split; [reflexivity|]. by split.
Defined.

(** The pipes of a parent that has started are distinct, and its children alive: its loop
    ends as [PoolLife.pool_ends] says. *)
Theorem started_parent fork k0 k port p sigfd c :
  started_pool fork k0 k port p sigfd c -> m_idx p = -1 ->
  pool_wf p /\ m_stop p = false /\ m_epollfd p <> -1 /\
  m_pid <$> m_sub_process p = fork <$> seq 0 8 /\
  Forall (fun ch => 0 < m_pid ch) (m_sub_process p) /\
  NoDup ((fun ch => (m_pipefd ch).1) <$> m_sub_process p).
Proof.
  intros [_ (Hn & Hl & Hs) He Hpids Hlive _ [(_ & -> & [Ho _])|(Hc & _)]] Hi; [|lia].
  rewrite (take_ge (m_sub_process p)) in * by lia. split_and!; try done.
  - split; lia.
  - cbn in Ho. do 4 apply NoDup_cons in Ho as [_ Ho]. unfold pipe_ends in Ho. by rewrite <- list_fmap_compose in Ho.
Qed.

(** ends_inherited: a child has, and keeps, the parent's end of the pipe to every child before it. *)
Theorem ends_inherited fork k0 k port p sigfd c j ch :
  started_pool fork k0 k port p sigfd c -> (j < c)%nat -> m_sub_process p !! j = Some ch ->
  desc_at k (m_pipefd ch).1 = Some (plain PairEnd).
Proof.
  intros [_ _ _ _ _ _ Ho] Hj Hch.
  assert (((m_pipefd ch).1, plain PairEnd) ∈ pipe_ends (take c (m_sub_process p))) as Hin.
  { apply list_elem_of_fmap. exists ch. split; [done|]. apply (list_elem_of_lookup_2 _ j).
    by rewrite lookup_take_lt. }
  destruct Ho as [(_ & _ & Ho)|(_ & r & w & _ & Ho)]; eapply owns_desc; try exact Ho; do 4 right; first [exact Hin|right; exact Hin].
Qed.

(** [./cgi_server 127.0.0.1 80] from a shell: the descriptors of the third child.  It has 4 and 5,
    the parent's ends of the pipes to the first two, besides its own end, 7. *)
Lemma ends_inherited_witness :
  let r := exec (cgi_start (at_fork 2) (argv "80")) [] boot in
  exists p, value r = Done (Some (p, (8, 9))) /\ m_idx p = 2 /\ m_sub_process p !! 1%nat = Some (Process 101 (5, 6)) /\
    desc_at (after r) 5 = Some (plain PairEnd).
Proof.
  intros r. destruct (wp_exec _ _ boot [] (wp_cgi_start (at_fork 2) (lit "cgi_server") (lit "127.0.0.1") (lit "80") [] boot))
    as [_ H]; [vm_compute; reflexivity|].
  assert (Hv : exists p, value r = Done (Some (p, (8, 9))) /\ m_idx p = 2 /\
    m_sub_process p !! 1%nat = Some (Process 101 (5, 6))) by (eexists; split_and!; vm_compute; reflexivity).
  destruct Hv as (p & Hv & Hi & Hp). exists p. do 3 (split; [assumption|]).
  destruct (H _ Hv) as (p' & sigfd & c & E & Hs). injection E as <- <-.
  apply (ends_inherited _ _ _ _ _ _ c 1 (Process 101 (5, 6)) Hs); [|done].
  destruct (sp_open _ _ _ _ _ _ _ Hs) as [(Hi' & _)|(Hi' & _)]; rewrite Hi in Hi'; lia.
Defined.

(** The parent, with all eight; and a process whose second [socketpair] fails. *)
Example parent_starts :
  let r := exec (cgi_start (at_fork 9) (argv "80")) [] boot in
  exists p, value r = Done (Some (p, (13, 14))) /\ m_idx p = -1 /\
    (m_pipefd <$> m_sub_process p) = [(4, 5); (5, 6); (6, 7); (7, 8); (8, 9); (9, 10); (10, 11); (11, 12)].
Proof. eexists. split_and!; vm_compute; reflexivity. Qed.

Example pair_fails :
  value (exec (cgi_start (at_fork 9) (argv "80")) [true; true; true; true; true; false] boot) = Aborted.
Proof. vm_compute. reflexivity. Qed.
