(* ===== verification/Sockets.v ===== *)
(** * The short socket programs as wholes (socket/io_multiplexing/io_select.c,
    socket/signal/sigurg_oob.c, socket/rw_flag_oob, socket/others/listen_backlog.c,
    socket/echo, socket/socket_opt, socket/io_multiplexing/io_chatroom_client.c)

    From the arguments to the end, with the part that talks over the connection as a
    parameter, which other files model ([Oob], [RawEcho], [Signals], [Splice]).  What is shown: the
    connection that part gets is the right one, and which descriptors are left. *)

From S2P Require Import Prelude CString Kernel Startup.

(** How a program ends: the usage message, a message that something failed, or with its
    work done. *)
Inductive result := Usage | Failed | Served.

#[export] Instance result_eq_dec : EqDecision result.
Proof. solve_decision. Defined.

Section Programs.
(** The part in the middle: what it does on the connection. *)
Context (talk : Z -> prog unit).

(** ** Servers for one connection *)

(** io_select.c *)
Definition io_select_main (args : list bytes) : prog result :=
  match only_arg args with
  | None => mret Usage
  | Some port =>
      listenfd ← listen_on port 5;
      connfd ← sys (CAccept listenfd);
      if decide (connfd < 0) then
        _ ← trust (CClose listenfd);
        mret Failed
      else
        _ ← talk connfd;
        _ ← trust (CClose connfd);
        _ ← trust (CClose listenfd);
        mret Served
  end.

(** sigurg_oob.c: the handler, and the owner the signal is sent to. *)
Definition sigurg_main (args : list bytes) : prog result :=
  match only_arg args with
  | None => mret Usage
  | Some port =>
      sock ← listen_on port 5;
      connfd ← sys (CAccept sock);
      if decide (connfd < 0) then
        _ ← trust (CClose sock);
        mret Failed
      else
        _ ← addsig 23 (Handler "sig_urg") true;
        _ ← trust (CSetOwn connfd);
        _ ← talk connfd;
        _ ← trust (CClose connfd);
        _ ← trust (CClose sock);
        mret Served
  end.

(** testoobrecv.c: further arguments are ignored, and the listening socket stays open. *)
Definition oobrecv_main (args : list bytes) : prog result :=
  match args with
  | _ :: port :: _ =>
      sock ← listen_on (atoi port) 5;
      connfd ← sys (CAccept sock);
      if decide (connfd < 0) then mret Failed
      else
        _ ← talk connfd;
        _ ← trust (CClose connfd);
        mret Served
  | _ => mret Usage
  end.

(** listen_backlog.c: nothing is accepted; [talk] is the loop that waits for the signal. *)
Definition backlog_main (args : list bytes) : prog result :=
  match args with
  | _ :: port :: backlog :: _ =>
      sock ← listen_on (atoi port) (atoi backlog);
      _ ← talk sock;
      _ ← trust (CClose sock);
      mret Served
  | _ => mret Usage
  end.

(** echoserver.c in socket/echo: [talk] is the loop over the clients. *)
Definition echoserver_main (args : list bytes) : prog result :=
  match only_arg args with
  | None => mret Usage
  | Some port =>
      serverfd ← listen_on port 5;
      _ ← talk serverfd;
      _ ← trust (CClose serverfd);
      mret Served
  end.

(** ** Clients *)

(** testoobsend.c: the socket is closed in either case. *)
Definition oobsend_main (args : list bytes) : prog result :=
  match args with
  | _ :: _ :: port :: _ =>
      sockfd ← sys CSocket;
      _ ← assert (sockfd >= 0);
      ret ← sys (CConnect sockfd (sin_port (atoi port)));
      if decide (ret < 0) then
        _ ← trust (CClose sockfd);
        mret Failed
      else
        _ ← talk sockfd;
        _ ← trust (CClose sockfd);
        mret Served
  | _ => mret Usage
  end.

(** echoclient.c in socket/echo: after a failed [connect] the socket stays open. *)
Definition echoclient_main (args : list bytes) : prog result :=
  match args with
  | [_; _; port] =>
      clientfd ← sys CSocket;
      _ ← assert (clientfd >= 0);
      ret ← sys (CConnect clientfd (sin_port (atoi port)));
      if decide (ret <> 0) then mret Failed
      else
        _ ← talk clientfd;
        _ ← trust (CClose clientfd);
        mret Served
  | _ => mret Usage
  end.

(** io_chatroom_client.c: the pipe is not closed. *)
Definition chat_client_main (args : list bytes) : prog result :=
  match args with
  | [_; _; port] =>
      sockfd ← sys CSocket;
      _ ← assert (sockfd >= 0);
      ret ← sys (CConnect sockfd (sin_port (atoi port)));
      if decide (ret < 0) then
        _ ← trust (CClose sockfd);
        mret Failed
      else
        ret ← sys CPipe;
        match ret with
        | None => AssertF
        | Some pipefd =>
            _ ← talk sockfd;
            _ ← trust (CClose sockfd);
            mret Served
        end
  | _ => mret Usage
  end.

(** ** Socket options *)

(** What [getsockopt] says after [setsockopt]: [set], [get]: whether they succeed;
    [kernel] what the kernel makes of a size, [def] the size before. *)
Definition shown_size (kernel : Z -> Z) (def : Z) (set get : bool) (n : Z) : Z :=
  if get then (if set then kernel n else def) else n.

(** set_recv_buffer.c: the line about the buffer, and the program; the socket stays open. *)
Definition recv_buffer_main (kernel : Z -> Z) (def : Z) (set get : bool) (args : list bytes) : prog (result * bytes) :=
  match args with
  | _ :: port :: size :: _ =>
      sock ← sys CSocket;
      _ ← assert (sock >= 0);
      let recvbuf := shown_size kernel def set get (atoi size) in
      let line := lit "the tcp receive buffer size after setting is " ++ dec recvbuf ++ [LF] in
      ret ← sys (CBind sock (sin_port (atoi port)));
      _ ← assert (ret <> -1);
      ret ← sys (CListen sock 5);
      _ ← assert (ret <> -1);
      connfd ← sys (CAccept sock);
      if decide (connfd < 0) then mret (Failed, line)
      else
        _ ← talk connfd;
        _ ← trust (CClose connfd);
        mret (Served, line)
  | _ => mret (Usage, [])
  end.

(** set_send_buffer.c *)
Definition send_buffer_main (kernel : Z -> Z) (def : Z) (set get : bool) (args : list bytes) : prog (result * bytes) :=
  match args with
  | _ :: _ :: port :: size :: _ =>
      sock ← sys CSocket;
      _ ← assert (sock >= 0);
      let sendbuf := shown_size kernel def set get (atoi size) in
      let line := lit "the tcp send buffer size after setting is " ++ dec sendbuf ++ [LF] in
      ret ← sys (CConnect sock (sin_port (atoi port)));
      if decide (ret <> -1) then
        _ ← talk sock;
        _ ← trust (CClose sock);
        mret (Served, line)
      else
        _ ← trust (CClose sock);
        mret (Failed, line)
  | _ => mret (Usage, [])
  end.
End Programs.

(** ** What the middle part may do *)

(** [talk] works on a connection, and leaves the descriptors as they are; [where_]: what
    the descriptor it gets stands for. *)
Definition keeps (where_ : file -> Prop) (talk : Z -> prog unit) : Prop :=
  forall fd k f, desc_at k fd = Some f -> where_ (kind f) ->
    wp (talk fd) (fun _ k' => tab k' = tab k) k.

Lemma wp_talk {A} where_ talk fd (f : unit -> prog A) Q k d :
  keeps where_ talk -> desc_at k fd = Some d -> where_ (kind d) ->
  (forall k', tab k' = tab k -> wp (f tt) Q k') -> wp (talk fd ≫= f) Q k.
Proof.
  intros Ht Hd Hw HQ. apply wp_bind. eapply wp_mono; [|by eapply Ht].
  intros [] k' Hk. by apply HQ.
Qed.

(** Closing the newest descriptor gives the table back. *)
Lemma delete_newest (t : gmap Z positive) n p : t !! n = None -> delete n (<[n := p]> t) = t.
Proof. intros H. by rewrite delete_insert_eq, delete_id. Qed.

(** A socket, connected. *)
Lemma wp_connected {A} port (f : Z -> Z -> prog A) Q k :
  (forall fd p, 0 <= fd -> tab k !! fd = None -> descs k !! p = None ->
    wp (f fd 0) Q (Kernel (<[fd := p]> (tab k)) (<[p := Desc Conn O_RDWR]> (descs k)) (acts k)) /\
    wp (f fd (-1)) Q (Kernel (<[fd := p]> (tab k)) (<[p := Desc (Sock None None) O_RDWR]> (descs k)) (acts k))) ->
  wp (sockfd ← sys CSocket; _ ← assert (sockfd >= 0); ret ← sys (CConnect sockfd port); f sockfd ret) Q k.
Proof.
  intros HQ. psimpl. cbn [wp run failure]. allocate fd p.
  rewrite (assert_true (fd >= 0)), (assert_false (-1 >= 0)) by lia. split; [|done].
  psimpl. cbn [wp]. klookup. rewrite insert_insert_eq. by apply HQ.
Qed.

(** An accepted connection. *)
Lemma wp_accepted {A} port backlog (f : Z -> Z -> prog A) Q k :
  (forall sock ps, 0 <= sock -> tab k !! sock = None -> descs k !! ps = None ->
    let k1 := Kernel (<[sock := ps]> (tab k)) (<[ps := Desc (Sock (Some (sin_port port)) (Some backlog)) O_RDWR]> (descs k)) (acts k) in
    wp (f sock (-1)) Q k1 /\
    forall connfd pc, 0 <= connfd -> connfd <> sock -> tab k !! connfd = None -> pc <> ps -> descs k !! pc = None ->
      wp (f sock connfd) Q (Kernel (<[connfd := pc]> (tab k1)) (<[pc := Desc Conn O_RDWR]> (descs k1)) (acts k))) ->
  wp (sock ← listen_on port backlog; connfd ← sys (CAccept sock); f sock connfd) Q k.
Proof.
  intros HQ. apply wp_bind, wp_listen_on. intros sock ps Hs Ht Hd _.
  psimpl. cbn [wp]. klookup. destruct (HQ sock ps Hs Ht Hd) as [Hf Ha]. cbn zeta in *. cbn [tab descs acts] in *.
  allocate connfd pc. split; [by apply Ha|exact Hf].
Qed.

(** ** Programs that give back what they have opened *)

Section Clean.
Context (talk : Z -> prog unit) (Htalk : keeps (fun f => f = Conn) talk).

(** What is left is what there was. *)
Definition same_table (k : kernel) (r : result) (k' : kernel) : Prop := r <> Usage /\ tab k' = tab k.

Lemma close_both sock connfd ps pc (t : gmap Z positive) :
  connfd <> sock -> t !! sock = None -> t !! connfd = None ->
  delete sock (delete connfd (<[connfd := pc]> (<[sock := ps]> t))) = t.
Proof. intros Hne Hs Hc. rewrite delete_newest by (by rewrite lookup_insert_ne). by apply delete_newest. Qed.

Lemma io_select_clean prog0 port k : wp (io_select_main talk [prog0; port]) (same_table k) k.
Proof.
  unfold io_select_main. cbn [only_arg]. apply wp_accepted. intros sock ps Hs Ht Hd. cbn zeta. cbn [tab descs acts]. split.
  - rewrite decide_True by lia. apply wp_close; cbn [tab]; [by rewrite lookup_insert_eq|].
    split; [done|]. by apply delete_newest.
  - intros connfd pc Hc Hne Htc Hpc Hdc. rewrite decide_False by lia.
    eapply wp_talk; [exact Htalk|by klookup|done|]. cbn [tab descs]. intros k' Hk.
    apply wp_close; cbn [tab]; [by rewrite Hk, lookup_insert_eq|].
    apply wp_close; cbn [tab]; [by rewrite Hk, lookup_delete_ne, lookup_insert_ne, lookup_insert_eq|].
    split; [done|]. cbn [tab]. rewrite Hk. by apply close_both.
Qed.

Lemma sigurg_clean prog0 port k : wp (sigurg_main talk [prog0; port]) (same_table k) k.
Proof.
  unfold sigurg_main. cbn [only_arg]. apply wp_accepted. intros sock ps Hs Ht Hd. cbn zeta. cbn [tab descs acts]. split.
  - rewrite decide_True by lia. apply wp_close; cbn [tab]; [by rewrite lookup_insert_eq|].
    split; [done|]. by apply delete_newest.
  - intros connfd pc Hc Hne Htc Hpc Hdc. rewrite decide_False by lia.
    apply wp_bind, wp_addsig. psimpl. cbn [wp run tab descs acts]. rewrite lookup_insert_eq. cbn [mbind option_bind].
    eapply wp_talk; [exact Htalk|by klookup|done|]. cbn [tab descs]. intros k' Hk.
    apply wp_close; cbn [tab]; [by rewrite Hk, lookup_insert_eq|].
    apply wp_close; cbn [tab]; [by rewrite Hk, lookup_delete_ne, lookup_insert_ne, lookup_insert_eq|].
    split; [done|]. cbn [tab]. rewrite Hk. by apply close_both.
Qed.

Lemma oobsend_clean prog0 ip port k : wp (oobsend_main talk [prog0; ip; port]) (same_table k) k.
Proof.
  unfold oobsend_main. apply wp_connected. intros fd p Hf Ht Hd. split.
  - rewrite decide_False by lia. eapply wp_talk; [exact Htalk|by klookup|done|]. cbn [tab descs]. intros k' Hk.
    apply wp_close; cbn [tab]; [by rewrite Hk, lookup_insert_eq|].
    split; [done|]. cbn [tab]. rewrite Hk. by apply delete_newest.
  - rewrite decide_True by lia. apply wp_close; cbn [tab]; [by rewrite lookup_insert_eq|].
    split; [done|]. by apply delete_newest.
Qed.

Lemma send_buffer_clean kernel def set get prog0 ip port size k :
  wp (send_buffer_main talk kernel def set get [prog0; ip; port; size])
    (fun r k' => r.2 = lit "the tcp send buffer size after setting is " ++ dec (shown_size kernel def set get (atoi size)) ++ [LF] /\
       same_table k r.1 k') k.
Proof.
  unfold send_buffer_main. apply wp_connected. intros fd p Hf Ht Hd. split.
  - rewrite decide_True by lia. eapply wp_talk; [exact Htalk|by klookup|done|]. cbn [tab descs]. intros k' Hk.
    apply wp_close; cbn [tab]; [by rewrite Hk, lookup_insert_eq|].
    split; [done|]. split; [done|]. cbn [tab]. rewrite Hk. by apply delete_newest.
  - rewrite decide_False by lia. apply wp_close; cbn [tab]; [by rewrite lookup_insert_eq|].
    split; [done|]. split; [done|]. by apply delete_newest.
Qed.

(** sockets_clean: whatever calls fail, the two servers for urgent data, the sender of urgent data and the
    program that sets the send buffer close every descriptor they have opened. *)
Theorem sockets_clean prog0 ip port size kernel def set get k :
  runs (io_select_main talk [prog0; port]) k (same_table k) /\
  runs (sigurg_main talk [prog0; port]) k (same_table k) /\
  runs (oobsend_main talk [prog0; ip; port]) k (same_table k) /\
  runs (send_buffer_main talk kernel def set get [prog0; ip; port; size]) k (fun r k' => same_table k r.1 k').
Proof.
  split_and!; apply wp_runs; [apply io_select_clean|apply sigurg_clean|apply oobsend_clean|].
  eapply wp_mono; [|apply send_buffer_clean]. by intros r k' [_ H].
Qed.

(** ** Programs that leave descriptors open *)

(** [left_open n]: so many descriptors more than before. *)
Inductive left_open : nat -> gmap Z positive -> gmap Z positive -> Prop :=
  | left_none t : left_open 0 t t
  | left_one n t t' fd p : left_open n t t' -> t' !! fd = None -> left_open (S n) t (<[fd := p]> t').

Lemma oobrecv_leaks prog0 port k :
  wp (oobrecv_main talk [prog0; port]) (fun r k' => left_open 1 (tab k) (tab k')) k.
Proof.
  unfold oobrecv_main. apply wp_accepted. intros sock ps Hs Ht Hd. cbn zeta. cbn [tab descs acts]. split.
  - rewrite decide_True by lia. cbn [wp mret prog_mret tab]. by repeat constructor.
  - intros connfd pc Hc Hne Htc Hpc Hdc. rewrite decide_False by lia.
    eapply wp_talk; [exact Htalk|by klookup|done|]. cbn [tab descs]. intros k' Hk.
    apply wp_close; cbn [tab]; [by rewrite Hk, lookup_insert_eq|].
    cbn [wp mret prog_mret tab]. rewrite Hk, delete_newest by (by rewrite lookup_insert_ne). by repeat constructor.
Qed.

Lemma recv_buffer_leaks kernel def set get prog0 port size k :
  wp (recv_buffer_main talk kernel def set get [prog0; port; size])
    (fun r k' => r.2 = lit "the tcp receive buffer size after setting is " ++ dec (shown_size kernel def set get (atoi size)) ++ [LF] /\
       left_open 1 (tab k) (tab k')) k.
Proof.
  unfold recv_buffer_main. set (line := _ ++ _ ++ _). cbn zeta.
  psimpl. cbn [wp run failure]. allocate sock ps.
  rewrite (assert_true (sock >= 0)), (assert_false (-1 >= 0)) by lia. split; [|done].
  psimpl. cbn [wp]. klookup. rewrite (assert_true (0 <> -1)), (assert_false (-1 <> -1)) by lia. split; [|done].
  psimpl. cbn [wp]. rewrite insert_insert_eq. klookup. rewrite (assert_true (0 <> -1)) by lia. split; [|done].
  psimpl. cbn [wp]. rewrite insert_insert_eq. klookup. allocate connfd pc. split.
  - rewrite decide_False by lia.
    eapply wp_talk; [exact Htalk|by klookup|done|]. cbn [tab descs]. intros k' Hk.
    apply wp_close; cbn [tab]; [by rewrite Hk, lookup_insert_eq|].
    split; [done|]. cbn [tab]. rewrite Hk, delete_newest by (by rewrite lookup_insert_ne). by repeat constructor.
  - rewrite decide_True by lia. split; [done|]. cbn [tab]. by repeat constructor.
Qed.

Lemma echoclient_leaks prog0 ip port k :
  wp (echoclient_main talk [prog0; ip; port])
    (fun r k' => if decide (r = Served) then tab k' = tab k else left_open 1 (tab k) (tab k')) k.
Proof.
  unfold echoclient_main. apply wp_connected. intros fd p Hf Ht Hd. split.
  - rewrite decide_False by lia. eapply wp_talk; [exact Htalk|by klookup|done|]. cbn [tab descs]. intros k' Hk.
    apply wp_close; cbn [tab]; [by rewrite Hk, lookup_insert_eq|]. cbn [wp mret prog_mret tab].
    rewrite decide_True by done. rewrite Hk. by apply delete_newest.
  - rewrite decide_True by lia. cbn [wp mret prog_mret tab]. rewrite decide_False by done. by repeat constructor.
Qed.

Lemma chat_client_leaks prog0 ip port k :
  wp (chat_client_main talk [prog0; ip; port])
    (fun r k' => if decide (r = Served) then left_open 2 (tab k) (tab k') else tab k' = tab k) k.
Proof.
  unfold chat_client_main. apply wp_connected. intros fd p Hf Ht Hd. split.
  - rewrite decide_False by lia. psimpl. cbn [wp run failure].
    allocate n1 p1. allocate n2 p2. split; [|done].
    eapply wp_talk; [exact Htalk|by klookup|done|]. cbn [tab descs]. intros k' Hk.
    apply wp_close; cbn [tab]; [by rewrite Hk, (lookup_insert_ne _ n2), (lookup_insert_ne _ n1), lookup_insert_eq|].
    cbn [wp mret prog_mret tab]. rewrite decide_True by done. rewrite Hk.
    rewrite !delete_insert_ne, delete_newest by done.
    repeat constructor; [done|by rewrite lookup_insert_ne].
  - rewrite decide_True by lia. apply wp_close; cbn [tab]; [by rewrite lookup_insert_eq|].
    cbn [wp mret prog_mret tab]. rewrite decide_False by done. by apply delete_newest.
Qed.

(** sockets_leak: the receiver of urgent data and the program that sets the receive buffer leave
    their listening socket open, the echo client its socket when it cannot connect, and the
    chat client its pipe. *)
Theorem sockets_leak prog0 ip port size kernel def set get k :
  runs (oobrecv_main talk [prog0; port]) k (fun _ k' => left_open 1 (tab k) (tab k')) /\
  runs (recv_buffer_main talk kernel def set get [prog0; port; size]) k (fun _ k' => left_open 1 (tab k) (tab k')) /\
  runs (echoclient_main talk [prog0; ip; port]) k
    (fun r k' => if decide (r = Served) then tab k' = tab k else left_open 1 (tab k) (tab k')) /\
  runs (chat_client_main talk [prog0; ip; port]) k
    (fun r k' => if decide (r = Served) then left_open 2 (tab k) (tab k') else tab k' = tab k).
Proof.
  split_and!; apply wp_runs; [apply oobrecv_leaks| |apply echoclient_leaks|apply chat_client_leaks].
  eapply wp_mono; [|apply recv_buffer_leaks]. by intros r k' [_ H].
Qed.
End Clean.

(** ** Listening *)

Section Listening.
Context (talk : Z -> prog unit)
  (Htalk : keeps (fun f => match f with Sock (Some _) (Some _) => True | _ => False end) talk).

(** listeners_clean: the echo server and the backlog program come to their loops with a socket that
    listens, the latter with the backlog it was given, and close it afterwards. *)
Theorem listeners_clean prog0 port backlog k :
  runs (echoserver_main talk [prog0; port]) k (fun r k' => r = Served /\ tab k' = tab k) /\
  runs (backlog_main talk [prog0; port; backlog]) k (fun r k' => r = Served /\ tab k' = tab k).
Proof.
  split; apply wp_runs; unfold echoserver_main, backlog_main; cbn [only_arg];
    apply wp_bind, wp_listen_on; intros sock ps Hs Ht Hd _;
    (eapply wp_talk; [exact Htalk|by klookup|done|]); cbn [tab descs]; intros k' Hk;
    (apply wp_close; cbn [tab]; [by rewrite Hk, lookup_insert_eq|]);
    (split; [done|]); cbn [tab]; rewrite Hk; by apply delete_newest.
Qed.
End Listening.

(** What Linux makes of a buffer size: a limit, then twice that, and a least value; the
    program's [int] is taken as unsigned. *)
Definition linux_size (least most n : Z) : Z := Z.max least (2 * Z.min (n mod 2 ^ 32) most).

(** buffer_doubled: within the limits the size shown is twice the size asked for, never less than
    the least; when the option cannot be read the size asked for is shown as if it were set. *)
Theorem buffer_doubled least most def n :
  0 <= n <= most -> most < 2 ^ 31 -> least <= 2 * n ->
  shown_size (linux_size least most) def true true n = 2 * n /\
  (forall set, shown_size (linux_size least most) def set false n = n) /\
  (forall m, least <= shown_size (linux_size least most) def true true m).
Proof.
  intros Hn Hm Hl. unfold shown_size, linux_size. split_and!; [|done|lia].
  rewrite Z.mod_small by lia. lia.
Qed.

(** ** The hypotheses hold *)

Lemma idle_keeps (where_ : file -> Prop) : keeps where_ (fun _ => mret tt).
Proof. by intros fd k f _ _. Qed.

Lemma sockets_clean_witness :
  runs (io_select_main (fun _ => mret tt) [lit "io_select"; lit "80"]) boot (same_table boot).
Proof. exact (proj1 (sockets_clean (fun _ => mret tt) (idle_keeps _) (lit "io_select") [] (lit "80") [] id 0 true true boot)). Defined.

Lemma sockets_leak_witness :
  runs (oobrecv_main (fun _ => mret tt) [lit "oobrecv"; lit "80"]) boot (fun _ k' => left_open 1 (tab boot) (tab k')).
Proof. exact (proj1 (sockets_leak (fun _ => mret tt) (idle_keeps _) (lit "oobrecv") [] (lit "80") [] id 0 true true boot)). Defined.

Lemma listeners_clean_witness :
  runs (backlog_main (fun _ => mret tt) [lit "b"; lit "80"; lit "5"]) boot (fun r k' => r = Served /\ tab k' = tab boot).
Proof. exact (proj2 (listeners_clean (fun _ => mret tt) (idle_keeps _) (lit "b") (lit "80") (lit "5") boot)). Defined.

Lemma buffer_doubled_witness :
  (0 <= 2000 <= 212992) /\ shown_size (linux_size 2304 212992) 131072 true true 2000 = 4000 /\
  shown_size (linux_size 2304 212992) 131072 true true 50 = 2304.
Proof. split; [lia|]. split; [apply (buffer_doubled 2304 212992 131072 2000); lia|reflexivity]. Defined.
