(* ===== verification/Descriptors.v ===== *)
(** * Descriptors: daemons, redirection, passing (socket/others/daemonize.h, socket/CGI/cgi.c,
    socket/ipc/socketpair.c, apue/ipc/test_socketpair.c)

    Programs that depend on which number a new descriptor gets, and on descriptors that
    share an open file description, on the kernel of [Kernel]. *)

From S2P Require Import Prelude CString Kernel Startup.

(** ** Lemmas: running when every call that can succeed does *)

Definition succeeds {A} (p : prog A) (k : kernel) (Q : A -> kernel -> Prop) : Prop :=
  exists a, value (exec p [] k) = Done a /\ Q a (after (exec p [] k)).

Lemma succeeds_ret {A} (a : A) k Q : Q a k -> succeeds (mret a) k Q.
Proof. intros H. by exists a. Qed.

(** [close] removes the entry, whether there is one or not. *)
Lemma succeeds_close {A} fd (f : Z -> prog A) k Q :
  (forall r, succeeds (f r) (Kernel (delete fd (tab k)) (descs k) (acts k)) Q) ->
  succeeds (trust (CClose fd) ≫= f) k Q.
Proof.
  intros H. unfold succeeds. psimpl. cbn [exec run hd tl failure].
  destruct (tab k !! fd) as [p|] eqn:E; cbn [mbind option_bind]; [apply H|].
  specialize (H (-1)). rewrite delete_id in H by done. by destruct k.
Qed.

Lemma succeeds_open {A} path mode (f : Z -> prog A) k Q :
  (forall p, descs k !! p = None ->
    succeeds (f (lowest (tab k))) (Kernel (<[lowest (tab k) := p]> (tab k))
      (<[p := Desc (PathFile path) mode]> (descs k)) (acts k)) Q) ->
  succeeds (trust (COpen path mode) ≫= f) k Q.
Proof.
  intros H. unfold succeeds. psimpl. cbn [exec run hd tl].
  destruct (alloc_spec (Desc (PathFile path) mode) k) as (n & p & -> & ? & ? & ? & ->). by apply H.
Qed.

(** ** daemonize.h *)

Inductive effect := Umask (mask : Z) | NewSession | Root.
Inductive ended := Exited (status : Z) | Returned (b : bool).

(** With the results of [fork], [setsid] and [chdir]: how it ends, and what it did
    besides the calls on descriptors. *)
Definition daemonize (fork setsid chdir : Z) : prog (ended * list effect) :=
  if decide (fork < 0) then mret (Returned false, [Umask 0])
  else if decide (fork > 0) then mret (Exited 0, [Umask 0])
  else if decide (setsid < 0) then mret (Returned false, [Umask 0])
  else if decide (chdir < 0) then mret (Returned false, [Umask 0; NewSession])
  else
    _ ← trust (CClose 0);
    _ ← trust (CClose 1);
    _ ← trust (CClose 2);
    _ ← trust (COpen "/dev/null" O_RDONLY);
    _ ← trust (COpen "/dev/null" O_RDWR);
    _ ← trust (COpen "/dev/null" O_RDWR);
    mret (Returned true, [Umask 0; NewSession; Root]).

(** daemonize_streams: the child becomes a daemon whose three standard descriptors are /dev/null,
    the first for reading, the others for both, whether they were open before or not;
    its other descriptors are as they were. *)
Theorem daemonize_streams setsid chdir k :
  0 <= setsid -> 0 <= chdir ->
  succeeds (daemonize 0 setsid chdir) k (fun r k' =>
    r = (Returned true, [Umask 0; NewSession; Root]) /\
    desc_at k' 0 = Some (Desc (PathFile "/dev/null") O_RDONLY) /\
    desc_at k' 1 = Some (Desc (PathFile "/dev/null") O_RDWR) /\
    desc_at k' 2 = Some (Desc (PathFile "/dev/null") O_RDWR) /\
    forall fd, fd ∉ [0; 1; 2] -> tab k' !! fd = tab k !! fd).
Proof.
  intros Hs Hc. unfold daemonize. rewrite !decide_False by lia.
  do 3 (apply succeeds_close; intros _). cbn [tab descs acts].
  set (t := delete 2 (delete 1 (delete 0 (tab k)))).
  assert (t !! 0 = None /\ t !! 1 = None /\ t !! 2 = None) as (T0 & T1 & T2).
  { unfold t. split_and!; rewrite ?(lookup_delete_ne _ 2) by done; rewrite ?(lookup_delete_ne _ 1) by done;
      apply lookup_delete_eq. }
  apply succeeds_open. cbn [tab descs acts]. intros p0 P0. rewrite (lowest_unique _ 0) by (done || lia).
  apply succeeds_open. cbn [tab descs acts]. intros p1 P1. rewrite (lowest_unique _ 1).
  2: done. 2: by rewrite lookup_insert_ne.
  2: { intros m Hm. replace m with 0 by lia. by rewrite lookup_insert_eq. }
  apply succeeds_open. cbn [tab descs acts]. intros p2 P2. rewrite (lowest_unique _ 2).
  2: done. 2: by rewrite !lookup_insert_ne.
  2: { intros m Hm. assert (m = 0 \/ m = 1) as [-> | ->] by lia;
       [rewrite lookup_insert_ne, lookup_insert_eq by done|rewrite lookup_insert_eq]; done. }
  fresh_ne. apply succeeds_ret. split; [done|]. cbn [tab]. split_and!; [by klookup..|].
  intros fd Hfd. rewrite !not_elem_of_cons in Hfd. destruct Hfd as (F0 & F1 & F2 & _).
  rewrite !lookup_insert_ne by done. unfold t. by rewrite !lookup_delete_ne.
Qed.

Lemma daemonize_streams_witness :
  0 <= 100 /\ succeeds (daemonize 0 100 0) boot (fun r k' => desc_at k' 1 = Some (Desc (PathFile "/dev/null") O_RDWR)).
Proof.
  split; [lia|]. destruct (daemonize_streams 100 0 boot) as (a & E & _ & _ & H & _); [lia..|]. by exists a.
Defined.

(** If /dev/null cannot be opened, [daemonize] still says true, and the next file
    that is opened becomes the standard input. *)
Example daemonize_unchecked :
  let r := exec (daemonize 0 100 0) [true; true; true; false; false; false] boot in
  value r = Done (Returned true, [Umask 0; NewSession; Root]) /\ quiet r = false /\ lowest (tab (after r)) = 0.
Proof. split_and!; vm_compute; reflexivity. Qed.

(** ** cgi.c *)

(** What [main] returns, prints to its terminal, or leaves in the buffer of stdout. *)
Inductive cgi_end := Usage | AcceptFailed | Served (buffered : bytes).

Definition cgi_main (args : list bytes) : prog cgi_end :=
  match args with
  | _ :: _ :: port :: _ =>
      sock ← listen_on (atoi port) 5;
      connfd ← sys (CAccept sock);
      if decide (connfd < 0) then
        _ ← trust (CClose sock);
        mret AcceptFailed
      else
        _ ← trust (CClose 1);
        _ ← trust (CDup connfd);
        (* printf to a buffered stdout *)
        _ ← trust (CClose connfd);
        _ ← trust (CClose sock);
        mret (Served (lit "abcd" ++ [LF]))
  | _ => mret Usage
  end.

Lemma wp_dup {A} fd (f : Z -> prog A) Q k p :
  tab k !! fd = Some p ->
  wp (f (lowest (tab k))) Q (Kernel (<[lowest (tab k) := p]> (tab k)) (descs k) (acts k)) ->
  wp (trust (CDup fd) ≫= f) Q k.
Proof. intros Hp H. psimpl. cbn [wp run]. by rewrite Hp. Qed.

(** (After two allocations descriptor 0 is in use.) *)
Lemma low_zero (t : gmap Z positive) n p m q :
  0 <= n -> n = lowest t -> is_Some (<[m := q]> (<[n := p]> t) !! 0).
Proof.
  intros Hn Hl. destruct (lowest_spec t) as (_ & _ & H). rewrite !lookup_insert_is_Some'.
  destruct (decide (n = 0)) as [->|]; [tauto|]. right. right. apply H. lia.
Qed.

(** cgi_redirects: when the program ends its standard output is the connection, so that the
    client gets what was printed; the connection and the socket have no other
    descriptor left. *)
Theorem cgi_redirects prog0 ip port k :
  is_Some (tab k !! 1) ->
  runs (cgi_main [prog0; ip; port]) k (fun r k' => match r with
    | Usage => False
    | AcceptFailed => tab k' = tab k
    | Served out => out = lit "abcd" ++ [LF] /\
        exists p, desc_at k' 1 = Some (Desc Conn O_RDWR) /\ tab k' = <[1 := p]> (tab k)
    end).
Proof.
  intros [p1 H1]. apply wp_runs. unfold cgi_main. apply wp_bind, wp_listen_on. intros sock ps Hs Ht Hd Hl.
  psimpl. cbn [wp]. klookup. allocate connfd pc.
  assert (sock <> 1 /\ connfd <> 1) as [Hs1 Hc1] by (split; congruence).
  set (ds := <[pc := _]> _). assert (ds !! pc = Some (Desc Conn O_RDWR)) as Hpc by apply lookup_insert_eq.
  clearbody ds. split.
  - rewrite decide_False by lia. apply wp_close; cbn [tab descs acts]. { rewrite !lookup_insert_ne; done. }
    eapply (wp_dup _ _ _ _ pc); cbn [tab descs acts]. { rewrite lookup_delete_ne, lookup_insert_eq; done. }
    rewrite (lowest_unique _ 1) by (first [lia | apply lookup_delete_eq | intros m Hm; replace m with 0 by lia;
      rewrite lookup_delete_ne by done; by apply low_zero]).
    apply wp_close; cbn [tab descs acts].
    { rewrite lookup_insert_ne, lookup_delete_ne, lookup_insert_eq; done. }
    apply wp_close; cbn [tab descs acts].
    { rewrite lookup_delete_ne, lookup_insert_ne, lookup_delete_ne, lookup_insert_ne, lookup_insert_eq; done. }
    cbn [wp mret prog_mret]. split; [done|]. exists pc. unfold desc_at. cbn [tab descs].
    rewrite insert_delete_eq. split.
    + rewrite !lookup_delete_ne, lookup_insert_eq by done. done.
    + apply map_eq. intros i. destruct (decide (i = sock)) as [->|I1].
      { by rewrite lookup_delete_eq, lookup_insert_ne. }
      rewrite lookup_delete_ne by done. destruct (decide (i = connfd)) as [->|I2].
      { by rewrite lookup_delete_eq, lookup_insert_ne. }
      rewrite lookup_delete_ne by done. destruct (decide (i = 1)) as [->|I3]; [by rewrite !lookup_insert_eq|].
      by rewrite !lookup_insert_ne.
  - rewrite decide_True by lia. apply wp_close; cbn [tab]. { by rewrite lookup_insert_eq. }
    cbn [wp mret prog_mret tab]. by apply delete_insert_id.
Qed.

Lemma cgi_redirects_witness :
  is_Some (tab boot !! 1) /\
  exists p, desc_at (after (exec (cgi_main [lit "cgi"; lit "127.0.0.1"; lit "80"]) [] boot)) 1 = Some (Desc Conn O_RDWR) /\
    tab (after (exec (cgi_main [lit "cgi"; lit "127.0.0.1"; lit "80"]) [] boot)) = <[1 := p]> (tab boot).
Proof.
  split; [by eexists|].
  destruct (cgi_redirects (lit "cgi") (lit "127.0.0.1") (lit "80") boot) with (bs := @nil bool) as [_ H];
    [by eexists|vm_compute; reflexivity|].
  destruct (H (Served (lit "abcd" ++ [LF]))) as [_ Hp]; [vm_compute; reflexivity|exact Hp].
Defined.

(** Started with its standard output closed, the program serves nobody: the socket
    is descriptor 1 and is closed, and so is the duplicate in the end. *)
Example cgi_closed_stdout :
  let r := exec (cgi_main [lit "cgi"; lit "127.0.0.1"; lit "80"]) []
             (Kernel {[0 := 1%positive]} {[1%positive := Desc (PathFile "tty") O_RDWR]} ∅) in
  value r = Done (Served (lit "abcd" ++ [LF])) /\ desc_at (after r) 1 = None.
Proof. split; vm_compute; reflexivity. Qed.

(** ** Passing a descriptor (socketpair.c, test_socketpair.c)

    The control message is built in memory, a list of bytes: [struct cmsghdr] has 16
    bytes on a 64-bit machine, and [CMSG_DATA] is what follows it.  Both
    programs use a lone [struct cmsghdr] as the whole buffer, so that the descriptor
    does not lie in it; [slack] is the number of bytes behind it that the
    compiler happens to leave, [0] for a program that is to be correct.  The same for
    [buf], of length 0 in one program and 1 in the other. *)
Module Passing.

(** A 32-bit [int] in memory. *)
Definition le32 (z : Z) : list Z := (fun i => (z / 256 ^ i) mod 256) <$> [0; 1; 2; 3].
Definition of_le32 (l : list Z) : Z := to_int (foldr (fun b acc => b + 256 * acc) 0 l).

Definition SOL_SOCKET : Z := 1.
Definition SCM_RIGHTS : Z := 1.
Definition CMSG_LEN (n : Z) : Z := 16 + n.

(** The [int] at [CMSG_DATA]. *)
Definition cmsg_int (cm : list Z) : res Z :=
  if decide (20 <= length cm)%nat then Ok (of_le32 (take 4 (drop 16 cm))) else Err OutOfBounds.

(** The header and the descriptor, written into the memory of [cm]. *)
Definition set_cmsg (cm : list Z) (fd : Z) : res (list Z) :=
  cm ← awrite cm 0 (le32 (CMSG_LEN 4) ++ le32 0);
  cm ← awrite cm 8 (le32 SOL_SOCKET);
  cm ← awrite cm 12 (le32 SCM_RIGHTS);
  awrite cm 16 (le32 fd).

(** What the kernel makes of the message: a reference to the description the sender's
    descriptor stands for; [None]: sendmsg fails. *)
Definition sendmsg (k : kernel) (cm : list Z) : res (option positive) :=
  fd ← cmsg_int cm;
  Ok (tab k !! fd).

(** The memory of [cm] and of [buf], and the descriptor to send. *)
Definition send_fd (cm buf : list Z) (fd_to_send : Z) (k : kernel) : res (option positive) :=
  cm ← set_cmsg cm fd_to_send;
  _ ← aget buf 0;                          (* iov_len is 1 *)
  sendmsg k cm.

(** [recvmsg] installs the description under the lowest free number and writes that
    number; without a message [cm] is not written. *)
Definition recv_fd (cm buf : list Z) (m : option positive) (k : kernel) : res (Z * kernel) :=
  match m with
  | None => Err Uninit
  | Some p =>
      _ ← aset buf 0 0;
      let n := lowest (tab k) in
      let k := Kernel (<[n := p]> (tab k)) (descs k) (acts k) in
      cm ← set_cmsg cm n;
      fd_to_read ← cmsg_int cm;
      Ok (fd_to_read, k)
  end.

(** [main] of socketpair.c: the child opens the file, or not ([opened]), sends it or the
    standard input, and the parent receives it: the parent's descriptor and its kernel.
    The processes have their own tables and share the descriptions. *)
Definition socketpair_main (slack buf_len : nat) (opened : bool) (k : kernel) : res (Z * kernel) :=
  let cm := replicate (16 + slack) 0 in
  let buf := replicate buf_len 0 in
  let '(pipefd0, k) := alloc (Desc PairEnd O_RDWR) k in
  let '(pipefd1, k) := alloc (Desc PairEnd O_RDWR) k in
  (* fork *)
  let child := Kernel (delete pipefd0 (tab k)) (descs k) (acts k) in
  let '(fd_to_pass, child) := if opened then alloc (Desc (PathFile "test.txt") O_RDWR) child else (-1, child) in
  m ← send_fd cm buf (if decide (fd_to_pass > 0) then fd_to_pass else 0) child;
  let parent := Kernel (delete pipefd1 (tab k)) (descs child) (acts k) in
  recv_fd cm buf m parent.

(** [main] of test_socketpair.c: [buf] has one byte, and without the file an assertion of the
    child fails, so that nothing is sent. *)
Definition test_main (slack : nat) (opened : bool) (k : kernel) : res (Z * kernel) :=
  if opened then socketpair_main slack 1 true k
  else
    let '(pipefd0, k) := alloc (Desc PairEnd O_RDWR) k in
    let '(pipefd1, k) := alloc (Desc PairEnd O_RDWR) k in
    recv_fd (replicate (16 + slack) 0) (replicate 1 0) None (Kernel (delete pipefd1 (tab k)) (descs k) (acts k)).

(** ** An [int] in memory *)

Lemma le32_length z : length (le32 z) = 4%nat.
Proof. done. Qed.

(** le32_roundtrip: an [int] written to memory is read back. *)
Lemma le32_roundtrip z : int_range z -> of_le32 (le32 z) = z.
Proof.
  unfold int_range, INT_MIN, INT_MAX. intros Hz. unfold of_le32, le32, to_int. cbn [fmap list_fmap foldr].
  change (256 ^ 0) with 1. change (256 ^ 1) with 256. change (256 ^ 2) with 65536. change (256 ^ 3) with 16777216.
  rewrite Z.div_1_r.
  replace (z / 65536) with (z / 256 / 256) by (rewrite Z.div_div by lia; done).
  replace (z / 16777216) with (z / 256 / 256 / 256) by (rewrite !Z.div_div by lia; done).
  set (a := z / 256). set (b := a / 256). set (c := b / 256).
  assert (z = 256 * a + z mod 256) as E1 by (apply Z.div_mod; lia).
  assert (a = 256 * b + a mod 256) as E2 by (apply Z.div_mod; lia).
  assert (b = 256 * c + b mod 256) as E3 by (apply Z.div_mod; lia).
  assert (c = 256 * (c / 256) + c mod 256) as E4 by (apply Z.div_mod; lia).
  assert (z mod 256 + 256 * (a mod 256 + 256 * (b mod 256 + 256 * (c mod 256 + 256 * 0))) =
    z - 4294967296 * (c / 256)) as -> by lia.
  replace (z - 4294967296 * (c / 256) + 2147483648) with (z + 2147483648 + (- (c / 256)) * 4294967296) by lia.
  rewrite Z.mod_add by lia. rewrite Z.mod_small by lia. lia.
Qed.

(** ** The memory of the message *)

Lemma set_cmsg_short cm fd : length cm = 16%nat -> set_cmsg cm fd = Err OutOfBounds.
Proof.
  intros H. do 16 (destruct cm as [|? cm]; [discriminate|]). destruct cm; [|discriminate]. reflexivity.
Qed.

Lemma awrite_fits {A} (a : list A) i s :
  0 <= i -> i + Z.of_nat (length s) <= Z.of_nat (length a) ->
  exists a', awrite a i s = Ok a' /\ length a' = length a /\ take (length s) (drop (Z.to_nat i) a') = s.
Proof.
  intros Hi Hl. unfold awrite. rewrite decide_True by done. eexists. split; [reflexivity|]. split.
  - rewrite !length_app, length_take, length_drop. lia.
  - rewrite drop_app_ge by (rewrite length_take; lia). rewrite length_take.
    replace (Z.to_nat i - _)%nat with 0%nat by lia. apply take_app_length.
Qed.

Lemma set_cmsg_long cm fd : (20 <= length cm)%nat -> int_range fd ->
  exists cm', set_cmsg cm fd = Ok cm' /\ cmsg_int cm' = Ok fd.
Proof.
  intros H Hfd. unfold set_cmsg.
  destruct (awrite_fits cm 0 (le32 (CMSG_LEN 4) ++ le32 0)) as (c1 & -> & L1 & _);
    [lia|rewrite length_app, !le32_length; lia|]. cbn [mbind res_bind].
  destruct (awrite_fits c1 8 (le32 SOL_SOCKET)) as (c2 & -> & L2 & _); [lia|rewrite le32_length; lia|]. cbn [mbind res_bind].
  destruct (awrite_fits c2 12 (le32 SCM_RIGHTS)) as (c3 & -> & L3 & _); [lia|rewrite le32_length; lia|]. cbn [mbind res_bind].
  destruct (awrite_fits c3 16 (le32 fd)) as (c4 & -> & L4 & E4); [lia|rewrite le32_length; lia|].
  exists c4. split; [done|]. unfold cmsg_int. rewrite decide_True by lia. f_equal.
  rewrite le32_length in E4. change (Z.to_nat 16) with 16%nat in E4. rewrite E4. by apply le32_roundtrip.
Qed.

(** ** The programs *)

(** passing_overruns: with memory for what they declare only, neither program passes anything: the
    descriptor is written behind the control message. *)
Theorem passing_overruns buf_len opened k :
  socketpair_main 0 buf_len opened k = Err OutOfBounds.
Proof.
  unfold socketpair_main. destruct (alloc _ k) as [n0 k0]. destruct (alloc _ k0) as [n1 k1].
  destruct (if opened then _ else _) as [fd child]. unfold send_fd.
  by rewrite set_cmsg_short by done.
Qed.

(** The variant with [char buf[0]] goes out of bounds even then. *)
Lemma empty_buf_overruns slack opened k :
  socketpair_main slack 0 opened k = Err OutOfBounds.
Proof.
  unfold socketpair_main. destruct (alloc _ k) as [n0 k0]. destruct (alloc _ k0) as [n1 k1].
  destruct (if opened then _ else _) as [fd child]. unfold send_fd.
  destruct (set_cmsg _ _) as [cm|f] eqn:E; cbn [mbind res_bind]; [by rewrite aget_oob by (cbn; lia)|].
  revert E. unfold set_cmsg, awrite.
  repeat (case_decide; cbn [mbind res_bind]); by intros [= <-].
Qed.

Lemma lowest_int t : Z.of_nat (size t) < 1000000 -> int_range (lowest t).
Proof.
  intros Hs. destruct (lowest_spec t) as (H0 & _ & H). unfold int_range, INT_MIN, INT_MAX.
  assert (Z.to_nat (lowest t) <= size t)%nat; [|lia]. apply seq_taken. intros m Hm. apply H. lia.
Qed.

Lemma send_fd_long slack buf_len fd k :
  (4 <= slack)%nat -> (1 <= buf_len)%nat -> int_range fd ->
  send_fd (replicate (16 + slack) 0) (replicate buf_len 0) fd k = Ok (tab k !! fd).
Proof.
  intros Hs Hb Hfd. unfold send_fd.
  destruct (set_cmsg_long (replicate (16 + slack) 0) fd) as (cm & -> & E); [rewrite length_replicate; lia|done|].
  cbn [mbind res_bind]. destruct buf_len; [lia|]. cbn [replicate]. change (aget (0 :: replicate buf_len 0) 0) with (Ok 0).
  cbn [mbind res_bind]. unfold sendmsg. by rewrite E.
Qed.

Lemma recv_fd_long slack buf_len p k :
  (4 <= slack)%nat -> (1 <= buf_len)%nat -> Z.of_nat (size (tab k)) < 1000000 ->
  recv_fd (replicate (16 + slack) 0) (replicate buf_len 0) (Some p) k =
    Ok (lowest (tab k), Kernel (<[lowest (tab k) := p]> (tab k)) (descs k) (acts k)).
Proof.
  intros Hs Hb Hk. unfold recv_fd. destruct buf_len; [lia|]. rewrite aset_ok by (rewrite length_replicate; lia).
  cbn [mbind res_bind].
  destruct (set_cmsg_long (replicate (16 + slack) 0) (lowest (tab k))) as (cm & -> & E);
    [rewrite length_replicate; lia|by apply lowest_int|].
  cbn [mbind res_bind]. by rewrite E.
Qed.

(** passing_shares: if there is room behind the message, the parent gets a new descriptor of its
    own for the very file the child has opened, or for the standard input when there
    is no file; its other descriptors are as they were, with one end of the pair. *)
Theorem passing_shares slack buf_len opened k :
  (4 <= slack)%nat -> (1 <= buf_len)%nat -> Z.of_nat (size (tab k)) < 1000 -> is_Some (tab k !! 0) ->
  exists n k', socketpair_main slack buf_len opened k = Ok (n, k') /\ tab k !! n = None /\
    (if opened then desc_at k' n = Some (Desc (PathFile "test.txt") O_RDWR) else tab k' !! n = tab k' !! 0) /\
    exists m, m <> n /\ tab k !! m = None /\ desc_at k' m = Some (Desc PairEnd O_RDWR) /\
      forall fd, fd <> n -> fd <> m -> tab k' !! fd = tab k !! fd.
Proof.
  intros Hs Hb Hk [p0 H0]. unfold socketpair_main.
  destruct (alloc_spec (Desc PairEnd O_RDWR) k) as (m & pm & -> & Hm & Htm & Hdm & Hlm).
  destruct (alloc_spec (Desc PairEnd O_RDWR) (Kernel (<[m := pm]> (tab k)) (<[pm := Desc PairEnd O_RDWR]> (descs k)) (acts k)))
    as (n & pn & -> & Hn & Htn & Hdn & Hln). cbn [tab descs acts] in *. fresh_ne.
  assert (m <> 0 /\ n <> 0) as [Hm0 Hn0] by (split; congruence).
  set (tp := delete n (<[n := pn]> (<[m := pm]> (tab k)))).
  assert (tp = <[m := pm]> (tab k)) as Etp by (apply delete_insert_id; by rewrite lookup_insert_ne).
  assert (lowest tp = n) as Hlp by (by rewrite Etp).
  assert (Z.of_nat (size tp) < 1000000) as Hsz by (rewrite Etp, map_size_insert_None by done; lia).
  assert (forall (ds : gmap positive desc) p, ds !! pm = Some (Desc PairEnd O_RDWR) ->
    (if opened then ds !! p = Some (Desc (PathFile "test.txt") O_RDWR) else p = p0) ->
    exists n' k', Ok (n, Kernel (<[n := p]> tp) ds (acts k)) = Ok (n', k') /\ tab k !! n' = None /\
    (if opened then desc_at k' n' = Some (Desc (PathFile "test.txt") O_RDWR) else tab k' !! n' = tab k' !! 0) /\
    exists m, m <> n' /\ tab k !! m = None /\ desc_at k' m = Some (Desc PairEnd O_RDWR) /\
      forall fd, fd <> n' -> fd <> m -> tab k' !! fd = tab k !! fd) as Hend.
  { intros ds p Hpm Hp. do 2 eexists. split; [reflexivity|]. split; [done|]. unfold desc_at. cbn [tab descs].
    rewrite Etp. split.
    - destruct opened; [by rewrite lookup_insert_eq|]. subst p.
      by rewrite lookup_insert_eq, !lookup_insert_ne by done.
    - exists m. split_and!; try done; [by rewrite lookup_insert_ne, lookup_insert_eq by done|].
      intros fd H1 H2. by rewrite !lookup_insert_ne by done. }
  destruct opened.
  - destruct (alloc_spec (Desc (PathFile "test.txt") O_RDWR)
      (Kernel (delete m (<[n := pn]> (<[m := pm]> (tab k))))
        (<[pn := Desc PairEnd O_RDWR]> (<[pm := Desc PairEnd O_RDWR]> (descs k))) (acts k)))
      as (fd & pf & -> & Hf & Htf & Hdf & Hlf). cbn [tab descs acts] in *. fresh_ne.
    assert (fd <> 0) by (intros ->; rewrite lookup_delete_ne, !lookup_insert_ne in Htf by done; congruence).
    rewrite decide_True by lia. rewrite send_fd_long.
    2-3: lia.
    2: { rewrite Hlf. apply lowest_int. rewrite delete_insert_ne, delete_insert_id by done.
         rewrite map_size_insert_None by done. lia. }
    cbn [tab]. rewrite lookup_insert_eq. cbn [mbind res_bind]. rewrite recv_fd_long by done. cbn [tab descs acts].
    fold tp. rewrite Hlp. apply Hend; klookup; done.
  - rewrite decide_False by lia. rewrite send_fd_long by (done || lia). cbn [tab].
    rewrite lookup_delete_ne, !lookup_insert_ne, H0 by done. cbn [mbind res_bind].
    rewrite recv_fd_long by done. cbn [tab descs acts]. fold tp. rewrite Hlp. apply Hend; [|done]. by klookup.
Qed.

(** "I got fd 4": the child's own descriptor was 3. *)
Lemma passing_shares_witness :
  (exists k', socketpair_main 8 1 true boot = Ok (4, k')) /\
  exists n k', socketpair_main 8 1 true boot = Ok (n, k') /\ desc_at k' n = Some (Desc (PathFile "test.txt") O_RDWR).
Proof.
  split; [eexists; vm_compute; reflexivity|].
  destruct (passing_shares 8 1 true boot) as (n & k' & E & _ & H & _);
    [apply Nat.leb_le; reflexivity|done|vm_compute; reflexivity|by eexists|].
  by exists n, k'.
Defined.

End Passing.
