(* ===== verification/WaitStatus.v ===== *)
(** * Waiting for processes (apue/system.c, apue/wait.c, apue/nice.c)

    The status word of [wait], its macros, and the programs that print it. *)

From S2P Require Import Prelude CString.

(** ** The status word (<sys/wait.h>) *)

Definition WTERMSIG (s : Z) : Z := Z.land s 127.
Definition WEXITSTATUS (s : Z) : Z := Z.shiftr (Z.land s 65280) 8.
Definition WSTOPSIG (s : Z) : Z := WEXITSTATUS s.
Definition WIFEXITED (s : Z) : bool := WTERMSIG s =? 0.
(** [((signed char) ((s & 0x7f) + 1) >> 1) > 0] *)
Definition WIFSIGNALED (s : Z) : bool :=
  let c := WTERMSIG s + 1 in
  0 <? Z.shiftr (if c <? 128 then c else c - 256) 1.
Definition WIFSTOPPED (s : Z) : bool := Z.land s 255 =? 127.
Definition WCOREDUMP (s : Z) : bool := negb (Z.land s 128 =? 0).

(** How a process ended, or stopped, and the word the kernel makes of it. *)
Inductive fate := Exit (n : Z) | Killed (sig : Z) (core : bool) | Stopped (sig : Z) | Continued.

Definition valid (f : fate) : Prop :=
  match f with
  | Exit n => 0 <= n < 256
  | Killed sig _ | Stopped sig => 1 <= sig <= 64
  | Continued => True
  end.

Definition encode (f : fate) : Z :=
  match f with
  | Exit n => n * 256
  | Killed sig core => sig + (if core then 128 else 0)
  | Stopped sig => sig * 256 + 127
  | Continued => 65535
  end.

(** ** pr_exit *)

Definition pr_exit (status : Z) : bytes :=
  if WIFEXITED status then
    lit "normal termination, exit status = " ++ dec (WEXITSTATUS status) ++ [LF]
  else if WIFSIGNALED status then
    lit "abnormal termination, signal number = " ++ dec (WTERMSIG status) ++
      (if WCOREDUMP status then lit " (core file generated)" else []) ++ [LF]
  else if WIFSTOPPED status then
    lit "child stopped, signal number = " ++ dec (WSTOPSIG status) ++ [LF]
  else [].

(** What it should say. *)
Definition describe (f : fate) : bytes :=
  match f with
  | Exit n => lit "normal termination, exit status = " ++ dec n ++ [LF]
  | Killed sig core =>
      lit "abnormal termination, signal number = " ++ dec sig ++
        (if core then lit " (core file generated)" else []) ++ [LF]
  | Stopped sig => lit "child stopped, signal number = " ++ dec sig ++ [LF]
  | Continued => []
  end.

(** ** system.c *)

(** One return of [waitpid]. *)
Inductive waited := Status (status : Z) | Eintr | WaitError.

(** The loop: the status, whatever the number of interruptions. *)
Fixpoint system_wait (ws : list waited) : res Z :=
  match ws with
  | [] => Err OutOfFuel
  | Status s :: _ => Ok s
  | Eintr :: ws => system_wait ws
  | WaitError :: _ => Ok (-1)
  end.

(** [fork]: its result in the parent.  [None] for [cmdstring]: NULL. *)
Definition system (cmdstring : option bytes) (fork : Z) (ws : list waited) : res Z :=
  match cmdstring with
  | None => Ok 1
  | Some _ => if decide (fork < 0) then Ok (-1) else system_wait ws
  end.

(** The child: what the shell makes of the command, or 127 if there is no shell. *)
Definition system_child (shell : option fate) : fate :=
  match shell with Some f => f | None => Exit 127 end.

(** [main]: two commands; what is printed on stderr and stdout. *)
Definition report (status : Z) : bytes :=
  (if decide (status < 0) then lit "system() error" ++ [LF] else []) ++ pr_exit status.

Definition system_main (r1 r2 : Z * list waited) : res bytes :=
  s1 ← system (Some (lit "nosuchcommand")) r1.1 r1.2;
  s2 ← system (Some (lit "who; exit 44")) r2.1 r2.2;
  Ok (report s1 ++ report s2).

(** ** wait.c *)

(** One of the three parts of [main]: the results of [fork] and of [wait] (with the
    status it stores), and the variable [status]: the output and the variable. *)
Definition wait_part (fork wait : Z) (stored : option Z) (status : option Z) : res (bytes * option Z) :=
  let e1 := if decide (fork < 0) then lit "fork error" ++ [LF] else [] in
  let status := match stored with Some s => Some s | None => status end in
  let e2 := if decide (wait <> fork) then lit "wait error" ++ [LF] else [] in
  s ← from_opt Uninit status;
  Ok (e1 ++ e2 ++ pr_exit s, status).

Fixpoint wait_main (parts : list (Z * Z * option Z)) (status : option Z) : res bytes :=
  match parts with
  | [] => Ok []
  | (fork, wait, stored) :: parts =>
      '(out, status) ← wait_part fork wait stored status;
      rest ← wait_main parts status;
      Ok (out ++ rest)
  end.

(** ** nice.c *)

(** [gettimeofday]: seconds and microseconds. *)
Record timeval := Timeval { tv_sec : Z; tv_usec : Z }.
Definition usecs (t : timeval) : Z := tv_sec t * 1000000 + tv_usec t.
Definition valid_time (t : timeval) : Prop := 0 <= tv_usec t < 1000000.

(** Whether [checktime] exits. *)
Definition checktime (tv end_ : timeval) : bool :=
  (tv_sec end_ <=? tv_sec tv) && (tv_usec end_ <=? tv_usec tv).

(** The loop of [main]: the times [checktime] sees, the counter (64 bits); the
    count that is printed, and how often the counter wrapped. *)
Fixpoint count_loop (times : list timeval) (end_ : timeval) (count wraps : Z) : option (Z * Z) :=
  match times with
  | [] => None
  | tv :: times =>
      let count := (count + 1) mod 2 ^ 64 in
      let wraps := if decide (count = 0) then wraps + 1 else wraps in
      if checktime tv end_ then Some (count, wraps) else count_loop times end_ count wraps
  end.

(** ** Theorems *)

Lemma land_127 s : Z.land s 127 = s mod 128.
Proof. change 127 with (Z.ones 7). by rewrite Z.land_ones by lia. Qed.
Lemma land_255 s : Z.land s 255 = s mod 256.
Proof. change 255 with (Z.ones 8). by rewrite Z.land_ones by lia. Qed.

Lemma exitstatus_spec s : WEXITSTATUS s = (s / 256) mod 256.
Proof.
  unfold WEXITSTATUS. change 65280 with (Z.shiftl (Z.ones 8) 8).
  rewrite Z.shiftr_land. change (Z.shiftr (Z.shiftl (Z.ones 8) 8) 8) with (Z.ones 8).
  rewrite Z.land_ones, Z.shiftr_div_pow2 by lia. done.
Qed.

(** ([Z.b2z] of bit 7.) *)
Lemma coredump_spec s : 0 <= s < 256 -> WCOREDUMP s = (128 <=? s).
Proof.
  intros Hs. unfold WCOREDUMP. assert (Z.land s 128 = 128 * (s / 128 mod 2)) as ->.
  { change 128 with (2 ^ 7) at 1. rewrite <- Z.shiftl_1_l. apply Z.bits_inj'. intros i Hi.
    rewrite Z.land_spec, Z.shiftl_1_l, Z.pow2_bits_eqb by lia.
    change (s / 128) with (s / 2 ^ 7). rewrite <- Z.testbit_spec' by lia.
    rewrite Z.mul_comm. change 128 with (2 ^ 7). rewrite <- Z.shiftl_mul_pow2, Z.shiftl_spec by lia.
    destruct (Z.eqb_spec 7 i) as [<-|Hne].
    - rewrite andb_true_r. by destruct (Z.testbit s 7).
    - rewrite andb_false_r. symmetry. destruct (Z.lt_trichotomy i 7) as [?|[?|?]]; [by rewrite Z.testbit_neg_r by lia|lia|].
      destruct (Z.testbit s 7); [|by rewrite Z.bits_0]. change (Z.b2z true) with (2 ^ 0).
      rewrite Z.pow2_bits_eqb by lia. apply Z.eqb_neq. lia. }
  destruct (Z.leb_spec 128 s).
  - rewrite <- (Z.div_unique s 128 1 (s - 128)) by lia. done.
  - rewrite Z.div_small by lia. done.
Qed.

Lemma termsig_spec s : WTERMSIG s = s mod 128.
Proof. apply land_127. Qed.

Lemma pr_exit_word f : valid f -> pr_exit (encode f) = describe f.
Proof.
  destruct f as [n|sig core|sig|]; cbn [valid encode describe]; intros Hv; [| | |reflexivity]; unfold pr_exit.
  - unfold WIFEXITED. rewrite termsig_spec. replace (n * 256) with (n * 2 * 128) by lia.
    rewrite Z.mod_mul by lia. cbn [Z.eqb]. rewrite exitstatus_spec. replace (n * 2 * 128) with (n * 256) by lia.
    rewrite Z.div_mul, Z.mod_small by lia. done.
  - assert (WTERMSIG (sig + (if core then 128 else 0)) = sig) as Et.
    { rewrite termsig_spec. destruct core; [|rewrite Z.mod_small; lia].
      replace (sig + 128) with (sig + 1 * 128) by lia. rewrite Z.mod_add, Z.mod_small by lia. done. }
    unfold WIFEXITED, WIFSIGNALED. rewrite Et.
    replace (sig =? 0) with false by (symmetry; apply Z.eqb_neq; lia).
    replace (sig + 1 <? 128) with true by (symmetry; apply Z.ltb_lt; lia).
    rewrite Z.shiftr_div_pow2 by lia. change (2 ^ 1) with 2.
    replace (0 <? (sig + 1) / 2) with true by (symmetry; apply Z.ltb_lt, Z.div_str_pos; lia).
    rewrite coredump_spec by (destruct core; lia).
    destruct core; [replace (128 <=? sig + 128) with true by (symmetry; apply Z.leb_le; lia)|
                    replace (128 <=? sig + 0) with false by (symmetry; apply Z.leb_gt; lia)]; done.
  - assert (WTERMSIG (sig * 256 + 127) = 127) as Et.
    { rewrite termsig_spec. replace (sig * 256 + 127) with (127 + (sig * 2) * 128) by lia.
      rewrite Z.mod_add by lia. done. }
    assert (WIFSTOPPED (sig * 256 + 127) = true) as Es.
    { unfold WIFSTOPPED. rewrite land_255. replace (sig * 256 + 127) with (127 + sig * 256) by lia.
      by rewrite Z.mod_add by lia. }
    assert (WSTOPSIG (sig * 256 + 127) = sig) as Eg.
    { unfold WSTOPSIG. rewrite exitstatus_spec, Z.div_add_l by lia. change (127 / 256) with 0.
      rewrite Z.add_0_r. apply Z.mod_small. lia. }
    unfold WIFEXITED, WIFSIGNALED. rewrite Et, Es, Eg. reflexivity.
Qed.

(** pr_exit_describes: for every way a child can end or stop, [pr_exit] says what happened:
    the exit status, the signal and whether there is a core file, or the signal
    that stopped it; it says nothing of one that was continued. *)
Theorem pr_exit_describes f : valid f -> pr_exit (encode f) = describe f.
Proof. apply pr_exit_word. Qed.

Lemma pr_exit_describes_witness :
  valid (Killed 6 true) /\ pr_exit (encode (Killed 6 true)) =
    lit "abnormal termination, signal number = 6 (core file generated)" ++ [LF].
Proof. split; [cbn; lia|]. etrans; [apply pr_exit_describes; cbn; lia|reflexivity]. Defined.

(** system_retries: [system] waits through any number of interruptions by signals and
    gives the child's status, or -1. *)
Theorem system_retries cmd fork n w ws :
  0 <= fork -> w <> Eintr ->
  system (Some cmd) fork (replicate n Eintr ++ w :: ws) =
    Ok (match w with Status s => s | _ => -1 end).
Proof.
  intros Hf Hw. unfold system. rewrite decide_False by lia.
  induction n as [|n IH]; [by destruct w|exact IH].
Qed.

Lemma system_retries_witness :
  (0 <= 100 /\ Status 11264 <> Eintr) /\
  system (Some (lit "who; exit 44")) 100 (replicate 2 Eintr ++ [Status 11264]) = Ok 11264.
Proof. split; [by split|]. by apply (system_retries (lit "who; exit 44") 100 2 (Status 11264) []). Defined.

(** What the program prints when the shell does not know the first command. *)
Example system_main_prints :
  system_main (100, [Eintr; Status (encode (Exit 127))]) (101, [Status (encode (Exit 44))]) =
    Ok (lit "normal termination, exit status = 127" ++ [LF] ++ lit "normal termination, exit status = 44" ++ [LF]).
Proof. vm_compute. reflexivity. Qed.

(** wait_main_prints: [wait.c] prints how each child ended. *)
Theorem wait_main_prints parts st :
  Forall (fun '(pid, f) => 0 < pid /\ valid f) parts ->
  wait_main ((fun '(pid, f) => (pid, pid, Some (encode f))) <$> parts) st =
    Ok (mjoin ((fun x => describe x.2) <$> parts)).
Proof.
  intros H. revert st. induction H as [|[pid f] parts [Hp Hf] _ IH]; intros st; [done|].
  cbn [fmap list_fmap wait_main]. unfold wait_part. rewrite !decide_False by lia.
  cbn [from_opt mbind res_bind app]. setoid_rewrite IH. cbn [mbind res_bind]. by rewrite pr_exit_word by done.
Qed.

Lemma wait_main_prints_witness :
  Forall (fun '(pid, f) => 0 < pid /\ valid f) [(100, Exit 7); (101, Killed 6 true); (102, Killed 8 true)] /\
  wait_main ((fun '(pid, f) => (pid, pid, Some (encode f))) <$> [(100, Exit 7); (101, Killed 6 true); (102, Killed 8 true)]) None =
    Ok (mjoin [describe (Exit 7); describe (Killed 6 true); describe (Killed 8 true)]).
Proof.
  assert (H : Forall (fun '(pid, f) => 0 < pid /\ valid f) [(100, Exit 7); (101, Killed 6 true); (102, Killed 8 true)])
    by (repeat constructor; cbn; lia).
  split; [exact H|]. exact (wait_main_prints _ None H).
Defined.

(** wait_unforked: when [fork] fails, [wait] fails too, and with the same -1: no error is
    reported for it, and [pr_exit] gets a variable without a value, or the status of the
    child before. *)
Theorem wait_unforked status :
  wait_part (-1) (-1) None status =
    match status with
    | None => Err Uninit
    | Some s => Ok (lit "fork error" ++ [LF] ++ pr_exit s, Some s)
    end.
Proof. by destruct status. Qed.

Lemma checktime_usecs tv end_ : valid_time tv -> valid_time end_ ->
  checktime tv end_ = true -> usecs end_ <= usecs tv.
Proof.
  unfold checktime, valid_time, usecs. rewrite andb_true_iff, !Z.leb_le. lia.
Qed.

Lemma count_loop_ends early tv late end_ :
  Forall (fun t => checktime t end_ = false) early -> checktime tv end_ = true ->
  valid_time tv -> valid_time end_ -> Z.of_nat (length early) + 1 < 2 ^ 64 ->
  count_loop (early ++ tv :: late) end_ 0 0 = Some (Z.of_nat (length early) + 1, 0) /\ usecs end_ <= usecs tv.
Proof.
  intros He Ht Hv Hve Hl. split; [|by apply checktime_usecs].
  assert (forall c, 0 <= c -> c + Z.of_nat (length early) + 1 < 2 ^ 64 ->
    count_loop (early ++ tv :: late) end_ c 0 = Some (c + Z.of_nat (length early) + 1, 0)) as H.
  { clear Hl. induction He as [|t early Het _ IH]; intros c Hc Hl; cbn [app count_loop length] in *.
    - rewrite Z.mod_small by lia. rewrite decide_False by lia. rewrite Ht. do 2 f_equal. lia.
    - rewrite Z.mod_small by lia. rewrite decide_False by lia. rewrite Het, IH by lia. do 2 f_equal. lia. }
  by apply H.
Qed.

(** count_ends: the counter of [nice.c] stops at the first time [checktime] accepts, which
    is not before the end; it has counted the calls, modulo its width. *)
Theorem count_ends early tv late end_ :
  Forall (fun t => checktime t end_ = false) early -> checktime tv end_ = true ->
  valid_time tv -> valid_time end_ -> Z.of_nat (length early) + 1 < 2 ^ 64 ->
  count_loop (early ++ tv :: late) end_ 0 0 = Some (Z.of_nat (length early) + 1, 0) /\ usecs end_ <= usecs tv.
Proof. apply count_loop_ends. Qed.

Lemma count_ends_witness :
  let end_ := Timeval 10 500000 in
  count_loop [Timeval 9 900000; Timeval 10 400000; Timeval 10 500001] end_ 0 0 = Some (3, 0) /\
  usecs end_ <= usecs (Timeval 10 500001).
Proof.
  apply (count_ends [Timeval 9 900000; Timeval 10 400000] (Timeval 10 500001) [] (Timeval 10 500000));
    [by repeat constructor|reflexivity|cbn; unfold valid_time; cbn; lia..].
Defined.

(** checktime_late: the seconds and microseconds are compared one by one, so that in each
    second after the end there are times at which the program does not stop. *)
Theorem checktime_late end_ n : 0 < tv_usec end_ -> 0 < n ->
  let tv := Timeval (tv_sec end_ + n) (tv_usec end_ - 1) in
  valid_time end_ -> valid_time tv /\ usecs end_ < usecs tv /\ checktime tv end_ = false.
Proof.
  intros Hu Hn. cbn zeta. unfold valid_time, usecs, checktime. cbn [tv_sec tv_usec]. intros Hv.
  split; [lia|]. split; [lia|]. apply andb_false_iff. right. apply Z.leb_gt. lia.
Qed.

Lemma checktime_late_witness :
  valid_time (Timeval 10 500000) /\ checktime (Timeval 11 499999) (Timeval 10 500000) = false.
Proof.
  assert (H : valid_time (Timeval 10 500000)) by (unfold valid_time; cbn; lia).
  split; [exact H|]. exact (proj2 (proj2 (checktime_late (Timeval 10 500000) 1 eq_refl eq_refl H))).
Defined.
