(* ===== verification/Processes.v ===== *)
(** * Processes: output buffers, exit handlers, jumps (apue: fork.c, vfork.c, atexit.c,
    longjmp.c, pthread_cleanup.c, pthread_join.c, account.c, waitpid.c, exec.c, echoall.c,
    getpwnam.c) *)

From S2P Require Import Prelude CString WaitStatus.

(** ** Standard output

    A terminal is written line by line, anything else when the buffer is flushed
    at exit (these programs print less than a buffer).  A process has its own
    buffer; what is written is shared. *)

Fixpoint through_last_lf (s : bytes) : bytes * bytes :=
  match s with
  | [] => ([], [])
  | c :: s =>
      let '(a, b) := through_last_lf s in
      match a with
      | [] => if decide (c = LF) then ([c], b) else ([], c :: b)
      | _ => (c :: a, b)
      end
  end.

Record stdout := Stdout { buffer : bytes; written : bytes }.

Definition printf (tty : bool) (s : bytes) (o : stdout) : stdout :=
  let b := buffer o ++ s in
  if tty then let '(l, r) := through_last_lf b in Stdout r (written o ++ l)
  else Stdout b (written o).

(** [exit] flushes; [_exit] does not. *)
Definition flush (o : stdout) : stdout := Stdout [] (written o ++ buffer o).

(** ** fork.c and vfork.c *)

Definition pid_line (pid glob var : Z) : bytes :=
  lit "pid = " ++ dec pid ++ lit ", glob = " ++ dec glob ++ lit ", var = " ++ dec var ++ [LF].

(** The end of [main] in one process, from its buffer: what is written afterwards. *)
Definition fork_end (tty : bool) (pid glob var : Z) (b out : bytes) : bytes :=
  written (flush (printf tty (pid_line pid glob var) (Stdout b out))).

(** [fork] is its result in the parent (the pid of the child, or -1), [child_first] the order
    in which the processes end; what has been written at last. *)
Definition fork_main (tty : bool) (fork self : Z) (child_first : bool) : bytes :=
  let globvar := 6 in
  let var := 88 in
  let o := Stdout [] (lit "a write to stdout" ++ [LF]) in
  let o := printf tty (lit "before fork" ++ [LF]) o in
  if decide (fork < 0) then fork_end tty self globvar var (buffer o) (written o)
  else if child_first then
    let out := fork_end tty fork (globvar + 1) (var + 1) (buffer o) (written o) in
    fork_end tty self globvar var (buffer o) out
  else
    let out := fork_end tty self globvar var (buffer o) (written o) in
    fork_end tty fork (globvar + 1) (var + 1) (buffer o) out.

(** The child of [vfork] runs in the parent's memory, before the parent goes on, and
    ends with [_exit]. *)
Definition vfork_main (tty : bool) (vfork self : Z) : bytes :=
  let globvar := 6 in
  let var := 88 in
  let o := printf tty (lit "before vfork" ++ [LF]) (Stdout [] []) in
  let '(globvar, var) := if decide (vfork < 0) then (globvar, var) else (globvar + 1, var + 1) in
  fork_end tty self globvar var (buffer o) (written o).

(** ** atexit.c *)

(** The handlers run in the reverse order of their registration. *)
Definition run_exit_handlers (registered : list bytes) : bytes := mjoin (rev registered).

Definition my_exit1 : bytes := lit "frist exit handler" ++ [LF].
Definition my_exit2 : bytes := lit "second exit handler" ++ [LF].

(** [ok]: whether the three [atexit] succeed; stdout. *)
Definition atexit_main (ok1 ok2 ok3 : bool) : bytes :=
  let h := [] in
  let h := if ok1 : bool then h ++ [my_exit2] else h in
  let h := if ok2 : bool then h ++ [my_exit1] else h in
  let h := if ok3 : bool then h ++ [my_exit1] else h in
  lit "main is done" ++ [LF] ++ run_exit_handlers h.

(** ** longjmp.c *)

(** The variables of [main], by their storage. *)
Record vars := Vars { globval : Z; autoval : Z; regival : Z; volaval : Z; statval : Z }.

(** What [longjmp] leaves: the variables that are not volatile and live in the frame have
    either their value at the jump or the one at [setjmp]. *)
Definition longjmp (auto_restored reg_restored : bool) (saved now : vars) : vars :=
  Vars (globval now) (if auto_restored then autoval saved else autoval now)
    (if reg_restored then regival saved else regival now) (volaval now) (statval now).

(** The variables printed in [f1] and after the jump. *)
Definition longjmp_main (auto_restored reg_restored : bool) : vars * vars :=
  let v := Vars 1 2 3 4 5 in
  let saved := v in
  let v := Vars 95 96 97 98 99 in
  let in_f1 := v in
  (in_f1, longjmp auto_restored reg_restored saved v).

(** ** pthread_cleanup.c, pthread_join.c *)

Inductive top := Print (s : bytes) | Push (s : bytes) | Pop (execute : bool) | Exit_ (v : Z) | Return (v : Z).

Definition cleanup (arg : bytes) : bytes := lit "cleanup: " ++ arg ++ [LF].

(** A thread with the stack of its handlers: the output and the value for
    [pthread_join].  To return from between a push and its pop is undefined. *)
Fixpoint thread (ops : list top) (stack : list bytes) : res (bytes * Z) :=
  match ops with
  | [] => Err OutOfFuel
  | Print s :: ops => '(out, v) ← thread ops stack; Ok (s ++ out, v)
  | Push s :: ops => thread ops (s :: stack)
  | Pop execute :: ops =>
      match stack with
      | [] => Err OutOfBounds
      | s :: stack =>
          '(out, v) ← thread ops stack;
          Ok ((if execute then cleanup s else []) ++ out, v)
      end
  | Exit_ v :: _ => Ok (mjoin (cleanup <$> stack), v)
  | Return v :: _ => match stack with [] => Ok ([], v) | _ => Err UseAfterFree end
  end.

Definition thr_fn1 (arg : Z) : list top :=
  [Print (lit "thread 1 start" ++ [LF]); Push (lit "thread 1 first handler");
   Push (lit "thread 1 second handler"); Print (lit "thread 1 push complete" ++ [LF])] ++
  (if decide (arg <> 0) then [Return 1] else [Pop false; Pop false; Return 1]).

Definition thr_fn2 (arg : Z) : list top :=
  [Print (lit "thread 2 start" ++ [LF]); Push (lit "thread 2 first handler");
   Push (lit "thread 2 second handler"); Print (lit "thread 2 push complete" ++ [LF])] ++
  (if decide (arg <> 0) then [Exit_ 2] else [Pop false; Pop false; Exit_ 2]).

Definition join_fn1 : list top := [Print (lit "pthread 1 returning" ++ [LF]); Return 1].
Definition join_fn2 : list top := [Print (lit "thread 2 exiting" ++ [LF]); Exit_ 2].

(** [main]: it joins the threads in order; their output may come at any time before. *)
Definition join_main (t1 t2 : list top) : res (bytes * bytes * bytes) :=
  '(out1, v1) ← thread t1 [];
  '(out2, v2) ← thread t2 [];
  Ok (out1, out2, lit "thread 1 exit code " ++ dec v1 ++ [LF] ++ lit "thread 2 exit code " ++ dec v2 ++ [LF]).

(** ** account.c *)

(** How the process with these results of its [fork]s ends; [dd] is how the command
    would end, [None] if it cannot be run. *)
Definition account (dd : option fate) (f1 f2 f3 : Z) : fate :=
  if decide (0 < f1) then Exit 2
  else if decide (0 < f2) then default (Exit 7) dd
  else if decide (0 < f3) then Exit 0
  else Killed 9 false.

(** ** waitpid.c *)

(** The parents: [init] takes over the children of a process that ends. *)
Definition exit_process (pid : Z) (parents : gmap Z Z) : gmap Z Z :=
  (fun p => if decide (p = pid) then 1 else p) <$> delete pid parents.

Inductive wstep := FirstExits | SecondPrints.

(** The parent [p], the first child and the second, and the steps of the children:
    what the second child prints as its parent. *)
Fixpoint waitpid_run (first second : Z) (steps : list wstep) (parents : gmap Z Z) : option Z :=
  match steps with
  | [] => None
  | FirstExits :: steps => waitpid_run first second steps (exit_process first parents)
  | SecondPrints :: _ => parents !! second
  end.

(** ** echoall.c, exec.c *)

Fixpoint echo_args (i : Z) (args : list bytes) : bytes :=
  match args with
  | [] => []
  | a :: args => lit "argv[" ++ dec i ++ lit "]: " ++ a ++ [LF] ++ echo_args (i + 1) args
  end.

Definition echoall (argv environ : list bytes) : bytes :=
  echo_args 0 argv ++ mjoin ((fun e => e ++ [LF]) <$> environ).

Definition env_init : list bytes := [lit "USER=unknown"; lit "PATH=/tmp"].

(** The output of the two children, when both can be run. *)
Definition exec_main (environ : list bytes) : bytes * bytes :=
  (echoall [lit "echoall"; lit "myarg1"; lit "MY ARG2"] env_init,
   echoall [lit "echoall"; lit "only 1 arg"] environ).

(** ** getpwnam.c *)

Record passwd := Passwd { pw_name : bytes; pw_rest : bytes }.

Fixpoint getpwname (name : bytes) (entries : list passwd) : option passwd :=
  match entries with
  | [] => None
  | ptr :: entries => if decide (name = pw_name ptr) then Some ptr else getpwname name entries
  end.

(** ** Theorems: buffers *)

Lemma last_lf_line s : through_last_lf (s ++ [LF]) = (s ++ [LF], []).
Proof.
  induction s as [|c s IH]; [done|]. cbn [app through_last_lf]. rewrite IH. by destruct s.
Qed.

Lemma printf_line tty s b out :
  printf tty (s ++ [LF]) (Stdout b out) =
    if tty then Stdout [] (out ++ b ++ s ++ [LF]) else Stdout (b ++ s ++ [LF]) out.
Proof.
  unfold printf. destruct tty; [|done]. cbn [buffer written].
  rewrite (assoc_L (++)), last_lf_line. by rewrite <- (assoc_L (++)).
Qed.

Lemma pid_line_lf pid glob var : exists s, pid_line pid glob var = s ++ [LF].
Proof. unfold pid_line. rewrite !(assoc_L (++)). eauto. Qed.

Lemma fork_end_out tty pid glob var b out :
  fork_end tty pid glob var b out = out ++ b ++ pid_line pid glob var.
Proof.
  unfold fork_end. destruct (pid_line_lf pid glob var) as [s ->]. rewrite printf_line.
  destruct tty; unfold flush; cbn [written buffer]; [by rewrite app_nil_r|done].
Qed.

(** fork_duplicates: the child changes its own copies of the variables; and unless the output
    is a terminal it also has a copy of what the parent has printed but not written, so
    that "before fork" comes twice, in whatever order the processes end. *)
Theorem fork_duplicates (tty : bool) fork self child_first :
  0 <= fork ->
  let before := lit "before fork" ++ [LF] in
  let again : bytes := if tty then [] else before in
  let child := pid_line fork 7 89 in
  let parent := pid_line self 6 88 in
  fork_main tty fork self child_first =
    lit "a write to stdout" ++ [LF] ++ before ++
      (if child_first then child ++ again ++ parent else parent ++ again ++ child).
Proof.
  intros Hf. cbv zeta. unfold fork_main. rewrite decide_False by lia. rewrite printf_line.
  destruct tty; cbn [buffer written]; destruct child_first; rewrite !fork_end_out, <- ?(assoc_L (++)); cbn [app]; done.
Qed.

Lemma fork_duplicates_witness :
  0 <= 431 /\ fork_main false 431 430 true =
    lit "a write to stdout" ++ [LF] ++ lit "before fork" ++ [LF] ++ lit "pid = 431, glob = 7, var = 89" ++ [LF] ++
    lit "before fork" ++ [LF] ++ lit "pid = 430, glob = 6, var = 88" ++ [LF].
Proof. split; [lia|]. etrans; [apply (fork_duplicates false 431 430 true); lia|vm_compute; reflexivity]. Defined.

(** vfork_shares: the child of [vfork] changes the parent's variables, and what it leaves in the
    buffer is written once. *)
Theorem vfork_shares tty vfork self :
  0 <= vfork -> vfork_main tty vfork self = lit "before vfork" ++ [LF] ++ pid_line self 7 89.
Proof.
  intros Hf. unfold vfork_main. rewrite printf_line. rewrite decide_False by lia.
  destruct tty; cbn [buffer written]; by rewrite fork_end_out, ?app_nil_r, <- ?(assoc_L (++)).
Qed.

Lemma vfork_shares_witness :
  0 <= 7 /\ vfork_main true 7 5 = lit "before vfork" ++ [LF] ++ lit "pid = 5, glob = 7, var = 89" ++ [LF].
Proof. split; [lia|]. etrans; [apply (vfork_shares true 7 5); lia|reflexivity]. Defined.

(** ** Theorems: handlers and jumps *)

Lemma exit_handlers_app l1 l2 : run_exit_handlers (l1 ++ l2) = run_exit_handlers l2 ++ run_exit_handlers l1.
Proof. unfold run_exit_handlers. by rewrite rev_app_distr, join_app. Qed.

(** atexit_order: "first" comes before "second" because the handlers run in reverse order;
    one registered twice runs twice, one that could not be registered does not. *)
Theorem atexit_order (ok1 ok2 ok3 : bool) :
  atexit_main ok1 ok2 ok3 = lit "main is done" ++ [LF] ++
    (if ok3 then my_exit1 else []) ++ (if ok2 then my_exit1 else []) ++ (if ok1 then my_exit2 else []).
Proof. by destruct ok1, ok2, ok3. Qed.

(** longjmp_values: the variables that are global, static or volatile have their last values after
    the jump, whatever the compiler does; the other two may have either. *)
Theorem longjmp_values ra rr :
  let '(in_f1, v) := longjmp_main ra rr in
  in_f1 = Vars 95 96 97 98 99 /\ globval v = 95 /\ volaval v = 98 /\ statval v = 99 /\
  autoval v ∈ [2; 96] /\ regival v ∈ [3; 97].
Proof. destruct ra, rr; cbn; split_and!; try done; set_solver. Qed.

Lemma thread_pushes ss v : forall stack,
  thread ((Push <$> ss) ++ [Exit_ v]) stack = Ok (mjoin (cleanup <$> rev ss ++ stack), v).
Proof.
  induction ss as [|s ss IH]; intros stack; [done|]. cbn [fmap list_fmap app thread].
  rewrite IH. cbn [rev]. by rewrite <- (assoc_L (++)).
Qed.

(** cleanup_order: [pthread_exit] runs the handlers, the last one first; a thread that pops
    them without executing runs none; the thread that returns between push and pop
    does what is not defined. *)
Theorem cleanup_order arg :
  thread (thr_fn2 arg) [] = Ok (lit "thread 2 start" ++ [LF] ++ lit "thread 2 push complete" ++ [LF] ++
    (if decide (arg <> 0) then cleanup (lit "thread 2 second handler") ++ cleanup (lit "thread 2 first handler") else []), 2) /\
  thread (thr_fn1 arg) [] =
    if decide (arg <> 0) then Err UseAfterFree
    else Ok (lit "thread 1 start" ++ [LF] ++ lit "thread 1 push complete" ++ [LF], 1).
Proof. unfold thr_fn1, thr_fn2. destruct (decide (arg <> 0)); split; reflexivity. Qed.

(** join_values: [main] prints what the threads return or exit with. *)
Theorem join_values :
  join_main join_fn1 join_fn2 = Ok (lit "pthread 1 returning" ++ [LF], lit "thread 2 exiting" ++ [LF],
    lit "thread 1 exit code 1" ++ [LF] ++ lit "thread 2 exit code 2" ++ [LF]).
Proof. reflexivity. Qed.

(** ** Theorems: processes *)

(** account_fates: the four processes end in the four ways the accounting file is to show; after
    a failed [fork] the process goes on in the place of its child. *)
Theorem account_fates dd f1 f2 f3 :
  0 <= f1 -> 0 <= f2 -> 0 <= f3 ->
  account dd f1 f2 f3 =
    match decide (f1 = 0), decide (f2 = 0), decide (f3 = 0) with
    | right _, _, _ => Exit 2
    | left _, right _, _ => default (Exit 7) dd
    | left _, left _, right _ => Exit 0
    | left _, left _, left _ => Killed 9 false
    end /\
  account dd (-1) f2 f3 = account dd 0 f2 f3.
Proof.
  intros H1 H2 H3. split; [|done]. unfold account.
  destruct (decide (f1 = 0)), (decide (f2 = 0)), (decide (f3 = 0)); repeat case_decide; try lia; done.
Qed.

Lemma account_fates_witness : account (Some (Exit 0)) 0 12 0 = Exit 0 /\ account None 0 12 0 = Exit 7.
Proof. split; [apply (account_fates (Some (Exit 0)) 0 12 0)|apply (account_fates None 0 12 0)]; lia. Defined.

(** waitpid_parent: the second child prints 1 as its parent if the first has ended before it asks, and
    otherwise the first; the sleep makes the former likely, and nothing more. *)
Theorem waitpid_parent p first second steps :
  first <> second -> first <> 1 ->
  waitpid_run first second (FirstExits :: SecondPrints :: steps) {[first := p; second := first]} = Some 1 /\
  waitpid_run first second (SecondPrints :: FirstExits :: steps) {[first := p; second := first]} = Some first.
Proof.
  intros Hne H1. cbn [waitpid_run]. split.
  - unfold exit_process. rewrite lookup_fmap, lookup_delete_ne by done. rewrite lookup_insert_ne by done.
    rewrite lookup_singleton_eq. cbn. by rewrite decide_True by done.
  - rewrite lookup_insert_ne by done. apply lookup_singleton_eq.
Qed.

Lemma waitpid_parent_witness :
  11 <> 12 /\ waitpid_run 11 12 [FirstExits; SecondPrints] {[11 := 10; 12 := 11]} = Some 1.
Proof. split; [done|]. by apply (waitpid_parent 10 11 12 []). Defined.

(** getpwname_first: the first entry with the name, if there is one. *)
Theorem getpwname_first name entries :
  match getpwname name entries with
  | Some p => pw_name p = name /\ exists l1 l2, entries = l1 ++ p :: l2 /\ name ∉ (pw_name <$> l1)
  | None => name ∉ (pw_name <$> entries)
  end.
Proof.
  induction entries as [|e entries IH]; cbn [getpwname]; [apply not_elem_of_nil|].
  case_decide as He.
  - split; [done|]. exists [], entries. split; [done|]. apply not_elem_of_nil.
  - destruct (getpwname name entries) as [p|].
    + destruct IH as [Hp (l1 & l2 & -> & Hn)]. split; [done|]. exists (e :: l1), l2. split; [done|].
      cbn. by apply not_elem_of_cons.
    + cbn. by apply not_elem_of_cons.
Qed.

(** exec.c: the first child has the new environment, the second the parent's. *)
Example exec_shows environ :
  exec_main environ =
    (lit "argv[0]: echoall" ++ [LF] ++ lit "argv[1]: myarg1" ++ [LF] ++ lit "argv[2]: MY ARG2" ++ [LF] ++
       lit "USER=unknown" ++ [LF] ++ lit "PATH=/tmp" ++ [LF],
     lit "argv[0]: echoall" ++ [LF] ++ lit "argv[1]: only 1 arg" ++ [LF] ++ mjoin ((fun e => e ++ [LF]) <$> environ)).
Proof. reflexivity. Qed.
