(* ===== verification/Files.v ===== *)
(** * Files and streams (apue: mmap.c, lseek_hole.c, fcntl.c, stat.c, stdio.c, fmemopen.c, mkstemp.c) *)

From S2P Require Import Prelude CString.

(** ** mmap.c: copying through mapped memory *)
Module Mmap.
Section Mmap.
Context (PAGE COPYINCR : Z).

(** [mmap] of a part of a file: the offset has to be a multiple of the page size, the
    length positive; [ok]: whether it succeeds then.  [None]: MAP_FAILED. *)
Definition mmap (ok : bool) (f : bytes) (len off : Z) : option bytes :=
  if decide (off mod PAGE = 0 /\ 0 < len) then
    if ok then Some (take (Z.to_nat len) (drop (Z.to_nat off) f)) else None
  else None.

(** The loop, with what the two calls answer in each round.  Using MAP_FAILED as an address
    is an access out of bounds. *)
Fixpoint copy_loop (answers : list (bool * bool)) (src dst : bytes) (fsz : Z) : res bytes :=
  let st_size := Z.of_nat (length src) in
  if decide (fsz < st_size) then
    match answers with
    | [] => Err OutOfFuel
    | (ok1, ok2) :: answers =>
        let copysz := if decide (st_size - fsz > COPYINCR) then COPYINCR else st_size - fsz in
        s ← from_opt OutOfBounds (mmap ok1 src copysz fsz);
        _ ← from_opt OutOfBounds (mmap ok2 dst copysz fsz);
        dst ← awrite dst fsz s;                       (* memcpy *)
        copy_loop answers src dst (fsz + copysz)
    end
  else Ok dst.

(** The target is truncated, then given the size of the source. *)
Definition copy_file (answers : list (bool * bool)) (src : bytes) : res bytes :=
  copy_loop answers src (replicate (length src) NUL) 0.

Hypothesis page_pos : 0 < PAGE.
Hypothesis incr_pos : 0 < COPYINCR.
Hypothesis incr_pages : COPYINCR mod PAGE = 0.

Lemma mmap_ok f len off :
  off mod PAGE = 0 -> 0 < len -> mmap true f len off = Some (take (Z.to_nat len) (drop (Z.to_nat off) f)).
Proof. intros. unfold mmap. by rewrite decide_True. Qed.

Lemma copy_rounds n : forall rounds src m,
  Z.of_nat (length src) - Z.of_nat m * COPYINCR <= Z.of_nat n * COPYINCR -> (n <= rounds)%nat ->
  Z.of_nat m * COPYINCR <= Z.of_nat (length src) ->
  copy_loop (replicate rounds (true, true)) src
    (take (Z.to_nat (Z.of_nat m * COPYINCR)) src ++ replicate (length src - Z.to_nat (Z.of_nat m * COPYINCR)) NUL)
    (Z.of_nat m * COPYINCR) = Ok src.
Proof.
  induction n as [|n IH]; intros rounds src m Hn Hr Hm.
  - assert (Z.of_nat m * COPYINCR = Z.of_nat (length src)) as -> by lia. rewrite Nat2Z.id.
    rewrite firstn_all, Nat.sub_diag, app_nil_r. destruct rounds; cbn; by rewrite decide_False by lia.
  - destruct rounds as [|rounds]; [lia|]. cbn [replicate copy_loop].
    set (off := Z.of_nat m * COPYINCR) in *.
    assert (off mod PAGE = 0) as Hpage
      by (unfold off; rewrite Z.mul_mod, incr_pages, Z.mul_0_r by lia; apply Z.mod_0_l; lia).
    destruct (decide (off < Z.of_nat (length src))) as [Hlt|Hge].
    2: { assert (off = Z.of_nat (length src)) as -> by lia. rewrite Nat2Z.id.
         by rewrite firstn_all, Nat.sub_diag, app_nil_r. }
    set (sz := if decide _ then _ else _).
    assert (0 < sz /\ off + sz <= Z.of_nat (length src)) as [Hsz Hend] by (unfold sz; case_decide; lia).
    rewrite !mmap_ok by done. cbn [from_opt mbind res_bind].
    set (k := Z.to_nat off). set (l := Z.to_nat sz).
    assert (length (take l (drop k src)) = l) as Hl by (rewrite length_take, length_drop; lia).
    replace (replicate (length src - k) NUL) with (replicate l NUL ++ replicate (length src - (k + l)) NUL)
      by (rewrite <- replicate_add; f_equal; lia).
    rewrite awrite_at by (rewrite ?Hl, ?length_replicate, ?length_take; lia).
    cbn [mbind res_bind]. rewrite (assoc_L (++)), take_take_drop.
    unfold sz in *. clear sz. case_decide as Hc.
    + replace (off + COPYINCR) with (Z.of_nat (S m) * COPYINCR) by (unfold off; lia).
      replace (k + l)%nat with (Z.to_nat (Z.of_nat (S m) * COPYINCR)) by (unfold k, l, off in *; lia).
      apply IH; unfold off in *; lia.
    + replace (off + (Z.of_nat (length src) - off)) with (Z.of_nat (length src)) by lia.
      replace (k + l)%nat with (length src) by (unfold k, l; lia).
      rewrite firstn_all, Nat.sub_diag, app_nil_r. destruct rounds; cbn; by rewrite decide_False by lia.
Qed.

(** mmap_copies: every file is copied byte for byte, the empty one too, in one round per
    COPYINCR bytes or part of it. *)
Theorem mmap_copies rounds src :
  Z.of_nat (length src) <= Z.of_nat rounds * COPYINCR ->
  copy_file (replicate rounds (true, true)) src = Ok src.
Proof.
  intros H. unfold copy_file. pose proof (copy_rounds rounds rounds src 0) as Hc.
  cbn [Z.of_nat Z.mul Z.to_nat take app] in Hc. rewrite Nat.sub_0_r in Hc. apply Hc; lia.
Qed.

(** mmap_unchecked: when a call fails the program says so and copies through the pointer all
    the same. *)
Theorem mmap_unchecked ok src answers :
  src <> [] -> copy_file ((false, ok) :: answers) src = Err OutOfBounds.
Proof.
  intros H. unfold copy_file. cbn [copy_loop].
  rewrite decide_True by (destruct src; [done|cbn; lia]). unfold mmap. by destruct (decide (_ /\ _)).
Qed.
End Mmap.

Lemma mmap_copies_witness :
  8192 mod 4096 = 0 /\ copy_file 4096 8192 [(true, true)] (lit "a file") = Ok (lit "a file").
Proof. split; [reflexivity|]. apply (mmap_copies 4096 8192) with (rounds := 1%nat); [lia|lia|reflexivity|cbn; lia]. Defined.

Lemma mmap_unchecked_witness : copy_file 4096 8192 [(false, true)] (lit "a") = Err OutOfBounds.
Proof. by apply (mmap_unchecked 4096 8192). Defined.
End Mmap.

(** ** lseek_hole.c *)

(** A file and the position in it.  A write behind the end fills up with NULs. *)
Definition write_at (f : bytes) (pos : nat) (d : bytes) : bytes :=
  take pos (f ++ replicate (pos - length f) NUL) ++ d ++ drop (pos + length d) f.

(** [main], with what the two [write]s and the [lseek] return: the file. *)
Definition hole_main (offset : nat) (w1 sk w2 : Z) : bytes :=
  let f := write_at [] 0 (lit "abcdefghij") in
  if decide (w1 <> 10) then f
  else if decide (sk = -1) then f
  else write_at f offset (lit "ABCDEFGHIJ").

(** hole_content: the two texts with a hole of NULs between them. *)
Theorem hole_content offset :
  (10 <= offset)%nat ->
  hole_main offset 10 (Z.of_nat offset) 10 = lit "abcdefghij" ++ replicate (offset - 10) NUL ++ lit "ABCDEFGHIJ" /\
  length (hole_main offset 10 (Z.of_nat offset) 10) = (offset + 10)%nat.
Proof.
  intros H. assert (hole_main offset 10 (Z.of_nat offset) 10 =
    lit "abcdefghij" ++ replicate (offset - 10) NUL ++ lit "ABCDEFGHIJ") as E.
  { unfold hole_main. rewrite decide_False by lia. rewrite decide_False by lia.
    change (write_at [] 0 (lit "abcdefghij")) with (lit "abcdefghij"). unfold write_at.
    rewrite drop_ge by (cbn; lia). rewrite app_nil_r, take_ge by (rewrite length_app, length_replicate; cbn; lia).
    by rewrite <- (assoc_L (++)). }
  split; [done|]. rewrite E, !length_app, length_replicate. cbn [length list_ascii_of_string]. lia.
Qed.

Lemma hole_content_witness : (10 <= 12)%nat /\ hole_main 12 10 12 10 = lit "abcdefghij" ++ [NUL; NUL] ++ lit "ABCDEFGHIJ".
Proof. split; [lia|]. apply (hole_content 12). lia. Defined.

(** ** fcntl.c and stat.c: flags *)

Definition has (v flag : Z) : bool := negb (Z.land v flag =? 0).

Definition O_APPEND : Z := 1024.
Definition O_NONBLOCK : Z := 2048.
Definition O_DSYNC : Z := 4096.
Definition O_SYNC : Z := 1048576 + 4096.

(** [main] from the answer of [fcntl]: stdout ([None]: only stderr). *)
Definition fcntl_main (val : Z) : option bytes :=
  if decide (val < 0) then None
  else
    let mode := Z.land val 3 in
    Some ((if decide (mode = 0) then lit "read only"
           else if decide (mode = 1) then lit "write only"
           else if decide (mode = 2) then lit "read write"
           else lit "unknown access mode") ++
          (if has val O_APPEND then lit ", append" else []) ++
          (if has val O_NONBLOCK then lit ", nonblocking" else []) ++
          (if has val O_SYNC then lit ", syschronous writes" else []) ++ [LF]).

(** A flag of one bit. *)
Lemma has_bit v n : 0 <= n -> has v (2 ^ n) = Z.testbit v n.
Proof.
  intros Hn. unfold has. destruct (Z.testbit v n) eqn:E.
  - apply negb_true_iff, Z.eqb_neq. intros H. apply (f_equal (fun z => Z.testbit z n)) in H.
    rewrite Z.land_spec, Z.pow2_bits_true, E, Z.bits_0 in H by done. done.
  - apply negb_false_iff, Z.eqb_eq. apply Z.bits_inj'. intros i Hi.
    rewrite Z.land_spec, Z.pow2_bits_eqb, Z.bits_0 by done.
    destruct (Z.eqb_spec n i) as [<-|]; [by rewrite E|by rewrite andb_false_r].
Qed.

Lemma has_flags v a b : has v (Z.lor a b) = has v a || has v b.
Proof.
  unfold has. rewrite Z.land_lor_distr_r, <- negb_andb. f_equal.
  destruct (Z.eqb_spec (Z.lor (Z.land v a) (Z.land v b)) 0) as [H|H].
  - apply Z.lor_eq_0_iff in H as [-> ->]. done.
  - symmetry. apply andb_false_iff. destruct (Z.eqb_spec (Z.land v a) 0) as [Ha|]; [|by left].
    right. apply Z.eqb_neq. intros Hb. apply H. by rewrite Ha, Hb.
Qed.

(** fcntl_shows: the access mode and the flags that are set; "synchronous" also for a file
    opened with O_DSYNC only. *)
Theorem fcntl_shows val :
  0 <= val ->
  fcntl_main val = Some
    ((match val mod 4 with 0 => lit "read only" | 1 => lit "write only" | 2 => lit "read write"
      | _ => lit "unknown access mode" end) ++
     (if Z.testbit val 10 then lit ", append" else []) ++
     (if Z.testbit val 11 then lit ", nonblocking" else []) ++
     (if Z.testbit val 20 || Z.testbit val 12 then lit ", syschronous writes" else []) ++ [LF]).
Proof.
  intros Hv. unfold fcntl_main. rewrite decide_False by lia.
  change (Z.land val 3) with (Z.land val (Z.ones 2)). rewrite Z.land_ones by lia. change (2 ^ 2) with 4.
  change O_SYNC with (Z.lor (2 ^ 20) (2 ^ 12)). rewrite has_flags.
  change O_APPEND with (2 ^ 10). change O_NONBLOCK with (2 ^ 11). rewrite !has_bit by done.
  pose proof (Z.mod_pos_bound val 4). do 2 f_equal.
  assert (val mod 4 = 0 \/ val mod 4 = 1 \/ val mod 4 = 2 \/ val mod 4 = 3) as [-> | [-> | [-> | ->]]] by lia; done.
Qed.

Lemma fcntl_shows_witness :
  0 <= 1025 /\ fcntl_main 1025 = Some (lit "write only, append" ++ [LF]).
Proof. split; [lia|]. etrans; [apply (fcntl_shows 1025); lia|reflexivity]. Defined.

(** [S_ISREG], [S_ISDIR] and [S_IRUSR]; [mode]: st_mode, if [stat] succeeds.  Its result is
    not looked at. *)
Definition stat_main (mode : option Z) : res (bytes * bytes) :=
  st_mode ← from_opt Uninit mode;
  let type := if decide (Z.land st_mode 61440 = 32768) then lit "regular"
              else if decide (Z.land st_mode 61440 = 16384) then lit "directory"
              else lit "other" in
  let readok := if has st_mode 256 then lit "yes" else lit "no" in
  Ok (type, readok).

(** stat_shows: the type is in the four bits above the permissions, the owner's read permission in
    bit 8; for a file that does not exist an uninitialised value is shown. *)
Theorem stat_shows type perm :
  0 <= type < 16 -> 0 <= perm < 4096 ->
  stat_main (Some (type * 4096 + perm)) =
    Ok (match type with 8 => lit "regular" | 4 => lit "directory" | _ => lit "other" end,
        if Z.testbit perm 8 then lit "yes" else lit "no") /\
  stat_main None = Err Uninit.
Proof.
  intros Ht Hp. split; [|done]. unfold stat_main. cbn [from_opt mbind res_bind].
  assert (Z.land (type * 4096 + perm) 61440 = type * 4096) as ->.
  { change 61440 with (Z.shiftl (Z.ones 4) 12). change 4096 with (2 ^ 12). rewrite <- Z.shiftl_mul_pow2 by lia.
    apply Z.bits_inj'. intros i Hi. rewrite Z.land_spec.
    destruct (Z.lt_ge_cases i 12) as [H|H].
    - rewrite (Z.shiftl_spec_low (Z.ones 4)), (Z.shiftl_spec_low type) by done. by rewrite andb_false_r.
    - rewrite !Z.shiftl_spec_high, Z.testbit_ones_nonneg by lia.
      assert (Z.testbit (Z.shiftl type 12 + perm) i = Z.testbit type (i - 12)) as ->.
      { replace i with (i - 12 + 12) at 1 by lia. rewrite <- Z.shiftr_spec by lia.
        rewrite Z.shiftr_div_pow2, Z.shiftl_mul_pow2, Z.div_add_l by lia.
        change (2 ^ 12) with 4096. rewrite Z.div_small, Z.add_0_r by lia. done. }
      destruct (Z.ltb_spec (i - 12) 4); [by rewrite andb_true_r|]. rewrite andb_false_r. symmetry.
      apply (Z.bits_above_log2 type); [lia|]. destruct (decide (type = 0)) as [->|]; [cbn; lia|].
      assert (Z.log2 type < 4) by (apply Z.log2_lt_pow2; cbn; lia). lia. }
  assert (has (type * 4096 + perm) 256 = Z.testbit perm 8) as ->.
  { change 256 with (2 ^ 8). rewrite has_bit by done. rewrite !Z.testbit_eqb by done.
    change (2 ^ 8) with 256. replace (type * 4096 + perm) with (perm + type * 16 * 256) by lia.
    rewrite Z.div_add by lia. replace (type * 16) with (type * 8 * 2) by lia. by rewrite Z.mod_add by lia. }
  assert (0 <= type <= 15) as Ht' by lia. clear Ht Hp.
  assert (exists n, (n < 16)%nat /\ type = Z.of_nat n) as (n & Hn & ->) by (exists (Z.to_nat type); lia).
  do 16 (destruct n as [|n]; [reflexivity|]). lia.
Qed.

Lemma stat_shows_witness : stat_main (Some (8 * 4096 + 420)) = Ok (lit "regular", lit "yes").
Proof. apply (stat_shows 8 420); lia. Defined.

(** ** stdio.c: copying line by line *)
Module Cat.

(** [fgets(buf, n, stdin)]: up to [n - 1] bytes, through the first line feed; [None] at
    the end of the input. *)
Fixpoint line (n : nat) (s : bytes) : bytes * bytes :=
  match n, s with
  | S n, c :: s => if decide (c = LF) then ([c], s) else let '(l, r) := line n s in (c :: l, r)
  | _, _ => ([], s)
  end.

Definition fgets (n : nat) (s : bytes) : option (bytes * bytes) :=
  match s with [] => None | _ => Some (line (n - 1) s) end.

(** [fputs] writes the string in the buffer, which ends at the first NUL. *)
Definition fputs (l : bytes) : bytes := default l (upto_nul l).

Fixpoint cat_loop (fuel : nat) (n : nat) (s : bytes) : res bytes :=
  match fuel with
  | 0%nat => Err OutOfFuel
  | S fuel =>
      match fgets n s with
      | None => Ok []
      | Some (l, s) => out ← cat_loop fuel n s; Ok (fputs l ++ out)
      end
  end.

(** [main]: the buffer has 1024 bytes; each line takes at least one byte. *)
Definition cat_main (s : bytes) : res bytes := cat_loop (S (length s)) 1024 s.

Lemma line_split n : forall s l r, line n s = (l, r) -> s = l ++ r /\ (n <> 0%nat -> s <> [] -> l <> []) /\ (length l <= n)%nat.
Proof.
  induction n as [|n IH]; intros [|c s] l r; cbn [line]; try by intros [= <- <-].
  - intros [= <- <-]. split_and!; [done|done|cbn; lia].
  - case_decide; [intros [= <- <-]; split_and!; [done|done|cbn; lia]|].
    destruct (line n s) as [l' r'] eqn:E. intros [= <- <-]. apply IH in E as (-> & _ & Hl).
    split_and!; [done|done|cbn; lia].
Qed.

Lemma fputs_plain l : NUL ∉ l -> fputs l = l.
Proof.
  intros H. unfold fputs. assert (upto_nul l = None) as ->; [|done].
  induction l as [|c l IH]; [done|]. apply not_elem_of_cons in H as [H1 H2]. cbn.
  rewrite decide_False by done. by rewrite IH.
Qed.

Lemma fputs_prefix l : fputs l `prefix_of` l.
Proof.
  unfold fputs. destruct (upto_nul l) as [t|] eqn:E; [|done].
  apply upto_nul_split in E as (_ & l' & ->). by exists (NUL :: l').
Qed.

Lemma cat_loop_spec fuel : forall n s, (1 < n)%nat -> (length s < fuel)%nat ->
  exists out, cat_loop fuel n s = Ok out /\ out `sublist_of` s /\ (NUL ∉ s -> out = s).
Proof.
  induction fuel as [|fuel IH]; intros n s Hn Hf; [lia|]. cbn [cat_loop]. unfold fgets.
  destruct s as [|c s']; [by exists []|]. set (s := c :: s') in *.
  destruct (line (n - 1) s) as [l r] eqn:E. apply line_split in E as (Es & Hl & _).
  assert (l <> []) as Hne by (apply Hl; [lia|done]).
  destruct (IH n r) as (out & -> & Hs & Hout); [done| |].
  { rewrite Es, length_app in Hf. destruct l; [done|]. cbn in Hf. lia. }
  cbn [mbind res_bind]. exists (fputs l ++ out). split; [done|]. rewrite Es. split.
  - apply sublist_app; [|done]. destruct (fputs_prefix l) as [k Hk]. rewrite Hk at 2. by apply sublist_inserts_r.
  - rewrite elem_of_app. intros H. by rewrite fputs_plain, Hout by tauto.
Qed.

(** cat_copies: the program ends, and its output is its input if that has no NUL; otherwise bytes
    are left out and nothing is added. *)
Theorem cat_copies s :
  exists out, cat_main s = Ok out /\ out `sublist_of` s /\ (NUL ∉ s -> out = s).
Proof. apply cat_loop_spec; [apply Nat.ltb_lt; reflexivity|lia]. Qed.

(** What follows a NUL in its line is lost. *)
Example cat_nul : cat_main (lit "a" ++ [NUL] ++ lit "b" ++ [LF] ++ lit "c") = Ok (lit "ac").
Proof. vm_compute. reflexivity. Qed.
End Cat.

(** ** fmemopen.c: a stream on an array *)
Module Fmem.

(** The array, the position and the end of the content, and what has been printed but
    not flushed.  Opened with "w+", the content is empty. *)
Record stream := Stream { mem : bytes; pos : nat; maxpos : nat; pending : bytes }.

Definition fmemopen (buf : bytes) : stream := Stream (NUL :: drop 1 buf) 0 0 [].
Definition fprintf (s : bytes) (f : stream) : stream := Stream (mem f) (pos f) (maxpos f) (pending f ++ s).

(** What has been printed goes to the position; behind content that has become longer
    comes a NUL, if there is room. *)
Definition fflush (f : stream) : res stream :=
  m ← awrite (mem f) (Z.of_nat (pos f)) (pending f);
  let pos' := (pos f + length (pending f))%nat in
  if decide (maxpos f < pos')%nat then
    if decide (pos' < length m)%nat then Ok (Stream (<[pos' := NUL]> m) pos' pos' [])
    else Ok (Stream m pos' pos' [])
  else Ok (Stream m pos' (maxpos f) []).

Definition rewind (f : stream) : res stream := f ← fflush f; Ok (Stream (mem f) 0 (maxpos f) []).

(** [memset(buf, c, BSZ - 2)] and the two bytes after it, behind the stream's back. *)
Definition refill (BSZ : nat) (c : ascii) (f : stream) : stream :=
  Stream (replicate (BSZ - 2) c ++ [NUL; "X"%char]) (pos f) (maxpos f) (pending f).

(** [main]: the strings it prints. *)
Definition fmem_main (BSZ : nat) : res (list bytes) :=
  let hello := lit "hello, world" in
  let f := fmemopen (replicate (BSZ - 2) "a"%char ++ [NUL; "X"%char]) in
  initial ← cstr (mem f) 0;
  let f := fprintf hello f in
  before ← cstr (mem f) 0;
  f ← fflush f;
  after ← cstr (mem f) 0;
  let f := fprintf hello (refill BSZ "b"%char f) in
  f ← rewind f;
  seek ← cstr (mem f) 0;
  let f := fprintf hello (refill BSZ "c"%char f) in
  f ← fflush f;                         (* fclose *)
  close ← cstr (mem f) 0;
  Ok [initial; before; after; seek; close].

(** fmem_shows: the stream writes at its own position whatever is done to the array, and ends
    what it writes with a NUL only when its content has become longer: the last string is
    the whole array. *)
Theorem fmem_shows :
  fmem_main 48 = Ok [[]; []; lit "hello, world"; replicate 12 "b"%char ++ lit "hello, world";
    lit "hello, world" ++ replicate 34 "c"%char].
Proof. vm_compute. reflexivity. Qed.

(** In a shorter array the stream cannot write all of it. *)
Example fmem_short : fmem_main 12 = Err OutOfBounds.
Proof. vm_compute. reflexivity. Qed.
End Fmem.

(** ** mkstemp.c *)

(** A template: its text, and whether it may be written (an array) or not (a string literal). *)
Record template := Template { text : bytes; writable : bool }.

(** [mkstemp] fills in the six last bytes; [created]: what it puts there, if it succeeds. *)
Definition mkstemp (created : option bytes) (t : template) : res (Z * template) :=
  match created with
  | None => Ok (-1, t)
  | Some x =>
      if writable t then Ok (3, Template (take (length (text t) - 6) (text t) ++ x) true)
      else Err OutOfBounds
  end.

(** [make_temp]: the output and the files there are afterwards; [files] before. *)
Definition make_temp (created : option bytes) (t : template) (files : gset bytes) : res (bytes * gset bytes) :=
  '(fd, t) ← mkstemp created t;
  let files := if decide (fd < 0) then files else {[text t]} ∪ files in
  let out := (if decide (fd < 0) then lit "can't create temp file" else []) ++
             lit "temp name = " ++ text t ++ [LF] in
  if decide (text t ∈ files) then Ok (out ++ lit "file exist" ++ [LF], files ∖ {[text t]})
  else Ok (out ++ lit "file doesn't exist" ++ [LF], files).

(** [main]: two templates with the same text, an array and a literal. *)
Definition mkstemp_main (x1 x2 : option bytes) (files : gset bytes) : res (bytes * gset bytes) :=
  let good_template := Template (lit "/tmp/dirXXXXXX") true in
  let bad_template := Template (lit "/tmp/dirXXXXXX") false in
  '(out1, files) ← make_temp x1 good_template files;
  '(out2, files) ← make_temp x2 bad_template files;
  Ok (out1 ++ out2, files).

(** mkstemp_fails: the first temporary file is created, named, and removed again; the second
    attempt writes to a string literal. *)
Theorem mkstemp_fails x y files :
  (lit "/tmp/dir" ++ x) ∉ files ->
  make_temp (Some x) (Template (lit "/tmp/dirXXXXXX") true) files =
    Ok (lit "temp name = /tmp/dir" ++ x ++ [LF] ++ lit "file exist" ++ [LF], files) /\
  mkstemp_main (Some x) (Some y) files = Err OutOfBounds.
Proof.
  intros Hf. assert (make_temp (Some x) (Template (lit "/tmp/dirXXXXXX") true) files =
    Ok (lit "temp name = /tmp/dir" ++ x ++ [LF] ++ lit "file exist" ++ [LF], files)) as E.
  { unfold make_temp. cbn [mkstemp writable mbind res_bind text].
    change (take (length (lit "/tmp/dirXXXXXX") - 6) (lit "/tmp/dirXXXXXX")) with (lit "/tmp/dir").
    rewrite !(decide_False (P := 3 < 0)) by lia. rewrite decide_True by set_solver.
    do 2 f_equal; [by rewrite <- !(assoc_L (++))|]. set_solver. }
  split; [exact E|]. unfold mkstemp_main. rewrite E. reflexivity.
Qed.

Lemma mkstemp_fails_witness :
  (lit "/tmp/dir" ++ lit "4fJ2xQ") ∉ (∅ : gset bytes) /\
  mkstemp_main (Some (lit "4fJ2xQ")) (Some (lit "aaaaaa")) ∅ = Err OutOfBounds.
Proof.
  assert (H : (lit "/tmp/dir" ++ lit "4fJ2xQ") ∉ (∅ : gset bytes)) by apply not_elem_of_empty.
  split; [exact H|]. exact (proj2 (mkstemp_fails _ (lit "aaaaaa") _ H)).
Defined.
