(* ===== verification/Demos.v ===== *)
(** * Programs that show what a library returns (apue: times.c, nice.c, pthread.c,
    strftime.c, tmpfile.c, readdir.c, error.c, lseek.c; socket/others/hostinfo.c)

    The answers of the library and the system are arguments; an output is a pair
    of what goes to the standard output and to the standard error. *)

From S2P Require Import Prelude CString WaitStatus Files.

Definition output : Type := bytes * bytes.
Definition out (s : bytes) : output := (s, []).
Definition err (s : bytes) : output := ([], s).
Definition nothing : output := ([], []).
Definition also (a b : output) : output := (a.1 ++ b.1, a.2 ++ b.2).
Infix "+++" := also (at level 60, right associativity).

Lemma also_nothing a : a +++ nothing = a.
Proof. destruct a. unfold also. cbn. by rewrite !app_nil_r. Qed.

(** ** times.c *)
Module Times.

(** [struct tms], in clock ticks. *)
Record tms := Tms { tms_utime : Z; tms_stime : Z; tms_cutime : Z; tms_cstime : Z }.

(** What the system answers while one command runs: [times] before and after,
    [None] when it fails, and the status that [system] returns. *)
Record command := Command {
  cmd : bytes; before : option (Z * tms); status : Z; after : option (Z * tms) }.

Section Times.
(** The text that [printf] makes of a quotient with "%7.2f", and the answer of
    [sysconf(_SC_CLK_TCK)]. *)
Context (quotient : Z -> Z -> bytes) (sysconf : Z).

Definition time_line (label : string) (ticks clktck : Z) : bytes :=
  lit label ++ quotient ticks clktck ++ [LF].

(** [pr_times], with its static variable. *)
Definition pr_times (real : Z) (s e : tms) (clktck : Z) : output * Z :=
  let '(o, clktck) :=
    if decide (clktck = 0) then
      (if decide (sysconf < 0) then err (lit "sysconf error" ++ [LF]) else nothing, sysconf)
    else (nothing, clktck) in
  (o +++ out (time_line " real: " real clktck ++
              time_line " user: " (tms_utime e - tms_utime s) clktck ++
              time_line " sys:  " (tms_stime e - tms_stime s) clktck ++
              time_line " child user:  " (tms_cutime e - tms_cutime s) clktck ++
              time_line " child sys:  " (tms_cstime e - tms_cstime s) clktck), clktck).

(** [times(&t)]: the clock, or -1 with [t] left without a value. *)
Definition times (answer : option (Z * tms)) : Z * option tms * output :=
  match answer with
  | Some (clock, t) => (clock, Some t, nothing)
  | None => (-1, None, err (lit "times error" ++ [LF]))
  end.

Definition do_cmd (c : command) (clktck : Z) : res (output * Z) :=
  let head := out ([LF] ++ lit "command: " ++ cmd c ++ [LF]) in
  let '(start, tmsstart, e1) := times (before c) in
  let e2 := if decide (status c < 0) then err (lit "system() error" ++ [LF]) else nothing in
  let '(end_, tmsend, e3) := times (after c) in
  s ← from_opt Uninit tmsstart;
  e ← from_opt Uninit tmsend;
  let '(o, clktck) := pr_times (end_ - start) s e clktck in
  Ok (head +++ e1 +++ e2 +++ e3 +++ o +++ out (pr_exit (status c)), clktck).

Fixpoint commands (cs : list command) (clktck : Z) : res output :=
  match cs with
  | [] => Ok nothing
  | c :: cs =>
      '(o, clktck) ← do_cmd c clktck;
      o' ← commands cs clktck;
      Ok (o +++ o')
  end.

Definition times_main (cs : list command) : res output := commands cs 0.

(** What is to be shown of a command that ended as [f]. *)
Definition report (c : command) (f : fate) : bytes :=
  match before c, after c with
  | Some (t0, s), Some (t1, e) =>
      [LF] ++ lit "command: " ++ cmd c ++ [LF] ++
      time_line " real: " (t1 - t0) sysconf ++
      time_line " user: " (tms_utime e - tms_utime s) sysconf ++
      time_line " sys:  " (tms_stime e - tms_stime s) sysconf ++
      time_line " child user:  " (tms_cutime e - tms_cutime s) sysconf ++
      time_line " child sys:  " (tms_cstime e - tms_cstime s) sysconf ++
      describe f
  | _, _ => []
  end.

(** A command whose times were taken. *)
Definition timed (c : command) (f : fate) : Prop :=
  is_Some (before c) /\ is_Some (after c) /\ valid f /\ status c = encode f.

Lemma encode_nonneg f : valid f -> 0 <= encode f.
Proof. destruct f as [n|sig []|sig|]; cbn; lia. Qed.

(** times_reports: for every list of commands, the times they took, all in the
    unit that [sysconf] gives, and how each of them ended. *)
Theorem times_reports cs fs :
  0 < sysconf -> Forall2 timed cs fs -> times_main cs = Ok (out (mjoin (zip_with report cs fs))).
Proof.
  intros Hs H. unfold times_main.
  assert (Hgen : forall clktck, clktck = 0 \/ clktck = sysconf ->
    commands cs clktck = Ok (out (mjoin (zip_with report cs fs)))); [|by apply Hgen; left].
  induction H as [|c f cs fs (([t0 s] & Hb) & ([t1 e] & Ha) & Hv & Hst) _ IH]; intros clktck Hc; [done|].
  cbn [commands zip_with mjoin list_join].
  assert (E : do_cmd c clktck = Ok (out (report c f), sysconf)).
  { unfold do_cmd, report. rewrite Hb, Ha, Hst. cbn [times from_opt mbind res_bind fst snd].
    rewrite (decide_False (P := encode f < 0)) by (pose proof (encode_nonneg f Hv); lia).
    rewrite pr_exit_word by done. unfold pr_times, also, out, nothing.
    destruct Hc as [->| ->]; [rewrite decide_True, decide_False by lia|rewrite decide_False by lia];
      cbn [fst snd app]; rewrite <- ?app_assoc; do 2 f_equal; by rewrite <- !app_assoc. }
  rewrite (bind_ok _ _ _ E), (bind_ok _ _ _ (IH sysconf (or_intror eq_refl))). done.
Qed.
End Times.

(** Two decimals of a quotient of positive numbers, in seven columns. *)
Definition fixed2 (num den : Z) : bytes :=
  let h := (200 * num + den) / (2 * den) in
  let s := dec (h / 100) ++ lit "." ++ dec (h / 10 mod 10) ++ dec (h mod 10) in
  replicate (7 - length s) SP ++ s.

Definition who : command :=
  Command (lit "who") (Some (1000, Tms 0 0 0 0)) 0 (Some (1005, Tms 0 1 2 3)).

Lemma times_reports_witness : times_main fixed2 100 [who] = Ok (out (mjoin [report fixed2 100 who (Exit 0)])).
Proof.
  apply (times_reports fixed2 100 [who] [Exit 0]); [lia|]. repeat constructor; cbn; try lia; by eexists.
Defined.

Example who_report : report fixed2 100 who (Exit 0) =
  [LF] ++ lit "command: who" ++ [LF] ++ lit " real:    0.05" ++ [LF] ++ lit " user:    0.00" ++ [LF] ++
  lit " sys:     0.01" ++ [LF] ++ lit " child user:     0.02" ++ [LF] ++ lit " child sys:     0.03" ++ [LF] ++
  lit "normal termination, exit status = 0" ++ [LF].
Proof. vm_compute. reflexivity. Qed.

(** A failed [times] is reported, and its structure is used without a value. *)
Example times_unchecked : times_main fixed2 100 [Command (lit "who") None 0 (after who)] = Err Uninit.
Proof. vm_compute. reflexivity. Qed.
End Times.

(** ** nice.c: main around the loop of WaitStatus.v *)
Module Nice.

(** The answers: [sysconf(_SC_NZERO)], the time, [fork]; in the child [nice(0)], and
    [nice(adj)] with [errno] after it; the times [checktime] sees. *)
Record answers := Answers {
  nzero : Z; now : timeval; fork : Z; nice0 : Z; nice_adj : Z -> Z * Z; clock : list timeval }.

(** ["%lld"] of an unsigned 64-bit integer. *)
Definition lld (n : Z) : bytes := dec ((n + 2 ^ 63) mod 2 ^ 64 - 2 ^ 63).

(** [printf("%s count = %lld\n", s, count)] after the loop, with [s] as it was set, and
    a message for each time the counter wrapped. *)
Definition count_lines (s : option bytes) (times : list timeval) (end_ : timeval) : res output :=
  '(count, wraps) ← from_opt OutOfFuel (count_loop times end_ 0 0);
  s ← from_opt Uninit s;
  Ok (err (mjoin (replicate (Z.to_nat wraps) (s ++ lit " counter wrap" ++ [LF]))) +++
      out (s ++ lit " count = " ++ lld count ++ [LF])).

Definition nice_main (args : list bytes) (a : answers) : res output :=
  let adj := match args with [_; arg] => to_int (strtol arg) | _ => 0 end in
  let head := out (lit "NZERO = " ++ dec (nzero a) ++ [LF]) in
  let end_ := Timeval (tv_sec (now a) + 10) (tv_usec (now a)) in
  let '(o, s) :=
    if decide (fork a < 0) then (err (lit "fork failed" ++ [LF]), None)
    else if decide (fork a = 0) then
      let '(ret, errno) := nice_adj a adj in
      (out (lit "current nice valude in child is " ++ dec (nice0 a + nzero a) ++
            lit ", agjusting by " ++ dec adj ++ [LF]) +++
       (if decide (ret = -1 /\ errno <> 0) then err (lit "child set scheduling priority" ++ [LF]) else nothing) +++
       out (lit "now child nice value is " ++ dec (ret + nzero a) ++ [LF]), Some (lit "child"))
    else (out (lit "current nice value in parent is " ++ dec (nice0 a + nzero a) ++ [LF]), Some (lit "parent")) in
  rest ← count_lines s (clock a) end_;
  Ok (head +++ o +++ rest).

(** nice_counts: the child shows the value it was given by [nice], and counts the
    times it looks at the clock until the first one that [checktime] accepts; that is
    at least ten seconds after the start. *)
Theorem nice_counts prog arg a early tv late v :
  let end_ := Timeval (tv_sec (now a) + 10) (tv_usec (now a)) in
  let adj := to_int (strtol arg) in
  fork a = 0 -> nice_adj a adj = (v, 0) -> clock a = early ++ tv :: late ->
  Forall (fun t => checktime t end_ = false) early -> checktime tv end_ = true ->
  valid_time tv -> valid_time (now a) -> Z.of_nat (length early) + 1 < 2 ^ 63 ->
  nice_main [prog; arg] a =
    Ok (out (lit "NZERO = " ++ dec (nzero a) ++ [LF] ++
             lit "current nice valude in child is " ++ dec (nice0 a + nzero a) ++
             lit ", agjusting by " ++ dec adj ++ [LF] ++
             lit "now child nice value is " ++ dec (v + nzero a) ++ [LF] ++
             lit "child count = " ++ dec (Z.of_nat (length early) + 1) ++ [LF])) /\
  usecs (now a) + 10 * 1000000 <= usecs tv.
Proof.
  intros end_ adj Hf Hn Hc He Ht Hv Hve Hl.
  destruct (count_loop_ends early tv late end_ He Ht Hv Hve) as [E Hu]; [lia|].
  split; [|unfold usecs, end_ in *; cbn in *; lia]. unfold nice_main. fold adj end_.
  rewrite Hf, Hn, Hc. rewrite (decide_False (P := 0 < 0)), (decide_True (P := 0 = 0)) by lia.
  rewrite decide_False by lia. unfold count_lines. rewrite E. cbn [from_opt mbind res_bind fst snd].
  unfold lld. rewrite Z.mod_small by lia.
  replace (Z.of_nat (length early) + 1 + 2 ^ 63 - 2 ^ 63) with (Z.of_nat (length early) + 1) by lia.
  unfold also, out, err, nothing. cbn [fst snd replicate Z.to_nat mjoin list_join app].
  by rewrite <- !app_assoc.
Qed.

Definition answers0 : answers :=
  Answers 20 (Timeval 100 5) 0 0 (fun adj => (adj, 0)) [Timeval 105 0; Timeval 110 5].

Lemma nice_counts_witness :
  nice_main [lit "nice"; lit "5"] answers0 =
    Ok (out (lit "NZERO = 20" ++ [LF] ++ lit "current nice valude in child is 20, agjusting by 5" ++ [LF] ++
             lit "now child nice value is 25" ++ [LF] ++ lit "child count = 2" ++ [LF])) /\
  usecs (Timeval 100 5) + 10 * 1000000 <= usecs (Timeval 110 5).
Proof.
  apply (nice_counts (lit "nice") (lit "5") answers0 [Timeval 105 0] (Timeval 110 5) [] 5);
    try reflexivity; try (unfold valid_time; cbn; lia). by repeat constructor.
Defined.

(** nice_unforked: when [fork] fails the program goes on counting and ends by
    printing a string that was never set. *)
Theorem nice_unforked args a :
  fork a < 0 -> nice_main args a = Err OutOfFuel \/ nice_main args a = Err Uninit.
Proof.
  intros Hf. unfold nice_main. rewrite decide_True by done. unfold count_lines.
  destruct (count_loop _ _ _ _) as [[count wraps]|]; [by right|by left].
Qed.
End Nice.

(** ** pthread.c: two threads that print their numbers *)
Module Ids.

(** ["%lx"] *)
Definition hex_digit (d : Z) : ascii := ascii_of_nat (Z.to_nat (if decide (d < 10) then 48 + d else 87 + d)).

Fixpoint hex_digits (fuel : nat) (n : Z) (acc : bytes) : bytes :=
  match fuel with
  | O => acc
  | S fuel =>
      let acc := hex_digit (n mod 16) :: acc in
      if decide (n / 16 = 0) then acc else hex_digits fuel (n / 16) acc
  end.

(** An [unsigned long] has at most 16 digits. *)
Definition hex (n : Z) : bytes := hex_digits 16 n [].

Definition printids (s : bytes) (pid tid : Z) : bytes :=
  s ++ lit " pid " ++ dec pid ++ lit " tid " ++ dec tid ++ lit " (0x" ++ hex tid ++ lit ")" ++ [LF].

Definition thr_fn (pid tid : Z) : bytes := printids (lit "new thread: ") pid tid.

(** [main], with the result of [pthread_create], whether the new thread prints before
    the process ends, and whether it does so first. *)
Definition ids_main (err_ pid tid ntid : Z) (in_time first : bool) : output :=
  let mine := printids (lit "main thread:") pid tid in
  if decide (err_ <> 0) then err (lit "can't create thread" ++ [LF]) +++ out mine
  else if in_time then out (if first then thr_fn pid ntid ++ mine else mine ++ thr_fn pid ntid)
  else out mine.

(** The number that a hexadecimal text stands for. *)
Definition hex_value (c : ascii) : Z :=
  let k := Z.of_nat (nat_of_ascii c) in if decide (k < 58) then k - 48 else k - 87.
Definition of_hex (s : bytes) : Z := fold_left (fun v c => 16 * v + hex_value c) s 0.

Lemma hex_digit_value d : 0 <= d < 16 -> hex_value (hex_digit d) = d.
Proof.
  intros Hd. unfold hex_value, hex_digit. destruct (decide (d < 10));
    rewrite nat_ascii_embedding, Z2Nat.id by lia; case_decide; lia.
Qed.

Lemma fold_hex s v : fold_left (fun v c => 16 * v + hex_value c) s v = v * 16 ^ Z.of_nat (length s) + of_hex s.
Proof.
  unfold of_hex. revert v. induction s as [|c s IH]; intros v; cbn [fold_left length].
  - cbn. lia.
  - rewrite (IH (16 * v + hex_value c)), (IH (16 * 0 + hex_value c)).
    rewrite Nat2Z.inj_succ, Z.pow_succ_r by lia. ring.
Qed.

Lemma hex_digits_spec fuel n acc :
  0 <= n < 16 ^ Z.of_nat fuel -> of_hex (hex_digits fuel n acc) = n * 16 ^ Z.of_nat (length acc) + of_hex acc.
Proof.
  revert n acc. induction fuel as [|fuel IH]; intros n acc Hn.
  - cbn in Hn. cbn [hex_digits]. replace n with 0 by lia. lia.
  - rewrite Nat2Z.inj_succ, Z.pow_succ_r in Hn by lia. cbn [hex_digits].
    pose proof (Z.div_mod n 16 ltac:(lia)) as Hdm. pose proof (Z.mod_pos_bound n 16 ltac:(lia)) as Hm.
    assert (Hval : of_hex (hex_digit (n mod 16) :: acc) =
      (n mod 16) * 16 ^ Z.of_nat (length acc) + of_hex acc).
    { unfold of_hex at 1. cbn [fold_left]. rewrite fold_hex, hex_digit_value by done. ring. }
    case_decide as H0.
    + rewrite Hval. replace (n mod 16) with n by lia. done.
    + rewrite IH by (split; [apply Z.div_pos; lia|apply Z.div_lt_upper_bound; lia]).
      rewrite Hval. cbn [length]. rewrite Nat2Z.inj_succ, Z.pow_succ_r by lia.
      rewrite Hdm at 3. ring.
Qed.

(** hex_faithful: the hexadecimal number that is printed is the thread's. *)
Theorem hex_faithful n : 0 <= n < 2 ^ 64 -> of_hex (hex n) = n.
Proof.
  intros Hn. unfold hex. rewrite hex_digits_spec; [cbn; lia|]. exact Hn.
Qed.

Lemma hex_faithful_witness : of_hex (hex 140735340871680) = 140735340871680.
Proof. apply hex_faithful. lia. Defined.

Example ids_line : printids (lit "main thread:") 7 255 = lit "main thread: pid 7 tid 255 (0xff)" ++ [LF].
Proof. vm_compute. reflexivity. Qed.
End Ids.

(** ** strftime.c *)
Module Strftime.

(** What the locale makes of "%r", "%a", "%b", "%d" and "%Y" for the present time. *)
Record date := Date { d_r : bytes; d_a : bytes; d_b : bytes; d_d : bytes; d_Y : bytes }.

(** The format of both calls. *)
Definition text (d : date) : bytes :=
  lit "time and date: " ++ d_r d ++ lit ", " ++ d_a d ++ lit " " ++ d_b d ++ lit " " ++ d_d d ++ lit ", " ++ d_Y d.

(** [strftime]: the text if it fits into [max] bytes with its NUL. *)
Definition strftime (max : nat) (d : date) : option bytes :=
  if decide (length (text d) < max)%nat then Some (text d) else None.

Definition show_date (max : nat) (d : date) : bytes :=
  match strftime max d with
  | None => lit "buffer length " ++ dec (Z.of_nat max) ++ lit " is too small" ++ [LF]
  | Some s => s ++ [LF]
  end.

Definition strftime_main (d : date) : bytes := show_date 16 d ++ show_date 64 d.

(** first_too_small: in no locale does the text fit the first buffer. *)
Theorem first_too_small d :
  exists rest, strftime_main d = lit "buffer length 16 is too small" ++ [LF] ++ rest /\
    (rest = text d ++ [LF] <-> (length (text d) < 64)%nat).
Proof.
  assert (Hl : (17 <= length (text d))%nat) by (unfold text; rewrite !length_app;
    change (length (lit "time and date: ")) with 15%nat; change (length (lit ", ")) with 2%nat; lia).
  unfold strftime_main, show_date at 1, strftime at 1. rewrite decide_False by lia.
  exists (show_date 64 d). split; [by rewrite <- app_assoc|]. unfold show_date, strftime. case_decide as H.
  - by split.
  - split; [|done]. intros E%(f_equal length). rewrite (length_app (text d)) in E.
    set (n := length (lit "buffer length " ++ _)) in E. vm_compute in n. change (length [LF]) with 1%nat in E. lia.
Qed.
End Strftime.

(** ** tmpfile.c *)
Module Tmpfile.

(** The names that [tmpnam] makes and whether [tmpfile] gives a stream; the one line of
    text comes back from it. *)
Definition tmpfile_main (name1 name2 : bytes) (fp : bool) : res output :=
  let head := out (name1 ++ [LF] ++ name2 ++ [LF]) in
  if fp then
    let file := lit "one line output" ++ [LF] in
    match Files.Cat.fgets 1024 file with
    | Some (line, _) => Ok (head +++ out (Files.Cat.fputs line))
    | None => Err Uninit
    end
  else Err NullDeref.   (** the error is reported, and [fputs] gets the null pointer *)

Theorem tmpfile_back name1 name2 fp :
  tmpfile_main name1 name2 fp =
    if fp then Ok (out (name1 ++ [LF] ++ name2 ++ [LF] ++ lit "one line output" ++ [LF])) else Err NullDeref.
Proof.
  destruct fp; [|done]. unfold tmpfile_main. vm_compute (Files.Cat.fgets _ _). unfold also, out. cbn [fst snd].
  by rewrite <- !app_assoc.
Qed.
End Tmpfile.

(** ** readdir.c and hostinfo.c: walking a list *)
Module Walk.

Definition usage (prog rest : string) : bytes := lit "usage: " ++ lit prog ++ lit rest ++ [LF].

(** [readdir.c]: the entries of the directory, if it can be opened, and whether [readdir]
    fails at the end. *)
Fixpoint readdir_loop (names : list bytes) : bytes :=
  match names with
  | [] => []
  | d :: names => lit "Found file: " ++ d ++ [LF] ++ readdir_loop names
  end.

Definition readdir_main (args : list string) (dir : option (list bytes * bool)) : res (Z * output) :=
  match args with
  | [_; _] =>
      '(names, failed) ← from_opt NullDeref dir;
      Ok (0, out (readdir_loop names) +++
             (if (failed : bool) then err (lit "readdir error" ++ [LF]) else nothing))
  | prog :: _ => Ok (1, out (usage prog " directory_name"))
  | [] => Err NullDeref
  end.

(** [hostinfo.c]: [getaddrinfo] fails with a message, or gives a list; for each address
    the text [getnameinfo] makes, or nothing if it fails: the buffer keeps its content. *)
Fixpoint host_loop (addrs : list (option bytes)) (buf : option bytes) : res bytes :=
  match addrs with
  | [] => Ok []
  | a :: addrs =>
      let buf := match a with Some name => Some name | None => buf end in
      s ← from_opt Uninit buf;
      rest ← host_loop addrs buf;
      Ok (s ++ [LF] ++ rest)
  end.

Definition host_main (args : list string) (answer : bytes + list (option bytes)) : res (Z * output) :=
  match args with
  | [_; _] =>
      match answer with
      | inl message => Ok (1, err (lit "getaddrinfo error: " ++ message ++ [LF]))
      | inr addrs => s ← host_loop addrs None; Ok (0, out s)
      end
  | prog :: _ => Ok (1, err (usage prog " <domain name>"))
  | [] => Err NullDeref
  end.

(** walks_print: every entry of the directory and every address of the host, in order. *)
Theorem walks_print prog arg names failed addrs :
  readdir_main [prog; arg] (Some (names, failed)) =
    Ok (0, out (mjoin ((fun d => lit "Found file: " ++ d ++ [LF]) <$> names)) +++
           (if failed then err (lit "readdir error" ++ [LF]) else nothing)) /\
  host_main [prog; arg] (inr (Some <$> addrs)) = Ok (0, out (mjoin ((fun a => a ++ [LF]) <$> addrs))).
Proof.
  split.
  - cbn [readdir_main from_opt mbind res_bind]. do 4 f_equal. induction names as [|d names IH]; [done|].
    cbn [readdir_loop fmap list_fmap mjoin list_join]. by rewrite IH, <- !app_assoc.
  - cbn [host_main]. assert (E : forall buf, host_loop (Some <$> addrs) buf = Ok (mjoin ((fun a => a ++ [LF]) <$> addrs))).
    { induction addrs as [|a addrs IH]; intros buf; [done|]. cbn [fmap list_fmap host_loop from_opt mbind res_bind].
      rewrite (bind_ok _ _ _ (IH (Some a))). cbn [mjoin list_join]. by rewrite <- !app_assoc. }
    by rewrite (bind_ok _ _ _ (E None)).
Qed.

(** A directory that cannot be opened, and an address whose name cannot be made. *)
Example walks_unchecked prog arg :
  readdir_main [prog; arg] None = Err NullDeref /\ host_main [prog; arg] (inr [None]) = Err Uninit.
Proof. done. Qed.
End Walk.

(** ** error.c and lseek.c *)

(** [strerror] and [perror], which leaves out a null or empty prefix. *)
Definition ENOENT : Z := 2.
Definition EACCES : Z := 13.
Definition perror (strerror : Z -> bytes) (s : option bytes) (errno : Z) : bytes :=
  match s with
  | None | Some [] => strerror errno ++ [LF]
  | Some s => s ++ lit ": " ++ strerror errno ++ [LF]
  end.
Definition error_main (strerror : Z -> bytes) (argv0 : option bytes) : output :=
  err (lit "EACCES: " ++ strerror EACCES ++ [LF]) +++ err (perror strerror argv0 ENOENT).

(** What [lseek] on the standard input returns. *)
Definition lseek_main (lseek : Z) : bytes :=
  if decide (lseek = -1) then lit "cannot seek" ++ [LF] else lit "seek OK" ++ [LF].
