(* ===== verification/Ipc.v ===== *)
(** * Between processes (apue/ipc): message queues, shared memory, Unix sockets, a FIFO

    test_mqw.c, test_mqr.c, test_mqw2.c, test_mqr2.c, test_smw.c, test_smr.c, test_smw2.c,
    test_smr2.c, test_unix_server.c, test_unix_client.c, test_fifo.c.  Each pair of programs
    is modelled on what they share. *)

From S2P Require Import Prelude CString.

(** A string with its NUL, copied to the front of an array. *)
Definition strcpy (dst s : bytes) : res bytes := awrite dst 0 (s ++ [NUL]).

(** ** System V message queues *)
Module SysV.

(** The queue, oldest message first: type and text. *)
Definition queue : Type := list (Z * bytes).

Definition msgsnd (mtype : Z) (mtext : bytes) (q : queue) : queue := q ++ [(mtype, mtext)].

(** [msgrcv] with a positive type: the first message of that type; [None]: it waits. *)
Fixpoint msgrcv (mtype : Z) (q : queue) : option (bytes * queue) :=
  match q with
  | [] => None
  | (t, m) :: q =>
      if decide (t = mtype) then Some (m, q)
      else '(m', q') ← msgrcv mtype q; Some (m', (t, m) :: q')
  end.

(** test_mqw.c: [mtext] is the array before it is filled. *)
Definition mqw_main (mtext : bytes) (q : queue) : res queue :=
  mtext ← strcpy mtext (lit "message queue test");
  Ok (msgsnd 1 mtext q).

(** test_mqr.c: what is printed, and the queue; [None]: it waits. *)
Definition mqr_main (q : queue) : option (res bytes * queue) :=
  '(mtext, q) ← msgrcv 1 q;
  Some (s ← cstr mtext 0; Ok (s ++ [LF]), q).

Lemma msgrcv_spec mtype q : match msgrcv mtype q with
  | Some (m, q') => exists l1 l2, q = l1 ++ (mtype, m) :: l2 /\ q' = l1 ++ l2 /\ Forall (fun x => x.1 <> mtype) l1
  | None => Forall (fun x => x.1 <> mtype) q
  end.
Proof.
  induction q as [|[t m] q IH]; cbn [msgrcv]; [constructor|]. case_decide as Ht.
  - subst. by exists [], q.
  - destruct (msgrcv mtype q) as [[m' q']|]; cbn.
    + destruct IH as (l1 & l2 & -> & -> & H). exists ((t, m) :: l1), l2. split_and!; try done. by constructor.
    + by constructor.
Qed.

Lemma msgrcv_skip mtype l q : Forall (fun x => x.1 <> mtype) l ->
  msgrcv mtype (l ++ q) = '(m, q') ← msgrcv mtype q; Some (m, l ++ q').
Proof.
  induction 1 as [|[t m] l Ht _ IH]; cbn [app msgrcv]; [by destruct (msgrcv mtype q) as [[]|]|].
  cbn in Ht. rewrite decide_False by done. rewrite IH. by destruct (msgrcv mtype q) as [[]|].
Qed.

Lemma strcpy_front dst s : (length s < length dst)%nat ->
  strcpy dst s = Ok (s ++ NUL :: drop (S (length s)) dst).
Proof.
  intros H. unfold strcpy. rewrite awrite_front by (rewrite length_app; cbn; lia).
  rewrite length_app, Nat.add_1_r. by rewrite <- (assoc_L (++)).
Qed.

(** sysv_delivers: the writer's message is what the reader prints, whatever was in the writer's
    memory before and whatever messages of other types are in the queue, which
    stay; a reader without a message waits. *)
Theorem sysv_delivers mtext q :
  length mtext = 512%nat -> Forall (fun x => x.1 <> 1) q ->
  mqr_main q = None /\
  exists q', mqw_main mtext q = Ok q' /\ mqr_main q' = Some (Ok (lit "message queue test" ++ [LF]), q).
Proof.
  intros Hl Hq. split.
  - unfold mqr_main. pose proof (msgrcv_skip 1 q [] Hq) as H. rewrite app_nil_r in H. by rewrite H.
  - unfold mqw_main. rewrite strcpy_front by (rewrite Hl; apply Nat.ltb_lt; reflexivity).
    cbn [mbind res_bind]. eexists. split; [reflexivity|].
    unfold mqr_main, msgsnd. rewrite msgrcv_skip by done. cbn [msgrcv]. rewrite decide_True by done.
    cbn [mbind option_bind]. rewrite app_nil_r. rewrite cstr_front; [done|].
    apply (bool_decide_unpack _). vm_compute. exact I.
Qed.

Lemma sysv_delivers_witness :
  exists q', mqw_main (replicate 512 "x"%char) [(7, lit "other")] = Ok q' /\
    mqr_main q' = Some (Ok (lit "message queue test" ++ [LF]), [(7, lit "other")]).
Proof.
  apply (sysv_delivers (replicate 512 "x"%char) [(7, lit "other")]); [apply length_replicate|].
  constructor; [done|constructor].
Defined.

(** sysv_leaks: the message has the whole array, with what was behind the text in the
    writer's memory. *)
Theorem sysv_leaks mtext q :
  length mtext = 512%nat ->
  mqw_main mtext q = Ok (q ++ [(1, lit "message queue test" ++ NUL :: drop 19 mtext)]).
Proof.
  intros Hl. unfold mqw_main. by rewrite strcpy_front by (rewrite Hl; apply Nat.ltb_lt; reflexivity).
Qed.

Lemma sysv_leaks_witness :
  mqw_main (replicate 512 "x"%char) [] = Ok [(1, lit "message queue test" ++ NUL :: drop 19 (replicate 512 "x"%char))].
Proof. apply (sysv_leaks _ []), length_replicate. Defined.
End SysV.

(** ** POSIX message queues *)
Module Posix.

(** The queue, oldest message first: priority and message.  The name may stand for none. *)
Definition queue : Type := list (Z * bytes).
Definition mq_open (w : option queue) : queue := default [] w.     (* O_CREAT *)
Definition mq_send (m : bytes) (prio : Z) (q : queue) : queue := q ++ [(prio, m)].

(** The first message of the highest priority. *)
Fixpoint mq_receive (q : queue) : option (Z * bytes * queue) :=
  match q with
  | [] => None
  | (p, m) :: q =>
      match mq_receive q with
      | Some (p', m', q') => if decide (p < p') then Some (p', m', (p, m) :: q') else Some (p, m, q)
      | None => Some (p, m, q)
      end
  end.

(** test_mqw2.c *)
Definition mqw2_main (w : option queue) : option queue :=
  Some (mq_send (lit "message queue test" ++ [NUL]) 0 (mq_open w)).

(** test_mqr2.c: what is printed, and the name afterwards; [None]: it waits.  The array is
    large enough for any message. *)
Definition mqr2_main (w : option queue) : option (res bytes * option queue) :=
  '(_, m, q) ← mq_receive (mq_open w);
  let out := s ← cstr m 0; Ok (s ++ [LF]) in
  Some (out, None).                     (* mq_unlink *)

Lemma mq_receive_spec q : match mq_receive q with
  | Some (p, m, q') => exists l1 l2, q = l1 ++ (p, m) :: l2 /\ q' = l1 ++ l2 /\
      Forall (fun x => x.1 < p) l1 /\ Forall (fun x => x.1 <= p) l2
  | None => q = []
  end.
Proof.
  induction q as [|[p m] q IH]; cbn [mq_receive]; [done|].
  destruct (mq_receive q) as [[[p' m'] q']|].
  - destruct IH as (l1 & l2 & -> & -> & H1 & H2). case_decide as Hp.
    + exists ((p, m) :: l1), l2. split_and!; try done. by constructor.
    + exists [], (l1 ++ (p', m') :: l2). split_and!; [done|done|constructor|].
      apply Forall_app. split; [|constructor; [cbn; lia|]].
      * eapply Forall_impl; [exact H1|]. cbn. lia.
      * eapply Forall_impl; [exact H2|]. cbn. lia.
  - subst. exists [], []. by split_and!.
Qed.

(** posix_oldest_first: the reader prints the oldest message of the highest priority, and removes
    the queue, with all that was in it. *)
Theorem posix_oldest_first w :
  match mqr2_main w with
  | Some (out, w') => w' = None /\ exists q l1 p m l2, w = Some q /\ q = l1 ++ (p, m) :: l2 /\
      Forall (fun x => x.1 < p) l1 /\ Forall (fun x => x.1 <= p) l2 /\
      out = (s ← cstr m 0; Ok (s ++ [LF]))
  | None => w = None \/ w = Some []
  end.
Proof.
  unfold mqr2_main, mq_open. destruct w as [q|]; [|by left].
  change (default [] (Some q)) with q.
  pose proof (mq_receive_spec q) as H. destruct (mq_receive q) as [[[p m] q']|]; cbn.
  - destruct H as (l1 & l2 & -> & _ & H1 & H2). split; [done|]. do 5 eexists. by split_and!.
  - right. by subst.
Qed.

(** What the writer sends is printed, and a second reader waits for a queue of its own. *)
Example posix_delivers :
  mqr2_main (mqw2_main None) = Some (Ok (lit "message queue test" ++ [LF]), None) /\ mqr2_main None = None.
Proof. split; reflexivity. Qed.
End Posix.

(** ** Shared memory *)
Module Shared.

(** A segment: its size, and its content. *)
Record segment := Segment { seg_size : Z; content : Z -> ascii }.

Definition at_ (p : option segment) (i : Z) : res ascii :=
  match p with
  | None => Err NullDeref              (* the address -1 *)
  | Some s => if decide (0 <= i < seg_size s) then Ok (content s i) else Err OutOfBounds
  end.

(** ["%c %c %c %c\n"] *)
Definition show4 (p : option segment) : res bytes :=
  a ← at_ p 0; b ← at_ p 1; c ← at_ p 2; d ← at_ p 3;
  Ok [a; " "%char; b; " "%char; c; " "%char; d; LF].

Definition SIZE : Z := 4194304.
Definition memset_all (c : ascii) (s : segment) : segment :=
  Segment (seg_size s) (fun i => if decide (0 <= i < SIZE) then c else content s i).

(** [shmget]: an existing segment has to be large enough. *)
Definition shmget (creat : bool) (w : option segment) : option segment :=
  match w with
  | Some s => if decide (SIZE <= seg_size s) then Some s else None
  | None => if creat then Some (Segment SIZE (fun _ => NUL)) else None
  end.

(** test_smw.c and test_smr.c; the segment stays. *)
Definition smw_main (w : option segment) : res (option segment) :=
  match shmget true w with
  | Some s => Ok (Some (memset_all "A" s))
  | None => Err NullDeref
  end.

Definition smr_main (w : option segment) : res bytes := show4 (shmget false w).

(** test_smw2.c: [shm_open] and [ftruncate]. *)
Definition smw2_main (w : option segment) : option segment :=
  let s := default (Segment 0 (fun _ => NUL)) w in
  Some (memset_all "A" (Segment SIZE (fun i => if decide (0 <= i < seg_size s) then content s i else NUL))).

(** test_smr2.c: opened for reading, so that [ftruncate] fails; mapped, shown, unlinked. *)
Definition smr2_main (w : option segment) : res (bytes * option segment) :=
  out ← show4 w;
  Ok (out, None).

(** shared_memory: a reader after a writer shows four As, whatever was in the segment; the first
    without a writer uses an invalid address, and so does a second reader of the POSIX object,
    which the first has removed. *)
Theorem shared_memory w :
  (forall s, w = Some s -> SIZE <= seg_size s) ->
  (w' ← smw_main w; smr_main w') = Ok (lit "A A A A" ++ [LF]) /\
  smr2_main (smw2_main w) = Ok (lit "A A A A" ++ [LF], None) /\
  smr_main None = Err NullDeref /\ smr2_main None = Err NullDeref.
Proof.
  intros Hw. split_and!; try done. unfold smw_main, smr_main, shmget.
  destruct w as [s|].
  - specialize (Hw s eq_refl). rewrite decide_True by done. cbn [mbind res_bind]. unfold memset_all at 1.
    cbn [seg_size]. rewrite decide_True by done. unfold show4, at_, memset_all. cbn [seg_size content].
    unfold SIZE in *. rewrite !(decide_True (P := 0 <= _ < seg_size s)) by lia. reflexivity.
  - reflexivity.
Qed.

Lemma shared_memory_witness :
  (w' ← smw_main None; smr_main w') = Ok (lit "A A A A" ++ [LF]).
Proof. by apply (shared_memory None). Defined.
End Shared.

(** ** Unix sockets *)
Module UnixSocket.

(** An array of 1024 bytes whose start has been received, printed as a string: it has to
    end in what was received. *)
Definition show_received (d : bytes) : res bytes :=
  match upto_nul (take 1024 d) with
  | Some s => Ok (s ++ [LF])
  | None => if decide (length d < 1024)%nat then Err Uninit else Err OutOfBounds
  end.

(** The server: what it writes to the client, and what it prints of what [read] gave. *)
Definition server_main (received : bytes) : bytes * res bytes :=
  (lit "i receive" ++ [NUL], show_received received).

(** The client. *)
Definition client_main (received : bytes) : bytes * res bytes :=
  (lit "hello server" ++ [NUL], show_received received).

Lemma no_nul_prefix s d : NUL ∉ s -> d `prefix_of` s ++ [NUL] -> d <> s ++ [NUL] -> upto_nul d = None.
Proof.
  intros Hs [k Hk] Hd. destruct (upto_nul d) as [t|] eqn:E; [exfalso|done].
  apply upto_nul_split in E as (_ & l & ->).
  destruct k as [|c k _] using rev_ind; [by rewrite app_nil_r in Hk|].
  rewrite (assoc_L (++)) in Hk. apply app_inj_tail in Hk as [Hk _]. apply Hs. rewrite Hk.
  rewrite !elem_of_app, elem_of_cons. auto.
Qed.

(** unix_conversation: when each [read] gets the other's message in one piece, both print it; a
    server that gets part of it prints what it has no value for. *)
Theorem unix_conversation d :
  let '(to_server, _) := client_main [] in
  let '(to_client, shown) := server_main to_server in
  shown = Ok (lit "hello server" ++ [LF]) /\
  (client_main to_client).2 = Ok (lit "i receive" ++ [LF]) /\
  (d `prefix_of` to_server -> d <> to_server -> (server_main d).2 = Err Uninit).
Proof.
  cbv beta iota zeta delta [client_main server_main snd]. split; [reflexivity|]. split; [reflexivity|].
  intros Hp Hd. unfold show_received.
  assert (length d <= 13)%nat as Hl by (apply prefix_length in Hp; cbn in Hp; lia).
  assert (13 < 1024)%nat as Hc by (apply Nat.ltb_lt; reflexivity).
  rewrite take_ge by lia. rewrite (no_nul_prefix (lit "hello server")); [by rewrite decide_True by lia| |done|done].
  apply (bool_decide_unpack _). vm_compute. exact I.
Qed.

(** ** test_fifo.c *)

(** One [read] of at most [n] bytes, and a [write] of as many bytes as it says: what is written
    to the standard output.  [None]: the read fails, and -1 is a length that cannot be written. *)
Definition fifo_main (n : nat) (received : option bytes) : bytes :=
  match received with Some d => take n d | None => [] end.

(** fifo_once: the start of what the other end writes, as far as one read goes. *)
Theorem fifo_once n d : fifo_main n (Some d) `prefix_of` d /\ (fifo_main n (Some d) = d <-> (length d <= n)%nat).
Proof.
  cbn. split; [apply prefix_take|]. split; [|apply take_ge].
  intros H. rewrite <- H, length_take. lia.
Qed.
End UnixSocket.
