(* ===== verification/Sync.v ===== *)
(** * Condition variables, a lock with a timeout, signals in one thread (the class cond of
    socket/thread/locker.h, apue/pthread_mutex.c, socket/thread/thread_signal.c) *)

From S2P Require Import Prelude CString Locker.

(** ** The life of a cond *)

(** Which of the two objects of the class are initialised. *)
Record condvar := Condvar { m_mutex : bool; m_cond : bool }.

(** The constructor, with what the two initialisations return: its result, and the objects. *)
Definition cond_new (mutex_init cond_init : Z) : res unit * condvar :=
  if decide (mutex_init <> 0) then (Err Thrown, Condvar false false)
  else
    let c := Condvar true false in
    if decide (cond_init <> 0) then
      let c := Condvar false (m_cond c) in       (* pthread_mutex_destroy *)
      (Err Thrown, c)
    else (Ok tt, Condvar true true).

(** To destroy what is not initialised is undefined. *)
Definition destroy_mutex (c : condvar) : res condvar :=
  if m_mutex c then Ok (Condvar false (m_cond c)) else Err Uninit.
Definition destroy_cond (c : condvar) : res condvar :=
  if m_cond c then Ok (Condvar (m_mutex c) false) else Err Uninit.

(** The destructor. *)
Definition cond_delete (c : condvar) : res condvar := c ← destroy_mutex c; destroy_cond c.

(** cond_life: the constructor throws, and then nothing stays initialised, or both objects are, and
    then the destructor destroys them. *)
Theorem cond_life r1 r2 :
  match cond_new r1 r2 with
  | (Ok _, c) => r1 = 0 /\ r2 = 0 /\ cond_delete c = Ok (Condvar false false)
  | (Err e, c) => e = Thrown /\ (r1 <> 0 \/ r2 <> 0) /\ c = Condvar false false
  end.
Proof. unfold cond_new. repeat case_decide; cbn; split_and!; try done; lia || tauto. Qed.

(** ** pthread_mutex.c *)

(** [pthread_mutex_timedlock] of a normal mutex: with a free mutex it returns at once, and
    otherwise, when nobody unlocks it, ETIMEDOUT when the time has come; the second
    component is the time of the return. *)
Definition ETIMEDOUT : Z := 110.
Definition timedlock (t : thread) (now tout : Z) (l : locker) : Z * Z * locker :=
  match lock t l with
  | Some (_, l) => (0, now, l)
  | None => (ETIMEDOUT, Z.max now tout, l)
  end.

(** [main], started at [now]: the two times it prints, and the last line. *)
Definition mutex_main (now : Z) : option (Z * Z * bytes) :=
  '(_, l) ← lock (Worker 0) (Locker None);
  let tout := now in
  let shown1 := tout in
  let tout := tout + 10 in
  let '(err, tout, _) := timedlock (Worker 0) now tout l in
  let shown2 := tout in
  Some (shown1, shown2, if decide (err = 0) then lit "mutex locked again!" ++ [LF]
                        else lit "can't lock mutex again:" ++ [LF]).

(** mutex_times_out: the thread waits ten seconds for the mutex it holds itself, and does not get it. *)
Theorem mutex_times_out now :
  mutex_main now = Some (now, now + 10, lit "can't lock mutex again:" ++ [LF]).
Proof. unfold mutex_main, timedlock. cbn. rewrite Z.max_r by lia. done. Qed.

(** ** thread_signal.c *)
Module SigWait.

Definition SIGQUIT : Z := 3.
Definition SIGUSR1 : Z := 10.
Definition set : gset Z := {[SIGQUIT; SIGUSR1]}.

(** Where [main] is. *)
Inductive place := Starting | Masked | Created.
Inductive ended := Running | KilledBy (sig : Z) | Failed.

(** A signal that is blocked stays pending, once; the trace has the signals that were sent and
    the ones that were printed, latest first. *)
Record proc := Proc {
  at_ : place;
  pending : gset Z;
  state : ended;
  sent : list Z;
  printed : list Z }.

Definition start : proc := Proc Starting ∅ Running [] [].

(** A signal from outside; [masked] says whether the mask is set. *)
Definition deliver (sig : Z) (p : proc) : proc :=
  let masked := match at_ p with Starting => false | _ => true end in
  if decide (masked = true /\ sig ∈ set) then
    Proc (at_ p) ({[sig]} ∪ pending p) (state p) (sig :: sent p) (printed p)
  else Proc (at_ p) (pending p) (KilledBy sig) (sig :: sent p) (printed p).

(** A step of [main], with what its call returns; [pause] never returns. *)
Definition main_step (ret : Z) (p : proc) : option proc :=
  match at_ p with
  | Starting =>
      if decide (ret <> 0) then Some (Proc Starting (pending p) Failed (sent p) (printed p))
      else Some (Proc Masked (pending p) (state p) (sent p) (printed p))
  | Masked =>
      if decide (ret <> 0) then Some (Proc Masked (pending p) Failed (sent p) (printed p))
      else Some (Proc Created (pending p) (state p) (sent p) (printed p))
  | Created => None
  end.

(** One turn of [sig_thread], when [sigwait] takes [sig]. *)
Definition sig_thread (sig : Z) (p : proc) : option proc :=
  match at_ p with
  | Created =>
      if decide (sig ∈ set /\ sig ∈ pending p) then
        Some (Proc Created (pending p ∖ {[sig]}) (state p) (sent p) (sig :: printed p))
      else None
  | _ => None
  end.

Inductive step : proc -> proc -> Prop :=
  | StepDeliver sig p : state p = Running -> step p (deliver sig p)
  | StepMain ret p p' : state p = Running -> main_step ret p = Some p' -> step p p'
  | StepThread sig p p' : state p = Running -> sig_thread sig p = Some p' -> step p p'.

(** How often a signal occurs. *)
Definition times (sig : Z) (l : list Z) : nat := length (filter (fun s => s = sig) l).

(** Every signal of the set that was sent is pending or has been printed after it was
    sent, and none is printed more often than sent. *)
Record accounted (p : proc) : Prop := Accounted {
  acc_bound sig : (times sig (printed p) + (if decide (sig ∈ pending p) then 1 else 0) <= times sig (sent p))%nat;
  acc_kept sig : state p = Running -> sig ∈ sent p -> sig ∈ pending p \/ sig ∈ printed p;
  acc_set sig : sig ∈ pending p -> sig ∈ set;
  acc_end sig : state p = KilledBy sig -> (sig ∈ set -> at_ p = Starting) /\ sig ∈ sent p }.

Lemma times_cons sig s l : times sig (s :: l) = ((if decide (s = sig) then 1 else 0) + times sig l)%nat.
Proof. unfold times. rewrite filter_cons. by case_decide. Qed.

Lemma start_accounted : accounted start.
Proof.
  constructor; unfold start; cbn [sent printed pending state at_].
  - intros sig. rewrite decide_False by set_solver. done.
  - intros sig _ H. by apply elem_of_nil in H.
  - intros sig H. by apply elem_of_empty in H.
  - done.
Qed.

Lemma deliver_accounted sig p : state p = Running -> accounted p -> accounted (deliver sig p).
Proof.
  intros Hr [Hb Hk Hs He]. unfold deliver. case_decide as Hd.
  - destruct Hd as [Hm Hin]. constructor; cbn [sent printed pending state at_].
    + intros s. rewrite times_cons. specialize (Hb s). destruct (decide (sig = s)) as [->|Hne].
      * rewrite decide_True by set_solver. case_decide; lia.
      * destruct (decide (s ∈ pending p)); [rewrite decide_True by set_solver|rewrite decide_False by set_solver]; lia.
    + intros s _ [->|Hs']%elem_of_cons; [set_solver|]. destruct (Hk s Hr Hs'); set_solver.
    + intros s. rewrite elem_of_union, elem_of_singleton. intros [->|H]; [done|by apply Hs].
    + intros s H. congruence.
  - constructor; cbn [sent printed pending state at_]; try done.
    + intros s. rewrite times_cons. specialize (Hb s). lia.
    + intros s [= <-]. split; [|apply elem_of_cons; by left].
      intros Hin. destruct (at_ p); [done|exfalso; apply Hd; done..].
Qed.

Lemma main_accounted ret p p' : state p = Running -> main_step ret p = Some p' -> accounted p -> accounted p'.
Proof.
  intros Hr E [Hb Hk Hs He]. unfold main_step in E.
  destruct (at_ p) eqn:Ea; [| |done]; case_decide; injection E as <-;
    constructor; cbn [sent printed pending state at_]; try done; rewrite Hr; try done.
Qed.

Lemma thread_accounted sig p p' : state p = Running -> sig_thread sig p = Some p' -> accounted p -> accounted p'.
Proof.
  intros Hr E [Hb Hk Hs He]. unfold sig_thread in E. destruct (at_ p) eqn:Ea; [done|done|].
  case_decide as Hd; [|done]. destruct Hd as [Hin Hp]. injection E as <-.
  constructor; cbn [sent printed pending state at_].
  - intros s. rewrite times_cons. specialize (Hb s). destruct (decide (sig = s)) as [->|Hne].
    + rewrite decide_False by set_solver. rewrite decide_True in Hb by done. lia.
    + destruct (decide (s ∈ pending p)); [rewrite decide_True by set_solver|rewrite decide_False by set_solver]; lia.
  - intros s _ Hs'. rewrite elem_of_cons. destruct (decide (s = sig)) as [->|Hne]; [by right; left|].
    destruct (Hk s Hr Hs'); [left; set_solver|by right; right].
  - intros s. rewrite elem_of_difference. intros [H _]. by apply Hs.
  - intros s H. congruence.
Qed.

Lemma reached_accounted p : rtc step start p -> accounted p.
Proof.
  apply (rtc_invariant step accounted); [|apply start_accounted].
  intros a b Ha Hs. revert Ha. destruct Hs; [by apply deliver_accounted|by eapply main_accounted|by eapply thread_accounted].
Qed.

(** sigwait_reports: once the mask is set, SIGQUIT and SIGUSR1 do not end the process; whenever the
    thread has nothing to take, every signal that was sent has been printed; and none is
    printed more often than it was sent (signals that come while one is pending are merged). *)
Theorem sigwait_reports p :
  rtc step start p ->
  (forall sig, (times sig (printed p) <= times sig (sent p))%nat) /\
  (forall sig, state p = KilledBy sig -> sig ∈ set -> at_ p = Starting) /\
  (state p = Running -> at_ p = Created -> (forall sig, sig_thread sig p = None) ->
    forall sig, sig ∈ sent p -> sig ∈ printed p).
Proof.
  intros [Hb Hk Hs He]%reached_accounted. split_and!.
  - intros sig. specialize (Hb sig). lia.
  - intros sig H. by apply He.
  - intros Hr Ha Hn sig Hin. destruct (Hk sig Hr Hin) as [Hp|]; [exfalso|done].
    specialize (Hn sig). unfold sig_thread in Hn. rewrite Ha, decide_True in Hn by (split; [by apply Hs|done]).
    discriminate.
Qed.

(** Two signals before the thread runs: one line. *)
Lemma sigwait_reports_witness :
  exists p, rtc step start p /\ sent p = [SIGUSR1; SIGUSR1] /\ printed p = [SIGUSR1] /\
    forall sig, (times sig (printed p) <= times sig (sent p))%nat.
Proof.
  exists (Proc Created (({[SIGUSR1]} ∪ ({[SIGUSR1]} ∪ ∅)) ∖ {[SIGUSR1]}) Running [SIGUSR1; SIGUSR1] [SIGUSR1]).
  assert (rtc step start (Proc Created (({[SIGUSR1]} ∪ ({[SIGUSR1]} ∪ ∅)) ∖ {[SIGUSR1]}) Running [SIGUSR1; SIGUSR1] [SIGUSR1])) as H.
  { eapply rtc_l; [apply (StepMain 0); reflexivity|]. eapply rtc_l; [apply (StepMain 0); reflexivity|].
    eapply rtc_l; [apply (StepDeliver SIGUSR1); reflexivity|]. eapply rtc_l; [apply (StepDeliver SIGUSR1); reflexivity|].
    eapply rtc_l; [apply (StepThread SIGUSR1); reflexivity|]. apply rtc_refl. }
  split; [exact H|]. split; [reflexivity|]. split; [reflexivity|]. exact (proj1 (sigwait_reports _ H)).
Defined.
End SigWait.
