(* ===== verification/Mains.v ===== *)
(** * The mains of short programs

    What mmap.c, lseek_hole.c, fcntl.c, stat.c and pthread_cleanup.c of apue, the
    programs on a Unix socket and on a FIFO, the load generator of socket/test and
    the first lines of pthread_barrier.c do around the parts modelled in Files.v,
    Processes.v, Ipc.v, StressTest.v and MergeSort.v: arguments, opening, messages. *)

From S2P Require Import Prelude CString Files Processes Ipc StressTest Demos.
Infix "+++" := also (at level 60, right associativity).

(** [argv[i]]: a null pointer behind the last argument, nothing behind that. *)
Definition argv (args : list bytes) (i : nat) : res (option bytes) :=
  if decide (i < length args)%nat then Ok (args !! i)
  else if decide (i = length args) then Ok None else Err OutOfBounds.

Lemma argv_lt args i : (i < length args)%nat -> argv args i = Ok (args !! i).
Proof. intros. unfold argv. by rewrite decide_True. Qed.

(** ["%s"]: glibc prints a null pointer as "(null)". *)
Definition pct_s (s : option bytes) : bytes := default (lit "(null)") s.

(** ** mmap.c *)
Module MmapMain.
Section Main.
Context (PAGE COPYINCR : Z).

(** Whether [open] (of a name that is not null) and the other calls succeed, the content
    of the source, and the answers of [mmap]. *)
Record answers := Answers {
  open_in : bool; open_out : bool; fstat_ok : bool; ftruncate_ok : bool;
  source : bytes; maps : list (bool * bool) }.

(** The messages and the content of the target.  No error ends the program. *)
Definition mmap_program (args : list bytes) (a : answers) : res (bytes * bytes) :=
  let usage := if decide (length args <> 3%nat)
               then lit "usage: " ++ pct_s (args !! 0%nat) ++ lit " <fromfile> <tofile>" ++ [LF] else [] in
  from ← argv args 1;
  let fdin := bool_decide (is_Some from) && open_in a in
  let e1 := if fdin then [] else lit "can't open " ++ pct_s from ++ lit " for reading" ++ [LF] in
  to ← argv args 2;
  let fdout := bool_decide (is_Some to) && open_out a in
  let e2 := if fdout then [] else lit "can't creat " ++ pct_s to ++ lit " for writing" ++ [LF] in
  (** without [fstat], [sbuf] has no value *)
  src ← (if fdin && fstat_ok a then Ok (source a) else Err Uninit);
  let sized := fdout && ftruncate_ok a in
  let e4 := if sized then [] else lit "ftruncate error" ++ [LF] in
  let dst := if sized then replicate (length src) NUL else [] in
  let maps := (fun m => (m.1, fdout && m.2)) <$> maps a in
  dst ← Mmap.copy_loop PAGE COPYINCR maps src dst 0;
  Ok (usage ++ e1 ++ e2 ++ e4, dst).

(** mmap_main_copies: with its two arguments and no failure the program copies the
    file and says nothing. *)
Theorem mmap_main_copies prog from to rounds src :
  0 < PAGE -> 0 < COPYINCR -> COPYINCR mod PAGE = 0 -> Z.of_nat (length src) <= Z.of_nat rounds * COPYINCR ->
  mmap_program [prog; from; to] (Answers true true true true src (replicate rounds (true, true))) = Ok ([], src).
Proof.
  intros H1 H2 H3 H4.
  assert (E : (fun m : bool * bool => (m.1, true && m.2)) <$> replicate rounds (true, true) = replicate rounds (true, true))
    by by rewrite fmap_replicate.
  pose proof (Mmap.copy_rounds PAGE COPYINCR H1 H2 H3 rounds rounds src 0) as Hc.
  cbn [Z.of_nat Z.mul Z.to_nat take app] in Hc. rewrite Nat.sub_0_r in Hc.
  specialize (Hc ltac:(lia) ltac:(lia) ltac:(lia)).
  unfold mmap_program. rewrite !argv_lt by (cbn; lia).
  cbn -[Mmap.copy_loop fmap replicate Z.mul]. setoid_rewrite E.
  by rewrite (bind_ok _ _ _ Hc).
Qed.

Lemma mmap_fails f len off : Mmap.mmap PAGE false f len off = None.
Proof. unfold Mmap.mmap. by destruct (decide (_ /\ _)). Qed.

(** mmap_main_errors: a missing source is used without a value; a target that cannot be
    created is an address that is not mapped; without arguments the program reads behind
    the end of [argv]. *)
Theorem mmap_main_errors prog from to a :
  mmap_program [prog] a = Err OutOfBounds /\
  (open_in a = false -> mmap_program [prog; from; to] a = Err Uninit) /\
  (open_in a = true -> fstat_ok a = true -> open_out a = false -> source a <> [] -> maps a <> [] ->
   mmap_program [prog; from; to] a = Err OutOfBounds).
Proof.
  split; [done|]. split.
  - intros H. unfold mmap_program. rewrite !argv_lt by (cbn; lia). cbn. by rewrite H.
  - intros H1 H2 H3 H4 H5. unfold mmap_program. rewrite !argv_lt by (cbn; lia). cbn. rewrite H1, H2, H3. cbn.
    destruct (maps a) as [|[m1 m2] ms]; [done|]. cbn [fmap list_fmap Mmap.copy_loop fst snd].
    rewrite (decide_True (P := 0 < _)) by (destruct (source a); [done|cbn [length]; lia]).
    destruct (Mmap.mmap PAGE m1 _ _ _); [|done]. cbn [from_opt mbind res_bind]. by rewrite mmap_fails.
Qed.
End Main.

Lemma mmap_main_copies_witness :
  mmap_program 4096 8192 [lit "mmap"; lit "a"; lit "b"] (Answers true true true true (lit "a file") [(true, true)]) =
    Ok ([], lit "a file").
Proof. by apply (mmap_main_copies 4096 8192 (lit "mmap") (lit "a") (lit "b") 1 (lit "a file")). Defined.
End MmapMain.

(** ** lseek_hole.c, fcntl.c, stat.c *)

(** The file and the messages; [creat], the two [write]s and the [lseek]. *)
Definition hole_program (creat w1 sk w2 : Z) : option bytes * output :=
  if decide (creat < 0) then (None, err (lit "cannot creat file" ++ [LF]))
  else (Some (hole_main 16384 w1 sk w2),
        if decide (w1 <> 10) then err (lit "buf1 write error" ++ [LF])
        else if decide (sk = -1) then err (lit "lseek error" ++ [LF])
        else if decide (w2 <> 10) then err (lit "buf2 write error" ++ [LF]) else nothing).

(** [F_GETFL] of a descriptor is a parameter. *)
Definition fcntl_program (getfl : Z -> Z) (args : list bytes) : output :=
  match args with
  | [_; arg] =>
      match fcntl_main (getfl (atoi arg)) with
      | Some s => out s
      | None => err (lit "fcntl error for fd " ++ dec (atoi arg))
      end
  | _ => err (lit "usage: a.out <descriptor#>")
  end.

(** [basename] gives the name behind the last slash; [stat] is a parameter. *)
Definition stat_program (basename : bytes -> bytes) (stat : bytes -> option Z) (args : list bytes) : res (Z * output) :=
  match args with
  | [_; file] =>
      '(type, readok) ← stat_main (stat file);
      Ok (0, out (lit "type: " ++ type ++ lit ", read: " ++ readok ++ [LF]))
  | prog :: _ => Ok (1, out (lit "usage: " ++ basename prog ++ lit " file_name" ++ [LF]))
  | [] => Err NullDeref
  end.

(** ** pthread_cleanup.c *)

(** [main]: whether the threads can be created; their output and what [main] prints.  A
    thread that was not created cannot be joined, and [tid1] has no value then. *)
Definition cleanup_main (ok1 ok2 : bool) : res (bytes * bytes * output) :=
  let e1 := if ok1 then nothing else err (lit "can't create thread 1") in
  let e2 := if ok2 then nothing else err (lit "can't create thread 2") in
  '(out1, v1) ← (if ok1 then thread (thr_fn1 1) [] else Err Uninit);
  '(out2, v2) ← (if ok2 then thread (thr_fn2 1) [] else Err Uninit);
  Ok (out1, out2, e1 +++ e2 +++ out (lit "thread 1 exit code " ++ dec v1 ++ [LF]) +++
                  out (lit "thread 2 exit code " ++ dec v2 ++ [LF])).

(** cleanup_undefined: no run of the program is defined: the first thread is given 1 and
    returns with its handlers pushed. *)
Theorem cleanup_undefined ok1 ok2 : is_ok (cleanup_main ok1 ok2) = false.
Proof. by destruct ok1, ok2. Qed.

(** ** The Unix socket *)
Module UnixMain.

(** [strcpy(&address.sun_path[1], "unixsocket")] into a cleared path: a name in the
    abstract namespace, all 108 bytes of it. *)
Definition sun_path : res bytes := awrite (replicate 108 NUL) 1 (lit "unixsocket" ++ [NUL]).

(** The names that sockets are bound to, and what a client finds. *)
Definition bind_name (names : list bytes) : res (list bytes) :=
  path ← sun_path; if decide (path ∈ names) then Ok names else Ok (path :: names).
Definition connects (names : list bytes) : res bool :=
  path ← sun_path; Ok (bool_decide (path ∈ names)).

(** The programs ignore all results: without a connection both calls fail and the array
    is printed without a value.  What is sent, and what is shown. *)
Definition server_program (accepted : bool) (received : bytes) : option bytes * res bytes :=
  if accepted then let '(sent, shown) := UnixSocket.server_main received in (Some sent, shown)
  else (None, Err Uninit).
Definition client_program (names : list bytes) (received : bytes) : res (option bytes * res bytes) :=
  ok ← connects names;
  Ok (if ok : bool then let '(sent, shown) := UnixSocket.client_main received in (Some sent, shown)
      else (None, Err Uninit)).

(** unix_main: after the server's [bind] the client finds it, whatever other sockets
    there are, and the two exchange their greetings; before it the client prints what has
    no value. *)
Theorem unix_main names :
  (exists path names', sun_path = Ok path /\ bind_name names = Ok names' /\
     client_program names' (lit "i receive" ++ [NUL]) =
       Ok (Some (lit "hello server" ++ [NUL]), Ok (lit "i receive" ++ [LF])) /\
     server_program true (lit "hello server" ++ [NUL]) =
       (Some (lit "i receive" ++ [NUL]), Ok (lit "hello server" ++ [LF])) /\
     (path ∉ names -> client_program names [] = Ok (None, Err Uninit))).
Proof.
  assert (exists path, sun_path = Ok path) as [path E] by (eexists; vm_compute; reflexivity).
  unfold bind_name, client_program, connects. rewrite E. cbn [mbind res_bind].
  assert (Hin : exists names', (if decide (path ∈ names) then Ok names else Ok (path :: names)) = Ok names' /\ path ∈ names').
  { case_decide; [by exists names|]. exists (path :: names). split; [done|left]. }
  destruct Hin as (names' & -> & Hin). exists path, names'. split; [done|]. split; [done|].
  rewrite bool_decide_true by done. split; [reflexivity|]. split; [reflexivity|].
  intros Hn. by rewrite bool_decide_false by done.
Qed.

(** [test_fifo.c]: [open], and one [read] into 50 integers. *)
Definition fifo_program (opened : bool) (received : option bytes) : bytes :=
  UnixSocket.fifo_main 200 (if opened then received else None).
End UnixMain.

(** ** stress_test.c *)

(** [main]: the arguments, and the loop; [basename] is a parameter. *)
Definition stress_main (basename : bytes -> bytes) (args : list bytes) (results : list (Z * Z))
    (waits : list (list event)) : res (bytes + client) :=
  match args with
  | [_; _; _; count] =>
      let c := start_conn (Z.to_nat (atoi count)) results (Client ∅ ∅ []) in
      inr <$> main_loop waits c
  | prog :: _ => Ok (inl (lit "usage: " ++ basename prog ++ lit " ip port connect_count" ++ [LF]))
  | [] => Err NullDeref
  end.

(** stress_main_count: a count that is not positive, or not a number, opens no connection. *)
Theorem stress_main_count basename prog ip port count results :
  atoi count <= 0 -> stress_main basename [prog; ip; port; count] results [] = Ok (inr (Client ∅ ∅ [])).
Proof.
  intros H. unfold stress_main. by replace (Z.to_nat (atoi count)) with 0%nat by lia.
Qed.

Lemma stress_main_count_witness :
  stress_main (fun s => s) [lit "stress"; lit "127.0.0.1"; lit "80"; lit "many"] [(5, 0)] [] = Ok (inr (Client ∅ ∅ [])).
Proof. apply stress_main_count. vm_compute. discriminate. Defined.
